(** * xxHash (xxhash.c): a shallow embedding and its checked properties

    The embedding follows xxhash.c function by function.  Machine integers
    are [Z] with the wrap-around written out, buffers are lists of bytes
    reached through pointers, the streaming states are records, and every
    function that reads memory returns a [result], so that a read outside
    the readable bytes is a visible fault instead of a made-up value.

    Build configuration that the model fixes: a 64-bit [size_t], and the
    scalar code paths ([XXH_VECTORIZE] and [XXH_NEON] undefined).  The
    tuning macros of the head of the file are the fields of [config]. *)

From Stdlib Require Import ZArith List Lia Bool.
From stdpp Require Import gmap.
From Stdlib.Strings Require Import Byte.
Import ListNotations.
Local Open Scope Z_scope.

(** ** Faults and the result monad *)

Inductive fault : Type :=
| OutOfBounds   (* a read or a memcpy outside the bytes of its object *)
| OutOfFuel.    (* the iteration bound of a loop was too small *)

Inductive result (A : Type) : Type :=
| Ok (a : A)
| Fault (f : fault).
Arguments Ok {A} a.
Arguments Fault {A} f.

Definition bind {A B : Type} (r : result A) (k : A -> result B) : result B :=
  match r with
  | Ok a => k a
  | Fault f => Fault f
  end.

Notation "x <- e ; k" := (bind e (fun x => k))
  (at level 20, e at level 100, k at level 200, only parsing).
Notation "' pat <- e ; k" := (bind e (fun x => match x with pat => k end))
  (at level 20, pat pattern, e at level 100, k at level 200, only parsing).

(** [do { body } while (cond)]: the body runs once before the first test.
    [fuel] bounds the number of iterations. *)
Fixpoint do_while {S : Type} (fuel : nat) (body : S -> result S)
    (cond : S -> bool) (s : S) : result S :=
  match fuel with
  | O => Fault OutOfFuel
  | Datatypes.S fuel' =>
      s' <- body s ;
      if cond s' then do_while fuel' body cond s' else Ok s'
  end.

(** ** Basic types: U32, U64, BYTE *)

Definition U32_MOD : Z := 2 ^ 32.
Definition U64_MOD : Z := 2 ^ 64.

Definition to_U32 (x : Z) : Z := x mod U32_MOD.
Definition to_U64 (x : Z) : Z := x mod U64_MOD.
(** [size_t] is 64 bits wide in the modelled build. *)
Definition to_size_t (x : Z) : Z := x mod U64_MOD.

Definition add32 (a b : Z) : Z := to_U32 (a + b).
Definition sub32 (a b : Z) : Z := to_U32 (a - b).
Definition mul32 (a b : Z) : Z := to_U32 (a * b).
Definition shl32 (x r : Z) : Z := to_U32 (Z.shiftl x r).

Definition add64 (a b : Z) : Z := to_U64 (a + b).
Definition sub64 (a b : Z) : Z := to_U64 (a - b).
Definition mul64 (a b : Z) : Z := to_U64 (a * b).
Definition shl64 (x r : Z) : Z := to_U64 (Z.shiftl x r).

Definition BYTE_val (b : byte) : Z := Z.of_N (Byte.to_N b).

Definition BYTE_of (x : Z) : byte :=
  match Byte.of_N (Z.to_N (x mod 256)) with
  | Some b => b
  | None => x00
  end.

(** ** Pointers

    A pointer is an address together with the bytes that can be read from
    that address on (the rest of the object it points into).  [NULL] is
    address 0 with nothing readable.  Pointers that the code only compares
    or subtracts ([bEnd], [limit]) are kept as bare addresses. *)

Record ptr : Type := mkptr { addr : Z; mem : list byte }.

Definition NULL : ptr := mkptr 0 [].
Definition isNULL (p : ptr) : bool := addr p =? 0.

Definition ptr_add (p : ptr) (n : Z) : ptr :=
  mkptr (addr p + n) (skipn (Z.to_nat n) (mem p)).

(** [*p] for a [const BYTE* p]. *)
Definition read8 (p : ptr) : result Z :=
  match mem p with
  | b :: _ => Ok (BYTE_val b)
  | [] => Fault OutOfBounds
  end.

(** ** Architecture macros *)

Inductive XXH_endianess : Type := XXH_bigEndian | XXH_littleEndian.
Inductive XXH_alignment : Type := XXH_aligned | XXH_unaligned.

Definition XXH_endianess_eqb (a b : XXH_endianess) : bool :=
  match a, b with
  | XXH_bigEndian, XXH_bigEndian => true
  | XXH_littleEndian, XXH_littleEndian => true
  | _, _ => false
  end.

Definition XXH_alignment_eqb (a b : XXH_alignment) : bool :=
  match a, b with
  | XXH_aligned, XXH_aligned => true
  | XXH_unaligned, XXH_unaligned => true
  | _, _ => false
  end.

(** The tuning parameters and the byte order of the host. *)
Record config : Type := mkconfig {
  XXH_CPU_LITTLE_ENDIAN : XXH_endianess;
  XXH_FORCE_NATIVE_FORMAT : bool;
  XXH_FORCE_ALIGN_CHECK : bool;
  XXH_ACCEPT_NULL_INPUT_POINTER : bool
}.

(** [endian_detected==XXH_littleEndian || XXH_FORCE_NATIVE_FORMAT ?
    XXH_littleEndian : XXH_bigEndian], the choice every public entry
    point makes. *)
Definition endian_of (cfg : config) : XXH_endianess :=
  if XXH_endianess_eqb (XXH_CPU_LITTLE_ENDIAN cfg) XXH_littleEndian
     || XXH_FORCE_NATIVE_FORMAT cfg
  then XXH_littleEndian else XXH_bigEndian.

(** ** Memory reads *)

(** The value of a 32-bit object whose bytes, in increasing address order,
    are [b0 b1 b2 b3], on a host of the given byte order. *)
Definition native32 (cpu : XXH_endianess) (b0 b1 b2 b3 : byte) : Z :=
  match cpu with
  | XXH_littleEndian =>
      BYTE_val b0 + 2 ^ 8 * BYTE_val b1 + 2 ^ 16 * BYTE_val b2 + 2 ^ 24 * BYTE_val b3
  | XXH_bigEndian =>
      BYTE_val b3 + 2 ^ 8 * BYTE_val b2 + 2 ^ 16 * BYTE_val b1 + 2 ^ 24 * BYTE_val b0
  end.

(** A native 32-bit load: the value of the four bytes at [p], as
    [memcpy(&val, memPtr, sizeof(val))] reads it.  The direct dereference
    of a pointer to U32 in the aligned paths reads the same four bytes;
    C defines it at a multiple of 4 only, which the caller that passes
    [XXH_aligned] promises. *)
Definition load32 (cpu : XXH_endianess) (p : ptr) : result Z :=
  match mem p with
  | b0 :: b1 :: b2 :: b3 :: _ => Ok (native32 cpu b0 b1 b2 b3)
  | _ => Fault OutOfBounds
  end.

Definition XXH_read32 (cpu : XXH_endianess) (memPtr : ptr) : result Z :=
  load32 cpu memPtr.

Definition XXH_rotl32 (x r : Z) : Z :=
  Z.lor (shl32 x r) (Z.shiftr x (32 - r)).

Definition XXH_swap32 (x : Z) : Z :=
  Z.lor (Z.lor (Z.lor
    (Z.land (shl32 x 24) 0xff000000)
    (Z.land (shl32 x 8) 0x00ff0000))
    (Z.land (Z.shiftr x 8) 0x0000ff00))
    (Z.land (Z.shiftr x 24) 0x000000ff).

Definition XXH_readLE32_align (cpu : XXH_endianess) (p : ptr)
    (endian : XXH_endianess) (align : XXH_alignment) : result Z :=
  if XXH_alignment_eqb align XXH_unaligned then
    if XXH_endianess_eqb endian XXH_littleEndian
    then XXH_read32 cpu p
    else x <- XXH_read32 cpu p ; Ok (XXH_swap32 x)
  else
    if XXH_endianess_eqb endian XXH_littleEndian
    then load32 cpu p
    else x <- load32 cpu p ; Ok (XXH_swap32 x).

Definition XXH_readLE32 (cpu : XXH_endianess) (p : ptr)
    (endian : XXH_endianess) : result Z :=
  XXH_readLE32_align cpu p endian XXH_unaligned.

Definition XXH_readBE32 (cpu : XXH_endianess) (p : ptr) : result Z :=
  match cpu with
  | XXH_littleEndian => x <- XXH_read32 cpu p ; Ok (XXH_swap32 x)
  | XXH_bigEndian => XXH_read32 cpu p
  end.

(** ** 32-bit hash functions *)

Definition PRIME32_1 : Z := 2654435761.
Definition PRIME32_2 : Z := 2246822519.
Definition PRIME32_3 : Z := 3266489917.
Definition PRIME32_4 : Z := 668265263.
Definition PRIME32_5 : Z := 374761393.

Definition XXH32_round (seed input : Z) : Z :=
  let seed := add32 seed (mul32 input PRIME32_2) in
  let seed := XXH_rotl32 seed 13 in
  let seed := mul32 seed PRIME32_1 in
  seed.

Definition XXH32_avalanche (h32 : Z) : Z :=
  let h32 := Z.lxor h32 (Z.shiftr h32 15) in
  let h32 := mul32 h32 PRIME32_2 in
  let h32 := Z.lxor h32 (Z.shiftr h32 13) in
  let h32 := mul32 h32 PRIME32_3 in
  let h32 := Z.lxor h32 (Z.shiftr h32 16) in
  h32.

(** The statements of a [switch] body: the two macros of [XXH32_finalize]
    and of [XXH64_finalize], and [return avalanche(h)]. *)
Inductive stmt : Type := PROCESS1 | PROCESS4 | PROCESS8 | RETURN.

(** Jump to the case labelled [n] and fall through the cases after it. *)
Fixpoint switch_from (n : Z) (cases : list (Z * list stmt)) : option (list stmt) :=
  match cases with
  | [] => None
  | (l, ss) :: rest =>
      if l =? n then Some (ss ++ concat (map snd rest))
      else switch_from n rest
  end.

(** The body of [switch(len&31)] in [XXH32_finalize], case by case in the
    order of the source. *)
Definition XXH32_finalize_cases : list (Z * list stmt) :=
  [ (28, [PROCESS4]); (24, [PROCESS4]); (20, [PROCESS4]); (16, [PROCESS4]);
    (12, [PROCESS4]); (8, [PROCESS4]); (4, [PROCESS4; RETURN]);
    (29, [PROCESS4]); (25, [PROCESS4]); (21, [PROCESS4]); (17, [PROCESS4]);
    (13, [PROCESS4]); (9, [PROCESS4]); (5, [PROCESS4; PROCESS1; RETURN]);
    (30, [PROCESS4]); (26, [PROCESS4]); (22, [PROCESS4]); (18, [PROCESS4]);
    (14, [PROCESS4]); (10, [PROCESS4]);
    (6, [PROCESS4; PROCESS1; PROCESS1; RETURN]);
    (31, [PROCESS4]); (27, [PROCESS4]); (23, [PROCESS4]); (19, [PROCESS4]);
    (15, [PROCESS4]); (11, [PROCESS4]); (7, [PROCESS4]);
    (3, [PROCESS1]); (2, [PROCESS1]); (1, [PROCESS1]); (0, [RETURN]) ].

Section Finalize32.
Variables (cpu endian : XXH_endianess) (align : XXH_alignment).

Fixpoint XXH32_run (ss : list stmt) (h32 : Z) (p : ptr) : result Z :=
  match ss with
  | [] => Ok h32       (* past the switch: assert(0); return h32; *)
  | RETURN :: _ => Ok (XXH32_avalanche h32)
  | PROCESS1 :: ss' =>
      b <- read8 p ;
      let h32 := add32 h32 (mul32 b PRIME32_5) in
      let h32 := mul32 (XXH_rotl32 h32 11) PRIME32_1 in
      XXH32_run ss' h32 (ptr_add p 1)
  | PROCESS4 :: ss' =>
      x <- XXH_readLE32_align cpu p endian align ;
      let h32 := add32 h32 (mul32 x PRIME32_3) in
      let h32 := mul32 (XXH_rotl32 h32 17) PRIME32_4 in
      XXH32_run ss' h32 (ptr_add p 4)
  | PROCESS8 :: _ => Ok h32   (* no such statement in XXH32_finalize *)
  end.

Definition XXH32_finalize (h32 : Z) (p : ptr) (len : Z) : result Z :=
  match switch_from (Z.land len 31) XXH32_finalize_cases with
  | Some ss => XXH32_run ss h32 p
  | None => Ok h32
  end.
End Finalize32.

(** The stripe state of the block loops: the four lanes and [p]. *)
Definition stripe : Type := (Z * Z * Z * Z * ptr)%type.

Definition Z_of_bool (b : bool) : Z := if b then 1 else 0.

Section XXH32_oneshot.
Variable cfg : config.
Let cpu := XXH_CPU_LITTLE_ENDIAN cfg.

(** [palign[0] .. palign[3]], with [p+=4] after each round. *)
Definition XXH32_stripe_aligned (s : stripe) : result stripe :=
  let '(v1, v2, v3, v4, p) := s in
  let palign := p in
  x <- load32 cpu (ptr_add palign 0) ;
  let v1 := XXH32_round v1 x in let p := ptr_add p 4 in
  x <- load32 cpu (ptr_add palign 4) ;
  let v2 := XXH32_round v2 x in let p := ptr_add p 4 in
  x <- load32 cpu (ptr_add palign 8) ;
  let v3 := XXH32_round v3 x in let p := ptr_add p 4 in
  x <- load32 cpu (ptr_add palign 12) ;
  let v4 := XXH32_round v4 x in let p := ptr_add p 4 in
  Ok (v1, v2, v3, v4, p).

(** [XXH_get32bits(p)], with [p+=4] after each round. *)
Definition XXH32_stripe (endian : XXH_endianess) (align : XXH_alignment)
    (s : stripe) : result stripe :=
  let '(v1, v2, v3, v4, p) := s in
  x <- XXH_readLE32_align cpu p endian align ;
  let v1 := XXH32_round v1 x in let p := ptr_add p 4 in
  x <- XXH_readLE32_align cpu p endian align ;
  let v2 := XXH32_round v2 x in let p := ptr_add p 4 in
  x <- XXH_readLE32_align cpu p endian align ;
  let v3 := XXH32_round v3 x in let p := ptr_add p 4 in
  x <- XXH_readLE32_align cpu p endian align ;
  let v4 := XXH32_round v4 x in let p := ptr_add p 4 in
  Ok (v1, v2, v3, v4, p).

Definition XXH32_merge (v1 v2 v3 v4 : Z) : Z :=
  add32 (add32 (add32 (XXH_rotl32 v1 1) (XXH_rotl32 v2 7))
               (XXH_rotl32 v3 12)) (XXH_rotl32 v4 18).

Definition XXH32_endian_align (input : ptr) (len seed : Z)
    (endian : XXH_endianess) (align : XXH_alignment) : result Z :=
  let p := input in
  let bEnd := addr p + len in
  let '(len, p, bEnd) :=
    if XXH_ACCEPT_NULL_INPUT_POINTER cfg && isNULL p
    then (0, mkptr 16 [], 16)
    else (len, p, bEnd) in
  '(h32, p) <-
    (if 16 <=? len then
       let v1 := add32 (add32 seed PRIME32_1) PRIME32_2 in
       let v2 := add32 seed PRIME32_2 in
       let v3 := add32 seed 0 in
       let v4 := sub32 seed PRIME32_1 in
       let limit := bEnd - 15 in
       '(v1, v2, v3, v4, p) <-
         (if XXH_FORCE_ALIGN_CHECK cfg
             && XXH_alignment_eqb align XXH_aligned
             && XXH_endianess_eqb endian XXH_littleEndian
          then do_while (Z.to_nat len) XXH32_stripe_aligned
                 (fun '(_, _, _, _, p) => addr p <? limit) (v1, v2, v3, v4, p)
          else do_while (Z.to_nat len) (XXH32_stripe endian align)
                 (fun '(_, _, _, _, p) => addr p <? limit) (v1, v2, v3, v4, p)) ;
       Ok (XXH32_merge v1 v2 v3 v4, p)
     else Ok (add32 seed PRIME32_5, p)) ;
  let h32 := add32 h32 (to_U32 len) in
  XXH32_finalize cpu endian align h32 p (Z.land len 15).

Definition XXH32 (input : ptr) (len seed : Z) : result Z :=
  let endian_detected := XXH_CPU_LITTLE_ENDIAN cfg in
  if XXH_FORCE_ALIGN_CHECK cfg && (Z.land (addr input) 3 =? 0) then
    if XXH_endianess_eqb endian_detected XXH_littleEndian
       || XXH_FORCE_NATIVE_FORMAT cfg
    then XXH32_endian_align input len seed XXH_littleEndian XXH_aligned
    else XXH32_endian_align input len seed XXH_bigEndian XXH_aligned
  else
    if XXH_endianess_eqb endian_detected XXH_littleEndian
       || XXH_FORCE_NATIVE_FORMAT cfg
    then XXH32_endian_align input len seed XXH_littleEndian XXH_unaligned
    else XXH32_endian_align input len seed XXH_bigEndian XXH_unaligned.
End XXH32_oneshot.


(** ** Hash streaming (32 bits) *)

(** Modelled from the spec: the header xxhash.h, which declares
    [XXH_errorcode], is not among the sources; its two values are the ones
    xxhash.c returns. *)
Inductive XXH_errorcode : Type := XXH_OK | XXH_ERROR.

(** [memcpy(dest + off, src, size)] into the byte array [dest]: the bytes
    come from the readable bytes of [src] and must fit in [dest]. *)
Definition XXH_memcpy (dest : list byte) (off : Z) (src : ptr) (size : Z)
    : result (list byte) :=
  if (size <=? Z.of_nat (length (mem src)))
     && (off + size <=? Z.of_nat (length dest))
  then Ok (firstn (Z.to_nat off) dest
           ++ firstn (Z.to_nat size) (mem src)
           ++ skipn (Z.to_nat (off + size)) dest)
  else Fault OutOfBounds.

(** [memset(&x, 0, n)] of a byte array. *)
Definition zeroes (n : nat) : list byte := repeat x00 n.

Module S32.
(** Modelled from the spec: the declaration of [struct XXH32_state_s] is
    in xxhash.h, not among the sources.  The fields are those xxhash.c
    reads and writes; [mem32], declared as four U32, is kept as its 16
    bytes, the pending-byte buffer of one block. *)
Record t : Type := mk {
  total_len_32 : Z;
  large_len : Z;
  v1 : Z; v2 : Z; v3 : Z; v4 : Z;
  mem32 : list byte;
  memsize : Z;
  reserved : Z
}.

Definition set_total_len_32 (s : t) (x : Z) : t :=
  mk x (large_len s) (v1 s) (v2 s) (v3 s) (v4 s) (mem32 s) (memsize s) (reserved s).
Definition set_large_len (s : t) (x : Z) : t :=
  mk (total_len_32 s) x (v1 s) (v2 s) (v3 s) (v4 s) (mem32 s) (memsize s) (reserved s).
Definition set_v (s : t) (a b c d : Z) : t :=
  mk (total_len_32 s) (large_len s) a b c d (mem32 s) (memsize s) (reserved s).
Definition set_mem32 (s : t) (m : list byte) : t :=
  mk (total_len_32 s) (large_len s) (v1 s) (v2 s) (v3 s) (v4 s) m (memsize s) (reserved s).
Definition set_memsize (s : t) (x : Z) : t :=
  mk (total_len_32 s) (large_len s) (v1 s) (v2 s) (v3 s) (v4 s) (mem32 s) x (reserved s).
End S32.

(** [memcpy(dstState, srcState, sizeof( *dstState))]: every field. *)
Definition XXH32_copyState (dstState srcState : S32.t) : S32.t := srcState.

(** The new contents of [*statePtr]: the [memcpy] copies the first
    [sizeof(state) - sizeof(state.reserved)] = 48 - 4 = 44 bytes, which
    are all the fields but [reserved]. *)
Definition XXH32_reset (statePtr : S32.t) (seed : Z) : XXH_errorcode * S32.t :=
  let state :=
    S32.mk 0 0
      (add32 (add32 seed PRIME32_1) PRIME32_2)
      (add32 seed PRIME32_2)
      (add32 seed 0)
      (sub32 seed PRIME32_1)
      (zeroes 16) 0 0 in
  (XXH_OK,
   S32.mk (S32.total_len_32 state) (S32.large_len state)
     (S32.v1 state) (S32.v2 state) (S32.v3 state) (S32.v4 state)
     (S32.mem32 state) (S32.memsize state) (S32.reserved statePtr)).

Section XXH32_streaming.
Variable cfg : config.
(** The address of the buffer inside the state the functions work on. *)
Variable mem_addr : Z.
Let cpu := XXH_CPU_LITTLE_ENDIAN cfg.

(** [p_align[0] .. p_align[3]], then [p += 16]. *)
Definition XXH32_update_stripe_aligned (s : stripe) : result stripe :=
  let '(v1, v2, v3, v4, p) := s in
  let p_align := p in
  x <- load32 cpu (ptr_add p_align 0) ;
  let v1 := XXH32_round v1 x in
  x <- load32 cpu (ptr_add p_align 4) ;
  let v2 := XXH32_round v2 x in
  x <- load32 cpu (ptr_add p_align 8) ;
  let v3 := XXH32_round v3 x in
  x <- load32 cpu (ptr_add p_align 12) ;
  let v4 := XXH32_round v4 x in
  Ok (v1, v2, v3, v4, ptr_add p 16).

(** [XXH_readLE32(p + 0 .. p + 12, endian)], then [p += 16]. *)
Definition XXH32_update_stripe (endian : XXH_endianess) (s : stripe)
    : result stripe :=
  let '(v1, v2, v3, v4, p) := s in
  x <- XXH_readLE32 cpu p endian ;
  let v1 := XXH32_round v1 x in
  x <- XXH_readLE32 cpu (ptr_add p 4) endian ;
  let v2 := XXH32_round v2 x in
  x <- XXH_readLE32 cpu (ptr_add p 8) endian ;
  let v3 := XXH32_round v3 x in
  x <- XXH_readLE32 cpu (ptr_add p 12) endian ;
  let v4 := XXH32_round v4 x in
  Ok (v1, v2, v3, v4, ptr_add p 16).

Definition XXH32_update_endian (state : S32.t) (input : ptr) (len : Z)
    (endian : XXH_endianess) : result (XXH_errorcode * S32.t) :=
  if isNULL input then
    if XXH_ACCEPT_NULL_INPUT_POINTER cfg
    then Ok (XXH_OK, state)
    else Ok (XXH_ERROR, state)
  else
    let p := input in
    let bEnd := addr p + len in
    let state :=
      S32.set_total_len_32 state (add32 (S32.total_len_32 state) (to_U32 len)) in
    let state :=
      S32.set_large_len state
        (Z.lor (S32.large_len state)
           (Z.lor (Z_of_bool (16 <=? len))
                  (Z_of_bool (16 <=? S32.total_len_32 state)))) in
    if to_size_t (S32.memsize state + len) <? 16 then
      (* fill in tmp buffer *)
      m <- XXH_memcpy (S32.mem32 state) (S32.memsize state) input len ;
      let state := S32.set_mem32 state m in
      let state := S32.set_memsize state (add32 (S32.memsize state) (to_U32 len)) in
      Ok (XXH_OK, state)
    else
      '(state, p) <-
        (if negb (S32.memsize state =? 0) then
           (* some data left from previous update *)
           m <- XXH_memcpy (S32.mem32 state) (S32.memsize state) input
                  (sub32 16 (S32.memsize state)) ;
           let state := S32.set_mem32 state m in
           let p32 := mkptr mem_addr (S32.mem32 state) in
           x <- XXH_readLE32 cpu p32 endian ;
           let a := XXH32_round (S32.v1 state) x in let p32 := ptr_add p32 4 in
           x <- XXH_readLE32 cpu p32 endian ;
           let b := XXH32_round (S32.v2 state) x in let p32 := ptr_add p32 4 in
           x <- XXH_readLE32 cpu p32 endian ;
           let c := XXH32_round (S32.v3 state) x in let p32 := ptr_add p32 4 in
           x <- XXH_readLE32 cpu p32 endian ;
           let d := XXH32_round (S32.v4 state) x in
           let state := S32.set_v state a b c d in
           Ok (state, ptr_add p (sub32 16 (S32.memsize state)))
         else Ok (state, p)) ;
      let state := S32.set_memsize state 0 in
      '(state, p) <-
        (if addr p <=? bEnd - 16 then
           let limit := bEnd - 16 in
           '(v1, v2, v3, v4, p) <-
             (if XXH_FORCE_ALIGN_CHECK cfg
                 && (Z.land (addr p) 3 =? 0)
                 && XXH_endianess_eqb endian XXH_littleEndian
              then do_while (Z.to_nat len) XXH32_update_stripe_aligned
                     (fun '(_, _, _, _, p) => addr p <=? limit)
                     (S32.v1 state, S32.v2 state, S32.v3 state, S32.v4 state, p)
              else do_while (Z.to_nat len) (XXH32_update_stripe endian)
                     (fun '(_, _, _, _, p) => addr p <=? limit)
                     (S32.v1 state, S32.v2 state, S32.v3 state, S32.v4 state, p)) ;
           Ok (S32.set_v state v1 v2 v3 v4, p)
         else Ok (state, p)) ;
      if addr p <? bEnd then
        m <- XXH_memcpy (S32.mem32 state) 0 p (to_size_t (bEnd - addr p)) ;
        let state := S32.set_mem32 state m in
        let state := S32.set_memsize state (to_U32 (bEnd - addr p)) in
        Ok (XXH_OK, state)
      else Ok (XXH_OK, state).

Definition XXH32_update (state_in : S32.t) (input : ptr) (len : Z)
    : result (XXH_errorcode * S32.t) :=
  let endian_detected := XXH_CPU_LITTLE_ENDIAN cfg in
  if XXH_endianess_eqb endian_detected XXH_littleEndian
     || XXH_FORCE_NATIVE_FORMAT cfg
  then XXH32_update_endian state_in input len XXH_littleEndian
  else XXH32_update_endian state_in input len XXH_bigEndian.

Definition XXH32_digest_endian (state : S32.t) (endian : XXH_endianess)
    : result Z :=
  let h32 :=
    if negb (S32.large_len state =? 0)
    then XXH32_merge (S32.v1 state) (S32.v2 state) (S32.v3 state) (S32.v4 state)
    else add32 (S32.v3 state) PRIME32_5 in
  let h32 := add32 h32 (S32.total_len_32 state) in
  XXH32_finalize cpu endian XXH_aligned h32
    (mkptr mem_addr (S32.mem32 state)) (Z.land (S32.memsize state) 15).

Definition XXH32_digest (state_in : S32.t) : result Z :=
  let endian_detected := XXH_CPU_LITTLE_ENDIAN cfg in
  if XXH_endianess_eqb endian_detected XXH_littleEndian
     || XXH_FORCE_NATIVE_FORMAT cfg
  then XXH32_digest_endian state_in XXH_littleEndian
  else XXH32_digest_endian state_in XXH_bigEndian.
End XXH32_streaming.

(** ** 64-bit hash functions *)

Definition native64 (cpu : XXH_endianess) (b0 b1 b2 b3 b4 b5 b6 b7 : byte) : Z :=
  match cpu with
  | XXH_littleEndian =>
      BYTE_val b0 + 2 ^ 8 * BYTE_val b1 + 2 ^ 16 * BYTE_val b2
      + 2 ^ 24 * BYTE_val b3 + 2 ^ 32 * BYTE_val b4 + 2 ^ 40 * BYTE_val b5
      + 2 ^ 48 * BYTE_val b6 + 2 ^ 56 * BYTE_val b7
  | XXH_bigEndian =>
      BYTE_val b7 + 2 ^ 8 * BYTE_val b6 + 2 ^ 16 * BYTE_val b5
      + 2 ^ 24 * BYTE_val b4 + 2 ^ 32 * BYTE_val b3 + 2 ^ 40 * BYTE_val b2
      + 2 ^ 48 * BYTE_val b1 + 2 ^ 56 * BYTE_val b0
  end.

(** A native 64-bit load: the value of the eight bytes at [p], as
    [memcpy] reads it.  The direct dereference of a pointer to U64 in the
    aligned paths reads the same eight bytes; C defines it at a multiple
    of 8 only, which the caller that passes [XXH_aligned] promises.  The
    model gives the value whatever the address; the one caller that
    passes [XXH_aligned] on a weaker test, [XXH64a], has that promise as
    the condition [XXH64a_reads_aligned] of what is proved of it. *)
Definition load64 (cpu : XXH_endianess) (p : ptr) : result Z :=
  match mem p with
  | b0 :: b1 :: b2 :: b3 :: b4 :: b5 :: b6 :: b7 :: _ =>
      Ok (native64 cpu b0 b1 b2 b3 b4 b5 b6 b7)
  | _ => Fault OutOfBounds
  end.

Definition XXH_read64 (cpu : XXH_endianess) (memPtr : ptr) : result Z :=
  load64 cpu memPtr.

Definition XXH_rotl64 (x r : Z) : Z :=
  Z.lor (shl64 x r) (Z.shiftr x (64 - r)).

Definition XXH_swap64 (x : Z) : Z :=
  Z.lor (Z.lor (Z.lor (Z.lor (Z.lor (Z.lor (Z.lor
    (Z.land (shl64 x 56) 0xff00000000000000)
    (Z.land (shl64 x 40) 0x00ff000000000000))
    (Z.land (shl64 x 24) 0x0000ff0000000000))
    (Z.land (shl64 x 8) 0x000000ff00000000))
    (Z.land (Z.shiftr x 8) 0x00000000ff000000))
    (Z.land (Z.shiftr x 24) 0x0000000000ff0000))
    (Z.land (Z.shiftr x 40) 0x000000000000ff00))
    (Z.land (Z.shiftr x 56) 0x00000000000000ff).

Definition XXH_readLE64_align (cpu : XXH_endianess) (p : ptr)
    (endian : XXH_endianess) (align : XXH_alignment) : result Z :=
  if XXH_alignment_eqb align XXH_unaligned then
    if XXH_endianess_eqb endian XXH_littleEndian
    then XXH_read64 cpu p
    else x <- XXH_read64 cpu p ; Ok (XXH_swap64 x)
  else
    if XXH_endianess_eqb endian XXH_littleEndian
    then load64 cpu p
    else x <- load64 cpu p ; Ok (XXH_swap64 x).

Definition XXH_readLE64 (cpu : XXH_endianess) (p : ptr)
    (endian : XXH_endianess) : result Z :=
  XXH_readLE64_align cpu p endian XXH_unaligned.

Definition XXH_readBE64 (cpu : XXH_endianess) (p : ptr) : result Z :=
  match cpu with
  | XXH_littleEndian => x <- XXH_read64 cpu p ; Ok (XXH_swap64 x)
  | XXH_bigEndian => XXH_read64 cpu p
  end.

Definition PRIME64_1 : Z := 11400714785074694791.
Definition PRIME64_2 : Z := 14029467366897019727.
Definition PRIME64_3 : Z := 1609587929392839161.
Definition PRIME64_4 : Z := 9650029242287828579.
Definition PRIME64_5 : Z := 2870177450012600261.

Definition XXH64_round (acc input : Z) : Z :=
  let acc := add64 acc (mul64 input PRIME64_2) in
  let acc := XXH_rotl64 acc 31 in
  let acc := mul64 acc PRIME64_1 in
  acc.

Definition XXH64_mergeRound (acc val : Z) : Z :=
  let val := XXH64_round 0 val in
  let acc := Z.lxor acc val in
  let acc := add64 (mul64 acc PRIME64_1) PRIME64_4 in
  acc.

Definition XXH64_avalanche (h64 : Z) : Z :=
  let h64 := Z.lxor h64 (Z.shiftr h64 33) in
  let h64 := mul64 h64 PRIME64_2 in
  let h64 := Z.lxor h64 (Z.shiftr h64 29) in
  let h64 := mul64 h64 PRIME64_3 in
  let h64 := Z.lxor h64 (Z.shiftr h64 32) in
  h64.

(** The body of [switch(len&31)] in [XXH64_finalize], case by case in the
    order of the source. *)
Definition XXH64_finalize_cases : list (Z * list stmt) :=
  [ (24, [PROCESS8]); (16, [PROCESS8]); (8, [PROCESS8; RETURN]);
    (28, [PROCESS8]); (20, [PROCESS8]); (12, [PROCESS8]);
    (4, [PROCESS4; RETURN]);
    (25, [PROCESS8]); (17, [PROCESS8]); (9, [PROCESS8; PROCESS1; RETURN]);
    (29, [PROCESS8]); (21, [PROCESS8]); (13, [PROCESS8]);
    (5, [PROCESS4; PROCESS1; RETURN]);
    (26, [PROCESS8]); (18, [PROCESS8]);
    (10, [PROCESS8; PROCESS1; PROCESS1; RETURN]);
    (30, [PROCESS8]); (22, [PROCESS8]); (14, [PROCESS8]);
    (6, [PROCESS4; PROCESS1; PROCESS1; RETURN]);
    (27, [PROCESS8]); (19, [PROCESS8]);
    (11, [PROCESS8; PROCESS1; PROCESS1; PROCESS1; RETURN]);
    (31, [PROCESS8]); (23, [PROCESS8]); (15, [PROCESS8]); (7, [PROCESS4]);
    (3, [PROCESS1]); (2, [PROCESS1]); (1, [PROCESS1]); (0, [RETURN]) ].

Section Finalize64.
Variables (cpu endian : XXH_endianess) (align : XXH_alignment).

Fixpoint XXH64_run (ss : list stmt) (h64 : Z) (p : ptr) : result Z :=
  match ss with
  | [] => Ok 0         (* past the switch: assert(0); return 0; *)
  | RETURN :: _ => Ok (XXH64_avalanche h64)
  | PROCESS1 :: ss' =>
      b <- read8 p ;
      let h64 := Z.lxor h64 (mul64 b PRIME64_5) in
      let h64 := mul64 (XXH_rotl64 h64 11) PRIME64_1 in
      XXH64_run ss' h64 (ptr_add p 1)
  | PROCESS4 :: ss' =>
      x <- XXH_readLE32_align cpu p endian align ;
      let h64 := Z.lxor h64 (mul64 x PRIME64_1) in
      let h64 := add64 (mul64 (XXH_rotl64 h64 23) PRIME64_2) PRIME64_3 in
      XXH64_run ss' h64 (ptr_add p 4)
  | PROCESS8 :: ss' =>
      x <- XXH_readLE64_align cpu p endian align ;
      let k1 := XXH64_round 0 x in
      let h64 := Z.lxor h64 k1 in
      let h64 := add64 (mul64 (XXH_rotl64 h64 27) PRIME64_1) PRIME64_4 in
      XXH64_run ss' h64 (ptr_add p 8)
  end.

Definition XXH64_finalize (h64 : Z) (p : ptr) (len : Z) : result Z :=
  match switch_from (Z.land len 31) XXH64_finalize_cases with
  | Some ss => XXH64_run ss h64 p
  | None => Ok 0
  end.
End Finalize64.

Definition XXH64_merge (v1 v2 v3 v4 : Z) : Z :=
  let h64 := add64 (add64 (add64 (XXH_rotl64 v1 1) (XXH_rotl64 v2 7))
                          (XXH_rotl64 v3 12)) (XXH_rotl64 v4 18) in
  let h64 := XXH64_mergeRound h64 v1 in
  let h64 := XXH64_mergeRound h64 v2 in
  let h64 := XXH64_mergeRound h64 v3 in
  let h64 := XXH64_mergeRound h64 v4 in
  h64.

Section XXH64_oneshot.
Variable cfg : config.
Let cpu := XXH_CPU_LITTLE_ENDIAN cfg.

(** [inp[0] .. inp[3]], then [p += 32]. *)
Definition XXH64_stripe_aligned (s : stripe) : result stripe :=
  let '(v1, v2, v3, v4, p) := s in
  let inp := p in
  x <- load64 cpu (ptr_add inp 0) ;
  let v1 := XXH64_round v1 x in
  x <- load64 cpu (ptr_add inp 8) ;
  let v2 := XXH64_round v2 x in
  x <- load64 cpu (ptr_add inp 16) ;
  let v3 := XXH64_round v3 x in
  x <- load64 cpu (ptr_add inp 24) ;
  let v4 := XXH64_round v4 x in
  Ok (v1, v2, v3, v4, ptr_add p 32).

(** [XXH_get64bits(p + 0 .. p + 24)], then [p += 32]. *)
Definition XXH64_stripe (endian : XXH_endianess) (align : XXH_alignment)
    (s : stripe) : result stripe :=
  let '(v1, v2, v3, v4, p) := s in
  x <- XXH_readLE64_align cpu p endian align ;
  let v1 := XXH64_round v1 x in
  x <- XXH_readLE64_align cpu (ptr_add p 8) endian align ;
  let v2 := XXH64_round v2 x in
  x <- XXH_readLE64_align cpu (ptr_add p 16) endian align ;
  let v3 := XXH64_round v3 x in
  x <- XXH_readLE64_align cpu (ptr_add p 24) endian align ;
  let v4 := XXH64_round v4 x in
  Ok (v1, v2, v3, v4, ptr_add p 32).

Definition XXH64_endian_align (input : ptr) (len seed : Z)
    (endian : XXH_endianess) (align : XXH_alignment) : result Z :=
  let p := input in
  let bEnd := addr p + len in
  let '(len, p, bEnd) :=
    if XXH_ACCEPT_NULL_INPUT_POINTER cfg && isNULL p
    then (0, mkptr 32 [], 32)
    else (len, p, bEnd) in
  '(h64, p) <-
    (if 32 <=? len then
       let limit := bEnd - 32 in
       let v1 := add64 (add64 seed PRIME64_1) PRIME64_2 in
       let v2 := add64 seed PRIME64_2 in
       let v3 := add64 seed 0 in
       let v4 := sub64 seed PRIME64_1 in
       '(v1, v2, v3, v4, p) <-
         (if XXH_FORCE_ALIGN_CHECK cfg
             && XXH_endianess_eqb endian XXH_littleEndian
             && (Z.land (addr p) 7 =? 0)
          then do_while (Z.to_nat len) XXH64_stripe_aligned
                 (fun '(_, _, _, _, p) => addr p <=? limit) (v1, v2, v3, v4, p)
          else do_while (Z.to_nat len) (XXH64_stripe endian align)
                 (fun '(_, _, _, _, p) => addr p <=? limit) (v1, v2, v3, v4, p)) ;
       Ok (XXH64_merge v1 v2 v3 v4, p)
     else Ok (add64 seed PRIME64_5, p)) ;
  let h64 := add64 h64 (to_U64 len) in
  XXH64_finalize cpu endian align h64 p len.

Definition XXH64 (input : ptr) (len seed : Z) : result Z :=
  let endian_detected := XXH_CPU_LITTLE_ENDIAN cfg in
  if XXH_FORCE_ALIGN_CHECK cfg && (Z.land (addr input) 7 =? 0) then
    (* Input is aligned, let's leverage the speed advantage *)
    if XXH_endianess_eqb endian_detected XXH_littleEndian
       || XXH_FORCE_NATIVE_FORMAT cfg
    then XXH64_endian_align input len seed XXH_littleEndian XXH_aligned
    else XXH64_endian_align input len seed XXH_bigEndian XXH_aligned
  else
    if XXH_endianess_eqb endian_detected XXH_littleEndian
       || XXH_FORCE_NATIVE_FORMAT cfg
    then XXH64_endian_align input len seed XXH_littleEndian XXH_unaligned
    else XXH64_endian_align input len seed XXH_bigEndian XXH_unaligned.
End XXH64_oneshot.

(** ** Hash streaming (64 bits) *)

Module S64.
(** Modelled from the spec: the declaration of [struct XXH64_state_s] is
    in xxhash.h, not among the sources.  The fields are those xxhash.c
    reads and writes; [mem64], declared as four U64, is kept as its 32
    bytes, the pending-byte buffer of one block.  [reserved] is declared
    as an array of two 32-bit words, [reserved[0]] and [reserved[1]].
    The fields take 8 + 32 + 32 + 4 + 8 = 84 bytes; the structure is
    aligned on 8 bytes, so 4 bytes of padding follow and its size is
    88. *)
Record t : Type := mk {
  total_len : Z;
  v1 : Z; v2 : Z; v3 : Z; v4 : Z;
  mem64 : list byte;
  memsize : Z;
  reserved : Z * Z
}.

Definition set_total_len (s : t) (x : Z) : t :=
  mk x (v1 s) (v2 s) (v3 s) (v4 s) (mem64 s) (memsize s) (reserved s).
Definition set_v (s : t) (a b c d : Z) : t :=
  mk (total_len s) a b c d (mem64 s) (memsize s) (reserved s).
Definition set_mem64 (s : t) (m : list byte) : t :=
  mk (total_len s) (v1 s) (v2 s) (v3 s) (v4 s) m (memsize s) (reserved s).
Definition set_memsize (s : t) (x : Z) : t :=
  mk (total_len s) (v1 s) (v2 s) (v3 s) (v4 s) (mem64 s) x (reserved s).
End S64.

(** [memcpy(dstState, srcState, sizeof( *dstState))]: every field. *)
Definition XXH64_copyState (dstState srcState : S64.t) : S64.t := srcState.

(** The new contents of [*statePtr].  The [memcpy] copies the first
    [sizeof(state) - sizeof(state.reserved)] = 88 - 8 = 80 bytes of the
    cleared local state: the 76 bytes of the fields up to [memsize], and
    the 4 bytes of [reserved[0]], which is thereby set to zero.
    [reserved[1]] is left as it was. *)
Definition XXH64_reset (statePtr : S64.t) (seed : Z) : XXH_errorcode * S64.t :=
  let state :=
    S64.mk 0
      (add64 (add64 seed PRIME64_1) PRIME64_2)
      (add64 seed PRIME64_2)
      (add64 seed 0)
      (sub64 seed PRIME64_1)
      (zeroes 32) 0 (0, 0) in
  (XXH_OK,
   S64.mk (S64.total_len state)
     (S64.v1 state) (S64.v2 state) (S64.v3 state) (S64.v4 state)
     (S64.mem64 state) (S64.memsize state)
     (fst (S64.reserved state), snd (S64.reserved statePtr))).

Section XXH64_streaming.
Variable cfg : config.
(** The address of the buffer inside the state the functions work on. *)
Variable mem_addr : Z.
Let cpu := XXH_CPU_LITTLE_ENDIAN cfg.

(** [XXH_readLE64(p, endian); p+=8], four times. *)
Definition XXH64_update_stripe (endian : XXH_endianess) (s : stripe)
    : result stripe :=
  let '(v1, v2, v3, v4, p) := s in
  x <- XXH_readLE64 cpu p endian ;
  let v1 := XXH64_round v1 x in let p := ptr_add p 8 in
  x <- XXH_readLE64 cpu p endian ;
  let v2 := XXH64_round v2 x in let p := ptr_add p 8 in
  x <- XXH_readLE64 cpu p endian ;
  let v3 := XXH64_round v3 x in let p := ptr_add p 8 in
  x <- XXH_readLE64 cpu p endian ;
  let v4 := XXH64_round v4 x in let p := ptr_add p 8 in
  Ok (v1, v2, v3, v4, p).

Definition XXH64_update_endian (state : S64.t) (input : ptr) (len : Z)
    (endian : XXH_endianess) : result (XXH_errorcode * S64.t) :=
  if isNULL input then
    if XXH_ACCEPT_NULL_INPUT_POINTER cfg
    then Ok (XXH_OK, state)
    else Ok (XXH_ERROR, state)
  else
    let p := input in
    let bEnd := addr p + len in
    let state := S64.set_total_len state (add64 (S64.total_len state) len) in
    if to_size_t (S64.memsize state + len) <? 32 then
      (* fill in tmp buffer *)
      m <- XXH_memcpy (S64.mem64 state) (S64.memsize state) input len ;
      let state := S64.set_mem64 state m in
      let state := S64.set_memsize state (add32 (S64.memsize state) (to_U32 len)) in
      Ok (XXH_OK, state)
    else
      '(state, p) <-
        (if negb (S64.memsize state =? 0) then
           (* tmp buffer is full *)
           m <- XXH_memcpy (S64.mem64 state) (S64.memsize state) input
                  (sub32 32 (S64.memsize state)) ;
           let state := S64.set_mem64 state m in
           let mem64 := mkptr mem_addr (S64.mem64 state) in
           x <- XXH_readLE64 cpu (ptr_add mem64 0) endian ;
           let a := XXH64_round (S64.v1 state) x in
           x <- XXH_readLE64 cpu (ptr_add mem64 8) endian ;
           let b := XXH64_round (S64.v2 state) x in
           x <- XXH_readLE64 cpu (ptr_add mem64 16) endian ;
           let c := XXH64_round (S64.v3 state) x in
           x <- XXH_readLE64 cpu (ptr_add mem64 24) endian ;
           let d := XXH64_round (S64.v4 state) x in
           let state := S64.set_v state a b c d in
           let p := ptr_add p (sub32 32 (S64.memsize state)) in
           let state := S64.set_memsize state 0 in
           Ok (state, p)
         else Ok (state, p)) ;
      '(state, p) <-
        (if addr p + 32 <=? bEnd then
           let limit := bEnd - 32 in
           '(v1, v2, v3, v4, p) <-
             (if XXH_FORCE_ALIGN_CHECK cfg
                 && XXH_endianess_eqb endian XXH_littleEndian
                 && (Z.land (addr p) 7 =? 0)
              then do_while (Z.to_nat len) (XXH64_stripe_aligned cfg)
                     (fun '(_, _, _, _, p) => addr p <=? limit)
                     (S64.v1 state, S64.v2 state, S64.v3 state, S64.v4 state, p)
              else do_while (Z.to_nat len) (XXH64_update_stripe endian)
                     (fun '(_, _, _, _, p) => addr p <=? limit)
                     (S64.v1 state, S64.v2 state, S64.v3 state, S64.v4 state, p)) ;
           Ok (S64.set_v state v1 v2 v3 v4, p)
         else Ok (state, p)) ;
      if addr p <? bEnd then
        m <- XXH_memcpy (S64.mem64 state) 0 p (to_size_t (bEnd - addr p)) ;
        let state := S64.set_mem64 state m in
        let state := S64.set_memsize state (to_U32 (bEnd - addr p)) in
        Ok (XXH_OK, state)
      else Ok (XXH_OK, state).

Definition XXH64_update (state_in : S64.t) (input : ptr) (len : Z)
    : result (XXH_errorcode * S64.t) :=
  let endian_detected := XXH_CPU_LITTLE_ENDIAN cfg in
  if XXH_endianess_eqb endian_detected XXH_littleEndian
     || XXH_FORCE_NATIVE_FORMAT cfg
  then XXH64_update_endian state_in input len XXH_littleEndian
  else XXH64_update_endian state_in input len XXH_bigEndian.

Definition XXH64_digest_endian (state : S64.t) (endian : XXH_endianess)
    : result Z :=
  let h64 :=
    if 32 <=? S64.total_len state then
      let v1 := S64.v1 state in
      let v2 := S64.v2 state in
      let v3 := S64.v3 state in
      let v4 := S64.v4 state in
      XXH64_merge v1 v2 v3 v4
    else add64 (S64.v3 state) PRIME64_5 in
  let h64 := add64 h64 (S64.total_len state) in
  XXH64_finalize cpu endian XXH_aligned h64
    (mkptr mem_addr (S64.mem64 state)) (to_size_t (S64.total_len state)).

Definition XXH64_digest (state_in : S64.t) : result Z :=
  let endian_detected := XXH_CPU_LITTLE_ENDIAN cfg in
  if XXH_endianess_eqb endian_detected XXH_littleEndian
     || XXH_FORCE_NATIVE_FORMAT cfg
  then XXH64_digest_endian state_in XXH_littleEndian
  else XXH64_digest_endian state_in XXH_bigEndian.
End XXH64_streaming.

(** ** Canonical representation *)

(** The bytes of a 32-bit object holding [x], in increasing address order:
    what [memcpy(dst, &hash, sizeof( *dst))] writes. *)
Definition store32 (cpu : XXH_endianess) (x : Z) : list byte :=
  match cpu with
  | XXH_littleEndian =>
      [BYTE_of x; BYTE_of (x / 2 ^ 8); BYTE_of (x / 2 ^ 16); BYTE_of (x / 2 ^ 24)]
  | XXH_bigEndian =>
      [BYTE_of (x / 2 ^ 24); BYTE_of (x / 2 ^ 16); BYTE_of (x / 2 ^ 8); BYTE_of x]
  end.

Definition store64 (cpu : XXH_endianess) (x : Z) : list byte :=
  match cpu with
  | XXH_littleEndian =>
      [BYTE_of x; BYTE_of (x / 2 ^ 8); BYTE_of (x / 2 ^ 16); BYTE_of (x / 2 ^ 24);
       BYTE_of (x / 2 ^ 32); BYTE_of (x / 2 ^ 40); BYTE_of (x / 2 ^ 48);
       BYTE_of (x / 2 ^ 56)]
  | XXH_bigEndian =>
      [BYTE_of (x / 2 ^ 56); BYTE_of (x / 2 ^ 48); BYTE_of (x / 2 ^ 40);
       BYTE_of (x / 2 ^ 32); BYTE_of (x / 2 ^ 24); BYTE_of (x / 2 ^ 16);
       BYTE_of (x / 2 ^ 8); BYTE_of x]
  end.

Section Canonical.
Variable cfg : config.
Let cpu := XXH_CPU_LITTLE_ENDIAN cfg.

(** The four bytes written to [dst->digest]. *)
Definition XXH32_canonicalFromHash (hash : Z) : list byte :=
  let hash :=
    match cpu with
    | XXH_littleEndian => XXH_swap32 hash
    | XXH_bigEndian => hash
    end in
  store32 cpu hash.

Definition XXH32_hashFromCanonical (src : ptr) : result Z :=
  XXH_readBE32 cpu src.

(** The eight bytes written to [dst->digest]. *)
Definition XXH64_canonicalFromHash (hash : Z) : list byte :=
  let hash :=
    match cpu with
    | XXH_littleEndian => XXH_swap64 hash
    | XXH_bigEndian => hash
    end in
  store64 cpu hash.

Definition XXH64_hashFromCanonical (src : ptr) : result Z :=
  XXH_readBE64 cpu src.
End Canonical.

(** ** 32-bit and 64-bit hash functions (alternative) *)

(** The stripe state of the shared inner loop: [U32 v[2][4]], row by row,
    and [p]. *)
Definition stripe8 : Type := (Z * Z * Z * Z * Z * Z * Z * Z * ptr)%type.

Section XXHa_oneshot.
Variable cfg : config.
Let cpu := XXH_CPU_LITTLE_ENDIAN cfg.

(** [inp[0] .. inp[7]], then [p += 32]. *)
Definition XXHa_stripe_aligned (s : stripe8) : result stripe8 :=
  let '(v00, v01, v02, v03, v10, v11, v12, v13, p) := s in
  let inp := p in
  x <- load32 cpu (ptr_add inp 0) ;
  let v00 := XXH32_round v00 x in
  x <- load32 cpu (ptr_add inp 4) ;
  let v01 := XXH32_round v01 x in
  x <- load32 cpu (ptr_add inp 8) ;
  let v02 := XXH32_round v02 x in
  x <- load32 cpu (ptr_add inp 12) ;
  let v03 := XXH32_round v03 x in
  x <- load32 cpu (ptr_add inp 16) ;
  let v10 := XXH32_round v10 x in
  x <- load32 cpu (ptr_add inp 20) ;
  let v11 := XXH32_round v11 x in
  x <- load32 cpu (ptr_add inp 24) ;
  let v12 := XXH32_round v12 x in
  x <- load32 cpu (ptr_add inp 28) ;
  let v13 := XXH32_round v13 x in
  Ok (v00, v01, v02, v03, v10, v11, v12, v13, ptr_add p 32).

(** [XXH_get32bits(p); p+=4], eight times. *)
Definition XXHa_stripe (endian : XXH_endianess) (align : XXH_alignment)
    (s : stripe8) : result stripe8 :=
  let '(v00, v01, v02, v03, v10, v11, v12, v13, p) := s in
  x <- XXH_readLE32_align cpu p endian align ;
  let v00 := XXH32_round v00 x in let p := ptr_add p 4 in
  x <- XXH_readLE32_align cpu p endian align ;
  let v01 := XXH32_round v01 x in let p := ptr_add p 4 in
  x <- XXH_readLE32_align cpu p endian align ;
  let v02 := XXH32_round v02 x in let p := ptr_add p 4 in
  x <- XXH_readLE32_align cpu p endian align ;
  let v03 := XXH32_round v03 x in let p := ptr_add p 4 in
  x <- XXH_readLE32_align cpu p endian align ;
  let v10 := XXH32_round v10 x in let p := ptr_add p 4 in
  x <- XXH_readLE32_align cpu p endian align ;
  let v11 := XXH32_round v11 x in let p := ptr_add p 4 in
  x <- XXH_readLE32_align cpu p endian align ;
  let v12 := XXH32_round v12 x in let p := ptr_add p 4 in
  x <- XXH_readLE32_align cpu p endian align ;
  let v13 := XXH32_round v13 x in let p := ptr_add p 4 in
  Ok (v00, v01, v02, v03, v10, v11, v12, v13, p).

(** Used by both XXH32a and XXH64a: takes the lanes [state] and [p],
    returns the new lanes and the new [p]. *)
Definition XXH32a_XXH64a_endian_align (s : stripe8) (len : Z)
    (endian : XXH_endianess) (align : XXH_alignment) : result stripe8 :=
  let '(_, _, _, _, _, _, _, _, p) := s in
  let bEnd := addr p + len in
  if 32 <=? len then
    let limit := bEnd - 31 in
    if XXH_FORCE_ALIGN_CHECK cfg
       && XXH_alignment_eqb align XXH_aligned
       && XXH_endianess_eqb endian XXH_littleEndian
    then do_while (Z.to_nat len) XXHa_stripe_aligned
           (fun '(_, _, _, _, _, _, _, _, p) => addr p <? limit) s
    else do_while (Z.to_nat len) (XXHa_stripe endian align)
           (fun '(_, _, _, _, _, _, _, _, p) => addr p <? limit) s
  else Ok s.

Definition XXH32a (input : ptr) (len seed : Z) : result Z :=
  let p := input in
  let endian := endian_of cfg in
  let align :=
    if Z.land (addr input) 3 =? 0 then XXH_aligned else XXH_unaligned in
  let '(len, p) :=
    if XXH_ACCEPT_NULL_INPUT_POINTER cfg && isNULL p
    then (0, mkptr 32 [])
    else (len, p) in
  '(h32, p) <-
    (if 32 <=? len then
       let a := add32 (add32 seed PRIME32_1) PRIME32_2 in
       let b := add32 seed PRIME32_2 in
       let c := add32 seed 0 in
       let d := sub32 seed PRIME32_1 in
       '(v00, v01, v02, v03, v10, v11, v12, v13, p) <-
         XXH32a_XXH64a_endian_align (a, b, c, d, a, b, c, d, p) len endian align ;
       let v00 := XXH32_round v00 v10 in
       let v01 := XXH32_round v01 v11 in
       let v02 := XXH32_round v02 v12 in
       let v03 := XXH32_round v03 v13 in
       Ok (XXH32_merge v00 v01 v02 v03, p)
     else Ok (add32 seed PRIME32_5, p)) ;
  let h32 := add32 h32 (to_U32 len) in
  XXH32_finalize cpu endian align h32 p (Z.land len 31).

(** [lo | ((U64)hi << 32)] *)
Definition join64 (lo hi : Z) : Z := Z.lor lo (shl64 hi 32).

Definition XXH64a (input : ptr) (len seed : Z) : result Z :=
  let p := input in
  let endian := endian_of cfg in
  let align :=
    if Z.land (addr input) 3 =? 0 then XXH_aligned else XXH_unaligned in
  let '(len, p) :=
    if XXH_ACCEPT_NULL_INPUT_POINTER cfg && isNULL p
    then (0, mkptr 32 [])
    else (len, p) in
  let seeds0 := to_U32 (Z.land seed 0xFFFFFFFF) in
  let seeds1 := to_U32 (Z.shiftr seed 32) in
  '(h64, p) <-
    (if 32 <=? len then
       '(v00, v01, v02, v03, v10, v11, v12, v13, p) <-
         XXH32a_XXH64a_endian_align
           (add32 (add32 seeds0 PRIME32_1) PRIME32_2,
            add32 seeds0 PRIME32_2,
            add32 seeds0 0,
            sub32 seeds0 PRIME32_1,
            add32 (add32 seeds1 PRIME32_1) PRIME32_2,
            add32 seeds1 PRIME32_2,
            add32 seeds1 0,
            sub32 seeds1 PRIME32_1,
            p) len endian align ;
       let v64_0 := join64 v00 v10 in
       let v64_1 := join64 v01 v11 in
       let v64_2 := join64 v02 v12 in
       let v64_3 := join64 v03 v13 in
       Ok (XXH64_merge v64_0 v64_1 v64_2 v64_3, p)
     else Ok (add64 (join64 seeds0 seeds1) PRIME64_5, p)) ;
  let h64 := add64 h64 (to_U32 len) in
  XXH64_finalize cpu endian align h64 p (Z.land len 31).
End XXHa_oneshot.

(** ** Hash streaming (alternative) *)

Module S32a.
(** Modelled from the spec: the declarations of [struct XXH32a_state_s]
    and [struct XXH64a_state_s] are in xxhash.h, not among the sources.
    [XXH64a_update] passes its state to [XXH32a_update] through a cast,
    so one record stands for both.  The fields are those xxhash.c reads
    and writes: [v] is [U32 v[2][4]] row by row, and [mem32] is kept as
    the 32 bytes of one block. *)
Record t : Type := mk {
  total_len_32 : Z;
  large_len : Z;
  v00 : Z; v01 : Z; v02 : Z; v03 : Z;
  v10 : Z; v11 : Z; v12 : Z; v13 : Z;
  mem32 : list byte;
  memsize : Z;
  reserved : Z
}.

Definition set_total_len_32 (s : t) (x : Z) : t :=
  mk x (large_len s) (v00 s) (v01 s) (v02 s) (v03 s) (v10 s) (v11 s) (v12 s)
     (v13 s) (mem32 s) (memsize s) (reserved s).
Definition set_large_len (s : t) (x : Z) : t :=
  mk (total_len_32 s) x (v00 s) (v01 s) (v02 s) (v03 s) (v10 s) (v11 s) (v12 s)
     (v13 s) (mem32 s) (memsize s) (reserved s).
Definition set_v (s : t) (a0 a1 a2 a3 b0 b1 b2 b3 : Z) : t :=
  mk (total_len_32 s) (large_len s) a0 a1 a2 a3 b0 b1 b2 b3
     (mem32 s) (memsize s) (reserved s).
Definition set_mem32 (s : t) (m : list byte) : t :=
  mk (total_len_32 s) (large_len s) (v00 s) (v01 s) (v02 s) (v03 s) (v10 s)
     (v11 s) (v12 s) (v13 s) m (memsize s) (reserved s).
Definition set_memsize (s : t) (x : Z) : t :=
  mk (total_len_32 s) (large_len s) (v00 s) (v01 s) (v02 s) (v03 s) (v10 s)
     (v11 s) (v12 s) (v13 s) (mem32 s) x (reserved s).
End S32a.

Definition XXH32a_copyState (dstState srcState : S32a.t) : S32a.t := srcState.
Definition XXH64a_copyState (dstState srcState : S32a.t) : S32a.t := srcState.

Definition XXH32a_reset (statePtr : S32a.t) (seed : Z) : XXH_errorcode * S32a.t :=
  let a := add32 (add32 seed PRIME32_1) PRIME32_2 in
  let b := add32 seed PRIME32_2 in
  let c := add32 seed 0 in
  let d := sub32 seed PRIME32_1 in
  (XXH_OK, S32a.mk 0 0 a b c d a b c d (zeroes 32) 0 (S32a.reserved statePtr)).

Definition XXH64a_reset (statePtr : S32a.t) (seed : Z) : XXH_errorcode * S32a.t :=
  (* Split the 64-bit seed into two 32-bit seeds, and distribute it. *)
  let seeds0 := to_U32 (Z.land seed 0xFFFFFFFF) in
  let seeds1 := to_U32 (Z.shiftr seed 32) in
  (XXH_OK,
   S32a.mk 0 0
     (add32 (add32 seeds0 PRIME32_1) PRIME32_2)
     (add32 seeds0 PRIME32_2)
     (add32 seeds0 0)
     (sub32 seeds0 PRIME32_1)
     (add32 (add32 seeds1 PRIME32_1) PRIME32_2)
     (add32 seeds1 PRIME32_2)
     (add32 seeds1 0)
     (sub32 seeds1 PRIME32_1)
     (zeroes 32) 0 (S32a.reserved statePtr)).

Section XXHa_streaming.
Variable cfg : config.
(** The address of the buffer inside the state the functions work on. *)
Variable mem_addr : Z.
Let cpu := XXH_CPU_LITTLE_ENDIAN cfg.

(** [XXH_readLE32(p, endian); p+=4], eight times. *)
Definition XXHa_update_stripe (endian : XXH_endianess) (s : stripe8)
    : result stripe8 :=
  let '(v00, v01, v02, v03, v10, v11, v12, v13, p) := s in
  x <- XXH_readLE32 cpu p endian ;
  let v00 := XXH32_round v00 x in let p := ptr_add p 4 in
  x <- XXH_readLE32 cpu p endian ;
  let v01 := XXH32_round v01 x in let p := ptr_add p 4 in
  x <- XXH_readLE32 cpu p endian ;
  let v02 := XXH32_round v02 x in let p := ptr_add p 4 in
  x <- XXH_readLE32 cpu p endian ;
  let v03 := XXH32_round v03 x in let p := ptr_add p 4 in
  x <- XXH_readLE32 cpu p endian ;
  let v10 := XXH32_round v10 x in let p := ptr_add p 4 in
  x <- XXH_readLE32 cpu p endian ;
  let v11 := XXH32_round v11 x in let p := ptr_add p 4 in
  x <- XXH_readLE32 cpu p endian ;
  let v12 := XXH32_round v12 x in let p := ptr_add p 4 in
  x <- XXH_readLE32 cpu p endian ;
  let v13 := XXH32_round v13 x in let p := ptr_add p 4 in
  Ok (v00, v01, v02, v03, v10, v11, v12, v13, p).

(** Again, this code is reused for both XXH32a and XXH64a. *)
Definition XXH32a_XXH64a_update_endian (state : S32a.t) (input : ptr)
    (len : Z) (endian : XXH_endianess) : result (XXH_errorcode * S32a.t) :=
  if isNULL input then
    if XXH_ACCEPT_NULL_INPUT_POINTER cfg
    then Ok (XXH_OK, state)
    else Ok (XXH_ERROR, state)
  else
    let p := input in
    let bEnd := addr p + len in
    let state :=
      S32a.set_total_len_32 state (add32 (S32a.total_len_32 state) (to_U32 len)) in
    let state :=
      S32a.set_large_len state
        (Z.lor (S32a.large_len state)
           (Z.lor (Z_of_bool (32 <=? len))
                  (Z_of_bool (32 <=? S32a.total_len_32 state)))) in
    if to_size_t (S32a.memsize state + len) <? 32 then
      (* fill in tmp buffer *)
      m <- XXH_memcpy (S32a.mem32 state) (S32a.memsize state) input len ;
      let state := S32a.set_mem32 state m in
      let state := S32a.set_memsize state (add32 (S32a.memsize state) (to_U32 len)) in
      Ok (XXH_OK, state)
    else
      '(state, p) <-
        (if negb (S32a.memsize state =? 0) then
           (* some data left from previous update *)
           m <- XXH_memcpy (S32a.mem32 state) (S32a.memsize state) input
                  (sub32 32 (S32a.memsize state)) ;
           let state := S32a.set_mem32 state m in
           '(a0, a1, a2, a3, b0, b1, b2, b3, _) <-
             XXHa_update_stripe endian
               (S32a.v00 state, S32a.v01 state, S32a.v02 state, S32a.v03 state,
                S32a.v10 state, S32a.v11 state, S32a.v12 state, S32a.v13 state,
                mkptr mem_addr (S32a.mem32 state)) ;
           let state := S32a.set_v state a0 a1 a2 a3 b0 b1 b2 b3 in
           let p := ptr_add p (sub32 32 (S32a.memsize state)) in
           let state := S32a.set_memsize state 0 in
           Ok (state, p)
         else Ok (state, p)) ;
      '(state, p) <-
        (if 32 <=? len then
           let limit := bEnd - 31 in
           '(a0, a1, a2, a3, b0, b1, b2, b3, p) <-
             (if XXH_FORCE_ALIGN_CHECK cfg
                 && (Z.land (addr p) 3 =? 0)
                 && XXH_endianess_eqb endian XXH_littleEndian
              then do_while (Z.to_nat len) (XXHa_stripe_aligned cfg)
                     (fun '(_, _, _, _, _, _, _, _, p) => addr p <=? limit)
                     (S32a.v00 state, S32a.v01 state, S32a.v02 state, S32a.v03 state,
                      S32a.v10 state, S32a.v11 state, S32a.v12 state, S32a.v13 state,
                      p)
              else do_while (Z.to_nat len) (XXHa_update_stripe endian)
                     (fun '(_, _, _, _, _, _, _, _, p) => addr p <=? limit)
                     (S32a.v00 state, S32a.v01 state, S32a.v02 state, S32a.v03 state,
                      S32a.v10 state, S32a.v11 state, S32a.v12 state, S32a.v13 state,
                      p)) ;
           Ok (S32a.set_v state a0 a1 a2 a3 b0 b1 b2 b3, p)
         else Ok (state, p)) ;
      if addr p <? bEnd then
        m <- XXH_memcpy (S32a.mem32 state) 0 p (to_size_t (bEnd - addr p)) ;
        let state := S32a.set_mem32 state m in
        let state := S32a.set_memsize state (to_U32 (bEnd - addr p)) in
        Ok (XXH_OK, state)
      else Ok (XXH_OK, state).

Definition XXH32a_update (state_in : S32a.t) (input : ptr) (len : Z)
    : result (XXH_errorcode * S32a.t) :=
  let endian_detected := XXH_CPU_LITTLE_ENDIAN cfg in
  if XXH_endianess_eqb endian_detected XXH_littleEndian
     || XXH_FORCE_NATIVE_FORMAT cfg
  then XXH32a_XXH64a_update_endian state_in input len XXH_littleEndian
  else XXH32a_XXH64a_update_endian state_in input len XXH_bigEndian.

Definition XXH32a_digest_endian (state : S32a.t) (endian : XXH_endianess)
    : result Z :=
  let h32 :=
    if negb (S32a.large_len state =? 0) then
      let v1 := XXH32_round (S32a.v00 state) (S32a.v10 state) in
      let v2 := XXH32_round (S32a.v01 state) (S32a.v11 state) in
      let v3 := XXH32_round (S32a.v02 state) (S32a.v12 state) in
      let v4 := XXH32_round (S32a.v03 state) (S32a.v13 state) in
      XXH32_merge v1 v2 v3 v4
    else add32 (S32a.v02 state) PRIME32_5 in
  let h32 := add32 h32 (S32a.total_len_32 state) in
  XXH32_finalize cpu endian XXH_aligned h32
    (mkptr mem_addr (S32a.mem32 state)) (S32a.memsize state).

Definition XXH32a_digest (state_in : S32a.t) : result Z :=
  let endian_detected := XXH_CPU_LITTLE_ENDIAN cfg in
  if XXH_endianess_eqb endian_detected XXH_littleEndian
     || XXH_FORCE_NATIVE_FORMAT cfg
  then XXH32a_digest_endian state_in XXH_littleEndian
  else XXH32a_digest_endian state_in XXH_bigEndian.

Definition XXH64a_update (state_in : S32a.t) (input : ptr) (len : Z)
    : result (XXH_errorcode * S32a.t) :=
  XXH32a_update state_in input len.

(** The address of the local array [mem] of the second branch. *)
Variable local_addr : Z.

Definition XXH64a_digest_endian (state : S32a.t) (endian : XXH_endianess)
    : result Z :=
  let h64 :=
    if negb (S32a.large_len state =? 0) then
      let v1 := join64 (S32a.v00 state) (S32a.v10 state) in
      let v2 := join64 (S32a.v01 state) (S32a.v11 state) in
      let v3 := join64 (S32a.v02 state) (S32a.v12 state) in
      let v4 := join64 (S32a.v03 state) (S32a.v13 state) in
      XXH64_merge v1 v2 v3 v4
    else add64 (join64 (S32a.v02 state) (S32a.v12 state)) PRIME64_5 in
  let h64 := add64 h64 (to_U64 (S32a.total_len_32 state)) in
  if Z.land mem_addr 7 =? 0 then
    XXH64_finalize cpu endian XXH_aligned h64
      (mkptr mem_addr (S32a.mem32 state)) (to_size_t (S32a.memsize state))
  else
    (* the 32 initialised bytes of the local array *)
    mem <- XXH_memcpy (zeroes 32) 0 (mkptr mem_addr (S32a.mem32 state)) 32 ;
    XXH64_finalize cpu endian XXH_aligned h64
      (mkptr local_addr mem) (to_size_t (S32a.memsize state)).

Definition XXH64a_digest (state_in : S32a.t) : result Z :=
  let endian_detected := XXH_CPU_LITTLE_ENDIAN cfg in
  if XXH_endianess_eqb endian_detected XXH_littleEndian
     || XXH_FORCE_NATIVE_FORMAT cfg
  then XXH64a_digest_endian state_in XXH_littleEndian
  else XXH64a_digest_endian state_in XXH_bigEndian.
End XXHa_streaming.

(** * Definitions used to state and prove the properties *)

(** ** Inputs *)

Definition PTRDIFF_MAX : Z := 2 ^ 63 - 1.

(** A call [f(input, len)] on a buffer: [input] is not null, the [len]
    bytes handed over are readable, and [len] is the size of an object
    (the code computes [bEnd - p] as a [ptrdiff_t]). *)
Definition valid_input (input : ptr) (len : Z) : Prop :=
  0 < addr input /\ 0 <= len <= Z.of_nat (length (mem input)) /\ len <= PTRDIFF_MAX.

(** The bytes handed over by such a call. *)
Definition input_bytes (input : ptr) (len : Z) : list byte :=
  firstn (Z.to_nat len) (mem input).

(** [XXH64a] passes [XXH_aligned] to its finalizer when [input] is a
    multiple of 4, and the finalizer then dereferences pointers to U64,
    at [input] plus a multiple of 8, as long as 8 bytes or more are left
    of the [len & 31] bytes after the last whole block.  These reads are
    at multiples of 8, as C requires of them, when [input] is a multiple
    of 8; there is none when [input] is no multiple of 4 (the path is the
    unaligned one) and none when fewer than 8 bytes are left. *)
Definition XXH64a_reads_aligned (input : ptr) (len : Z) : bool :=
  (Z.land (addr input) 7 =? 0)
  || negb (Z.land (addr input) 3 =? 0)
  || (Z.land len 31 <? 8).

(** The buffer [0, 1, 2, ..., n-1] of the worked examples. *)
Definition sample_buffer (n : nat) : list byte :=
  map (fun i => BYTE_of (Z.of_nat i)) (seq 0 n).

(** ** Byte swaps, bit by bit *)

(** Bit [i] of [XXH_swap32 x] is bit [swap32_index i] of [x]. *)
Definition swap32_index (i : Z) : Z :=
  if i <? 8 then i + 24 else if i <? 16 then i + 8
  else if i <? 24 then i - 8 else i - 24.

Definition swap64_index (i : Z) : Z :=
  if i <? 8 then i + 56 else if i <? 16 then i + 40
  else if i <? 24 then i + 24 else if i <? 32 then i + 8
  else if i <? 40 then i - 8 else if i <? 48 then i - 24
  else if i <? 56 then i - 40 else i - 56.

(** ** The words of a byte list *)

(** What [XXH_readLE32_align] returns on a pointer whose readable bytes
    are [l], when there are at least four. *)
Definition word32 (cpu endian : XXH_endianess) (l : list byte) : Z :=
  match l with
  | b0 :: b1 :: b2 :: b3 :: _ =>
      if XXH_endianess_eqb endian XXH_littleEndian
      then native32 cpu b0 b1 b2 b3
      else XXH_swap32 (native32 cpu b0 b1 b2 b3)
  | _ => 0
  end.

Definition word64 (cpu endian : XXH_endianess) (l : list byte) : Z :=
  match l with
  | b0 :: b1 :: b2 :: b3 :: b4 :: b5 :: b6 :: b7 :: _ =>
      if XXH_endianess_eqb endian XXH_littleEndian
      then native64 cpu b0 b1 b2 b3 b4 b5 b6 b7
      else XXH_swap64 (native64 cpu b0 b1 b2 b3 b4 b5 b6 b7)
  | _ => 0
  end.

(** ** Block engines over byte lists *)

Section Blocks.
Context {L : Type}.
Variable B : nat.                       (* the block size *)
Variable step : L -> list byte -> L.    (* one block, read at the head *)

(** [n] blocks of [l], one after the other. *)
Fixpoint blocks (n : nat) (v : L) (l : list byte) : L :=
  match n with
  | O => v
  | S n' => blocks n' (step v l) (skipn B l)
  end.
End Blocks.

Definition lanes : Type := (Z * Z * Z * Z)%type.
Definition lanes8 : Type := (Z * Z * Z * Z * Z * Z * Z * Z)%type.

Definition step32 (cpu endian : XXH_endianess) (v : lanes) (l : list byte) : lanes :=
  let '(v1, v2, v3, v4) := v in
  (XXH32_round v1 (word32 cpu endian l),
   XXH32_round v2 (word32 cpu endian (skipn 4 l)),
   XXH32_round v3 (word32 cpu endian (skipn 8 l)),
   XXH32_round v4 (word32 cpu endian (skipn 12 l))).

Definition step64 (cpu endian : XXH_endianess) (v : lanes) (l : list byte) : lanes :=
  let '(v1, v2, v3, v4) := v in
  (XXH64_round v1 (word64 cpu endian l),
   XXH64_round v2 (word64 cpu endian (skipn 8 l)),
   XXH64_round v3 (word64 cpu endian (skipn 16 l)),
   XXH64_round v4 (word64 cpu endian (skipn 24 l))).

Definition init32 (seed : Z) : lanes :=
  (add32 (add32 seed PRIME32_1) PRIME32_2, add32 seed PRIME32_2,
   add32 seed 0, sub32 seed PRIME32_1).

Definition init64 (seed : Z) : lanes :=
  (add64 (add64 seed PRIME64_1) PRIME64_2, add64 seed PRIME64_2,
   add64 seed 0, sub64 seed PRIME64_1).

(** The bytes a statement list reads before it returns. *)
Fixpoint demand (ss : list stmt) : nat :=
  match ss with
  | [] => 0
  | RETURN :: _ => 0
  | PROCESS1 :: ss' => 1 + demand ss'
  | PROCESS4 :: ss' => 4 + demand ss'
  | PROCESS8 :: ss' => 8 + demand ss'
  end.

(** ** Streaming states *)

(** The shape reset and update keep: a buffer of one block, and fewer
    pending bytes than one block. *)
Definition wf32 (s : S32.t) : Prop :=
  length (S32.mem32 s) = 16%nat /\ 0 <= S32.memsize s < 16.

Definition wf64 (s : S64.t) : Prop :=
  length (S64.mem64 s) = 32%nat /\ 0 <= S64.memsize s < 32.

Definition wf32a (s : S32a.t) : Prop :=
  length (S32a.mem32 s) = 32%nat /\ 0 <= S32a.memsize s < 32.

(** The states a caller can hold: after a reset (of any memory), and after
    any further call of update that returned. *)
Inductive reachable32 (cfg : config) (mem_addr : Z) : S32.t -> Prop :=
| reach32_reset : forall s0 seed,
    reachable32 cfg mem_addr (snd (XXH32_reset s0 seed))
| reach32_update : forall s input len e s',
    reachable32 cfg mem_addr s ->
    0 <= len ->
    XXH32_update cfg mem_addr s input len = Ok (e, s') ->
    reachable32 cfg mem_addr s'.

Inductive reachable64 (cfg : config) (mem_addr : Z) : S64.t -> Prop :=
| reach64_reset : forall s0 seed,
    reachable64 cfg mem_addr (snd (XXH64_reset s0 seed))
| reach64_update : forall s input len e s',
    reachable64 cfg mem_addr s ->
    0 <= len ->
    XXH64_update cfg mem_addr s input len = Ok (e, s') ->
    reachable64 cfg mem_addr s'.

(** For the alternative family, a state is reset by either reset function
    and updated by the one update function the two widths share. *)
Inductive reachable32a (cfg : config) (mem_addr : Z) : S32a.t -> Prop :=
| reach32a_reset : forall s0 seed,
    reachable32a cfg mem_addr (snd (XXH32a_reset s0 seed))
| reach64a_reset : forall s0 seed,
    reachable32a cfg mem_addr (snd (XXH64a_reset s0 seed))
| reach32a_update : forall s input len e s',
    reachable32a cfg mem_addr s ->
    0 <= len ->
    XXH32a_update cfg mem_addr s input len = Ok (e, s') ->
    reachable32a cfg mem_addr s'.

(** [s] is the state of a stream that was reset with [seed] and has
    consumed the bytes [consumed]: [n] whole blocks went through the
    lanes and the last [m] bytes are pending in the buffer. *)
Definition repr32 (cpu endian : XXH_endianess) (seed : Z)
    (consumed : list byte) (s : S32.t) : Prop :=
  exists n m : nat,
    length consumed = (16 * n + m)%nat /\ (m < 16)%nat
    /\ (S32.v1 s, S32.v2 s, S32.v3 s, S32.v4 s)
       = blocks 16 (step32 cpu endian) n (init32 seed) consumed
    /\ firstn m (S32.mem32 s) = skipn (16 * n) consumed
    /\ S32.memsize s = Z.of_nat m
    /\ S32.total_len_32 s = Z.of_nat (length consumed) mod 2 ^ 32
    /\ (S32.large_len s <> 0 <-> 16 <= Z.of_nat (length consumed))
    /\ length (S32.mem32 s) = 16%nat.

Definition repr64 (cpu endian : XXH_endianess) (seed : Z)
    (consumed : list byte) (s : S64.t) : Prop :=
  exists n m : nat,
    length consumed = (32 * n + m)%nat /\ (m < 32)%nat
    /\ (S64.v1 s, S64.v2 s, S64.v3 s, S64.v4 s)
       = blocks 32 (step64 cpu endian) n (init64 seed) consumed
    /\ firstn m (S64.mem64 s) = skipn (32 * n) consumed
    /\ S64.memsize s = Z.of_nat m
    /\ S64.total_len s = Z.of_nat (length consumed) mod 2 ^ 64
    /\ length (S64.mem64 s) = 32%nat.

(** ** The hash of a byte list

    The value both the one-shot function and a digest compute, written
    over the bytes consumed alone: the lanes after the whole blocks, the
    length, and the finalizer over the bytes after the last whole block. *)

Definition merge32 (v : lanes) : Z :=
  let '(v1, v2, v3, v4) := v in XXH32_merge v1 v2 v3 v4.

Definition merge64 (v : lanes) : Z :=
  let '(v1, v2, v3, v4) := v in XXH64_merge v1 v2 v3 v4.

Definition hash32_of (cpu endian : XXH_endianess) (seed : Z) (bytes : list byte)
    : result Z :=
  let n := (length bytes / 16)%nat in
  let h32 :=
    if 16 <=? Z.of_nat (length bytes)
    then merge32 (blocks 16 (step32 cpu endian) n (init32 seed) bytes)
    else add32 seed PRIME32_5 in
  let h32 := add32 h32 (to_U32 (Z.of_nat (length bytes))) in
  XXH32_finalize cpu endian XXH_unaligned h32
    (mkptr 1 (skipn (16 * n) bytes)) (Z.land (Z.of_nat (length bytes)) 15).

Definition hash64_of (cpu endian : XXH_endianess) (seed : Z) (bytes : list byte)
    : result Z :=
  let n := (length bytes / 32)%nat in
  let h64 :=
    if 32 <=? Z.of_nat (length bytes)
    then merge64 (blocks 32 (step64 cpu endian) n (init64 seed) bytes)
    else add64 seed PRIME64_5 in
  let h64 := add64 h64 (to_U64 (Z.of_nat (length bytes))) in
  XXH64_finalize cpu endian XXH_unaligned h64
    (mkptr 1 (skipn (32 * n) bytes)) (Z.of_nat (length bytes)).

(** ** One update, over the bytes handed over

    What [XXH32_update_endian] makes of a state when it is handed the
    bytes [X]: either they all go to the buffer, or the buffer is
    completed to a block and mixed, [k] blocks are mixed straight from
    the input, and the [r] bytes left are buffered. *)
Definition update32_of (cpu endian : XXH_endianess) (s : S32.t) (X : list byte)
    : S32.t :=
  let N := length X in
  let m := Z.to_nat (S32.memsize s) in
  let buf := S32.mem32 s in
  let tot := add32 (S32.total_len_32 s) (to_U32 (Z.of_nat N)) in
  let large :=
    Z.lor (S32.large_len s)
      (Z.lor (Z_of_bool (16 <=? Z.of_nat N)) (Z_of_bool (16 <=? tot))) in
  if (m + N <? 16)%nat then
    S32.mk tot large (S32.v1 s) (S32.v2 s) (S32.v3 s) (S32.v4 s)
      (firstn m buf ++ X ++ skipn (m + N) buf) (Z.of_nat (m + N)) (S32.reserved s)
  else
    let c := if (m =? 0)%nat then 0%nat else (16 - m)%nat in
    let blk := firstn m buf ++ firstn c X ++ skipn (m + c) buf in
    let v :=
      if (m =? 0)%nat then (S32.v1 s, S32.v2 s, S32.v3 s, S32.v4 s)
      else step32 cpu endian (S32.v1 s, S32.v2 s, S32.v3 s, S32.v4 s) blk in
    let k := ((N - c) / 16)%nat in
    let r := ((N - c) mod 16)%nat in
    let '(a, b, c', d) := blocks 16 (step32 cpu endian) k v (skipn c X) in
    S32.mk tot large a b c' d
      (firstn r (skipn (c + 16 * k) X) ++ skipn r blk) (Z.of_nat r) (S32.reserved s).

Definition update64_of (cpu endian : XXH_endianess) (s : S64.t) (X : list byte)
    : S64.t :=
  let N := length X in
  let m := Z.to_nat (S64.memsize s) in
  let buf := S64.mem64 s in
  let tot := add64 (S64.total_len s) (Z.of_nat N) in
  if (m + N <? 32)%nat then
    S64.mk tot (S64.v1 s) (S64.v2 s) (S64.v3 s) (S64.v4 s)
      (firstn m buf ++ X ++ skipn (m + N) buf) (Z.of_nat (m + N)) (S64.reserved s)
  else
    let c := if (m =? 0)%nat then 0%nat else (32 - m)%nat in
    let blk := firstn m buf ++ firstn c X ++ skipn (m + c) buf in
    let v :=
      if (m =? 0)%nat then (S64.v1 s, S64.v2 s, S64.v3 s, S64.v4 s)
      else step64 cpu endian (S64.v1 s, S64.v2 s, S64.v3 s, S64.v4 s) blk in
    let k := ((N - c) / 32)%nat in
    let r := ((N - c) mod 32)%nat in
    let '(a, b, c', d) := blocks 32 (step64 cpu endian) k v (skipn c X) in
    S64.mk tot a b c' d
      (firstn r (skipn (c + 32 * k) X) ++ skipn r blk) (Z.of_nat r) (S64.reserved s).

(** ** Configurations *)

(** The defaults of xxhash.c on a little-endian host without AVX or NEON:
    portable format, alignment check on, null input not accepted. *)
Definition default_config : config :=
  mkconfig XXH_littleEndian false true false.

Definition with_align_check (cfg : config) (b : bool) : config :=
  mkconfig (XXH_CPU_LITTLE_ENDIAN cfg) (XXH_FORCE_NATIVE_FORMAT cfg) b
           (XXH_ACCEPT_NULL_INPUT_POINTER cfg).

(** ** States in memory

    The public functions take pointers to states.  A store maps the
    address of each allocated state to its contents; a call through a
    pointer reads the state there and writes the new one back.  A pointer
    to no state is a fault. *)

(** Modelled from the spec: the layout of the state structures is in
    xxhash.h, not among the sources; the buffer follows the fields named
    before it (two 4-byte counters and four 4-byte lanes; one 8-byte
    counter and four 8-byte lanes).  No function of the base family
    depends on these addresses. *)
Definition mem32_offset : Z := 24.
Definition mem64_offset : Z := 40.

Section Store.
Variable cfg : config.

Definition XXH32_reset_at (statePtr seed : Z) (st : gmap Z S32.t)
    : result (XXH_errorcode * gmap Z S32.t) :=
  match st !! statePtr with
  | Some s => let '(e, s') := XXH32_reset s seed in Ok (e, <[statePtr := s']> st)
  | None => Fault OutOfBounds
  end.

Definition XXH32_update_at (statePtr : Z) (input : ptr) (len : Z)
    (st : gmap Z S32.t) : result (XXH_errorcode * gmap Z S32.t) :=
  match st !! statePtr with
  | Some s =>
      '(e, s') <- XXH32_update cfg (statePtr + mem32_offset) s input len ;
      Ok (e, <[statePtr := s']> st)
  | None => Fault OutOfBounds
  end.

(** The state is read through a pointer to const: the store is returned
    as it was. *)
Definition XXH32_digest_at (statePtr : Z) (st : gmap Z S32.t)
    : result (Z * gmap Z S32.t) :=
  match st !! statePtr with
  | Some s =>
      h <- XXH32_digest cfg (statePtr + mem32_offset) s ;
      Ok (h, st)
  | None => Fault OutOfBounds
  end.

Definition XXH32_copyState_at (dstState srcState : Z) (st : gmap Z S32.t)
    : result (gmap Z S32.t) :=
  match st !! dstState, st !! srcState with
  | Some d, Some s => Ok (<[dstState := XXH32_copyState d s]> st)
  | _, _ => Fault OutOfBounds
  end.

(** A sequence of update calls on one state. *)
Fixpoint XXH32_updates_at (statePtr : Z) (chunks : list (ptr * Z))
    (st : gmap Z S32.t) : result (gmap Z S32.t) :=
  match chunks with
  | [] => Ok st
  | (input, len) :: rest =>
      '(_, st') <- XXH32_update_at statePtr input len st ;
      XXH32_updates_at statePtr rest st'
  end.

Definition XXH64_reset_at (statePtr seed : Z) (st : gmap Z S64.t)
    : result (XXH_errorcode * gmap Z S64.t) :=
  match st !! statePtr with
  | Some s => let '(e, s') := XXH64_reset s seed in Ok (e, <[statePtr := s']> st)
  | None => Fault OutOfBounds
  end.

Definition XXH64_update_at (statePtr : Z) (input : ptr) (len : Z)
    (st : gmap Z S64.t) : result (XXH_errorcode * gmap Z S64.t) :=
  match st !! statePtr with
  | Some s =>
      '(e, s') <- XXH64_update cfg (statePtr + mem64_offset) s input len ;
      Ok (e, <[statePtr := s']> st)
  | None => Fault OutOfBounds
  end.

Definition XXH64_digest_at (statePtr : Z) (st : gmap Z S64.t)
    : result (Z * gmap Z S64.t) :=
  match st !! statePtr with
  | Some s =>
      h <- XXH64_digest cfg (statePtr + mem64_offset) s ;
      Ok (h, st)
  | None => Fault OutOfBounds
  end.

Definition XXH64_copyState_at (dstState srcState : Z) (st : gmap Z S64.t)
    : result (gmap Z S64.t) :=
  match st !! dstState, st !! srcState with
  | Some d, Some s => Ok (<[dstState := XXH64_copyState d s]> st)
  | _, _ => Fault OutOfBounds
  end.

Fixpoint XXH64_updates_at (statePtr : Z) (chunks : list (ptr * Z))
    (st : gmap Z S64.t) : result (gmap Z S64.t) :=
  match chunks with
  | [] => Ok st
  | (input, len) :: rest =>
      '(_, st') <- XXH64_update_at statePtr input len st ;
      XXH64_updates_at statePtr rest st'
  end.
End Store.

(** The hash a [digest_at] returns, without the store. *)
Definition hash_of {A B : Type} (r : result (A * B)) : result A :=
  '(h, _) <- r ; Ok h.

(** ** The alternative family over byte lists *)

(** One block of 32 bytes through the eight 32-bit lanes. *)
Definition step32a (cpu endian : XXH_endianess) (v : lanes8) (l : list byte)
    : lanes8 :=
  let '(v00, v01, v02, v03, v10, v11, v12, v13) := v in
  (XXH32_round v00 (word32 cpu endian l),
   XXH32_round v01 (word32 cpu endian (skipn 4 l)),
   XXH32_round v02 (word32 cpu endian (skipn 8 l)),
   XXH32_round v03 (word32 cpu endian (skipn 12 l)),
   XXH32_round v10 (word32 cpu endian (skipn 16 l)),
   XXH32_round v11 (word32 cpu endian (skipn 20 l)),
   XXH32_round v12 (word32 cpu endian (skipn 24 l)),
   XXH32_round v13 (word32 cpu endian (skipn 28 l))).

Definition init32a (seed : Z) : lanes8 :=
  let a := add32 (add32 seed PRIME32_1) PRIME32_2 in
  let b := add32 seed PRIME32_2 in
  let c := add32 seed 0 in
  let d := sub32 seed PRIME32_1 in
  (a, b, c, d, a, b, c, d).

Definition init64a (seed : Z) : lanes8 :=
  let seeds0 := to_U32 (Z.land seed 0xFFFFFFFF) in
  let seeds1 := to_U32 (Z.shiftr seed 32) in
  (add32 (add32 seeds0 PRIME32_1) PRIME32_2, add32 seeds0 PRIME32_2,
   add32 seeds0 0, sub32 seeds0 PRIME32_1,
   add32 (add32 seeds1 PRIME32_1) PRIME32_2, add32 seeds1 PRIME32_2,
   add32 seeds1 0, sub32 seeds1 PRIME32_1).

Definition merge32a (v : lanes8) : Z :=
  let '(v00, v01, v02, v03, v10, v11, v12, v13) := v in
  XXH32_merge (XXH32_round v00 v10) (XXH32_round v01 v11)
              (XXH32_round v02 v12) (XXH32_round v03 v13).

Definition merge64a (v : lanes8) : Z :=
  let '(v00, v01, v02, v03, v10, v11, v12, v13) := v in
  XXH64_merge (join64 v00 v10) (join64 v01 v11) (join64 v02 v12) (join64 v03 v13).

(** The bytes after the last whole block of [B] bytes, as the finalizer
    is handed them. *)
Definition tail_ptr (B : nat) (bytes : list byte) : ptr :=
  mkptr 1 (skipn (B * (length bytes / B)) bytes).

(** The accumulator before the length is added: the merged lanes when
    there was a whole block, the seed and the fifth prime otherwise. *)
Definition acc64_of (cpu endian : XXH_endianess) (seed : Z) (bytes : list byte) : Z :=
  if 32 <=? Z.of_nat (length bytes)
  then merge64 (blocks 32 (step64 cpu endian) (length bytes / 32) (init64 seed) bytes)
  else add64 seed PRIME64_5.

Definition acc32a_of (cpu endian : XXH_endianess) (seed : Z) (bytes : list byte) : Z :=
  if 32 <=? Z.of_nat (length bytes)
  then merge32a (blocks 32 (step32a cpu endian) (length bytes / 32) (init32a seed) bytes)
  else add32 seed PRIME32_5.

Definition acc64a_of (cpu endian : XXH_endianess) (seed : Z) (bytes : list byte) : Z :=
  if 32 <=? Z.of_nat (length bytes)
  then merge64a (blocks 32 (step32a cpu endian) (length bytes / 32) (init64a seed) bytes)
  else add64 (join64 (to_U32 (Z.land seed 0xFFFFFFFF)) (to_U32 (Z.shiftr seed 32)))
             PRIME64_5.

Definition hash32a_of (cpu endian : XXH_endianess) (seed : Z) (bytes : list byte)
    : result Z :=
  XXH32_finalize cpu endian XXH_unaligned
    (add32 (acc32a_of cpu endian seed bytes) (to_U32 (Z.of_nat (length bytes))))
    (tail_ptr 32 bytes) (Z.land (Z.of_nat (length bytes)) 31).

Definition hash64a_of (cpu endian : XXH_endianess) (seed : Z) (bytes : list byte)
    : result Z :=
  XXH64_finalize cpu endian XXH_unaligned
    (add64 (acc64a_of cpu endian seed bytes) (to_U32 (Z.of_nat (length bytes))))
    (tail_ptr 32 bytes) (Z.land (Z.of_nat (length bytes)) 31).

(** The accumulator a digest starts from, before the running total is
    added. *)
Definition XXH64_state_acc (s : S64.t) : Z :=
  if 32 <=? S64.total_len s
  then XXH64_merge (S64.v1 s) (S64.v2 s) (S64.v3 s) (S64.v4 s)
  else add64 (S64.v3 s) PRIME64_5.

Definition XXH64a_state_acc (s : S32a.t) : Z :=
  if negb (S32a.large_len s =? 0)
  then XXH64_merge (join64 (S32a.v00 s) (S32a.v10 s)) (join64 (S32a.v01 s) (S32a.v11 s))
                   (join64 (S32a.v02 s) (S32a.v12 s)) (join64 (S32a.v03 s) (S32a.v13 s))
  else add64 (join64 (S32a.v02 s) (S32a.v12 s)) PRIME64_5.

(** ** Streams

    A caller's sequence of calls on one state: reset, then the chunks one
    update each, then digest.  The error code of an update is dropped, as
    a caller that does not check it would. *)

Definition chunk : Type := (ptr * Z)%type.

Definition chunks_bytes (chunks : list chunk) : list byte :=
  concat (map (fun c => input_bytes (fst c) (snd c)) chunks).

Definition chunks_len (chunks : list chunk) : Z :=
  fold_right (fun c n => snd c + n) 0 chunks.

(** A chunk a caller may hand over: a readable buffer of that length. *)
Definition valid_chunk (c : chunk) : Prop := valid_input (fst c) (snd c).

(** A chunk that is taken in, whatever lies behind the pointer: the
    pointer is not null. *)
Definition nonnull_chunk (c : chunk) : Prop :=
  isNULL (fst c) = false /\ 0 <= snd c.

(** A chunk as a caller that relies on null being accepted may hand it
    over: a null pointer with any length, or a readable buffer. *)
Definition valid_or_null (c : chunk) : Prop :=
  isNULL (fst c) = true \/ valid_chunk c.

(** The bytes of the chunks that are not null. *)
Fixpoint fed_bytes (chunks : list chunk) : list byte :=
  match chunks with
  | [] => []
  | (input, len) :: rest =>
      if isNULL input then fed_bytes rest
      else input_bytes input len ++ fed_bytes rest
  end.

(** A buffer handed over in two pieces, cut at [k]. *)
Definition split_at (input : ptr) (len k : Z) : list chunk :=
  [(input, k); (ptr_add input k, len - k)].

Section Streams.
Variable cfg : config.
Variable mem_addr : Z.

Fixpoint XXH32_updates (chunks : list chunk) (s : S32.t) : result S32.t :=
  match chunks with
  | [] => Ok s
  | (input, len) :: rest =>
      '(_, s') <- XXH32_update cfg mem_addr s input len ;
      XXH32_updates rest s'
  end.

Definition XXH32_stream (s0 : S32.t) (seed : Z) (chunks : list chunk) : result Z :=
  s <- XXH32_updates chunks (snd (XXH32_reset s0 seed)) ;
  XXH32_digest cfg mem_addr s.

Fixpoint XXH64_updates (chunks : list chunk) (s : S64.t) : result S64.t :=
  match chunks with
  | [] => Ok s
  | (input, len) :: rest =>
      '(_, s') <- XXH64_update cfg mem_addr s input len ;
      XXH64_updates rest s'
  end.

Definition XXH64_stream (s0 : S64.t) (seed : Z) (chunks : list chunk) : result Z :=
  s <- XXH64_updates chunks (snd (XXH64_reset s0 seed)) ;
  XXH64_digest cfg mem_addr s.

Fixpoint XXH32a_updates (chunks : list chunk) (s : S32a.t) : result S32a.t :=
  match chunks with
  | [] => Ok s
  | (input, len) :: rest =>
      '(_, s') <- XXH32a_update cfg mem_addr s input len ;
      XXH32a_updates rest s'
  end.

Definition XXH32a_stream (s0 : S32a.t) (seed : Z) (chunks : list chunk) : result Z :=
  s <- XXH32a_updates chunks (snd (XXH32a_reset s0 seed)) ;
  XXH32a_digest cfg mem_addr s.

Fixpoint XXH64a_updates (chunks : list chunk) (s : S32a.t) : result S32a.t :=
  match chunks with
  | [] => Ok s
  | (input, len) :: rest =>
      '(_, s') <- XXH64a_update cfg mem_addr s input len ;
      XXH64a_updates rest s'
  end.

Variable local_addr : Z.

Definition XXH64a_stream (s0 : S32a.t) (seed : Z) (chunks : list chunk) : result Z :=
  s <- XXH64a_updates chunks (snd (XXH64a_reset s0 seed)) ;
  XXH64a_digest cfg mem_addr local_addr s.
End Streams.

(** ** Sample data *)

(** States as an allocation may hand them over, before any reset. *)
Definition sample_state32 : S32.t := S32.mk 7 1 1 2 3 4 (zeroes 16) 5 9.
Definition sample_state64 : S64.t := S64.mk 7 1 2 3 4 (zeroes 32) 5 (9, 9).
Definition sample_state32a : S32a.t :=
  S32a.mk 7 1 1 2 3 4 5 6 7 8 (zeroes 32) 5 9.

(** The value of a computation that returns, and [d] for one that does
    not. *)
Definition value_or {A : Type} (r : result A) (d : A) : A :=
  match r with
  | Ok a => a
  | Fault _ => d
  end.

(** A state with pending bytes: a reset, then one update with the 13
    bytes 0, 1, ..., 12. *)
Definition sample_pending32 : S32.t :=
  snd (value_or (XXH32_update default_config 1000
                   (snd (XXH32_reset sample_state32 5))
                   (mkptr 64 (sample_buffer 13)) 13)
                (XXH_OK, sample_state32)).

(** * Basic facts: lists, pointers, reads *)

Lemma firstn_add_split {A : Type} (k d : nat) (l l' : list A) :
  firstn (k + d) l = firstn (k + d) l' ->
  (k + d <= length l)%nat -> (k + d <= length l')%nat ->
  firstn k l = firstn k l' /\ firstn d (skipn k l) = firstn d (skipn k l').
Proof.
  revert l l'. induction k as [|k IH]; intros l l' E Hl Hl'.
  - split; [reflexivity | exact E].
  - destruct l as [|x l]; [simpl in Hl; lia|].
    destruct l' as [|x' l']; [simpl in Hl'; lia|].
    simpl in E, Hl, Hl'. injection E as -> E.
    destruct (IH l l' E) as [E1 E2]; [lia | lia |].
    simpl. rewrite E1. split; [reflexivity | exact E2].
Qed.

Lemma mem_ptr_add p n : mem (ptr_add p n) = skipn (Z.to_nat n) (mem p).
Proof. reflexivity. Qed.

Lemma addr_ptr_add p n : addr (ptr_add p n) = addr p + n.
Proof. reflexivity. Qed.

Lemma ptr_add_add p a b :
  0 <= a -> 0 <= b -> ptr_add (ptr_add p a) b = ptr_add p (a + b).
Proof.
  intros Ha Hb. unfold ptr_add. cbn [addr mem]. f_equal; [lia|].
  rewrite skipn_skipn. f_equal. lia.
Qed.

Lemma ptr_add_0 p : ptr_add p 0 = p.
Proof. destruct p as [a m]. unfold ptr_add. cbn [addr mem]. f_equal. lia. Qed.

Lemma length_mem_ptr_add p n :
  length (mem (ptr_add p n)) = (length (mem p) - Z.to_nat n)%nat.
Proof. rewrite mem_ptr_add. apply length_skipn. Qed.

(** ** Reads *)

Lemma load32_word cpu p :
  (4 <= length (mem p))%nat ->
  load32 cpu p = Ok (word32 cpu XXH_littleEndian (mem p)).
Proof.
  unfold load32, word32.
  destruct (mem p) as [|b0 [|b1 [|b2 [|b3 l]]]]; cbn [length]; intros H;
    try lia; reflexivity.
Qed.

Lemma readLE32_align_word cpu p endian align :
  (4 <= length (mem p))%nat ->
  XXH_readLE32_align cpu p endian align = Ok (word32 cpu endian (mem p)).
Proof.
  unfold XXH_readLE32_align, XXH_read32, load32, word32.
  destruct (mem p) as [|b0 [|b1 [|b2 [|b3 l]]]]; cbn [length]; intros H;
    try lia; destruct align, endian; reflexivity.
Qed.

Lemma readLE32_word cpu p endian :
  (4 <= length (mem p))%nat ->
  XXH_readLE32 cpu p endian = Ok (word32 cpu endian (mem p)).
Proof. apply readLE32_align_word. Qed.

Lemma load64_word cpu p :
  (8 <= length (mem p))%nat ->
  load64 cpu p = Ok (word64 cpu XXH_littleEndian (mem p)).
Proof.
  unfold load64, word64.
  destruct (mem p) as [|b0 [|b1 [|b2 [|b3 [|b4 [|b5 [|b6 [|b7 l]]]]]]]];
    cbn [length]; intros H; try lia; reflexivity.
Qed.

Lemma readLE64_align_word cpu p endian align :
  (8 <= length (mem p))%nat ->
  XXH_readLE64_align cpu p endian align = Ok (word64 cpu endian (mem p)).
Proof.
  unfold XXH_readLE64_align, XXH_read64, load64, word64.
  destruct (mem p) as [|b0 [|b1 [|b2 [|b3 [|b4 [|b5 [|b6 [|b7 l]]]]]]]];
    cbn [length]; intros H; try lia; destruct align, endian; reflexivity.
Qed.

Lemma readLE64_word cpu p endian :
  (8 <= length (mem p))%nat ->
  XXH_readLE64 cpu p endian = Ok (word64 cpu endian (mem p)).
Proof. apply readLE64_align_word. Qed.

(** A word depends on its own bytes only. *)
Lemma word32_firstn cpu endian l l' :
  firstn 4 l = firstn 4 l' -> (4 <= length l)%nat -> (4 <= length l')%nat ->
  word32 cpu endian l = word32 cpu endian l'.
Proof.
  destruct l as [|b0 [|b1 [|b2 [|b3 l]]]]; cbn [length]; try lia.
  destruct l' as [|c0 [|c1 [|c2 [|c3 l']]]]; cbn [length]; try lia.
  intros E _ _. cbn [firstn] in E. injection E as -> -> -> ->. reflexivity.
Qed.

Lemma word64_firstn cpu endian l l' :
  firstn 8 l = firstn 8 l' -> (8 <= length l)%nat -> (8 <= length l')%nat ->
  word64 cpu endian l = word64 cpu endian l'.
Proof.
  destruct l as [|b0 [|b1 [|b2 [|b3 [|b4 [|b5 [|b6 [|b7 l]]]]]]]];
    cbn [length]; try lia.
  destruct l' as [|c0 [|c1 [|c2 [|c3 [|c4 [|c5 [|c6 [|c7 l']]]]]]]];
    cbn [length]; try lia.
  intros E _ _. cbn [firstn] in E. injection E as -> -> -> -> -> -> -> ->.
  reflexivity.
Qed.

(** The alignment argument of a read does not change what is read. *)
Lemma readLE32_align_any cpu p endian a1 a2 :
  XXH_readLE32_align cpu p endian a1 = XXH_readLE32_align cpu p endian a2.
Proof. destruct a1, a2; reflexivity. Qed.

Lemma readLE64_align_any cpu p endian a1 a2 :
  XXH_readLE64_align cpu p endian a1 = XXH_readLE64_align cpu p endian a2.
Proof. destruct a1, a2; reflexivity. Qed.

(** ** Loops *)

Lemma do_while_ext {S : Type} (b1 b2 : S -> result S) (c1 c2 : S -> bool) :
  (forall s, b1 s = b2 s) -> (forall s, c1 s = c2 s) ->
  forall fuel s, do_while fuel b1 c1 s = do_while fuel b2 c2 s.
Proof.
  intros Hb Hc fuel. induction fuel as [|fuel IH]; intros s; [reflexivity|].
  cbn [do_while]. rewrite Hb. destruct (b2 s) as [s'|f]; [|reflexivity].
  cbn [bind]. rewrite Hc. destruct (c2 s'); [apply IH | reflexivity].
Qed.

(** When the loop returns, its condition is false. *)
Lemma do_while_exit {S : Type} (body : S -> result S) (cond : S -> bool) :
  forall fuel s s', do_while fuel body cond s = Ok s' -> cond s' = false.
Proof.
  induction fuel as [|fuel IH]; intros s s' H; [discriminate|].
  cbn [do_while] in H. destruct (body s) as [s1|f]; [|discriminate].
  cbn [bind] in H. destruct (cond s1) eqn:E.
  - eapply IH; eassumption.
  - injection H as <-. exact E.
Qed.

Section BlockLoop.
Context {L : Type}.
Variable B : nat.
Variable step : L -> list byte -> L.
Variable body : L * ptr -> result (L * ptr).
Variable cond : L * ptr -> bool.
Variable lim : Z.
Hypothesis B_pos : (0 < B)%nat.
Hypothesis body_ok : forall v p,
  (B <= length (mem p))%nat ->
  body (v, p) = Ok (step v (mem p), ptr_add p (Z.of_nat B)).
Hypothesis cond_spec : forall v p, cond (v, p) = (addr p <=? lim).

(** The loop over [n + 1] whole blocks: enough fuel, and the blocks are
    readable. *)
Lemma do_while_blocks : forall n fuel v p,
  addr p + Z.of_nat B * Z.of_nat n <= lim < addr p + Z.of_nat B * (Z.of_nat n + 1) ->
  (B * (n + 1) <= length (mem p))%nat ->
  (n < fuel)%nat ->
  do_while fuel body cond (v, p)
  = Ok (blocks B step (S n) v (mem p), ptr_add p (Z.of_nat (B * S n))).
Proof.
  induction n as [|n IH]; intros fuel v p Hlim Hlen Hfuel;
    (destruct fuel as [|fuel]; [lia|]); cbn [do_while].
  - rewrite body_ok by lia. cbn [bind]. rewrite cond_spec, addr_ptr_add.
    destruct (Z.leb_spec (addr p + Z.of_nat B) lim); [lia|].
    cbn [blocks]. do 3 f_equal. lia.
  - rewrite body_ok by lia. cbn [bind]. rewrite cond_spec, addr_ptr_add.
    destruct (Z.leb_spec (addr p + Z.of_nat B) lim); [|lia].
    rewrite IH.
    + rewrite ptr_add_add by lia. rewrite mem_ptr_add, Nat2Z.id.
      cbn [blocks]. do 3 f_equal. lia.
    + rewrite addr_ptr_add. lia.
    + rewrite length_mem_ptr_add, Nat2Z.id. nia.
    + lia.
Qed.
End BlockLoop.

(** * The block engines *)

Section BlocksFacts.
Context {L : Type}.
Variable B : nat.
Variable step : L -> list byte -> L.
Hypothesis step_firstn : forall v l l',
  firstn B l = firstn B l' -> (B <= length l)%nat -> (B <= length l')%nat ->
  step v l = step v l'.

Lemma blocks_ext : forall n v l l',
  firstn (B * n) l = firstn (B * n) l' ->
  (B * n <= length l)%nat -> (B * n <= length l')%nat ->
  blocks B step n v l = blocks B step n v l'.
Proof.
  induction n as [|n IH]; intros v l l' E Hl Hl'; [reflexivity|].
  cbn [blocks].
  replace (B * S n)%nat with (B + B * n)%nat in E by lia.
  apply firstn_add_split in E; [|lia|lia]. destruct E as [E1 E2].
  rewrite (step_firstn v l l') by (assumption || lia).
  apply IH; [exact E2 | rewrite length_skipn; lia | rewrite length_skipn; lia].
Qed.

Lemma blocks_add : forall n m v l,
  blocks B step (n + m) v l
  = blocks B step m (blocks B step n v l) (skipn (B * n) l).
Proof.
  induction n as [|n IH]; intros m v l.
  - rewrite Nat.mul_0_r. reflexivity.
  - cbn [blocks Nat.add]. rewrite IH, skipn_skipn.
    do 2 f_equal. lia.
Qed.

Lemma blocks_app_l n v l x :
  (B * n <= length l)%nat ->
  blocks B step n v (l ++ x) = blocks B step n v l.
Proof.
  intros H. apply blocks_ext.
  - rewrite firstn_app. replace (B * n - length l)%nat with 0%nat by lia.
    cbn [firstn]. apply app_nil_r.
  - rewrite length_app. lia.
  - exact H.
Qed.
End BlocksFacts.

Lemma step32_firstn cpu endian v l l' :
  firstn 16 l = firstn 16 l' -> (16 <= length l)%nat -> (16 <= length l')%nat ->
  step32 cpu endian v l = step32 cpu endian v l'.
Proof.
  intros E Hl Hl'. destruct v as [[[v1 v2] v3] v4]. unfold step32.
  pose proof (firstn_add_split 4 12 l l' E Hl Hl') as [E0 E'].
  pose proof (firstn_add_split 8 8 l l' E Hl Hl') as [_ E8].
  pose proof (firstn_add_split 12 4 l l' E Hl Hl') as [_ E12].
  assert (E4 : firstn 4 (skipn 4 l) = firstn 4 (skipn 4 l')).
  { apply (firstn_add_split 4 8 _ _ E'); rewrite length_skipn; lia. }
  assert (E8' : firstn 4 (skipn 8 l) = firstn 4 (skipn 8 l')).
  { apply (firstn_add_split 4 4 _ _ E8); rewrite length_skipn; lia. }
  rewrite (word32_firstn cpu endian l l'),
    (word32_firstn cpu endian (skipn 4 l) (skipn 4 l')),
    (word32_firstn cpu endian (skipn 8 l) (skipn 8 l')),
    (word32_firstn cpu endian (skipn 12 l) (skipn 12 l'));
    rewrite ?length_skipn; try lia; try assumption.
  reflexivity.
Qed.

Lemma step64_firstn cpu endian v l l' :
  firstn 32 l = firstn 32 l' -> (32 <= length l)%nat -> (32 <= length l')%nat ->
  step64 cpu endian v l = step64 cpu endian v l'.
Proof.
  intros E Hl Hl'. destruct v as [[[v1 v2] v3] v4]. unfold step64.
  pose proof (firstn_add_split 8 24 l l' E Hl Hl') as [E0 E'].
  pose proof (firstn_add_split 16 16 l l' E Hl Hl') as [_ E16].
  pose proof (firstn_add_split 24 8 l l' E Hl Hl') as [_ E24].
  assert (E8 : firstn 8 (skipn 8 l) = firstn 8 (skipn 8 l')).
  { apply (firstn_add_split 8 16 _ _ E'); rewrite length_skipn; lia. }
  assert (E16' : firstn 8 (skipn 16 l) = firstn 8 (skipn 16 l')).
  { apply (firstn_add_split 8 8 _ _ E16); rewrite length_skipn; lia. }
  rewrite (word64_firstn cpu endian l l'),
    (word64_firstn cpu endian (skipn 8 l) (skipn 8 l')),
    (word64_firstn cpu endian (skipn 16 l) (skipn 16 l')),
    (word64_firstn cpu endian (skipn 24 l) (skipn 24 l'));
    rewrite ?length_skipn; try lia; try assumption.
  reflexivity.
Qed.

(** Pointer arithmetic on literals, and the side conditions of reads. *)
Ltac norm_ptr :=
  repeat rewrite ptr_add_add by lia;
  repeat rewrite ptr_add_0;
  repeat match goal with
  | |- context [ptr_add ?p (Zpos ?a + Zpos ?b)] =>
      let c := eval vm_compute in (Zpos a + Zpos b) in
      change (Zpos a + Zpos b) with c
  end.

Ltac read_side :=
  rewrite ?length_mem_ptr_add; lia.

Ltac run_reads :=
  repeat first
    [ rewrite readLE32_align_word by read_side
    | rewrite readLE32_word by read_side
    | rewrite load32_word by read_side
    | rewrite readLE64_align_word by read_side
    | rewrite readLE64_word by read_side
    | rewrite load64_word by read_side
    | progress cbn [bind] ].

Lemma XXH32_stripe_ok cfg endian align v p :
  (16 <= length (mem p))%nat ->
  XXH32_stripe cfg endian align (v, p)
  = Ok (step32 (XXH_CPU_LITTLE_ENDIAN cfg) endian v (mem p), ptr_add p 16).
Proof.
  intros H. destruct v as [[[v1 v2] v3] v4]. unfold XXH32_stripe, step32.
  norm_ptr. run_reads. rewrite !mem_ptr_add. reflexivity.
Qed.

Lemma XXH32_stripe_aligned_ok cfg v p :
  (16 <= length (mem p))%nat ->
  XXH32_stripe_aligned cfg (v, p)
  = Ok (step32 (XXH_CPU_LITTLE_ENDIAN cfg) XXH_littleEndian v (mem p), ptr_add p 16).
Proof.
  intros H. destruct v as [[[v1 v2] v3] v4]. unfold XXH32_stripe_aligned, step32.
  norm_ptr. run_reads. rewrite !mem_ptr_add. reflexivity.
Qed.

Lemma XXH32_update_stripe_ok cfg endian v p :
  (16 <= length (mem p))%nat ->
  XXH32_update_stripe cfg endian (v, p)
  = Ok (step32 (XXH_CPU_LITTLE_ENDIAN cfg) endian v (mem p), ptr_add p 16).
Proof.
  intros H. destruct v as [[[v1 v2] v3] v4]. unfold XXH32_update_stripe, step32.
  norm_ptr. run_reads. rewrite !mem_ptr_add. reflexivity.
Qed.

Lemma XXH32_update_stripe_aligned_ok cfg v p :
  (16 <= length (mem p))%nat ->
  XXH32_update_stripe_aligned cfg (v, p)
  = Ok (step32 (XXH_CPU_LITTLE_ENDIAN cfg) XXH_littleEndian v (mem p), ptr_add p 16).
Proof.
  intros H. destruct v as [[[v1 v2] v3] v4]. unfold XXH32_update_stripe_aligned, step32.
  norm_ptr. run_reads. rewrite !mem_ptr_add. reflexivity.
Qed.

Lemma XXH64_stripe_ok cfg endian align v p :
  (32 <= length (mem p))%nat ->
  XXH64_stripe cfg endian align (v, p)
  = Ok (step64 (XXH_CPU_LITTLE_ENDIAN cfg) endian v (mem p), ptr_add p 32).
Proof.
  intros H. destruct v as [[[v1 v2] v3] v4]. unfold XXH64_stripe, step64.
  norm_ptr. run_reads. rewrite !mem_ptr_add. reflexivity.
Qed.

Lemma XXH64_stripe_aligned_ok cfg v p :
  (32 <= length (mem p))%nat ->
  XXH64_stripe_aligned cfg (v, p)
  = Ok (step64 (XXH_CPU_LITTLE_ENDIAN cfg) XXH_littleEndian v (mem p), ptr_add p 32).
Proof.
  intros H. destruct v as [[[v1 v2] v3] v4]. unfold XXH64_stripe_aligned, step64.
  norm_ptr. run_reads. rewrite !mem_ptr_add. reflexivity.
Qed.

Lemma XXH64_update_stripe_ok cfg endian v p :
  (32 <= length (mem p))%nat ->
  XXH64_update_stripe cfg endian (v, p)
  = Ok (step64 (XXH_CPU_LITTLE_ENDIAN cfg) endian v (mem p), ptr_add p 32).
Proof.
  intros H. destruct v as [[[v1 v2] v3] v4]. unfold XXH64_update_stripe, step64.
  norm_ptr. run_reads. rewrite !mem_ptr_add. reflexivity.
Qed.

(** * The finalizers *)

Lemma land_31 len : Z.land len 31 = len mod 32.
Proof. change 31 with (Z.ones 5). rewrite Z.land_ones by lia. reflexivity. Qed.

Lemma land_15 len : Z.land len 15 = len mod 16.
Proof. change 15 with (Z.ones 4). rewrite Z.land_ones by lia. reflexivity. Qed.

Lemma land_7 a : Z.land a 7 = a mod 8.
Proof. change 7 with (Z.ones 3). rewrite Z.land_ones by lia. reflexivity. Qed.

Lemma land_3 a : Z.land a 3 = a mod 4.
Proof. change 3 with (Z.ones 2). rewrite Z.land_ones by lia. reflexivity. Qed.

(** Every value of [len&31] has its case, and the statements from that
    case on read exactly that many bytes. *)
Lemma switch32_demand n :
  (n < 32)%nat ->
  exists ss, switch_from (Z.of_nat n) XXH32_finalize_cases = Some ss
             /\ demand ss = n.
Proof.
  intros H.
  do 32 (destruct n as [|n]; [eexists; split; vm_compute; reflexivity|]).
  lia.
Qed.

Lemma switch64_demand n :
  (n < 32)%nat ->
  exists ss, switch_from (Z.of_nat n) XXH64_finalize_cases = Some ss
             /\ demand ss = n.
Proof.
  intros H.
  do 32 (destruct n as [|n]; [eexists; split; vm_compute; reflexivity|]).
  lia.
Qed.

Lemma read8_head p b l : mem p = b :: l -> read8 p = Ok (BYTE_val b).
Proof. unfold read8. now intros ->. Qed.

Section Run.
Variables (cpu endian : XXH_endianess).

Lemma XXH32_run_ext : forall ss h p q a1 a2,
  firstn (demand ss) (mem p) = firstn (demand ss) (mem q) ->
  (demand ss <= length (mem p))%nat -> (demand ss <= length (mem q))%nat ->
  XXH32_run cpu endian a1 ss h p = XXH32_run cpu endian a2 ss h q.
Proof.
  induction ss as [|s ss IH]; intros h p q a1 a2 E Hp Hq; [reflexivity|].
  destruct s; cbn [XXH32_run demand] in *; try reflexivity.
  - (* PROCESS1 *)
    destruct (firstn_add_split 1 (demand ss) _ _ E Hp Hq) as [E1 E2].
    destruct (mem p) as [|b l] eqn:Mp; [cbn [length] in Hp; lia|].
    destruct (mem q) as [|b' l'] eqn:Mq; [cbn [length] in Hq; lia|].
    cbn [firstn] in E1. injection E1 as <-.
    rewrite (read8_head p b l Mp), (read8_head q b l' Mq). cbn [bind].
    apply IH; rewrite ?mem_ptr_add, ?Mp, ?Mq; cbn [length] in *;
      rewrite ?length_skipn; cbn [length]; try lia. exact E2.
  - (* PROCESS4 *)
    destruct (firstn_add_split 4 (demand ss) _ _ E Hp Hq) as [E1 E2].
    rewrite (readLE32_align_word cpu p) by lia.
    rewrite (readLE32_align_word cpu q) by lia. cbn [bind].
    rewrite (word32_firstn cpu endian _ _ E1) by lia.
    apply IH; rewrite ?mem_ptr_add; rewrite ?length_skipn; try lia. exact E2.
Qed.

Lemma XXH32_run_total : forall ss h p a,
  (demand ss <= length (mem p))%nat ->
  exists r, XXH32_run cpu endian a ss h p = Ok r.
Proof.
  induction ss as [|s ss IH]; intros h p a Hp; [eexists; reflexivity|].
  destruct s; cbn [XXH32_run demand] in *; try (eexists; reflexivity).
  - destruct (mem p) as [|b l] eqn:Mp; [cbn [length] in Hp; lia|].
    rewrite (read8_head p b l Mp). cbn [bind].
    apply IH. rewrite mem_ptr_add, Mp. cbn [length] in *.
    rewrite length_skipn. cbn [length]. lia.
  - rewrite (readLE32_align_word cpu p) by lia. cbn [bind].
    apply IH. rewrite mem_ptr_add, length_skipn. lia.
Qed.

Lemma XXH64_run_ext : forall ss h p q a1 a2,
  firstn (demand ss) (mem p) = firstn (demand ss) (mem q) ->
  (demand ss <= length (mem p))%nat -> (demand ss <= length (mem q))%nat ->
  XXH64_run cpu endian a1 ss h p = XXH64_run cpu endian a2 ss h q.
Proof.
  induction ss as [|s ss IH]; intros h p q a1 a2 E Hp Hq; [reflexivity|].
  destruct s; cbn [XXH64_run demand] in *; try reflexivity.
  - destruct (firstn_add_split 1 (demand ss) _ _ E Hp Hq) as [E1 E2].
    destruct (mem p) as [|b l] eqn:Mp; [cbn [length] in Hp; lia|].
    destruct (mem q) as [|b' l'] eqn:Mq; [cbn [length] in Hq; lia|].
    cbn [firstn] in E1. injection E1 as <-.
    rewrite (read8_head p b l Mp), (read8_head q b l' Mq). cbn [bind].
    apply IH; rewrite ?mem_ptr_add, ?Mp, ?Mq; cbn [length] in *;
      rewrite ?length_skipn; cbn [length]; try lia. exact E2.
  - destruct (firstn_add_split 4 (demand ss) _ _ E Hp Hq) as [E1 E2].
    rewrite (readLE32_align_word cpu p) by lia.
    rewrite (readLE32_align_word cpu q) by lia. cbn [bind].
    rewrite (word32_firstn cpu endian _ _ E1) by lia.
    apply IH; rewrite ?mem_ptr_add; rewrite ?length_skipn; try lia. exact E2.
  - destruct (firstn_add_split 8 (demand ss) _ _ E Hp Hq) as [E1 E2].
    rewrite (readLE64_align_word cpu p) by lia.
    rewrite (readLE64_align_word cpu q) by lia. cbn [bind].
    rewrite (word64_firstn cpu endian _ _ E1) by lia.
    apply IH; rewrite ?mem_ptr_add; rewrite ?length_skipn; try lia. exact E2.
Qed.

Lemma XXH64_run_total : forall ss h p a,
  (demand ss <= length (mem p))%nat ->
  exists r, XXH64_run cpu endian a ss h p = Ok r.
Proof.
  induction ss as [|s ss IH]; intros h p a Hp; [eexists; reflexivity|].
  destruct s; cbn [XXH64_run demand] in *; try (eexists; reflexivity).
  - destruct (mem p) as [|b l] eqn:Mp; [cbn [length] in Hp; lia|].
    rewrite (read8_head p b l Mp). cbn [bind].
    apply IH. rewrite mem_ptr_add, Mp. cbn [length] in *.
    rewrite length_skipn. cbn [length]. lia.
  - rewrite (readLE32_align_word cpu p) by lia. cbn [bind].
    apply IH. rewrite mem_ptr_add, length_skipn. lia.
  - rewrite (readLE64_align_word cpu p) by lia. cbn [bind].
    apply IH. rewrite mem_ptr_add, length_skipn. lia.
Qed.

(** The finalizer reads the first [len&31] bytes at [p] and nothing
    else, whatever the alignment argument. *)
Lemma XXH32_finalize_ext h p q len1 len2 a1 a2 (n : nat) :
  Z.land len1 31 = Z.of_nat n -> Z.land len2 31 = Z.of_nat n ->
  firstn n (mem p) = firstn n (mem q) ->
  (n <= length (mem p))%nat -> (n <= length (mem q))%nat ->
  XXH32_finalize cpu endian a1 h p len1 = XXH32_finalize cpu endian a2 h q len2.
Proof.
  intros E1 E2 E Hp Hq. unfold XXH32_finalize. rewrite E1, E2.
  assert (Hn : (n < 32)%nat).
  { rewrite land_31 in E1. pose proof (Z.mod_pos_bound len1 32). lia. }
  destruct (switch32_demand n Hn) as (ss & -> & D).
  apply XXH32_run_ext; rewrite D; assumption.
Qed.

Lemma XXH32_finalize_total h p len a (n : nat) :
  Z.land len 31 = Z.of_nat n -> (n <= length (mem p))%nat ->
  exists r, XXH32_finalize cpu endian a h p len = Ok r.
Proof.
  intros E1 Hp. unfold XXH32_finalize. rewrite E1.
  assert (Hn : (n < 32)%nat).
  { rewrite land_31 in E1. pose proof (Z.mod_pos_bound len 32). lia. }
  destruct (switch32_demand n Hn) as (ss & -> & D).
  apply XXH32_run_total. rewrite D. assumption.
Qed.

Lemma XXH64_finalize_ext h p q len1 len2 a1 a2 (n : nat) :
  Z.land len1 31 = Z.of_nat n -> Z.land len2 31 = Z.of_nat n ->
  firstn n (mem p) = firstn n (mem q) ->
  (n <= length (mem p))%nat -> (n <= length (mem q))%nat ->
  XXH64_finalize cpu endian a1 h p len1 = XXH64_finalize cpu endian a2 h q len2.
Proof.
  intros E1 E2 E Hp Hq. unfold XXH64_finalize. rewrite E1, E2.
  assert (Hn : (n < 32)%nat).
  { rewrite land_31 in E1. pose proof (Z.mod_pos_bound len1 32). lia. }
  destruct (switch64_demand n Hn) as (ss & -> & D).
  apply XXH64_run_ext; rewrite D; assumption.
Qed.

Lemma XXH64_finalize_total h p len a (n : nat) :
  Z.land len 31 = Z.of_nat n -> (n <= length (mem p))%nat ->
  exists r, XXH64_finalize cpu endian a h p len = Ok r.
Proof.
  intros E1 Hp. unfold XXH64_finalize. rewrite E1.
  assert (Hn : (n < 32)%nat).
  { rewrite land_31 in E1. pose proof (Z.mod_pos_bound len 32). lia. }
  destruct (switch64_demand n Hn) as (ss & -> & D).
  apply XXH64_run_total. rewrite D. assumption.
Qed.
End Run.

(** * XXH32: one-shot and streaming against the hash of the bytes *)

Lemma length_input_bytes p len :
  0 <= len <= Z.of_nat (length (mem p)) ->
  length (input_bytes p len) = Z.to_nat len.
Proof. intros H. unfold input_bytes. rewrite length_firstn. lia. Qed.

Lemma valid_not_null p len : valid_input p len -> isNULL p = false.
Proof. intros (H & _). unfold isNULL. apply Z.eqb_neq. lia. Qed.

Lemma firstn_input_bytes p len (k : nat) :
  (k <= Z.to_nat len)%nat ->
  firstn k (input_bytes p len) = firstn k (mem p).
Proof.
  intros H. unfold input_bytes. rewrite firstn_firstn. f_equal. lia.
Qed.

Lemma skipn_input_bytes p len (k : nat) :
  skipn k (input_bytes p len) = firstn (Z.to_nat len - k) (skipn k (mem p)).
Proof. unfold input_bytes. apply skipn_firstn_comm. Qed.

Lemma cond_lt_spec limit (v : lanes) (p : ptr) :
  (let '(_, _, _, _, p) := (v, p) in addr p <? limit) = (addr p <=? limit - 1).
Proof.
  destruct v as [[[v1 v2] v3] v4].
  destruct (Z.ltb_spec (addr p) limit), (Z.leb_spec (addr p) (limit - 1));
    lia || reflexivity.
Qed.

Lemma cond_le_spec limit (v : lanes) (p : ptr) :
  (let '(_, _, _, _, p) := (v, p) in addr p <=? limit) = (addr p <=? limit).
Proof. destruct v as [[[v1 v2] v3] v4]. reflexivity. Qed.

Ltac s32_simpl :=
  unfold S32.set_memsize, S32.set_mem32, S32.set_v, S32.set_large_len,
    S32.set_total_len_32;
  cbn [S32.v1 S32.v2 S32.v3 S32.v4 S32.mem32 S32.memsize S32.total_len_32
       S32.large_len S32.reserved].

Section XXH32_facts.
Variable cfg : config.
Let cpu := XXH_CPU_LITTLE_ENDIAN cfg.

(** The block loop of the one-shot function, in either variant. *)
Lemma XXH32_oneshot_loop endian align (p : ptr) (bEnd : Z) (fuel : nat)
    (v : lanes) (n r : nat) :
  bEnd = addr p + Z.of_nat (16 * (n + 1) + r) -> (r < 16)%nat ->
  (16 * (n + 1) + r <= length (mem p))%nat -> (n < fuel)%nat ->
  (if XXH_FORCE_ALIGN_CHECK cfg
      && XXH_alignment_eqb align XXH_aligned
      && XXH_endianess_eqb endian XXH_littleEndian
   then do_while fuel (XXH32_stripe_aligned cfg)
          (fun '(_, _, _, _, p) => addr p <? bEnd - 15) (v, p)
   else do_while fuel (XXH32_stripe cfg endian align)
          (fun '(_, _, _, _, p) => addr p <? bEnd - 15) (v, p))
  = Ok (blocks 16 (step32 cpu endian) (S n) v (mem p),
        ptr_add p (Z.of_nat (16 * S n))).
Proof.
  intros -> Hr Hlen Hfuel.
  destruct (XXH_FORCE_ALIGN_CHECK cfg && XXH_alignment_eqb align XXH_aligned
            && XXH_endianess_eqb endian XXH_littleEndian) eqn:E.
  - assert (endian = XXH_littleEndian) as ->.
    { destruct endian; [|reflexivity]. rewrite andb_false_r in E. discriminate. }
    apply (do_while_blocks 16 (step32 cpu XXH_littleEndian)) with
      (lim := addr p + Z.of_nat (16 * (n + 1) + r) - 15 - 1);
      try lia.
    + intros v0 p0 H0. apply XXH32_stripe_aligned_ok. exact H0.
    + intros v0 p0. apply cond_lt_spec.
  - apply (do_while_blocks 16 (step32 cpu endian)) with
      (lim := addr p + Z.of_nat (16 * (n + 1) + r) - 15 - 1);
      try lia.
    + intros v0 p0 H0. apply XXH32_stripe_ok. exact H0.
    + intros v0 p0. apply cond_lt_spec.
Qed.

Lemma XXH32_endian_align_hash p len seed endian align :
  valid_input p len ->
  XXH32_endian_align cfg p len seed endian align
  = hash32_of cpu endian seed (input_bytes p len).
Proof.
  intros V. pose proof V as (Ha & Hl & Hm).
  unfold XXH32_endian_align. rewrite (valid_not_null _ _ V), andb_false_r.
  unfold hash32_of. rewrite length_input_bytes by lia.
  remember (Z.to_nat len) as N eqn:EN.
  assert (Elen : len = Z.of_nat N) by lia. rewrite Elen.
  pose proof (Nat.div_mod_eq N 16) as Hdm.
  pose proof (Nat.mod_upper_bound N 16 ltac:(lia)) as Hr.
  remember (N / 16)%nat as q eqn:Eq. remember (N mod 16)%nat as r eqn:Er.
  assert (Hland15 : Z.land (Z.land (Z.of_nat N) 15) 31 = Z.of_nat r).
  { rewrite land_15, land_31, Er, Nat2Z.inj_mod. change (Z.of_nat 16) with 16.
    pose proof (Z.mod_pos_bound (Z.of_nat N) 16). apply Z.mod_small. lia. }
  destruct q as [|n].
  - (* fewer than one block *)
    destruct (Z.leb_spec 16 (Z.of_nat N)); [lia|]. cbn [bind].
    apply (XXH32_finalize_ext cpu endian) with (n := r);
      try exact Hland15; change (16 * 0)%nat with 0%nat; cbn [mem];
      rewrite ?skipn_O.
    + rewrite firstn_input_bytes; [reflexivity | lia].
    + lia.
    + rewrite length_input_bytes; lia.
  - (* at least one block *)
    destruct (Z.leb_spec 16 (Z.of_nat N)); [|lia].
    assert (EN' : N = (16 * (n + 1) + r)%nat) by lia.
    change (add32 (add32 seed PRIME32_1) PRIME32_2, add32 seed PRIME32_2,
            add32 seed 0, sub32 seed PRIME32_1, p) with (init32 seed, p).
    rewrite (XXH32_oneshot_loop endian align p _ N (init32 seed) n r); try lia.
    cbn [bind].
    rewrite (blocks_ext 16 (step32 cpu endian) (step32_firstn cpu endian)
               (S n) (init32 seed) (input_bytes p (Z.of_nat N)) (mem p)).
    2:{ apply firstn_input_bytes. lia. }
    2:{ rewrite length_input_bytes; lia. }
    2:{ lia. }
    destruct (blocks 16 (step32 cpu endian) (S n) (init32 seed) (mem p))
      as [[[a b] c] d]. cbn [bind merge32].
    apply (XXH32_finalize_ext cpu endian) with (n := r);
      try exact Hland15; cbn [mem].
    + rewrite mem_ptr_add, Nat2Z.id, skipn_input_bytes, firstn_firstn.
      f_equal. lia.
    + rewrite mem_ptr_add, Nat2Z.id, length_skipn. lia.
    + rewrite skipn_input_bytes, length_firstn, length_skipn. lia.
Qed.

(** The second half of [XXH32_update_endian]: the block loop over the
    input, then the copy of what is left into the buffer. *)
Lemma XXH32_update_tail endian (state : S32.t) (p : ptr) (bEnd : Z)
    (fuel k r : nat) :
  bEnd = addr p + Z.of_nat (16 * k + r) -> (r < 16)%nat ->
  (16 * k + r <= length (mem p))%nat -> (k <= fuel)%nat ->
  length (S32.mem32 state) = 16%nat -> S32.memsize state = 0 ->
  ('(state, p) <-
     (if addr p <=? bEnd - 16 then
        let limit := bEnd - 16 in
        '(v1, v2, v3, v4, p) <-
          (if XXH_FORCE_ALIGN_CHECK cfg
              && (Z.land (addr p) 3 =? 0)
              && XXH_endianess_eqb endian XXH_littleEndian
           then do_while fuel (XXH32_update_stripe_aligned cfg)
                  (fun '(_, _, _, _, p) => addr p <=? limit)
                  (S32.v1 state, S32.v2 state, S32.v3 state, S32.v4 state, p)
           else do_while fuel (XXH32_update_stripe cfg endian)
                  (fun '(_, _, _, _, p) => addr p <=? limit)
                  (S32.v1 state, S32.v2 state, S32.v3 state, S32.v4 state, p)) ;
        Ok (S32.set_v state v1 v2 v3 v4, p)
      else Ok (state, p)) ;
   if addr p <? bEnd then
     m <- XXH_memcpy (S32.mem32 state) 0 p (to_size_t (bEnd - addr p)) ;
     let state := S32.set_mem32 state m in
     let state := S32.set_memsize state (to_U32 (bEnd - addr p)) in
     Ok (XXH_OK, state)
   else Ok (XXH_OK, state))
  = let '(a, b, c, d) :=
      blocks 16 (step32 cpu endian) k
        (S32.v1 state, S32.v2 state, S32.v3 state, S32.v4 state) (mem p) in
    Ok (XXH_OK,
        S32.mk (S32.total_len_32 state) (S32.large_len state) a b c d
          (firstn r (skipn (16 * k) (mem p)) ++ skipn r (S32.mem32 state))
          (Z.of_nat r) (S32.reserved state)).
Proof.
  intros -> Hr Hlen Hfuel Hbuf Hms.
  destruct state as [tot large v1 v2 v3 v4 buf ms res].
  cbn [S32.v1 S32.v2 S32.v3 S32.v4 S32.mem32 S32.memsize S32.total_len_32
       S32.large_len S32.reserved S32.set_v S32.set_mem32 S32.set_memsize] in *.
  subst ms.
  assert (Hloop : forall n, k = S n ->
    (if XXH_FORCE_ALIGN_CHECK cfg && (Z.land (addr p) 3 =? 0)
        && XXH_endianess_eqb endian XXH_littleEndian
     then do_while fuel (XXH32_update_stripe_aligned cfg)
            (fun '(_, _, _, _, p0) => addr p0 <=? addr p + Z.of_nat (16 * k + r) - 16)
            (v1, v2, v3, v4, p)
     else do_while fuel (XXH32_update_stripe cfg endian)
            (fun '(_, _, _, _, p0) => addr p0 <=? addr p + Z.of_nat (16 * k + r) - 16)
            (v1, v2, v3, v4, p))
    = Ok (blocks 16 (step32 cpu endian) k (v1, v2, v3, v4) (mem p),
          ptr_add p (Z.of_nat (16 * k)))).
  { intros n ->.
    destruct (XXH_FORCE_ALIGN_CHECK cfg && (Z.land (addr p) 3 =? 0)
              && XXH_endianess_eqb endian XXH_littleEndian) eqn:E.
    - assert (endian = XXH_littleEndian) as ->.
      { destruct endian; [|reflexivity]. rewrite andb_false_r in E. discriminate. }
      apply (do_while_blocks 16 (step32 cpu XXH_littleEndian)) with
        (lim := addr p + Z.of_nat (16 * S n + r) - 16); try lia.
      + intros v0 p0 H0. apply XXH32_update_stripe_aligned_ok. exact H0.
      + intros v0 p0. apply cond_le_spec.
    - apply (do_while_blocks 16 (step32 cpu endian)) with
        (lim := addr p + Z.of_nat (16 * S n + r) - 16); try lia.
      + intros v0 p0 H0. apply XXH32_update_stripe_ok. exact H0.
      + intros v0 p0. apply cond_le_spec. }
  assert (Hfin : forall a b c d,
    (if addr (ptr_add p (Z.of_nat (16 * k))) <? addr p + Z.of_nat (16 * k + r) then
       m <- XXH_memcpy buf 0 (ptr_add p (Z.of_nat (16 * k)))
              (to_size_t (addr p + Z.of_nat (16 * k + r)
                          - addr (ptr_add p (Z.of_nat (16 * k))))) ;
       Ok (XXH_OK,
           S32.mk tot large a b c d m
             (to_U32 (addr p + Z.of_nat (16 * k + r)
                      - addr (ptr_add p (Z.of_nat (16 * k))))) res)
     else Ok (XXH_OK, S32.mk tot large a b c d buf 0 res))
    = Ok (XXH_OK,
          S32.mk tot large a b c d
            (firstn r (skipn (16 * k) (mem p)) ++ skipn r buf) (Z.of_nat r) res)).
  { intros a b c d. rewrite addr_ptr_add.
    replace (addr p + Z.of_nat (16 * k + r) - (addr p + Z.of_nat (16 * k)))
      with (Z.of_nat r) by lia.
    destruct (Z.ltb_spec (addr p + Z.of_nat (16 * k)) (addr p + Z.of_nat (16 * k + r))).
    - unfold XXH_memcpy, to_size_t, to_U32, U64_MOD, U32_MOD.
      rewrite !Z.mod_small by lia. rewrite mem_ptr_add, Nat2Z.id.
      rewrite length_skipn.
      destruct (Z.leb_spec (Z.of_nat r) (Z.of_nat (length (mem p) - 16 * k))); [|lia].
      destruct (Z.leb_spec (0 + Z.of_nat r) (Z.of_nat (length buf))); [|lia].
      cbn [andb bind]. change (Z.to_nat 0) with 0%nat. cbn [firstn app].
      rewrite Z.add_0_l, Nat2Z.id. reflexivity.
    - assert (r = 0)%nat as -> by lia. cbn [firstn app]. rewrite skipn_O.
      reflexivity. }
  destruct k as [|n].
  - (* no whole block left *)
    destruct (Z.leb_spec (addr p) (addr p + Z.of_nat (16 * 0 + r) - 16)); [lia|].
    cbn [bind blocks]. 
    specialize (Hfin v1 v2 v3 v4). change (16 * 0)%nat with 0%nat in *.
    rewrite ptr_add_0 in Hfin. exact Hfin.
  - destruct (Z.leb_spec (addr p) (addr p + Z.of_nat (16 * S n + r) - 16)); [|lia].
    cbv zeta. rewrite (Hloop n eq_refl). cbn [bind].
    destruct (blocks 16 (step32 cpu endian) (S n) (v1, v2, v3, v4) (mem p))
      as [[[a b] c] d]. cbn [bind].
    exact (Hfin a b c d).
Qed.

(** The first half, when bytes are pending: the buffer is completed
    from the input and mixed. *)
Lemma XXH32_update_head mem_addr endian (state : S32.t) (input : ptr) (m : nat) :
  S32.memsize state = Z.of_nat m -> (0 < m < 16)%nat ->
  length (S32.mem32 state) = 16%nat ->
  (16 - m <= length (mem input))%nat ->
  (m0 <- XXH_memcpy (S32.mem32 state) (S32.memsize state) input
           (sub32 16 (S32.memsize state)) ;
   let state := S32.set_mem32 state m0 in
   let p32 := mkptr mem_addr (S32.mem32 state) in
   x <- XXH_readLE32 cpu p32 endian ;
   let a := XXH32_round (S32.v1 state) x in let p32 := ptr_add p32 4 in
   x <- XXH_readLE32 cpu p32 endian ;
   let b := XXH32_round (S32.v2 state) x in let p32 := ptr_add p32 4 in
   x <- XXH_readLE32 cpu p32 endian ;
   let c := XXH32_round (S32.v3 state) x in let p32 := ptr_add p32 4 in
   x <- XXH_readLE32 cpu p32 endian ;
   let d := XXH32_round (S32.v4 state) x in
   let state := S32.set_v state a b c d in
   Ok (state, ptr_add input (sub32 16 (S32.memsize state))))
  = let blk := firstn m (S32.mem32 state) ++ firstn (16 - m) (mem input)
               ++ skipn (m + (16 - m)) (S32.mem32 state) in
    let '(a, b, c, d) :=
      step32 cpu endian
        (S32.v1 state, S32.v2 state, S32.v3 state, S32.v4 state) blk in
    Ok (S32.mk (S32.total_len_32 state) (S32.large_len state) a b c d blk
          (S32.memsize state) (S32.reserved state),
        ptr_add input (Z.of_nat (16 - m))).
Proof.
  intros Hms Hm Hbuf Hin.
  destruct state as [tot large v1 v2 v3 v4 buf ms res].
  cbn [S32.v1 S32.v2 S32.v3 S32.v4 S32.mem32 S32.memsize S32.total_len_32
       S32.large_len S32.reserved S32.set_v S32.set_mem32 S32.set_memsize] in *.
  subst ms.
  assert (Hsub : sub32 16 (Z.of_nat m) = Z.of_nat (16 - m)).
  { unfold sub32, to_U32, U32_MOD. rewrite Z.mod_small; lia. }
  rewrite Hsub. unfold XXH_memcpy.
  destruct (Z.leb_spec (Z.of_nat (16 - m)) (Z.of_nat (length (mem input)))); [|lia].
  destruct (Z.leb_spec (Z.of_nat m + Z.of_nat (16 - m)) (Z.of_nat (length buf))); [|lia].
  cbn [andb bind]. rewrite !Nat2Z.id.
  replace (Z.to_nat (Z.of_nat m + Z.of_nat (16 - m))) with (m + (16 - m))%nat by lia.
  set (blk := firstn m buf ++ firstn (16 - m) (mem input) ++ skipn (m + (16 - m)) buf).
  assert (Hblk : length blk = 16%nat).
  { unfold blk. rewrite !length_app, !length_firstn, length_skipn. lia. }
  cbv zeta.
  cbn [S32.v1 S32.v2 S32.v3 S32.v4 S32.mem32 S32.memsize S32.total_len_32
       S32.large_len S32.reserved S32.set_v S32.set_mem32 S32.set_memsize].
  norm_ptr.
  assert (Hmem : forall a, mem (mkptr a blk) = blk) by reflexivity.
  repeat first
    [ rewrite readLE32_word by (rewrite ?length_mem_ptr_add, ?Hmem; lia)
    | progress cbn [bind] ].
  unfold step32. rewrite !mem_ptr_add. cbn [mem]. reflexivity.
Qed.

Lemma bind_eq {A B : Type} (h h' : result A) (K : A -> result B) :
  h = h' -> bind h K = bind h' K.
Proof. now intros ->. Qed.

Lemma to_size_t_small x : 0 <= x < 2 ^ 64 -> to_size_t x = x.
Proof. intros H. unfold to_size_t, U64_MOD. apply Z.mod_small. exact H. Qed.

Lemma to_U32_small x : 0 <= x < 2 ^ 32 -> to_U32 x = x.
Proof. intros H. unfold to_U32, U32_MOD. apply Z.mod_small. exact H. Qed.

(** [XXH32_update_endian] on a buffer, in full: it returns [XXH_OK] and
    the state [update32_of] describes. *)
Lemma XXH32_update_endian_exec mem_addr endian s p len :
  wf32 s -> valid_input p len ->
  XXH32_update_endian cfg mem_addr s p len endian
  = Ok (XXH_OK, update32_of cpu endian s (input_bytes p len)).
Proof.
  intros [Hbuf Hms] V. pose proof V as (Ha & Hl & Hmax).
  unfold PTRDIFF_MAX in Hmax.
  unfold XXH32_update_endian. rewrite (valid_not_null _ _ V).
  unfold update32_of. rewrite length_input_bytes by lia.
  destruct s as [tot large v1 v2 v3 v4 buf ms res].
  cbn [S32.v1 S32.v2 S32.v3 S32.v4 S32.mem32 S32.memsize S32.total_len_32
       S32.large_len S32.reserved S32.set_v S32.set_mem32 S32.set_memsize
       S32.set_total_len_32 S32.set_large_len] in *.
  remember (Z.to_nat ms) as m eqn:Em.
  assert (Ems : ms = Z.of_nat m) by lia. subst ms.
  remember (Z.to_nat len) as N eqn:EN.
  assert (Elen : len = Z.of_nat N) by lia. subst len.
  rewrite to_size_t_small by lia.
  set (tot' := add32 tot (to_U32 (Z.of_nat N))).
  set (large' := Z.lor large _).
  destruct (Z.ltb_spec (Z.of_nat m + Z.of_nat N) 16) as [Hlt|Hge].
  - (* everything goes to the buffer *)
    destruct (Nat.ltb_spec (m + N) 16); [|lia].
    unfold XXH_memcpy.
    destruct (Z.leb_spec (Z.of_nat N) (Z.of_nat (length (mem p)))); [|lia].
    destruct (Z.leb_spec (Z.of_nat m + Z.of_nat N) (Z.of_nat (length buf))); [|lia].
    cbn [andb bind]. rewrite !Nat2Z.id.
    replace (Z.to_nat (Z.of_nat m + Z.of_nat N)) with (m + N)%nat by lia.
    replace (add32 (Z.of_nat m) (to_U32 (Z.of_nat N))) with (Z.of_nat (m + N))
      by (unfold add32; rewrite (to_U32_small (Z.of_nat N)) by lia;
          rewrite to_U32_small by lia; lia).
    unfold input_bytes. rewrite Nat2Z.id.
    s32_simpl. reflexivity.
  - destruct (Nat.ltb_spec (m + N) 16); [lia|].
    destruct (Nat.eqb_spec m 0) as [Hm0|Hm0].
    + (* nothing pending *)
      subst m. change (Z.of_nat 0) with 0. cbn [Z.eqb negb bind].
      cbv zeta.
      pose proof (Nat.div_mod_eq (N - 0) 16) as Hdm.
      pose proof (Nat.mod_upper_bound (N - 0) 16 ltac:(lia)) as Hr.
      remember ((N - 0) / 16)%nat as k eqn:Ek.
      remember ((N - 0) mod 16)%nat as r eqn:Er.
      etransitivity.
      { apply (XXH32_update_tail endian _ p _ N k r); try lia;
          try exact Hbuf; try reflexivity. }
      s32_simpl.
      rewrite skipn_O.
      rewrite (blocks_ext 16 (step32 cpu endian) (step32_firstn cpu endian)
                 k (v1, v2, v3, v4) (input_bytes p (Z.of_nat N)) (mem p)).
      2:{ apply firstn_input_bytes. lia. }
      2:{ rewrite length_input_bytes; lia. }
      2:{ lia. }
      destruct (blocks 16 (step32 cpu endian) k (v1, v2, v3, v4) (mem p))
        as [[[a b] c] d].
      cbn [firstn app Nat.add]. rewrite skipn_O.
      rewrite skipn_input_bytes, firstn_firstn.
      do 4 f_equal. f_equal. lia.
    + (* pending bytes: complete the block first *)
      destruct (Z.eqb_spec (Z.of_nat m) 0); [lia|]. cbn [negb].
      etransitivity.
      { apply bind_eq.
        apply (XXH32_update_head mem_addr endian
                 (S32.mk tot' large' v1 v2 v3 v4 buf (Z.of_nat m) res) p m);
          try lia; try exact Hbuf; reflexivity. }
      cbv zeta.
      s32_simpl.
      rewrite (firstn_input_bytes p (Z.of_nat N) (16 - m)) by lia.
      set (blk := firstn m buf ++ firstn (16 - m) (mem p) ++ skipn (m + (16 - m)) buf).
      assert (Hblk : length blk = 16%nat).
      { unfold blk. rewrite !length_app, !length_firstn, length_skipn. lia. }
      destruct (step32 cpu endian (v1, v2, v3, v4) blk) as [[[a1 b1] c1] d1].
      cbn [bind].
      pose proof (Nat.div_mod_eq (N - (16 - m)) 16) as Hdm.
      pose proof (Nat.mod_upper_bound (N - (16 - m)) 16 ltac:(lia)) as Hr.
      remember ((N - (16 - m)) / 16)%nat as k eqn:Ek.
      remember ((N - (16 - m)) mod 16)%nat as r eqn:Er.
      etransitivity.
      { apply (XXH32_update_tail endian (S32.mk tot' large' a1 b1 c1 d1 blk 0 res)
                 (ptr_add p (Z.of_nat (16 - m))) (addr p + Z.of_nat N) N k r);
          rewrite ?addr_ptr_add, ?length_mem_ptr_add; try lia;
          try exact Hblk; try reflexivity. }
      s32_simpl.
      rewrite mem_ptr_add, Nat2Z.id.
      rewrite (blocks_ext 16 (step32 cpu endian) (step32_firstn cpu endian)
                 k (a1, b1, c1, d1) (skipn (16 - m) (input_bytes p (Z.of_nat N)))
                 (skipn (16 - m) (mem p))).
      2:{ rewrite skipn_input_bytes, firstn_firstn. f_equal. lia. }
      2:{ rewrite length_skipn, length_input_bytes; lia. }
      2:{ rewrite length_skipn. lia. }
      destruct (blocks 16 (step32 cpu endian) k (a1, b1, c1, d1) (skipn (16 - m) (mem p)))
        as [[[a b] c] d].
      rewrite skipn_skipn, skipn_input_bytes, firstn_firstn.
      do 4 f_equal. f_equal; [lia | f_equal; lia].
Qed.

Lemma large_len_iff (large a N : Z) :
  0 <= a -> 0 <= N -> (large <> 0 <-> 16 <= a) ->
  Z.lor large
    (Z.lor (Z_of_bool (16 <=? N))
           (Z_of_bool (16 <=? add32 (a mod 2 ^ 32) (to_U32 N)))) <> 0
  <-> 16 <= a + N.
Proof.
  intros Ha HN Hl.
  assert (E : add32 (a mod 2 ^ 32) (to_U32 N) = (a + N) mod 2 ^ 32).
  { unfold add32, to_U32, U32_MOD. rewrite <- Z.add_mod by lia. reflexivity. }
  rewrite E. rewrite !Z.lor_eq_0_iff. split.
  - intros H. destruct (Z.lt_ge_cases (a + N) 16) as [Hlt|]; [|assumption].
    exfalso. apply H. repeat split.
    + destruct (Z.eq_dec large 0) as [|Hne]; [assumption|].
      apply Hl in Hne. lia.
    + destruct (Z.leb_spec 16 N); [lia | reflexivity].
    + rewrite Z.mod_small by lia.
      destruct (Z.leb_spec 16 (a + N)); [lia | reflexivity].
  - intros H (H1 & H2 & H3).
    assert (Ha16 : a < 16).
    { destruct (Z.lt_ge_cases a 16) as [|Hge]; [assumption|].
      apply Hl in Hge. contradiction. }
    destruct (Z.leb_spec 16 N); [discriminate|].
    rewrite Z.mod_small in H3 by lia.
    destruct (Z.leb_spec 16 (a + N)); [discriminate | lia].
Qed.
End XXH32_facts.

(** * XXH32: the state after an update, and the digest *)

Lemma add32_mod a N :
  add32 (a mod 2 ^ 32) (to_U32 N) = (a + N) mod 2 ^ 32.
Proof. unfold add32, to_U32, U32_MOD. rewrite <- Z.add_mod by lia. reflexivity. Qed.

Lemma divmod_nat (b x : nat) :
  (0 < b)%nat ->
  exists k r : nat, x = (b * k + r)%nat /\ (r < b)%nat
                    /\ (x / b)%nat = k /\ (x mod b)%nat = r.
Proof.
  intros Hb. exists (x / b)%nat, (x mod b)%nat.
  repeat split; [apply Nat.div_mod_eq | apply Nat.mod_upper_bound; lia].
Qed.

Section Repr32.
Variables (cpu endian : XXH_endianess) (seed : Z).

Lemma reset_repr32 s0 : repr32 cpu endian seed [] (snd (XXH32_reset s0 seed)).
Proof.
  exists 0%nat, 0%nat. cbn [XXH32_reset snd S32.v1 S32.v2 S32.v3 S32.v4
    S32.mem32 S32.memsize S32.total_len_32 S32.large_len length blocks].
  repeat split; try reflexivity; try lia.
Qed.

Lemma update32_of_repr L s X :
  repr32 cpu endian seed L s ->
  repr32 cpu endian seed (L ++ X) (update32_of cpu endian s X).
Proof.
  intros (n & m & HL & Hm & Hv & Hb & Hms & Htot & Hlg & Hlen).
  destruct s as [tot large v1 v2 v3 v4 buf ms res].
  cbn [S32.v1 S32.v2 S32.v3 S32.v4 S32.mem32 S32.memsize S32.total_len_32
       S32.large_len S32.reserved] in *.
  subst ms tot. unfold update32_of.
  cbn [S32.v1 S32.v2 S32.v3 S32.v4 S32.mem32 S32.memsize S32.total_len_32
       S32.large_len S32.reserved]. rewrite Nat2Z.id.
  remember (length X) as N eqn:EN.
  assert (Htot' : add32 (Z.of_nat (length L) mod 2 ^ 32) (to_U32 (Z.of_nat N))
                  = Z.of_nat (length (L ++ X)) mod 2 ^ 32).
  { rewrite add32_mod, length_app. f_equal. lia. }
  assert (Hlg' : Z.lor large
            (Z.lor (Z_of_bool (16 <=? Z.of_nat N))
               (Z_of_bool (16 <=? add32 (Z.of_nat (length L) mod 2 ^ 32)
                                    (to_U32 (Z.of_nat N))))) <> 0
          <-> 16 <= Z.of_nat (length (L ++ X))).
  { rewrite length_app, Nat2Z.inj_add, <- EN. apply large_len_iff; [lia | lia | exact Hlg]. }
  assert (HLn : blocks 16 (step32 cpu endian) n (init32 seed) (L ++ X)
                = (v1, v2, v3, v4)).
  { rewrite Hv. apply blocks_app_l; [apply step32_firstn | lia]. }
  assert (Hskip : skipn (16 * n) (L ++ X) = firstn m buf ++ X).
  { rewrite drop_app_le by lia. rewrite Hb. reflexivity. }
  destruct (Nat.ltb_spec (m + N) 16) as [Hlt|Hge].
  - exists n, (m + N)%nat.
    cbn [S32.v1 S32.v2 S32.v3 S32.v4 S32.mem32 S32.memsize S32.total_len_32
       S32.large_len S32.reserved].
    split; [rewrite length_app; lia|]. split; [lia|].
    split; [symmetry; exact HLn|].
    split.
    { rewrite Hskip, app_assoc. rewrite take_app_le.
      - apply take_ge. rewrite length_app, length_take. lia.
      - rewrite length_app, length_take. lia. }
    split; [reflexivity|]. split; [exact Htot'|]. split; [exact Hlg'|].
    rewrite !length_app, length_take, length_drop. lia.
  - destruct (Nat.eqb_spec m 0) as [Hm0|Hm0].
    + subst m.
      destruct (divmod_nat 16 (N - 0)) as (k & r & Hdm & Hr & Ek & Er); [lia|].
      rewrite Ek, Er. rewrite !firstn_O in *. cbn [app Nat.add] in *.
      rewrite !skipn_O.
      destruct (blocks 16 (step32 cpu endian) k (v1, v2, v3, v4) X)
        as [[[a b] c] d] eqn:Eblk.
      exists (n + k)%nat, r.
      cbn [S32.v1 S32.v2 S32.v3 S32.v4 S32.mem32 S32.memsize S32.total_len_32
         S32.large_len S32.reserved].
      split; [rewrite length_app; rewrite <- ?EN; lia|]. split; [lia|].
      split.
      { rewrite blocks_add, HLn, Hskip. symmetry. exact Eblk. }
      split.
      { rewrite drop_app_ge by lia.
        replace (16 * (n + k) - length L)%nat with (16 * k)%nat by lia.
        rewrite take_app_le by (rewrite length_take, length_drop; rewrite <- ?EN; lia).
        rewrite take_take. replace (r `min` r)%nat with r by lia.
        apply take_ge. rewrite length_drop. rewrite <- ?EN; lia. }
      split; [reflexivity|]. split; [exact Htot'|]. split; [exact Hlg'|].
      rewrite length_app, length_take, !length_drop. rewrite <- ?EN; lia.
    + destruct (divmod_nat 16 (N - (16 - m))) as (k & r & Hdm & Hr & Ek & Er); [lia|].
      rewrite Ek, Er.
      set (blk := firstn m buf ++ firstn (16 - m) X ++ skipn (m + (16 - m)) buf).
      assert (Hblk : length blk = 16%nat).
      { unfold blk. rewrite !length_app, !length_take, length_drop. rewrite <- ?EN; lia. }
      destruct (blocks 16 (step32 cpu endian) k
                  (step32 cpu endian (v1, v2, v3, v4) blk) (skipn (16 - m) X))
        as [[[a b] c] d] eqn:Eblk.
      exists (n + 1 + k)%nat, r.
      cbn [S32.v1 S32.v2 S32.v3 S32.v4 S32.mem32 S32.memsize S32.total_len_32
         S32.large_len S32.reserved].
      split; [rewrite length_app; rewrite <- ?EN; lia|]. split; [lia|].
      split.
      { rewrite blocks_add, blocks_add, HLn, Hskip. cbn [blocks].
        rewrite <- Eblk. f_equal.
        - apply step32_firstn.
          + rewrite take_app_ge by (rewrite length_take; lia).
            rewrite length_take.
            replace (16 - m `min` length buf)%nat with (16 - m)%nat by lia.
            unfold blk. rewrite drop_ge by lia. rewrite app_nil_r.
            apply take_ge. rewrite length_app, !length_take. rewrite <- ?EN; lia.
          + rewrite Hblk. lia.
          + rewrite length_app, length_take. rewrite <- ?EN; lia.
        - rewrite drop_app_ge by lia. f_equal. lia. }
      split.
      { rewrite drop_app_ge by lia.
        replace (16 * (n + 1 + k) - length L)%nat with (16 - m + 16 * k)%nat by lia.
        rewrite take_app_le by (rewrite length_take, length_drop; rewrite <- ?EN; lia).
        rewrite take_take. replace (r `min` r)%nat with r by lia.
        apply take_ge. rewrite length_drop. rewrite <- ?EN; lia. }
      split; [reflexivity|]. split; [exact Htot'|]. split; [exact Hlg'|].
      rewrite length_app, length_take, !length_drop. rewrite <- ?EN; lia.
Qed.
End Repr32.

Section Digest32.
Variable cfg : config.
Let cpu := XXH_CPU_LITTLE_ENDIAN cfg.

Lemma XXH32_digest_endian_hash mem_addr endian seed L s :
  repr32 cpu endian seed L s ->
  XXH32_digest_endian cfg mem_addr s endian = hash32_of cpu endian seed L.
Proof.
  intros (n & m & HL & Hm & Hv & Hb & Hms & Htot & Hlg & Hlen).
  unfold XXH32_digest_endian, hash32_of.
  assert (Hdiv : (length L / 16)%nat = n).
  { symmetry. apply (Nat.div_unique _ 16 n m); lia. }
  rewrite Hdiv.
  assert (Hh : (if negb (S32.large_len s =? 0)
                then XXH32_merge (S32.v1 s) (S32.v2 s) (S32.v3 s) (S32.v4 s)
                else add32 (S32.v3 s) PRIME32_5)
               = (if 16 <=? Z.of_nat (length L)
                  then merge32 (blocks 16 (step32 cpu endian) n (init32 seed) L)
                  else add32 seed PRIME32_5)).
  { destruct (Z.leb_spec 16 (Z.of_nat (length L))) as [H16|H16].
    - destruct (Z.eqb_spec (S32.large_len s) 0) as [E|E].
      + apply Hlg in H16. contradiction.
      + cbn [negb]. rewrite <- Hv. reflexivity.
    - destruct (Z.eqb_spec (S32.large_len s) 0) as [E|E].
      + cbn [negb]. assert (n = 0%nat) as -> by lia.
        cbn [blocks] in Hv. injection Hv as _ _ -> _.
        unfold add32, to_U32, U32_MOD. rewrite Z.add_0_r.
        rewrite Zplus_mod_idemp_l. reflexivity.
      + apply Hlg in E. lia. }
  rewrite Hh, Htot. fold (to_U32 (Z.of_nat (length L))).
  assert (Hland : forall x, 0 <= x -> x mod 16 = Z.of_nat m ->
                  Z.land (Z.land x 15) 31 = Z.of_nat m).
  { intros x Hx Hxm. rewrite land_15, land_31, Hxm. apply Z.mod_small. lia. }
  apply (XXH32_finalize_ext cpu endian) with (n := m).
  - apply Hland; [lia|]. rewrite Hms. apply Z.mod_small. lia.
  - apply Hland; [lia|]. rewrite HL.
    rewrite Nat2Z.inj_add, Nat2Z.inj_mul. change (Z.of_nat 16) with 16.
    rewrite Z.add_comm, Z.mul_comm, Z_mod_plus_full. apply Z.mod_small. lia.
  - cbn [mem]. rewrite Hb. symmetry. apply take_ge. rewrite length_drop. lia.
  - cbn [mem]. lia.
  - cbn [mem]. rewrite length_drop. lia.
Qed.

Lemma hash32_of_total endian seed L :
  exists h, hash32_of cpu endian seed L = Ok h.
Proof.
  unfold hash32_of.
  destruct (divmod_nat 16 (length L)) as (n & m & HL & Hm & Hd & _); [lia|].
  rewrite Hd.
  apply (XXH32_finalize_total cpu endian) with (n := m).
  - rewrite land_15, land_31, HL.
    rewrite Nat2Z.inj_add, Nat2Z.inj_mul. change (Z.of_nat 16) with 16.
    rewrite Z.add_comm, Z.mul_comm, Z_mod_plus_full.
    rewrite (Z.mod_small (Z.of_nat m) 16) by lia. apply Z.mod_small. lia.
  - cbn [mem]. rewrite length_drop. lia.
Qed.

Lemma XXH32_unfold input len seed :
  exists align,
    XXH32 cfg input len seed
    = XXH32_endian_align cfg input len seed (endian_of cfg) align.
Proof.
  unfold XXH32, endian_of.
  destruct (XXH_FORCE_ALIGN_CHECK cfg && (Z.land (addr input) 3 =? 0)),
    (XXH_endianess_eqb (XXH_CPU_LITTLE_ENDIAN cfg) XXH_littleEndian
     || XXH_FORCE_NATIVE_FORMAT cfg); eexists; reflexivity.
Qed.

Lemma XXH32_update_unfold mem_addr s input len :
  XXH32_update cfg mem_addr s input len
  = XXH32_update_endian cfg mem_addr s input len (endian_of cfg).
Proof.
  unfold XXH32_update, endian_of.
  destruct (XXH_endianess_eqb (XXH_CPU_LITTLE_ENDIAN cfg) XXH_littleEndian
            || XXH_FORCE_NATIVE_FORMAT cfg); reflexivity.
Qed.

Lemma XXH32_digest_unfold mem_addr s :
  XXH32_digest cfg mem_addr s
  = XXH32_digest_endian cfg mem_addr s (endian_of cfg).
Proof.
  unfold XXH32_digest, endian_of.
  destruct (XXH_endianess_eqb (XXH_CPU_LITTLE_ENDIAN cfg) XXH_littleEndian
            || XXH_FORCE_NATIVE_FORMAT cfg); reflexivity.
Qed.

Lemma repr32_wf endian seed L s : repr32 cpu endian seed L s -> wf32 s.
Proof.
  intros (n & m & HL & Hm & Hv & Hb & Hms & Htot & Hlg & Hlen).
  split; [exact Hlen | lia].
Qed.

(** The one-shot hash is the hash of the bytes handed over. *)
Lemma XXH32_hash input len seed :
  valid_input input len ->
  XXH32 cfg input len seed
  = hash32_of cpu (endian_of cfg) seed (input_bytes input len).
Proof.
  intros V. destruct (XXH32_unfold input len seed) as (align & ->).
  apply XXH32_endian_align_hash. exact V.
Qed.

(** An update of a stream appends the bytes handed over. *)
Lemma XXH32_update_repr mem_addr seed L s input len :
  repr32 cpu (endian_of cfg) seed L s -> valid_input input len ->
  exists s',
    XXH32_update cfg mem_addr s input len = Ok (XXH_OK, s')
    /\ repr32 cpu (endian_of cfg) seed (L ++ input_bytes input len) s'.
Proof.
  intros R V. rewrite XXH32_update_unfold.
  rewrite (XXH32_update_endian_exec cfg mem_addr (endian_of cfg) s input len);
    [|eapply repr32_wf; exact R | exact V].
  eexists. split; [reflexivity|]. apply update32_of_repr. exact R.
Qed.

(** The digest of a stream is the hash of the bytes it consumed. *)
Lemma XXH32_digest_hash mem_addr seed L s :
  repr32 cpu (endian_of cfg) seed L s ->
  XXH32_digest cfg mem_addr s = hash32_of cpu (endian_of cfg) seed L.
Proof.
  intros R. rewrite XXH32_digest_unfold. apply XXH32_digest_endian_hash. exact R.
Qed.
End Digest32.

(** * XXH64: one-shot and streaming against the hash of the bytes *)

Ltac s64_simpl :=
  unfold S64.set_memsize, S64.set_mem64, S64.set_v, S64.set_total_len;
  cbn [S64.v1 S64.v2 S64.v3 S64.v4 S64.mem64 S64.memsize S64.total_len
       S64.reserved].

Lemma to_U64_small x : 0 <= x < 2 ^ 64 -> to_U64 x = x.
Proof. intros H. unfold to_U64, U64_MOD. apply Z.mod_small. exact H. Qed.

Section XXH64_facts.
Variable cfg : config.
Let cpu := XXH_CPU_LITTLE_ENDIAN cfg.

(** The block loops of [XXH64_endian_align] and of [XXH64_update_endian]
    (same condition, same aligned variant). *)
Lemma XXH64_loop (unaligned : stripe -> result stripe) endian (p : ptr)
    (bEnd : Z) (fuel : nat) (v : lanes) (n r : nat) :
  (forall v0 p0, (32 <= length (mem p0))%nat ->
     unaligned (v0, p0) = Ok (step64 cpu endian v0 (mem p0), ptr_add p0 32)) ->
  bEnd = addr p + Z.of_nat (32 * (n + 1) + r) -> (r < 32)%nat ->
  (32 * (n + 1) + r <= length (mem p))%nat -> (n < fuel)%nat ->
  (if XXH_FORCE_ALIGN_CHECK cfg
      && XXH_endianess_eqb endian XXH_littleEndian
      && (Z.land (addr p) 7 =? 0)
   then do_while fuel (XXH64_stripe_aligned cfg)
          (fun '(_, _, _, _, p) => addr p <=? bEnd - 32) (v, p)
   else do_while fuel unaligned
          (fun '(_, _, _, _, p) => addr p <=? bEnd - 32) (v, p))
  = Ok (blocks 32 (step64 cpu endian) (S n) v (mem p),
        ptr_add p (Z.of_nat (32 * S n))).
Proof.
  intros Hun -> Hr Hlen Hfuel.
  destruct (XXH_FORCE_ALIGN_CHECK cfg && XXH_endianess_eqb endian XXH_littleEndian
            && (Z.land (addr p) 7 =? 0)) eqn:E.
  - assert (endian = XXH_littleEndian) as ->.
    { destruct endian; [|reflexivity].
      rewrite andb_false_r, andb_false_l in E. discriminate. }
    apply (do_while_blocks 32 (step64 cpu XXH_littleEndian)) with
      (lim := addr p + Z.of_nat (32 * (n + 1) + r) - 32); try lia.
    + intros v0 p0 H0. apply XXH64_stripe_aligned_ok. exact H0.
    + intros v0 p0. apply cond_le_spec.
  - apply (do_while_blocks 32 (step64 cpu endian)) with
      (lim := addr p + Z.of_nat (32 * (n + 1) + r) - 32); try lia.
    + exact Hun.
    + intros v0 p0. apply cond_le_spec.
Qed.

Lemma XXH64_endian_align_hash p len seed endian align :
  valid_input p len ->
  XXH64_endian_align cfg p len seed endian align
  = hash64_of cpu endian seed (input_bytes p len).
Proof.
  intros V. pose proof V as (Ha & Hl & Hm). unfold PTRDIFF_MAX in Hm.
  unfold XXH64_endian_align. rewrite (valid_not_null _ _ V), andb_false_r.
  unfold hash64_of. rewrite length_input_bytes by lia.
  remember (Z.to_nat len) as N eqn:EN.
  assert (Elen : len = Z.of_nat N) by lia. rewrite Elen.
  destruct (divmod_nat 32 N) as (q & r & Hdm & Hr & Eq & Er); [lia|].
  rewrite Eq.
  assert (Hland : Z.land (Z.of_nat N) 31 = Z.of_nat r).
  { rewrite land_31, Hdm.
    rewrite Nat2Z.inj_add, Nat2Z.inj_mul. change (Z.of_nat 32) with 32.
    rewrite Z.add_comm, Z.mul_comm, Z_mod_plus_full. apply Z.mod_small. lia. }
  destruct q as [|n].
  - destruct (Z.leb_spec 32 (Z.of_nat N)); [lia|]. cbn [bind].
    apply (XXH64_finalize_ext cpu endian) with (n := r);
      try exact Hland; change (32 * 0)%nat with 0%nat; cbn [mem];
      rewrite ?skipn_O.
    + rewrite firstn_input_bytes; [reflexivity | lia].
    + lia.
    + rewrite length_input_bytes; lia.
  - destruct (Z.leb_spec 32 (Z.of_nat N)); [|lia].
    cbv zeta.
    change (add64 (add64 seed PRIME64_1) PRIME64_2, add64 seed PRIME64_2,
            add64 seed 0, sub64 seed PRIME64_1, p) with (init64 seed, p).
    rewrite (XXH64_loop (XXH64_stripe cfg endian align) endian p _ N
               (init64 seed) n r); try lia.
    2:{ intros v0 p0 H0. apply XXH64_stripe_ok. exact H0. }
    cbn [bind].
    rewrite (blocks_ext 32 (step64 cpu endian) (step64_firstn cpu endian)
               (S n) (init64 seed) (input_bytes p (Z.of_nat N)) (mem p)).
    2:{ apply firstn_input_bytes. lia. }
    2:{ rewrite length_input_bytes; lia. }
    2:{ lia. }
    destruct (blocks 32 (step64 cpu endian) (S n) (init64 seed) (mem p))
      as [[[a b] c] d]. cbn [bind merge64].
    apply (XXH64_finalize_ext cpu endian) with (n := r);
      try exact Hland; cbn [mem].
    + rewrite mem_ptr_add, Nat2Z.id, skipn_input_bytes, firstn_firstn.
      f_equal. lia.
    + rewrite mem_ptr_add, Nat2Z.id, length_skipn. lia.
    + rewrite skipn_input_bytes, length_firstn, length_skipn. lia.
Qed.

(** The second half of [XXH64_update_endian]. *)
Lemma XXH64_update_tail endian (state : S64.t) (p : ptr) (bEnd : Z)
    (fuel k r : nat) :
  bEnd = addr p + Z.of_nat (32 * k + r) -> (r < 32)%nat ->
  (32 * k + r <= length (mem p))%nat -> (k <= fuel)%nat ->
  length (S64.mem64 state) = 32%nat -> S64.memsize state = 0 ->
  ('(state, p) <-
     (if addr p + 32 <=? bEnd then
        let limit := bEnd - 32 in
        '(v1, v2, v3, v4, p) <-
          (if XXH_FORCE_ALIGN_CHECK cfg
              && XXH_endianess_eqb endian XXH_littleEndian
              && (Z.land (addr p) 7 =? 0)
           then do_while fuel (XXH64_stripe_aligned cfg)
                  (fun '(_, _, _, _, p) => addr p <=? limit)
                  (S64.v1 state, S64.v2 state, S64.v3 state, S64.v4 state, p)
           else do_while fuel (XXH64_update_stripe cfg endian)
                  (fun '(_, _, _, _, p) => addr p <=? limit)
                  (S64.v1 state, S64.v2 state, S64.v3 state, S64.v4 state, p)) ;
        Ok (S64.set_v state v1 v2 v3 v4, p)
      else Ok (state, p)) ;
   if addr p <? bEnd then
     m <- XXH_memcpy (S64.mem64 state) 0 p (to_size_t (bEnd - addr p)) ;
     let state := S64.set_mem64 state m in
     let state := S64.set_memsize state (to_U32 (bEnd - addr p)) in
     Ok (XXH_OK, state)
   else Ok (XXH_OK, state))
  = let '(a, b, c, d) :=
      blocks 32 (step64 cpu endian) k
        (S64.v1 state, S64.v2 state, S64.v3 state, S64.v4 state) (mem p) in
    Ok (XXH_OK,
        S64.mk (S64.total_len state) a b c d
          (firstn r (skipn (32 * k) (mem p)) ++ skipn r (S64.mem64 state))
          (Z.of_nat r) (S64.reserved state)).
Proof.
  intros -> Hr Hlen Hfuel Hbuf Hms.
  destruct state as [tot v1 v2 v3 v4 buf ms res].
  cbn [S64.v1 S64.v2 S64.v3 S64.v4 S64.mem64 S64.memsize S64.total_len
       S64.reserved S64.set_v S64.set_mem64 S64.set_memsize] in *.
  subst ms.
  assert (Hfin : forall a b c d,
    (if addr (ptr_add p (Z.of_nat (32 * k))) <? addr p + Z.of_nat (32 * k + r) then
       m <- XXH_memcpy buf 0 (ptr_add p (Z.of_nat (32 * k)))
              (to_size_t (addr p + Z.of_nat (32 * k + r)
                          - addr (ptr_add p (Z.of_nat (32 * k))))) ;
       Ok (XXH_OK,
           S64.mk tot a b c d m
             (to_U32 (addr p + Z.of_nat (32 * k + r)
                      - addr (ptr_add p (Z.of_nat (32 * k))))) res)
     else Ok (XXH_OK, S64.mk tot a b c d buf 0 res))
    = Ok (XXH_OK,
          S64.mk tot a b c d
            (firstn r (skipn (32 * k) (mem p)) ++ skipn r buf) (Z.of_nat r) res)).
  { intros a b c d. rewrite addr_ptr_add.
    replace (addr p + Z.of_nat (32 * k + r) - (addr p + Z.of_nat (32 * k)))
      with (Z.of_nat r) by lia.
    destruct (Z.ltb_spec (addr p + Z.of_nat (32 * k)) (addr p + Z.of_nat (32 * k + r))).
    - unfold XXH_memcpy, to_size_t, to_U32, U64_MOD, U32_MOD.
      rewrite !Z.mod_small by lia. rewrite mem_ptr_add, Nat2Z.id.
      rewrite length_skipn.
      destruct (Z.leb_spec (Z.of_nat r) (Z.of_nat (length (mem p) - 32 * k))); [|lia].
      destruct (Z.leb_spec (0 + Z.of_nat r) (Z.of_nat (length buf))); [|lia].
      cbn [andb bind]. change (Z.to_nat 0) with 0%nat. rewrite firstn_O.
      cbn [app]. rewrite Z.add_0_l, Nat2Z.id. reflexivity.
    - assert (r = 0)%nat as -> by lia. rewrite firstn_O. cbn [app].
      rewrite skipn_O. reflexivity. }
  destruct k as [|n].
  - destruct (Z.leb_spec (addr p + 32) (addr p + Z.of_nat (32 * 0 + r))); [lia|].
    cbn [bind blocks].
    specialize (Hfin v1 v2 v3 v4). change (32 * 0)%nat with 0%nat in *.
    rewrite ptr_add_0 in Hfin. exact Hfin.
  - destruct (Z.leb_spec (addr p + 32) (addr p + Z.of_nat (32 * S n + r))); [|lia].
    cbv zeta.
    rewrite (XXH64_loop (XXH64_update_stripe cfg endian) endian p _ fuel
               (v1, v2, v3, v4) n r); try lia.
    2:{ intros v0 p0 H0. apply XXH64_update_stripe_ok. exact H0. }
    cbn [bind].
    destruct (blocks 32 (step64 cpu endian) (S n) (v1, v2, v3, v4) (mem p))
      as [[[a b] c] d]. cbn [bind].
    exact (Hfin a b c d).
Qed.

(** The first half, when bytes are pending. *)
Lemma XXH64_update_head mem_addr endian (state : S64.t) (input : ptr) (m : nat) :
  S64.memsize state = Z.of_nat m -> (0 < m < 32)%nat ->
  length (S64.mem64 state) = 32%nat ->
  (32 - m <= length (mem input))%nat ->
  (m0 <- XXH_memcpy (S64.mem64 state) (S64.memsize state) input
           (sub32 32 (S64.memsize state)) ;
   let state := S64.set_mem64 state m0 in
   let mem64 := mkptr mem_addr (S64.mem64 state) in
   x <- XXH_readLE64 cpu (ptr_add mem64 0) endian ;
   let a := XXH64_round (S64.v1 state) x in
   x <- XXH_readLE64 cpu (ptr_add mem64 8) endian ;
   let b := XXH64_round (S64.v2 state) x in
   x <- XXH_readLE64 cpu (ptr_add mem64 16) endian ;
   let c := XXH64_round (S64.v3 state) x in
   x <- XXH_readLE64 cpu (ptr_add mem64 24) endian ;
   let d := XXH64_round (S64.v4 state) x in
   let state := S64.set_v state a b c d in
   let p := ptr_add input (sub32 32 (S64.memsize state)) in
   let state := S64.set_memsize state 0 in
   Ok (state, p))
  = let blk := firstn m (S64.mem64 state) ++ firstn (32 - m) (mem input)
               ++ skipn (m + (32 - m)) (S64.mem64 state) in
    let '(a, b, c, d) :=
      step64 cpu endian
        (S64.v1 state, S64.v2 state, S64.v3 state, S64.v4 state) blk in
    Ok (S64.mk (S64.total_len state) a b c d blk 0 (S64.reserved state),
        ptr_add input (Z.of_nat (32 - m))).
Proof.
  intros Hms Hm Hbuf Hin.
  destruct state as [tot v1 v2 v3 v4 buf ms res].
  cbn [S64.v1 S64.v2 S64.v3 S64.v4 S64.mem64 S64.memsize S64.total_len
       S64.reserved S64.set_v S64.set_mem64 S64.set_memsize] in *.
  subst ms.
  assert (Hsub : sub32 32 (Z.of_nat m) = Z.of_nat (32 - m)).
  { unfold sub32, to_U32, U32_MOD. rewrite Z.mod_small; lia. }
  rewrite Hsub. unfold XXH_memcpy.
  destruct (Z.leb_spec (Z.of_nat (32 - m)) (Z.of_nat (length (mem input)))); [|lia].
  destruct (Z.leb_spec (Z.of_nat m + Z.of_nat (32 - m)) (Z.of_nat (length buf))); [|lia].
  cbn [andb bind]. rewrite !Nat2Z.id.
  replace (Z.to_nat (Z.of_nat m + Z.of_nat (32 - m))) with (m + (32 - m))%nat by lia.
  set (blk := firstn m buf ++ firstn (32 - m) (mem input) ++ skipn (m + (32 - m)) buf).
  assert (Hblk : length blk = 32%nat).
  { unfold blk. rewrite !length_app, !length_firstn, length_skipn. lia. }
  cbv zeta. s64_simpl.
  norm_ptr.
  assert (Hmem : forall a, mem (mkptr a blk) = blk) by reflexivity.
  repeat first
    [ rewrite readLE64_word by (rewrite ?length_mem_ptr_add, ?Hmem; lia)
    | progress cbn [bind] ].
  unfold step64. rewrite !mem_ptr_add. cbn [mem]. reflexivity.
Qed.

Lemma XXH64_update_endian_exec mem_addr endian s p len :
  wf64 s -> valid_input p len ->
  XXH64_update_endian cfg mem_addr s p len endian
  = Ok (XXH_OK, update64_of cpu endian s (input_bytes p len)).
Proof.
  intros [Hbuf Hms] V. pose proof V as (Ha & Hl & Hmax).
  unfold PTRDIFF_MAX in Hmax.
  unfold XXH64_update_endian. rewrite (valid_not_null _ _ V).
  unfold update64_of. rewrite length_input_bytes by lia.
  destruct s as [tot v1 v2 v3 v4 buf ms res].
  cbn [S64.v1 S64.v2 S64.v3 S64.v4 S64.mem64 S64.memsize S64.total_len
       S64.reserved S64.set_v S64.set_mem64 S64.set_memsize
       S64.set_total_len] in *.
  remember (Z.to_nat ms) as m eqn:Em.
  assert (Ems : ms = Z.of_nat m) by lia. subst ms.
  remember (Z.to_nat len) as N eqn:EN.
  assert (Elen : len = Z.of_nat N) by lia. subst len.
  rewrite to_size_t_small by lia.
  set (tot' := add64 tot (Z.of_nat N)).
  destruct (Z.ltb_spec (Z.of_nat m + Z.of_nat N) 32) as [Hlt|Hge].
  - destruct (Nat.ltb_spec (m + N) 32); [|lia].
    unfold XXH_memcpy.
    destruct (Z.leb_spec (Z.of_nat N) (Z.of_nat (length (mem p)))); [|lia].
    destruct (Z.leb_spec (Z.of_nat m + Z.of_nat N) (Z.of_nat (length buf))); [|lia].
    cbn [andb bind]. rewrite !Nat2Z.id.
    replace (Z.to_nat (Z.of_nat m + Z.of_nat N)) with (m + N)%nat by lia.
    replace (add32 (Z.of_nat m) (to_U32 (Z.of_nat N))) with (Z.of_nat (m + N))
      by (unfold add32; rewrite (to_U32_small (Z.of_nat N)) by lia;
          rewrite to_U32_small by lia; lia).
    unfold input_bytes. rewrite Nat2Z.id.
    s64_simpl. reflexivity.
  - destruct (Nat.ltb_spec (m + N) 32); [lia|].
    destruct (Nat.eqb_spec m 0) as [Hm0|Hm0].
    + subst m. change (Z.of_nat 0) with 0. cbn [Z.eqb negb bind].
      cbv zeta.
      destruct (divmod_nat 32 (N - 0)) as (k & r & Hdm & Hr & Ek & Er); [lia|].
      rewrite Ek, Er.
      etransitivity.
      { apply (XXH64_update_tail endian (S64.mk tot' v1 v2 v3 v4 buf 0 res)
                 p (addr p + Z.of_nat N) N k r); try lia;
          try exact Hbuf; try reflexivity. }
      s64_simpl.
      rewrite !firstn_O. cbn [app Nat.add]. rewrite !skipn_O.
      rewrite (blocks_ext 32 (step64 cpu endian) (step64_firstn cpu endian)
                 k (v1, v2, v3, v4) (input_bytes p (Z.of_nat N)) (mem p)).
      2:{ apply firstn_input_bytes. lia. }
      2:{ rewrite length_input_bytes; lia. }
      2:{ lia. }
      destruct (blocks 32 (step64 cpu endian) k (v1, v2, v3, v4) (mem p))
        as [[[a b] c] d].
      rewrite skipn_input_bytes, firstn_firstn.
      do 4 f_equal. f_equal. lia.
    + destruct (Z.eqb_spec (Z.of_nat m) 0); [lia|]. cbn [negb].
      etransitivity.
      { apply bind_eq.
        apply (XXH64_update_head mem_addr endian
                 (S64.mk tot' v1 v2 v3 v4 buf (Z.of_nat m) res) p m);
          try lia; try exact Hbuf; reflexivity. }
      cbv zeta. s64_simpl.
      rewrite (firstn_input_bytes p (Z.of_nat N) (32 - m)) by lia.
      set (blk := firstn m buf ++ firstn (32 - m) (mem p) ++ skipn (m + (32 - m)) buf).
      assert (Hblk : length blk = 32%nat).
      { unfold blk. rewrite !length_app, !length_firstn, length_skipn. lia. }
      destruct (step64 cpu endian (v1, v2, v3, v4) blk) as [[[a1 b1] c1] d1].
      cbn [bind].
      destruct (divmod_nat 32 (N - (32 - m))) as (k & r & Hdm & Hr & Ek & Er); [lia|].
      rewrite Ek, Er.
      etransitivity.
      { apply (XXH64_update_tail endian (S64.mk tot' a1 b1 c1 d1 blk 0 res)
                 (ptr_add p (Z.of_nat (32 - m))) (addr p + Z.of_nat N) N k r);
          rewrite ?addr_ptr_add, ?length_mem_ptr_add; try lia;
          try exact Hblk; try reflexivity. }
      s64_simpl.
      rewrite mem_ptr_add, Nat2Z.id.
      rewrite (blocks_ext 32 (step64 cpu endian) (step64_firstn cpu endian)
                 k (a1, b1, c1, d1) (skipn (32 - m) (input_bytes p (Z.of_nat N)))
                 (skipn (32 - m) (mem p))).
      2:{ rewrite skipn_input_bytes, firstn_firstn. f_equal. lia. }
      2:{ rewrite length_skipn, length_input_bytes; lia. }
      2:{ rewrite length_skipn. lia. }
      destruct (blocks 32 (step64 cpu endian) k (a1, b1, c1, d1) (skipn (32 - m) (mem p)))
        as [[[a b] c] d].
      rewrite skipn_skipn, skipn_input_bytes, firstn_firstn.
      do 4 f_equal. f_equal; [lia | f_equal; lia].
Qed.
End XXH64_facts.

(** * XXH64: the state after an update, and the digest *)

Lemma add64_mod a N : add64 (a mod 2 ^ 64) N = (a + N) mod 2 ^ 64.
Proof. unfold add64, to_U64, U64_MOD. apply Zplus_mod_idemp_l. Qed.

Section Repr64.
Variables (cpu endian : XXH_endianess) (seed : Z).

Lemma reset_repr64 s0 : repr64 cpu endian seed [] (snd (XXH64_reset s0 seed)).
Proof.
  exists 0%nat, 0%nat. cbn [XXH64_reset snd S64.v1 S64.v2 S64.v3 S64.v4
    S64.mem64 S64.memsize S64.total_len length blocks].
  repeat split; try reflexivity; try lia.
Qed.

Lemma update64_of_repr L s X :
  repr64 cpu endian seed L s ->
  repr64 cpu endian seed (L ++ X) (update64_of cpu endian s X).
Proof.
  intros (n & m & HL & Hm & Hv & Hb & Hms & Htot & Hlen).
  destruct s as [tot v1 v2 v3 v4 buf ms res].
  cbn [S64.v1 S64.v2 S64.v3 S64.v4 S64.mem64 S64.memsize S64.total_len
       S64.reserved] in *.
  subst ms tot. unfold update64_of.
  cbn [S64.v1 S64.v2 S64.v3 S64.v4 S64.mem64 S64.memsize S64.total_len
       S64.reserved]. rewrite Nat2Z.id.
  remember (length X) as N eqn:EN.
  assert (Htot' : add64 (Z.of_nat (length L) mod 2 ^ 64) (Z.of_nat N)
                  = Z.of_nat (length (L ++ X)) mod 2 ^ 64).
  { rewrite add64_mod, length_app. f_equal. lia. }
  assert (HLn : blocks 32 (step64 cpu endian) n (init64 seed) (L ++ X)
                = (v1, v2, v3, v4)).
  { rewrite Hv. apply blocks_app_l; [apply step64_firstn | lia]. }
  assert (Hskip : skipn (32 * n) (L ++ X) = firstn m buf ++ X).
  { rewrite drop_app_le by lia. rewrite Hb. reflexivity. }
  destruct (Nat.ltb_spec (m + N) 32) as [Hlt|Hge].
  - exists n, (m + N)%nat.
    cbn [S64.v1 S64.v2 S64.v3 S64.v4 S64.mem64 S64.memsize S64.total_len
       S64.reserved].
    split; [rewrite length_app; rewrite <- ?EN; lia|]. split; [lia|].
    split; [symmetry; exact HLn|].
    split.
    { rewrite Hskip, app_assoc. rewrite take_app_le.
      - apply take_ge. rewrite length_app, length_take. lia.
      - rewrite length_app, length_take. lia. }
    split; [reflexivity|]. split; [exact Htot'|].
    rewrite !length_app, length_take, length_drop. lia.
  - destruct (Nat.eqb_spec m 0) as [Hm0|Hm0].
    + subst m.
      destruct (divmod_nat 32 (N - 0)) as (k & r & Hdm & Hr & Ek & Er); [lia|].
      rewrite Ek, Er. rewrite !firstn_O in *. cbn [app Nat.add] in *.
      rewrite !skipn_O.
      destruct (blocks 32 (step64 cpu endian) k (v1, v2, v3, v4) X)
        as [[[a b] c] d] eqn:Eblk.
      exists (n + k)%nat, r.
      cbn [S64.v1 S64.v2 S64.v3 S64.v4 S64.mem64 S64.memsize S64.total_len
         S64.reserved].
      split; [rewrite length_app; rewrite <- ?EN; lia|]. split; [lia|].
      split.
      { rewrite blocks_add, HLn, Hskip. symmetry. exact Eblk. }
      split.
      { rewrite drop_app_ge by lia.
        replace (32 * (n + k) - length L)%nat with (32 * k)%nat by lia.
        rewrite take_app_le by (rewrite length_take, length_drop; rewrite <- ?EN; lia).
        rewrite take_take. replace (r `min` r)%nat with r by lia.
        apply take_ge. rewrite length_drop. rewrite <- ?EN; lia. }
      split; [reflexivity|]. split; [exact Htot'|].
      rewrite length_app, length_take, !length_drop. rewrite <- ?EN; lia.
    + destruct (divmod_nat 32 (N - (32 - m))) as (k & r & Hdm & Hr & Ek & Er); [lia|].
      rewrite Ek, Er.
      set (blk := firstn m buf ++ firstn (32 - m) X ++ skipn (m + (32 - m)) buf).
      assert (Hblk : length blk = 32%nat).
      { unfold blk. rewrite !length_app, !length_take, length_drop. rewrite <- ?EN; lia. }
      destruct (blocks 32 (step64 cpu endian) k
                  (step64 cpu endian (v1, v2, v3, v4) blk) (skipn (32 - m) X))
        as [[[a b] c] d] eqn:Eblk.
      exists (n + 1 + k)%nat, r.
      cbn [S64.v1 S64.v2 S64.v3 S64.v4 S64.mem64 S64.memsize S64.total_len
         S64.reserved].
      split; [rewrite length_app; rewrite <- ?EN; lia|]. split; [lia|].
      split.
      { rewrite blocks_add, blocks_add, HLn, Hskip. cbn [blocks].
        rewrite <- Eblk. f_equal.
        - apply step64_firstn.
          + rewrite take_app_ge by (rewrite length_take; lia).
            rewrite length_take.
            replace (32 - m `min` length buf)%nat with (32 - m)%nat by lia.
            unfold blk. rewrite drop_ge by lia. rewrite app_nil_r.
            apply take_ge. rewrite length_app, !length_take. rewrite <- ?EN; lia.
          + rewrite Hblk. lia.
          + rewrite length_app, length_take. rewrite <- ?EN; lia.
        - rewrite drop_app_ge by lia. f_equal. lia. }
      split.
      { rewrite drop_app_ge by lia.
        replace (32 * (n + 1 + k) - length L)%nat with (32 - m + 32 * k)%nat by lia.
        rewrite take_app_le by (rewrite length_take, length_drop; rewrite <- ?EN; lia).
        rewrite take_take. replace (r `min` r)%nat with r by lia.
        apply take_ge. rewrite length_drop. rewrite <- ?EN; lia. }
      split; [reflexivity|]. split; [exact Htot'|].
      rewrite length_app, length_take, !length_drop. rewrite <- ?EN; lia.
Qed.
End Repr64.

Section Digest64.
Variable cfg : config.
Let cpu := XXH_CPU_LITTLE_ENDIAN cfg.

Lemma XXH64_digest_endian_hash mem_addr endian seed L s :
  repr64 cpu endian seed L s -> Z.of_nat (length L) < 2 ^ 64 ->
  XXH64_digest_endian cfg mem_addr s endian = hash64_of cpu endian seed L.
Proof.
  intros (n & m & HL & Hm & Hv & Hb & Hms & Htot & Hlen) Hsz.
  unfold XXH64_digest_endian, hash64_of.
  assert (Hdiv : (length L / 32)%nat = n).
  { symmetry. apply (Nat.div_unique _ 32 n m); lia. }
  rewrite Hdiv. rewrite Z.mod_small in Htot by lia. rewrite Htot.
  assert (Hh : (if 32 <=? Z.of_nat (length L)
                then XXH64_merge (S64.v1 s) (S64.v2 s) (S64.v3 s) (S64.v4 s)
                else add64 (S64.v3 s) PRIME64_5)
               = (if 32 <=? Z.of_nat (length L)
                  then merge64 (blocks 32 (step64 cpu endian) n (init64 seed) L)
                  else add64 seed PRIME64_5)).
  { destruct (Z.leb_spec 32 (Z.of_nat (length L))) as [H32|H32].
    - rewrite <- Hv. unfold merge64. reflexivity.
    - assert (n = 0%nat) as -> by lia.
      cbn [blocks] in Hv. injection Hv as _ _ -> _.
      unfold add64, to_U64, U64_MOD. rewrite Z.add_0_r.
      rewrite Zplus_mod_idemp_l. exact eq_refl. }
  cbv zeta. rewrite Hh. rewrite (to_U64_small (Z.of_nat (length L))) by lia.
  rewrite to_size_t_small by lia.
  assert (Hland : Z.land (Z.of_nat (length L)) 31 = Z.of_nat m).
  { rewrite land_31, HL.
    rewrite Nat2Z.inj_add, Nat2Z.inj_mul. change (Z.of_nat 32) with 32.
    rewrite Z.add_comm, Z.mul_comm, Z_mod_plus_full. apply Z.mod_small. lia. }
  apply (XXH64_finalize_ext cpu endian) with (n := m); try exact Hland.
  - cbn [mem]. rewrite Hb. symmetry. apply take_ge. rewrite length_drop. lia.
  - cbn [mem]. lia.
  - cbn [mem]. rewrite length_drop. lia.
Qed.

Lemma hash64_of_total endian seed L :
  exists h, hash64_of cpu endian seed L = Ok h.
Proof.
  unfold hash64_of.
  destruct (divmod_nat 32 (length L)) as (n & m & HL & Hm & Hd & _); [lia|].
  rewrite Hd.
  apply (XXH64_finalize_total cpu endian) with (n := m).
  - rewrite land_31, HL.
    rewrite Nat2Z.inj_add, Nat2Z.inj_mul. change (Z.of_nat 32) with 32.
    rewrite Z.add_comm, Z.mul_comm, Z_mod_plus_full. apply Z.mod_small. lia.
  - cbn [mem]. rewrite length_drop. lia.
Qed.

Lemma XXH64_unfold input len seed :
  exists align,
    XXH64 cfg input len seed
    = XXH64_endian_align cfg input len seed (endian_of cfg) align.
Proof.
  unfold XXH64, endian_of.
  destruct (XXH_FORCE_ALIGN_CHECK cfg && (Z.land (addr input) 7 =? 0)),
    (XXH_endianess_eqb (XXH_CPU_LITTLE_ENDIAN cfg) XXH_littleEndian
     || XXH_FORCE_NATIVE_FORMAT cfg); eexists; reflexivity.
Qed.

Lemma XXH64_update_unfold mem_addr s input len :
  XXH64_update cfg mem_addr s input len
  = XXH64_update_endian cfg mem_addr s input len (endian_of cfg).
Proof.
  unfold XXH64_update, endian_of.
  destruct (XXH_endianess_eqb (XXH_CPU_LITTLE_ENDIAN cfg) XXH_littleEndian
            || XXH_FORCE_NATIVE_FORMAT cfg); reflexivity.
Qed.

Lemma XXH64_digest_unfold mem_addr s :
  XXH64_digest cfg mem_addr s
  = XXH64_digest_endian cfg mem_addr s (endian_of cfg).
Proof.
  unfold XXH64_digest, endian_of.
  destruct (XXH_endianess_eqb (XXH_CPU_LITTLE_ENDIAN cfg) XXH_littleEndian
            || XXH_FORCE_NATIVE_FORMAT cfg); reflexivity.
Qed.

Lemma repr64_wf endian seed L s : repr64 cpu endian seed L s -> wf64 s.
Proof.
  intros (n & m & HL & Hm & Hv & Hb & Hms & Htot & Hlen).
  split; [exact Hlen | lia].
Qed.

Lemma XXH64_hash input len seed :
  valid_input input len ->
  XXH64 cfg input len seed
  = hash64_of cpu (endian_of cfg) seed (input_bytes input len).
Proof.
  intros V. destruct (XXH64_unfold input len seed) as (align & ->).
  apply XXH64_endian_align_hash. exact V.
Qed.

Lemma XXH64_update_repr mem_addr seed L s input len :
  repr64 cpu (endian_of cfg) seed L s -> valid_input input len ->
  exists s',
    XXH64_update cfg mem_addr s input len = Ok (XXH_OK, s')
    /\ repr64 cpu (endian_of cfg) seed (L ++ input_bytes input len) s'.
Proof.
  intros R V. rewrite XXH64_update_unfold.
  rewrite (XXH64_update_endian_exec cfg mem_addr (endian_of cfg) s input len);
    [|eapply repr64_wf; exact R | exact V].
  eexists. split; [reflexivity|]. apply update64_of_repr. exact R.
Qed.

Lemma XXH64_digest_hash mem_addr seed L s :
  repr64 cpu (endian_of cfg) seed L s -> Z.of_nat (length L) < 2 ^ 64 ->
  XXH64_digest cfg mem_addr s = hash64_of cpu (endian_of cfg) seed L.
Proof.
  intros R H. rewrite XXH64_digest_unfold. apply XXH64_digest_endian_hash; assumption.
Qed.
End Digest64.

(** * Byte swaps and the canonical representation *)

Lemma testbit_neg_false x i : i < 0 -> Z.testbit x i = false.
Proof. apply Z.testbit_neg_r. Qed.

Lemma testbit_shl32 x r i :
  0 <= i -> Z.testbit (shl32 x r) i = (i <? 32) && Z.testbit x (i - r).
Proof.
  intros Hi. unfold shl32, to_U32, U32_MOD.
  destruct (Z.ltb_spec i 32).
  - rewrite Z.mod_pow2_bits_low by lia. now rewrite Z.shiftl_spec by lia.
  - now rewrite Z.mod_pow2_bits_high by lia.
Qed.

Lemma testbit_shl64 x r i :
  0 <= i -> Z.testbit (shl64 x r) i = (i <? 64) && Z.testbit x (i - r).
Proof.
  intros Hi. unfold shl64, to_U64, U64_MOD.
  destruct (Z.ltb_spec i 64).
  - rewrite Z.mod_pow2_bits_low by lia. now rewrite Z.shiftl_spec by lia.
  - now rewrite Z.mod_pow2_bits_high by lia.
Qed.

Lemma testbit_byte_mask k i :
  0 <= k -> 0 <= i ->
  Z.testbit (Z.shiftl (Z.ones 8) k) i = (k <=? i) && (i <? k + 8).
Proof.
  intros Hk Hi. rewrite Z.shiftl_spec by lia.
  destruct (Z.leb_spec k i); simpl.
  - destruct (Z.ltb_spec i (k + 8)).
    + apply Z.ones_spec_low; lia.
    + apply Z.ones_spec_high; lia.
  - apply Z.testbit_neg_r; lia.
Qed.

Ltac split_cmp :=
  repeat match goal with
  | |- context [?a <? ?b] => destruct (Z.ltb_spec a b); try lia
  | |- context [?a <=? ?b] => destruct (Z.leb_spec a b); try lia
  end.

Ltac masks32 :=
  change 0xff000000 with (Z.shiftl (Z.ones 8) 24);
  change 0x00ff0000 with (Z.shiftl (Z.ones 8) 16);
  change 0x0000ff00 with (Z.shiftl (Z.ones 8) 8);
  change 0x000000ff with (Z.shiftl (Z.ones 8) 0).

Lemma testbit_swap32 x i :
  0 <= i ->
  Z.testbit (XXH_swap32 x) i = (i <? 32) && Z.testbit x (swap32_index i).
Proof.
  intros Hi. unfold XXH_swap32, swap32_index. masks32.
  rewrite !Z.lor_spec, !Z.land_spec, !testbit_shl32, !Z.shiftr_spec,
    !testbit_byte_mask by lia.
  split_cmp; simpl; rewrite ?andb_false_r, ?andb_true_r, ?orb_false_r; 
  try reflexivity; f_equal; lia.
Qed.

Lemma U32_bits x : 0 <= x < 2 ^ 32 -> forall i, 32 <= i -> Z.testbit x i = false.
Proof.
  intros H i Hi. rewrite <- (Z.mod_small x (2 ^ 32)) by lia.
  apply Z.mod_pow2_bits_high; lia.
Qed.

Lemma U64_bits x : 0 <= x < 2 ^ 64 -> forall i, 64 <= i -> Z.testbit x i = false.
Proof.
  intros H i Hi. rewrite <- (Z.mod_small x (2 ^ 64)) by lia.
  apply Z.mod_pow2_bits_high; lia.
Qed.

Lemma bits_range n x :
  0 <= n -> (forall i, n <= i -> Z.testbit x i = false) -> 0 <= x < 2 ^ n.
Proof.
  intros Hn H.
  assert (E : x mod 2 ^ n = x).
  { apply Z.bits_inj'. intros i Hi. destruct (Z.ltb_spec i n).
    - apply Z.mod_pow2_bits_low; lia.
    - rewrite Z.mod_pow2_bits_high by lia. symmetry. apply H; lia. }
  rewrite <- E. apply Z.mod_pos_bound. apply Z.pow_pos_nonneg; lia.
Qed.

Lemma swap32_range x : 0 <= XXH_swap32 x < 2 ^ 32.
Proof.
  apply bits_range; [lia|]. intros i Hi. rewrite testbit_swap32 by lia.
  destruct (Z.ltb_spec i 32); [lia | reflexivity].
Qed.

Lemma swap32_involutive x : 0 <= x < 2 ^ 32 -> XXH_swap32 (XXH_swap32 x) = x.
Proof.
  intros H. apply Z.bits_inj'. intros i Hi.
  rewrite testbit_swap32 by lia.
  destruct (Z.ltb_spec i 32); simpl.
  - rewrite testbit_swap32 by (unfold swap32_index; split_cmp).
    unfold swap32_index. split_cmp; simpl; f_equal; lia.
  - symmetry. apply U32_bits; lia.
Qed.

Lemma BYTE_val_of x : BYTE_val (BYTE_of x) = x mod 256.
Proof.
  unfold BYTE_val, BYTE_of.
  assert (Hx : 0 <= x mod 256 < 256) by (apply Z.mod_pos_bound; lia).
  destruct (Byte.of_N (Z.to_N (x mod 256))) as [b|] eqn:E.
  - apply Byte.to_of_N in E. rewrite E. lia.
  - apply Byte.of_N_None_iff in E. lia.
Qed.

Lemma BYTE_val_range b : 0 <= BYTE_val b < 256.
Proof.
  unfold BYTE_val. pose proof (Byte.to_N_bounded b). lia.
Qed.

Lemma load32_store32 cpu a x :
  0 <= x < 2 ^ 32 -> load32 cpu (mkptr a (store32 cpu x)) = Ok x.
Proof.
  intros H. destruct cpu; unfold load32, store32, native32; simpl mem; cbv iota;
    rewrite !BYTE_val_of; f_equal;
    change (2 ^ 8) with 256; change (2 ^ 16) with 65536;
    change (2 ^ 24) with 16777216; change (2 ^ 32) with 4294967296 in H;
    Z.div_mod_to_equations; lia.
Qed.

Lemma canonical32_roundtrip cfg a h :
  0 <= h < 2 ^ 32 ->
  XXH32_hashFromCanonical cfg (mkptr a (XXH32_canonicalFromHash cfg h)) = Ok h.
Proof.
  intros H. unfold XXH32_hashFromCanonical, XXH32_canonicalFromHash, XXH_readBE32, XXH_read32.
  destruct (XXH_CPU_LITTLE_ENDIAN cfg).
  - now apply load32_store32.
  - rewrite load32_store32 by apply swap32_range. simpl.
    now rewrite swap32_involutive.
Qed.

Lemma BYTE_of_mod x y : x mod 256 = y mod 256 -> BYTE_of x = BYTE_of y.
Proof. unfold BYTE_of. now intros ->. Qed.

Lemma byte_of_bits x y :
  (forall i, 0 <= i < 8 -> Z.testbit x i = Z.testbit y i) -> BYTE_of x = BYTE_of y.
Proof.
  intros H. apply BYTE_of_mod. change 256 with (2 ^ 8).
  apply Z.bits_inj'. intros i Hi. destruct (Z.ltb_spec i 8).
  - rewrite !Z.mod_pow2_bits_low by lia. apply H; lia.
  - now rewrite !Z.mod_pow2_bits_high by lia.
Qed.

Lemma canonical32_big_endian cfg h :
  0 <= h < 2 ^ 32 ->
  XXH32_canonicalFromHash cfg h = store32 XXH_bigEndian h.
Proof.
  intros H. unfold XXH32_canonicalFromHash. destruct (XXH_CPU_LITTLE_ENDIAN cfg); [reflexivity|].
  unfold store32. f_equal; [| f_equal; [| f_equal; [| f_equal]]];
  apply byte_of_bits; intros i Hi;
  rewrite ?Z.div_pow2_bits by lia; rewrite testbit_swap32 by lia;
  unfold swap32_index; split_cmp; simpl; f_equal; lia.
Qed.

Ltac masks64 :=
  change 0xff00000000000000 with (Z.shiftl (Z.ones 8) 56);
  change 0x00ff000000000000 with (Z.shiftl (Z.ones 8) 48);
  change 0x0000ff0000000000 with (Z.shiftl (Z.ones 8) 40);
  change 0x000000ff00000000 with (Z.shiftl (Z.ones 8) 32);
  change 0x00000000ff000000 with (Z.shiftl (Z.ones 8) 24);
  change 0x0000000000ff0000 with (Z.shiftl (Z.ones 8) 16);
  change 0x000000000000ff00 with (Z.shiftl (Z.ones 8) 8);
  change 0x00000000000000ff with (Z.shiftl (Z.ones 8) 0).

Lemma testbit_swap64 x i :
  0 <= i ->
  Z.testbit (XXH_swap64 x) i = (i <? 64) && Z.testbit x (swap64_index i).
Proof.
  intros Hi. unfold XXH_swap64, swap64_index. masks64.
  rewrite !Z.lor_spec, !Z.land_spec, !testbit_shl64, !Z.shiftr_spec,
    !testbit_byte_mask by lia.
  split_cmp; simpl; rewrite ?andb_false_r, ?andb_true_r, ?orb_false_r;
  try reflexivity; f_equal; lia.
Qed.

Lemma swap64_range x : 0 <= XXH_swap64 x < 2 ^ 64.
Proof.
  apply bits_range; [lia|]. intros i Hi. rewrite testbit_swap64 by lia.
  destruct (Z.ltb_spec i 64); [lia | reflexivity].
Qed.

Lemma swap64_involutive x : 0 <= x < 2 ^ 64 -> XXH_swap64 (XXH_swap64 x) = x.
Proof.
  intros H. apply Z.bits_inj'. intros i Hi.
  rewrite testbit_swap64 by lia.
  destruct (Z.ltb_spec i 64); simpl.
  - rewrite testbit_swap64 by (unfold swap64_index; split_cmp).
    unfold swap64_index. split_cmp; simpl; f_equal; lia.
  - symmetry. apply U64_bits; lia.
Qed.

Lemma load64_store64 cpu a x :
  0 <= x < 2 ^ 64 -> load64 cpu (mkptr a (store64 cpu x)) = Ok x.
Proof.
  intros H. destruct cpu; unfold load64, store64, native64; simpl mem; cbv iota;
    rewrite !BYTE_val_of; f_equal;
    change (2 ^ 8) with 256; change (2 ^ 16) with 65536;
    change (2 ^ 24) with 16777216; change (2 ^ 32) with 4294967296;
    change (2 ^ 40) with 1099511627776; change (2 ^ 48) with 281474976710656;
    change (2 ^ 56) with 72057594037927936;
    change (2 ^ 64) with 18446744073709551616 in H;
    Z.div_mod_to_equations; lia.
Qed.

Lemma canonical64_roundtrip cfg a h :
  0 <= h < 2 ^ 64 ->
  XXH64_hashFromCanonical cfg (mkptr a (XXH64_canonicalFromHash cfg h)) = Ok h.
Proof.
  intros H. unfold XXH64_hashFromCanonical, XXH64_canonicalFromHash, XXH_readBE64, XXH_read64.
  destruct (XXH_CPU_LITTLE_ENDIAN cfg).
  - now apply load64_store64.
  - rewrite load64_store64 by apply swap64_range. simpl.
    now rewrite swap64_involutive.
Qed.

Lemma canonical64_big_endian cfg h :
  0 <= h < 2 ^ 64 ->
  XXH64_canonicalFromHash cfg h = store64 XXH_bigEndian h.
Proof.
  intros H. unfold XXH64_canonicalFromHash. destruct (XXH_CPU_LITTLE_ENDIAN cfg); [reflexivity|].
  unfold store64.
  f_equal; [| f_equal; [| f_equal; [| f_equal; [| f_equal; [| f_equal; [| f_equal; [| f_equal]]]]]]];
  apply byte_of_bits; intros i Hi;
  rewrite ?Z.div_pow2_bits by lia; rewrite testbit_swap64 by lia;
  unfold swap64_index; split_cmp; simpl; f_equal; lia.
Qed.

(** * What any returning call of update keeps *)

Lemma bind_Ok {A B : Type} (r : result A) (k : A -> result B) (b : B) :
  bind r k = Ok b -> exists a, r = Ok a /\ k a = Ok b.
Proof. destruct r as [a|f]; [|discriminate]. intros H. exists a. now split. Qed.

Lemma XXH_memcpy_Ok dest off src size m :
  XXH_memcpy dest off src size = Ok m -> 0 <= off -> 0 <= size ->
  length m = length dest /\ off + size <= Z.of_nat (length dest).
Proof.
  unfold XXH_memcpy. intros H Hoff Hsize.
  destruct (Z.leb_spec size (Z.of_nat (length (mem src)))); [|discriminate].
  destruct (Z.leb_spec (off + size) (Z.of_nat (length dest))); [|discriminate].
  cbn [andb] in H. injection H as <-.
  rewrite !length_app, !length_firstn, length_skipn. lia.
Qed.

Ltac inv_bind H :=
  let x := fresh "x" in let E := fresh "E" in
  apply bind_Ok in H; destruct H as (x & E & H).

Section Inv32.
Variable cfg : config.
Variable mem_addr : Z.

(** Every returning call keeps the shape of the state and the reserved
    field; on a null input nothing changes; on any other input the call
    answers [XXH_OK], adds [len] to the running total modulo 2^32, and
    ors the block flag. *)
Lemma XXH32_update_endian_inv s input len endian e s' :
  wf32 s -> 0 <= len ->
  XXH32_update_endian cfg mem_addr s input len endian = Ok (e, s') ->
  wf32 s' /\ S32.reserved s' = S32.reserved s
  /\ (isNULL input = true ->
      s' = s /\ e = if XXH_ACCEPT_NULL_INPUT_POINTER cfg then XXH_OK else XXH_ERROR)
  /\ (isNULL input = false ->
      e = XXH_OK
      /\ S32.total_len_32 s' = add32 (S32.total_len_32 s) (to_U32 len)
      /\ S32.large_len s'
         = Z.lor (S32.large_len s)
             (Z.lor (Z_of_bool (16 <=? len))
                (Z_of_bool (16 <=? add32 (S32.total_len_32 s) (to_U32 len))))).
Proof.
  intros [Hbuf Hms] Hlen H. unfold XXH32_update_endian in H.
  destruct (isNULL input) eqn:EN.
  { destruct (XXH_ACCEPT_NULL_INPUT_POINTER cfg); injection H as <- <-;
      (split; [split; assumption|]); (split; [reflexivity|]);
      (split; [intros _; split; reflexivity | discriminate]). }
  destruct s as [tot large v1 v2 v3 v4 buf ms res].
  cbn [S32.v1 S32.v2 S32.v3 S32.v4 S32.mem32 S32.memsize S32.total_len_32
       S32.large_len S32.reserved] in *.
  unfold S32.set_memsize, S32.set_mem32, S32.set_v, S32.set_large_len,
    S32.set_total_len_32 in H.
  cbn [S32.v1 S32.v2 S32.v3 S32.v4 S32.mem32 S32.memsize S32.total_len_32
       S32.large_len S32.reserved] in H.
  cut (wf32 s' /\ S32.reserved s' = res /\ e = XXH_OK
       /\ S32.total_len_32 s' = add32 tot (to_U32 len)
       /\ S32.large_len s'
          = Z.lor large
              (Z.lor (Z_of_bool (16 <=? len))
                 (Z_of_bool (16 <=? add32 tot (to_U32 len))))).
  { intros (W & R & E1 & E2 & E3). split; [exact W|]. split; [exact R|].
    split; [discriminate|]. intros _. repeat split; assumption. }
  destruct (Z.ltb_spec (to_size_t (ms + len)) 16) as [Hlt|Hge].
  - (* buffered *)
    inv_bind H. injection H as <- <-.
    apply XXH_memcpy_Ok in E; [|lia|lia]. destruct E as [El Eb].
    unfold wf32.
    cbn [S32.v1 S32.v2 S32.v3 S32.v4 S32.mem32 S32.memsize S32.total_len_32
         S32.large_len S32.reserved].
    assert (Hs : ms + len < 16).
    { unfold to_size_t, U64_MOD in Hlt. rewrite Z.mod_small in Hlt; [lia|]. lia. }
    repeat split; try lia.
    + unfold add32. rewrite (to_U32_small len) by lia.
      rewrite to_U32_small; lia.
    + unfold add32. rewrite (to_U32_small len) by lia.
      rewrite to_U32_small; lia.
  - inv_bind H. destruct x as [st1 p1].
    assert (H1 : length (S32.mem32 st1) = 16%nat /\ S32.reserved st1 = res
                 /\ S32.total_len_32 st1 = add32 tot (to_U32 len)
                 /\ S32.large_len st1
                    = Z.lor large
                        (Z.lor (Z_of_bool (16 <=? len))
                           (Z_of_bool (16 <=? add32 tot (to_U32 len))))).
    { destruct (negb (ms =? 0)).
      - inv_bind E. repeat inv_bind E. injection E as <- <-.
        apply XXH_memcpy_Ok in E0; [|lia|]. 
        + cbn [S32.mem32 S32.reserved S32.total_len_32 S32.large_len].
          repeat split; lia.
        + unfold sub32, to_U32, U32_MOD. apply Z.mod_pos_bound. lia.
      - injection E as <- <-.
        cbn [S32.mem32 S32.reserved S32.total_len_32 S32.large_len].
        repeat split; lia. }
    clear E. destruct H1 as (Hb1 & Hr1 & Ht1 & Hl1).
    destruct st1 as [tot1 large1 a1 b1 c1 d1 buf1 ms1 res1].
    cbn [S32.v1 S32.v2 S32.v3 S32.v4 S32.mem32 S32.memsize S32.total_len_32
         S32.large_len S32.reserved] in *.
    subst res1 tot1 large1.
    inv_bind H. destruct x as [st2 p2].
    assert (H2 : length (S32.mem32 st2) = 16%nat /\ S32.reserved st2 = res
                 /\ S32.total_len_32 st2 = add32 tot (to_U32 len)
                 /\ S32.large_len st2
                    = Z.lor large
                        (Z.lor (Z_of_bool (16 <=? len))
                           (Z_of_bool (16 <=? add32 tot (to_U32 len))))
                 /\ S32.memsize st2 = 0
                 /\ addr input + len - 16 < addr p2).
    { destruct (Z.leb_spec (addr p1) (addr input + len - 16)) as [Hle|Hgt].
      - inv_bind E. destruct x as [[[[w1 w2] w3] w4] q]. injection E as <- <-.
        cbn [S32.mem32 S32.reserved S32.total_len_32 S32.large_len S32.memsize].
        assert (Hexit : (addr q <=? addr input + len - 16) = false).
        { destruct (XXH_FORCE_ALIGN_CHECK cfg && (Z.land (addr p1) 3 =? 0)
                    && XXH_endianess_eqb endian XXH_littleEndian);
            apply do_while_exit in E0; exact E0. }
        apply Z.leb_gt in Hexit. repeat split; lia.
      - injection E as <- <-.
        cbn [S32.mem32 S32.reserved S32.total_len_32 S32.large_len S32.memsize].
        repeat split; lia. }
    clear E. destruct H2 as (Hb2 & Hr2 & Ht2 & Hl2 & Hm2 & Hp2).
    destruct (Z.ltb_spec (addr p2) (addr input + len)) as [Hlt2|Hge2].
    + inv_bind H. injection H as <- <-.
      apply XXH_memcpy_Ok in E; [|lia|].
      2:{ unfold to_size_t, U64_MOD. apply Z.mod_pos_bound. lia. }
      unfold wf32, S32.set_memsize, S32.set_mem32.
      cbn [S32.v1 S32.v2 S32.v3 S32.v4 S32.mem32 S32.memsize S32.total_len_32
           S32.large_len S32.reserved].
      rewrite to_U32_small by lia.
      repeat split; try lia; assumption.
    + injection H as <- <-. unfold wf32. repeat split; try lia; assumption.
Qed.
End Inv32.

Section Inv64.
Variable cfg : config.
Variable mem_addr : Z.

Lemma XXH64_update_endian_inv s input len endian e s' :
  wf64 s -> 0 <= len ->
  XXH64_update_endian cfg mem_addr s input len endian = Ok (e, s') ->
  wf64 s' /\ S64.reserved s' = S64.reserved s
  /\ (isNULL input = true ->
      s' = s /\ e = if XXH_ACCEPT_NULL_INPUT_POINTER cfg then XXH_OK else XXH_ERROR)
  /\ (isNULL input = false ->
      e = XXH_OK /\ S64.total_len s' = add64 (S64.total_len s) len).
Proof.
  intros [Hbuf Hms] Hlen H. unfold XXH64_update_endian in H.
  destruct (isNULL input) eqn:EN.
  { destruct (XXH_ACCEPT_NULL_INPUT_POINTER cfg); injection H as <- <-;
      (split; [split; assumption|]); (split; [reflexivity|]);
      (split; [intros _; split; reflexivity | discriminate]). }
  destruct s as [tot v1 v2 v3 v4 buf ms res].
  cbn [S64.v1 S64.v2 S64.v3 S64.v4 S64.mem64 S64.memsize S64.total_len
       S64.reserved] in *.
  unfold S64.set_memsize, S64.set_mem64, S64.set_v, S64.set_total_len in H.
  cbn [S64.v1 S64.v2 S64.v3 S64.v4 S64.mem64 S64.memsize S64.total_len
       S64.reserved] in H.
  cut (wf64 s' /\ S64.reserved s' = res /\ e = XXH_OK
       /\ S64.total_len s' = add64 tot len).
  { intros (W & R & E1 & E2). split; [exact W|]. split; [exact R|].
    split; [discriminate|]. intros _. split; assumption. }
  destruct (Z.ltb_spec (to_size_t (ms + len)) 32) as [Hlt|Hge].
  - inv_bind H. injection H as <- <-.
    apply XXH_memcpy_Ok in E; [|lia|lia]. destruct E as [El Eb].
    unfold wf64.
    cbn [S64.v1 S64.v2 S64.v3 S64.v4 S64.mem64 S64.memsize S64.total_len
         S64.reserved].
    assert (Hs : ms + len < 32).
    { unfold to_size_t, U64_MOD in Hlt. rewrite Z.mod_small in Hlt; lia. }
    repeat split; try lia.
    + unfold add32. rewrite (to_U32_small len) by lia.
      rewrite to_U32_small; lia.
    + unfold add32. rewrite (to_U32_small len) by lia.
      rewrite to_U32_small; lia.
  - inv_bind H. destruct x as [st1 p1].
    assert (H1 : length (S64.mem64 st1) = 32%nat /\ S64.reserved st1 = res
                 /\ S64.total_len st1 = add64 tot len
                 /\ S64.memsize st1 = 0 /\ addr input <= addr p1).
    { destruct (Z.eqb_spec ms 0) as [E0|E0]; cbn [negb] in E.
      - injection E as <- <-.
        cbn [S64.mem64 S64.reserved S64.total_len S64.memsize].
        repeat split; lia.
      - inv_bind E. repeat inv_bind E. injection E as <- <-.
        apply XXH_memcpy_Ok in E1; [|lia|].
        + cbn [S64.mem64 S64.reserved S64.total_len S64.memsize].
          rewrite addr_ptr_add.
          pose proof (Z.mod_pos_bound (32 - ms) (2 ^ 32) ltac:(lia)).
          unfold sub32, to_U32, U32_MOD. repeat split; lia.
        + unfold sub32, to_U32, U32_MOD. apply Z.mod_pos_bound. lia. }
    clear E. destruct H1 as (Hb1 & Hr1 & Ht1 & Hm1 & Hp1).
    destruct st1 as [tot1 a1 b1 c1 d1 buf1 ms1 res1].
    cbn [S64.v1 S64.v2 S64.v3 S64.v4 S64.mem64 S64.memsize S64.total_len
         S64.reserved] in *.
    subst res1 tot1 ms1.
    inv_bind H. destruct x as [st2 p2].
    assert (H2 : length (S64.mem64 st2) = 32%nat /\ S64.reserved st2 = res
                 /\ S64.total_len st2 = add64 tot len
                 /\ S64.memsize st2 = 0
                 /\ addr input + len - 32 < addr p2).
    { destruct (Z.leb_spec (addr p1 + 32) (addr input + len)) as [Hle|Hgt].
      - inv_bind E. destruct x as [[[[w1 w2] w3] w4] q]. injection E as <- <-.
        cbn [S64.mem64 S64.reserved S64.total_len S64.memsize].
        assert (Hexit : (addr q <=? addr input + len - 32) = false).
        { destruct (XXH_FORCE_ALIGN_CHECK cfg
                    && XXH_endianess_eqb endian XXH_littleEndian
                    && (Z.land (addr p1) 7 =? 0));
            apply do_while_exit in E0; exact E0. }
        apply Z.leb_gt in Hexit. repeat split; lia.
      - injection E as <- <-.
        cbn [S64.mem64 S64.reserved S64.total_len S64.memsize].
        repeat split; lia. }
    clear E. destruct H2 as (Hb2 & Hr2 & Ht2 & Hm2 & Hp2).
    destruct (Z.ltb_spec (addr p2) (addr input + len)) as [Hlt2|Hge2].
    + inv_bind H. injection H as <- <-.
      apply XXH_memcpy_Ok in E; [|lia|].
      2:{ unfold to_size_t, U64_MOD. apply Z.mod_pos_bound. lia. }
      unfold wf64, S64.set_memsize, S64.set_mem64.
      cbn [S64.v1 S64.v2 S64.v3 S64.v4 S64.mem64 S64.memsize S64.total_len
           S64.reserved].
      rewrite to_U32_small by lia.
      repeat split; try lia; assumption.
    + injection H as <- <-. unfold wf64. repeat split; try lia; assumption.
Qed.
End Inv64.

Section Inv32a.
Variable cfg : config.
Variable mem_addr : Z.

Lemma XXH32a_XXH64a_update_endian_inv s input len endian e s' :
  wf32a s -> 0 <= len ->
  XXH32a_XXH64a_update_endian cfg mem_addr s input len endian = Ok (e, s') ->
  wf32a s' /\ S32a.reserved s' = S32a.reserved s
  /\ (isNULL input = true ->
      s' = s /\ e = if XXH_ACCEPT_NULL_INPUT_POINTER cfg then XXH_OK else XXH_ERROR)
  /\ (isNULL input = false ->
      e = XXH_OK
      /\ S32a.total_len_32 s' = add32 (S32a.total_len_32 s) (to_U32 len)
      /\ S32a.large_len s'
         = Z.lor (S32a.large_len s)
             (Z.lor (Z_of_bool (32 <=? len))
                (Z_of_bool (32 <=? add32 (S32a.total_len_32 s) (to_U32 len))))).
Proof.
  intros [Hbuf Hms] Hlen H. unfold XXH32a_XXH64a_update_endian in H.
  destruct (isNULL input) eqn:EN.
  { destruct (XXH_ACCEPT_NULL_INPUT_POINTER cfg); injection H as <- <-;
      (split; [split; assumption|]); (split; [reflexivity|]);
      (split; [intros _; split; reflexivity | discriminate]). }
  destruct s as [tot large v00 v01 v02 v03 v10 v11 v12 v13 buf ms res].
  cbn [S32a.v00 S32a.v01 S32a.v02 S32a.v03 S32a.v10 S32a.v11 S32a.v12 S32a.v13
       S32a.mem32 S32a.memsize S32a.total_len_32 S32a.large_len S32a.reserved] in *.
  unfold S32a.set_memsize, S32a.set_mem32, S32a.set_v, S32a.set_large_len,
    S32a.set_total_len_32 in H.
  cbn [S32a.v00 S32a.v01 S32a.v02 S32a.v03 S32a.v10 S32a.v11 S32a.v12 S32a.v13
       S32a.mem32 S32a.memsize S32a.total_len_32 S32a.large_len S32a.reserved] in H.
  set (tot' := add32 tot (to_U32 len)) in *.
  set (large' := Z.lor large _) in *.
  cut (wf32a s' /\ S32a.reserved s' = res /\ e = XXH_OK
       /\ S32a.total_len_32 s' = tot' /\ S32a.large_len s' = large').
  { intros (W & R & E1 & E2 & E3). split; [exact W|]. split; [exact R|].
    split; [discriminate|]. intros _. repeat split; assumption. }
  destruct (Z.ltb_spec (to_size_t (ms + len)) 32) as [Hlt|Hge].
  - inv_bind H. injection H as <- <-.
    apply XXH_memcpy_Ok in E; [|lia|lia]. destruct E as [El Eb].
    unfold wf32a.
    cbn [S32a.mem32 S32a.memsize S32a.total_len_32 S32a.large_len S32a.reserved].
    assert (Hs : ms + len < 32).
    { unfold to_size_t, U64_MOD in Hlt. rewrite Z.mod_small in Hlt; lia. }
    repeat split; try lia.
    + unfold add32. rewrite (to_U32_small len) by lia.
      rewrite to_U32_small; lia.
    + unfold add32. rewrite (to_U32_small len) by lia.
      rewrite to_U32_small; lia.
  - inv_bind H. destruct x as [st1 p1].
    assert (H1 : length (S32a.mem32 st1) = 32%nat /\ S32a.reserved st1 = res
                 /\ S32a.total_len_32 st1 = tot' /\ S32a.large_len st1 = large'
                 /\ S32a.memsize st1 = 0 /\ addr input <= addr p1).
    { destruct (Z.eqb_spec ms 0) as [E0|E0]; cbn [negb] in E.
      - injection E as <- <-.
        cbn [S32a.mem32 S32a.memsize S32a.total_len_32 S32a.large_len S32a.reserved].
        repeat split; lia.
      - inv_bind E. inv_bind E.
        destruct x0 as [[[[[[[[a0 a1] a2] a3] b0] b1] b2] b3] q0].
        injection E as <- <-.
        apply XXH_memcpy_Ok in E1; [|lia|].
        + cbn [S32a.mem32 S32a.memsize S32a.total_len_32 S32a.large_len S32a.reserved].
          rewrite addr_ptr_add.
          pose proof (Z.mod_pos_bound (32 - ms) (2 ^ 32) ltac:(lia)).
          unfold sub32, to_U32, U32_MOD. repeat split; lia.
        + unfold sub32, to_U32, U32_MOD. apply Z.mod_pos_bound. lia. }
    clear E. destruct H1 as (Hb1 & Hr1 & Ht1 & Hl1 & Hm1 & Hp1).
    destruct st1 as [tot1 large1 a0 a1 a2 a3 b0 b1 b2 b3 buf1 ms1 res1].
    cbn [S32a.v00 S32a.v01 S32a.v02 S32a.v03 S32a.v10 S32a.v11 S32a.v12 S32a.v13
         S32a.mem32 S32a.memsize S32a.total_len_32 S32a.large_len S32a.reserved] in *.
    subst res1 tot1 large1 ms1.
    inv_bind H. destruct x as [st2 p2].
    assert (H2 : length (S32a.mem32 st2) = 32%nat /\ S32a.reserved st2 = res
                 /\ S32a.total_len_32 st2 = tot' /\ S32a.large_len st2 = large'
                 /\ S32a.memsize st2 = 0
                 /\ addr input + len - 32 < addr p2).
    { destruct (Z.leb_spec 32 len) as [Hle|Hgt].
      - inv_bind E. destruct x as [[[[[[[[w0 w1] w2] w3] w4] w5] w6] w7] q].
        injection E as <- <-.
        cbn [S32a.mem32 S32a.memsize S32a.total_len_32 S32a.large_len S32a.reserved].
        assert (Hexit : (addr q <=? addr input + len - 31) = false).
        { destruct (XXH_FORCE_ALIGN_CHECK cfg && (Z.land (addr p1) 3 =? 0)
                    && XXH_endianess_eqb endian XXH_littleEndian);
            apply do_while_exit in E0; exact E0. }
        apply Z.leb_gt in Hexit. repeat split; lia.
      - injection E as <- <-.
        cbn [S32a.mem32 S32a.memsize S32a.total_len_32 S32a.large_len S32a.reserved].
        repeat split; lia. }
    clear E. destruct H2 as (Hb2 & Hr2 & Ht2 & Hl2 & Hm2 & Hp2).
    destruct (Z.ltb_spec (addr p2) (addr input + len)) as [Hlt2|Hge2].
    + inv_bind H. injection H as <- <-.
      apply XXH_memcpy_Ok in E; [|lia|].
      2:{ unfold to_size_t, U64_MOD. apply Z.mod_pos_bound. lia. }
      unfold wf32a, S32a.set_memsize, S32a.set_mem32.
      cbn [S32a.mem32 S32a.memsize S32a.total_len_32 S32a.large_len S32a.reserved].
      rewrite to_U32_small by lia.
      repeat split; try lia; assumption.
    + injection H as <- <-. unfold wf32a. repeat split; try lia; assumption.
Qed.
End Inv32a.

(** * The alignment argument and the address of the bytes *)

(** Reads see the bytes at the pointer, not its address. *)
Lemma read8_mem p q : mem p = mem q -> read8 p = read8 q.
Proof. unfold read8. now intros ->. Qed.

Lemma load32_mem cpu p q : mem p = mem q -> load32 cpu p = load32 cpu q.
Proof. unfold load32. now intros ->. Qed.

Lemma load64_mem cpu p q : mem p = mem q -> load64 cpu p = load64 cpu q.
Proof. unfold load64. now intros ->. Qed.

Lemma readLE32_align_mem cpu endian a1 a2 p q :
  mem p = mem q ->
  XXH_readLE32_align cpu p endian a1 = XXH_readLE32_align cpu q endian a2.
Proof.
  intros E. rewrite (readLE32_align_any cpu p endian a1 a2).
  unfold XXH_readLE32_align, XXH_read32. now rewrite (load32_mem cpu p q E).
Qed.

Lemma readLE64_align_mem cpu endian a1 a2 p q :
  mem p = mem q ->
  XXH_readLE64_align cpu p endian a1 = XXH_readLE64_align cpu q endian a2.
Proof.
  intros E. rewrite (readLE64_align_any cpu p endian a1 a2).
  unfold XXH_readLE64_align, XXH_read64. now rewrite (load64_mem cpu p q E).
Qed.

Lemma mem_ptr_add_eq p q n : mem p = mem q -> mem (ptr_add p n) = mem (ptr_add q n).
Proof. rewrite !mem_ptr_add. now intros ->. Qed.

Section RunMem.
Variables (cpu endian : XXH_endianess).

Lemma XXH32_run_mem : forall ss h p q a1 a2,
  mem p = mem q ->
  XXH32_run cpu endian a1 ss h p = XXH32_run cpu endian a2 ss h q.
Proof.
  induction ss as [|s ss IH]; intros h p q a1 a2 E; [reflexivity|].
  destruct s; cbn [XXH32_run]; try reflexivity.
  - rewrite (read8_mem p q E). destruct (read8 q) as [b|f]; [|reflexivity].
    cbn [bind]. apply IH, mem_ptr_add_eq, E.
  - rewrite (readLE32_align_mem cpu endian a1 a2 p q E).
    destruct (XXH_readLE32_align cpu q endian a2) as [x|f]; [|reflexivity].
    cbn [bind]. apply IH, mem_ptr_add_eq, E.
Qed.

Lemma XXH64_run_mem : forall ss h p q a1 a2,
  mem p = mem q ->
  XXH64_run cpu endian a1 ss h p = XXH64_run cpu endian a2 ss h q.
Proof.
  induction ss as [|s ss IH]; intros h p q a1 a2 E; [reflexivity|].
  destruct s; cbn [XXH64_run]; try reflexivity.
  - rewrite (read8_mem p q E). destruct (read8 q) as [b|f]; [|reflexivity].
    cbn [bind]. apply IH, mem_ptr_add_eq, E.
  - rewrite (readLE32_align_mem cpu endian a1 a2 p q E).
    destruct (XXH_readLE32_align cpu q endian a2) as [x|f]; [|reflexivity].
    cbn [bind]. apply IH, mem_ptr_add_eq, E.
  - rewrite (readLE64_align_mem cpu endian a1 a2 p q E).
    destruct (XXH_readLE64_align cpu q endian a2) as [x|f]; [|reflexivity].
    cbn [bind]. apply IH, mem_ptr_add_eq, E.
Qed.

Lemma XXH32_finalize_mem h p q len a1 a2 :
  mem p = mem q ->
  XXH32_finalize cpu endian a1 h p len = XXH32_finalize cpu endian a2 h q len.
Proof.
  intros E. unfold XXH32_finalize.
  destruct (switch_from (Z.land len 31) XXH32_finalize_cases); [|reflexivity].
  apply XXH32_run_mem, E.
Qed.

Lemma XXH64_finalize_mem h p q len a1 a2 :
  mem p = mem q ->
  XXH64_finalize cpu endian a1 h p len = XXH64_finalize cpu endian a2 h q len.
Proof.
  intros E. unfold XXH64_finalize.
  destruct (switch_from (Z.land len 31) XXH64_finalize_cases); [|reflexivity].
  apply XXH64_run_mem, E.
Qed.
End RunMem.

(** The stripe of the aligned path is the stripe of the general path. *)
Ltac stripe_step :=
  match goal with
  | |- bind ?r _ = bind ?r _ =>
      destruct r; [cbn [bind] | reflexivity]
  end.

Lemma readLE32_align_load cpu p a :
  XXH_readLE32_align cpu p XXH_littleEndian a = load32 cpu p.
Proof. destruct a; reflexivity. Qed.

Lemma readLE64_align_load cpu p a :
  XXH_readLE64_align cpu p XXH_littleEndian a = load64 cpu p.
Proof. destruct a; reflexivity. Qed.

Lemma XXH32_stripe_aligned_eq cfg a s :
  XXH32_stripe_aligned cfg s = XXH32_stripe cfg XXH_littleEndian a s.
Proof.
  destruct s as [[[[v1 v2] v3] v4] p]. unfold XXH32_stripe_aligned, XXH32_stripe.
  rewrite !readLE32_align_load. norm_ptr. repeat stripe_step. reflexivity.
Qed.

Lemma XXH32_stripe_align_any cfg endian a1 a2 s :
  XXH32_stripe cfg endian a1 s = XXH32_stripe cfg endian a2 s.
Proof.
  destruct s as [[[[v1 v2] v3] v4] p]. unfold XXH32_stripe.
  rewrite !(readLE32_align_any _ _ endian a1 a2). reflexivity.
Qed.

Lemma XXH64_stripe_aligned_eq cfg a s :
  XXH64_stripe_aligned cfg s = XXH64_stripe cfg XXH_littleEndian a s.
Proof.
  destruct s as [[[[v1 v2] v3] v4] p]. unfold XXH64_stripe_aligned, XXH64_stripe.
  rewrite !readLE64_align_load. norm_ptr. repeat stripe_step. reflexivity.
Qed.

Lemma XXH64_stripe_align_any cfg endian a1 a2 s :
  XXH64_stripe cfg endian a1 s = XXH64_stripe cfg endian a2 s.
Proof.
  destruct s as [[[[v1 v2] v3] v4] p]. unfold XXH64_stripe.
  rewrite !(readLE64_align_any _ _ endian a1 a2). reflexivity.
Qed.

Lemma andb_little b endian :
  b && XXH_endianess_eqb endian XXH_littleEndian = true -> endian = XXH_littleEndian.
Proof. destruct endian; [rewrite andb_false_r; discriminate | reflexivity]. Qed.

(** The block loop of the one-shot functions, whichever variant the
    configuration and the alignment argument select. *)
Lemma XXH32_loop_any cfg c1 c2 endian a1 a2 fuel limit s :
  (if c1 && XXH_endianess_eqb endian XXH_littleEndian
   then do_while fuel (XXH32_stripe_aligned cfg)
          (fun '(_, _, _, _, p) => addr p <? limit) s
   else do_while fuel (XXH32_stripe cfg endian a1)
          (fun '(_, _, _, _, p) => addr p <? limit) s)
  = (if c2 && XXH_endianess_eqb endian XXH_littleEndian
     then do_while fuel (XXH32_stripe_aligned cfg)
            (fun '(_, _, _, _, p) => addr p <? limit) s
     else do_while fuel (XXH32_stripe cfg endian a2)
            (fun '(_, _, _, _, p) => addr p <? limit) s).
Proof.
  assert (G : forall c a,
    (if c && XXH_endianess_eqb endian XXH_littleEndian
     then do_while fuel (XXH32_stripe_aligned cfg)
            (fun '(_, _, _, _, p) => addr p <? limit) s
     else do_while fuel (XXH32_stripe cfg endian a)
            (fun '(_, _, _, _, p) => addr p <? limit) s)
    = do_while fuel (XXH32_stripe cfg endian XXH_unaligned)
        (fun '(_, _, _, _, p) => addr p <? limit) s).
  { intros c a. destruct (c && XXH_endianess_eqb endian XXH_littleEndian) eqn:E.
    - apply andb_little in E. subst endian. apply do_while_ext; [|reflexivity].
      intros s0. apply XXH32_stripe_aligned_eq.
    - apply do_while_ext; [|reflexivity]. intros s0. apply XXH32_stripe_align_any. }
  rewrite (G c1 a1), (G c2 a2). reflexivity.
Qed.

Lemma XXH32_endian_align_any cfg b input len seed endian a1 a2 :
  XXH32_endian_align (with_align_check cfg b) input len seed endian a1
  = XXH32_endian_align cfg input len seed endian a2.
Proof.
  unfold XXH32_endian_align, with_align_check.
  cbn [XXH_CPU_LITTLE_ENDIAN XXH_FORCE_NATIVE_FORMAT XXH_FORCE_ALIGN_CHECK
       XXH_ACCEPT_NULL_INPUT_POINTER].
  destruct (XXH_ACCEPT_NULL_INPUT_POINTER cfg && isNULL input).
  - destruct (16 <=? 0) eqn:E; [discriminate E|]. cbn [bind].
    apply XXH32_finalize_mem. reflexivity.
  - destruct (16 <=? len).
    + rewrite (XXH32_loop_any cfg (b && XXH_alignment_eqb a1 XXH_aligned)
                 (XXH_FORCE_ALIGN_CHECK cfg && XXH_alignment_eqb a2 XXH_aligned)
                 endian a1 a2).
      match goal with |- bind (bind ?r _) _ = _ => destruct r as [[[[[w1 w2] w3] w4] q]|f] end;
        [|reflexivity].
      cbn [bind]. apply XXH32_finalize_mem. reflexivity.
    + cbn [bind]. apply XXH32_finalize_mem. reflexivity.
Qed.

Lemma XXH32_align_check_any cfg b input len seed :
  XXH32 (with_align_check cfg b) input len seed = XXH32 cfg input len seed.
Proof.
  unfold XXH32.
  change (XXH_CPU_LITTLE_ENDIAN (with_align_check cfg b)) with (XXH_CPU_LITTLE_ENDIAN cfg).
  change (XXH_FORCE_NATIVE_FORMAT (with_align_check cfg b)) with (XXH_FORCE_NATIVE_FORMAT cfg).
  destruct (XXH_FORCE_ALIGN_CHECK (with_align_check cfg b) && (Z.land (addr input) 3 =? 0)),
    (XXH_FORCE_ALIGN_CHECK cfg && (Z.land (addr input) 3 =? 0)),
    (XXH_endianess_eqb (XXH_CPU_LITTLE_ENDIAN cfg) XXH_littleEndian
     || XXH_FORCE_NATIVE_FORMAT cfg);
    apply XXH32_endian_align_any.
Qed.

Lemma XXH64_loop_unaligned cfg (c : bool) endian a fuel limit (s : stripe) :
  (c = true -> endian = XXH_littleEndian) ->
  (if c
   then do_while fuel (XXH64_stripe_aligned cfg)
          (fun '(_, _, _, _, p) => addr p <=? limit) s
   else do_while fuel (XXH64_stripe cfg endian a)
          (fun '(_, _, _, _, p) => addr p <=? limit) s)
  = do_while fuel (XXH64_stripe cfg endian XXH_unaligned)
      (fun '(_, _, _, _, p) => addr p <=? limit) s.
Proof.
  intros H. destruct c.
  - rewrite (H eq_refl). apply do_while_ext; [|reflexivity].
    intros s0. apply XXH64_stripe_aligned_eq.
  - apply do_while_ext; [|reflexivity]. intros s0. apply XXH64_stripe_align_any.
Qed.

Lemma andb_little_mid (b c : bool) endian :
  b && XXH_endianess_eqb endian XXH_littleEndian && c = true ->
  endian = XXH_littleEndian.
Proof.
  destruct endian; [|reflexivity].
  rewrite andb_false_r. discriminate.
Qed.

Lemma XXH64_endian_align_any cfg b input len seed endian a1 a2 :
  XXH64_endian_align (with_align_check cfg b) input len seed endian a1
  = XXH64_endian_align cfg input len seed endian a2.
Proof.
  unfold XXH64_endian_align, with_align_check.
  cbn [XXH_CPU_LITTLE_ENDIAN XXH_FORCE_NATIVE_FORMAT XXH_FORCE_ALIGN_CHECK
       XXH_ACCEPT_NULL_INPUT_POINTER].
  destruct (XXH_ACCEPT_NULL_INPUT_POINTER cfg && isNULL input).
  - destruct (32 <=? 0) eqn:E; [discriminate E|]. cbn [bind].
    apply XXH64_finalize_mem. reflexivity.
  - destruct (32 <=? len).
    + rewrite (XXH64_loop_unaligned cfg _ endian a1)
        by apply andb_little_mid.
      rewrite (XXH64_loop_unaligned cfg _ endian a2)
        by apply andb_little_mid.
      match goal with |- bind (bind ?r _) _ = _ => destruct r as [[[[[w1 w2] w3] w4] q]|f] end;
        [|reflexivity].
      cbn [bind]. apply XXH64_finalize_mem. reflexivity.
    + cbn [bind]. apply XXH64_finalize_mem. reflexivity.
Qed.

Lemma XXH64_align_check_any cfg b input len seed :
  XXH64 (with_align_check cfg b) input len seed = XXH64 cfg input len seed.
Proof.
  unfold XXH64.
  change (XXH_CPU_LITTLE_ENDIAN (with_align_check cfg b)) with (XXH_CPU_LITTLE_ENDIAN cfg).
  change (XXH_FORCE_NATIVE_FORMAT (with_align_check cfg b)) with (XXH_FORCE_NATIVE_FORMAT cfg).
  destruct (XXH_FORCE_ALIGN_CHECK (with_align_check cfg b) && (Z.land (addr input) 7 =? 0)),
    (XXH_FORCE_ALIGN_CHECK cfg && (Z.land (addr input) 7 =? 0)),
    (XXH_endianess_eqb (XXH_CPU_LITTLE_ENDIAN cfg) XXH_littleEndian
     || XXH_FORCE_NATIVE_FORMAT cfg);
    apply XXH64_endian_align_any.
Qed.

(** * The alternative family: one-shot functions against the bytes *)

Lemma step32a_firstn cpu endian v l l' :
  firstn 32 l = firstn 32 l' -> (32 <= length l)%nat -> (32 <= length l')%nat ->
  step32a cpu endian v l = step32a cpu endian v l'.
Proof.
  intros E Hl Hl'.
  destruct v as [[[[[[[v00 v01] v02] v03] v10] v11] v12] v13]. unfold step32a.
  assert (W : forall k : nat, (k + 4 <= 32)%nat ->
            word32 cpu endian (skipn k l) = word32 cpu endian (skipn k l')).
  { intros k Hk.
    replace 32%nat with (k + (32 - k))%nat in E by lia.
    destruct (firstn_add_split k (32 - k) l l' E) as [_ E2]; [lia|lia|].
    replace (32 - k)%nat with (4 + (28 - k))%nat in E2 by lia.
    destruct (firstn_add_split 4 (28 - k) _ _ E2) as [E3 _];
      rewrite ?length_skipn; try lia.
    apply word32_firstn; rewrite ?length_skipn; try lia. exact E3. }
  rewrite (W 4%nat), (W 8%nat), (W 12%nat), (W 16%nat), (W 20%nat), (W 24%nat),
    (W 28%nat) by lia.
  pose proof (W 0%nat ltac:(lia)) as W0. rewrite !skipn_O in W0. rewrite W0.
  reflexivity.
Qed.

Lemma XXHa_stripe_ok cfg endian align v p :
  (32 <= length (mem p))%nat ->
  XXHa_stripe cfg endian align (v, p)
  = Ok (step32a (XXH_CPU_LITTLE_ENDIAN cfg) endian v (mem p), ptr_add p 32).
Proof.
  intros H. destruct v as [[[[[[[v00 v01] v02] v03] v10] v11] v12] v13].
  unfold XXHa_stripe, step32a.
  norm_ptr. run_reads. rewrite !mem_ptr_add. reflexivity.
Qed.

Lemma XXHa_stripe_aligned_ok cfg v p :
  (32 <= length (mem p))%nat ->
  XXHa_stripe_aligned cfg (v, p)
  = Ok (step32a (XXH_CPU_LITTLE_ENDIAN cfg) XXH_littleEndian v (mem p), ptr_add p 32).
Proof.
  intros H. destruct v as [[[[[[[v00 v01] v02] v03] v10] v11] v12] v13].
  unfold XXHa_stripe_aligned, step32a.
  norm_ptr. run_reads. rewrite !mem_ptr_add. reflexivity.
Qed.

Lemma XXHa_update_stripe_ok cfg endian v p :
  (32 <= length (mem p))%nat ->
  XXHa_update_stripe cfg endian (v, p)
  = Ok (step32a (XXH_CPU_LITTLE_ENDIAN cfg) endian v (mem p), ptr_add p 32).
Proof.
  intros H. destruct v as [[[[[[[v00 v01] v02] v03] v10] v11] v12] v13].
  unfold XXHa_update_stripe, step32a.
  norm_ptr. run_reads. rewrite !mem_ptr_add. reflexivity.
Qed.

Lemma cond8_lt_spec limit (v : lanes8) (p : ptr) :
  (let '(_, _, _, _, _, _, _, _, p) := (v, p) in addr p <? limit)
  = (addr p <=? limit - 1).
Proof.
  destruct v as [[[[[[[v00 v01] v02] v03] v10] v11] v12] v13].
  destruct (Z.ltb_spec (addr p) limit), (Z.leb_spec (addr p) (limit - 1));
    lia || reflexivity.
Qed.

Lemma cond8_le_spec limit (v : lanes8) (p : ptr) :
  (let '(_, _, _, _, _, _, _, _, p) := (v, p) in addr p <=? limit)
  = (addr p <=? limit).
Proof. destruct v as [[[[[[[v00 v01] v02] v03] v10] v11] v12] v13]. reflexivity. Qed.

Section XXHa_facts.
Variable cfg : config.
Let cpu := XXH_CPU_LITTLE_ENDIAN cfg.

(** The shared block loop of the one-shot functions: it mixes exactly
    the whole blocks of the input. *)
Lemma XXH32a_XXH64a_endian_align_blocks endian align (v : lanes8) (p : ptr)
    (n r : nat) :
  (r < 32)%nat -> (32 * (n + 1) + r <= length (mem p))%nat ->
  XXH32a_XXH64a_endian_align cfg (v, p) (Z.of_nat (32 * (n + 1) + r)) endian align
  = Ok (blocks 32 (step32a cpu endian) (S n) v (mem p),
        ptr_add p (Z.of_nat (32 * S n))).
Proof.
  intros Hr Hlen. unfold XXH32a_XXH64a_endian_align.
  destruct v as [[[[[[[v00 v01] v02] v03] v10] v11] v12] v13].
  destruct (Z.leb_spec 32 (Z.of_nat (32 * (n + 1) + r))); [|lia].
  destruct (XXH_FORCE_ALIGN_CHECK cfg && XXH_alignment_eqb align XXH_aligned
            && XXH_endianess_eqb endian XXH_littleEndian) eqn:E.
  - assert (endian = XXH_littleEndian) as ->.
    { destruct endian; [|reflexivity]. rewrite andb_false_r in E. discriminate. }
    apply (do_while_blocks 32 (step32a cpu XXH_littleEndian)) with
      (lim := addr p + Z.of_nat (32 * (n + 1) + r) - 31 - 1); try lia.
    + intros v0 p0 H0. apply XXHa_stripe_aligned_ok. exact H0.
    + intros v0 p0. apply cond8_lt_spec.
  - apply (do_while_blocks 32 (step32a cpu endian)) with
      (lim := addr p + Z.of_nat (32 * (n + 1) + r) - 31 - 1); try lia.
    + intros v0 p0 H0. apply XXHa_stripe_ok. exact H0.
    + intros v0 p0. apply cond8_lt_spec.
Qed.

Lemma XXH32a_hash input len seed :
  valid_input input len ->
  XXH32a cfg input len seed
  = hash32a_of cpu (endian_of cfg) seed (input_bytes input len).
Proof.
  intros V. pose proof V as (Ha & Hl & Hm).
  unfold XXH32a. rewrite (valid_not_null _ _ V), andb_false_r.
  unfold hash32a_of, acc32a_of, tail_ptr. rewrite length_input_bytes by lia.
  remember (Z.to_nat len) as N eqn:EN.
  assert (Elen : len = Z.of_nat N) by lia. rewrite Elen.
  pose proof (Nat.div_mod_eq N 32) as Hdm.
  pose proof (Nat.mod_upper_bound N 32 ltac:(lia)) as Hr.
  remember (N / 32)%nat as q eqn:Eq. remember (N mod 32)%nat as r eqn:Er.
  assert (Hland : Z.land (Z.land (Z.of_nat N) 31) 31 = Z.of_nat r).
  { rewrite !land_31, Er, Nat2Z.inj_mod. change (Z.of_nat 32) with 32.
    pose proof (Z.mod_pos_bound (Z.of_nat N) 32). apply Z.mod_small. lia. }
  destruct q as [|n].
  - destruct (Z.leb_spec 32 (Z.of_nat N)); [lia|]. cbn [bind].
    apply (XXH32_finalize_ext cpu (endian_of cfg)) with (n := r);
      try exact Hland; change (32 * 0)%nat with 0%nat; cbn [mem];
      rewrite ?skipn_O.
    + rewrite firstn_input_bytes; [reflexivity | lia].
    + lia.
    + rewrite length_input_bytes; lia.
  - destruct (Z.leb_spec 32 (Z.of_nat N)); [|lia].
    assert (EN' : N = (32 * (n + 1) + r)%nat) by lia.
    rewrite EN' at 1.
    rewrite (XXH32a_XXH64a_endian_align_blocks (endian_of cfg) _ (init32a seed)
               input n r) by lia.
    cbn [bind].
    rewrite (blocks_ext 32 (step32a cpu (endian_of cfg))
               (step32a_firstn cpu (endian_of cfg))
               (S n) (init32a seed) (input_bytes input (Z.of_nat N)) (mem input)).
    2:{ apply firstn_input_bytes. lia. }
    2:{ rewrite length_input_bytes; lia. }
    2:{ lia. }
    destruct (blocks 32 (step32a cpu (endian_of cfg)) (S n) (init32a seed) (mem input))
      as [[[[[[[w0 w1] w2] w3] w4] w5] w6] w7]. cbn [bind merge32a].
    apply (XXH32_finalize_ext cpu (endian_of cfg)) with (n := r);
      try exact Hland; cbn [mem].
    + rewrite mem_ptr_add, Nat2Z.id, skipn_input_bytes, firstn_firstn.
      f_equal. lia.
    + rewrite mem_ptr_add, Nat2Z.id, length_skipn. lia.
    + rewrite skipn_input_bytes, length_firstn, length_skipn. lia.
Qed.

Lemma XXH64a_hash input len seed :
  valid_input input len ->
  XXH64a cfg input len seed
  = hash64a_of cpu (endian_of cfg) seed (input_bytes input len).
Proof.
  intros V. pose proof V as (Ha & Hl & Hm).
  unfold XXH64a. rewrite (valid_not_null _ _ V), andb_false_r.
  unfold hash64a_of, acc64a_of, tail_ptr. rewrite length_input_bytes by lia.
  remember (Z.to_nat len) as N eqn:EN.
  assert (Elen : len = Z.of_nat N) by lia. rewrite Elen.
  pose proof (Nat.div_mod_eq N 32) as Hdm.
  pose proof (Nat.mod_upper_bound N 32 ltac:(lia)) as Hr.
  remember (N / 32)%nat as q eqn:Eq. remember (N mod 32)%nat as r eqn:Er.
  assert (Hland : Z.land (Z.land (Z.of_nat N) 31) 31 = Z.of_nat r).
  { rewrite !land_31, Er, Nat2Z.inj_mod. change (Z.of_nat 32) with 32.
    pose proof (Z.mod_pos_bound (Z.of_nat N) 32). apply Z.mod_small. lia. }
  destruct q as [|n].
  - destruct (Z.leb_spec 32 (Z.of_nat N)); [lia|]. cbn [bind].
    apply (XXH64_finalize_ext cpu (endian_of cfg)) with (n := r);
      try exact Hland; change (32 * 0)%nat with 0%nat; cbn [mem];
      rewrite ?skipn_O.
    + rewrite firstn_input_bytes; [reflexivity | lia].
    + lia.
    + rewrite length_input_bytes; lia.
  - destruct (Z.leb_spec 32 (Z.of_nat N)); [|lia].
    assert (EN' : N = (32 * (n + 1) + r)%nat) by lia.
    rewrite EN' at 1.
    change (XXH32a_XXH64a_endian_align cfg ?s) with
      (XXH32a_XXH64a_endian_align cfg s).
    rewrite (XXH32a_XXH64a_endian_align_blocks (endian_of cfg) _ (init64a seed)
               input n r) by lia.
    cbn [bind].
    rewrite (blocks_ext 32 (step32a cpu (endian_of cfg))
               (step32a_firstn cpu (endian_of cfg))
               (S n) (init64a seed) (input_bytes input (Z.of_nat N)) (mem input)).
    2:{ apply firstn_input_bytes. lia. }
    2:{ rewrite length_input_bytes; lia. }
    2:{ lia. }
    destruct (blocks 32 (step32a cpu (endian_of cfg)) (S n) (init64a seed) (mem input))
      as [[[[[[[w0 w1] w2] w3] w4] w5] w6] w7]. cbn [bind merge64a].
    apply (XXH64_finalize_ext cpu (endian_of cfg)) with (n := r);
      try exact Hland; cbn [mem].
    + rewrite mem_ptr_add, Nat2Z.id, skipn_input_bytes, firstn_firstn.
      f_equal. lia.
    + rewrite mem_ptr_add, Nat2Z.id, length_skipn. lia.
    + rewrite skipn_input_bytes, length_firstn, length_skipn. lia.
Qed.
End XXHa_facts.

(** * Streams of chunks *)

Lemma split_at_valid input len k :
  valid_input input len -> 0 <= k <= len ->
  Forall valid_chunk (split_at input len k).
Proof.
  intros (Ha & Hl & Hm) Hk. unfold split_at, valid_chunk, valid_input.
  repeat constructor; cbn [fst snd]; rewrite ?addr_ptr_add, ?length_mem_ptr_add; lia.
Qed.

Lemma split_at_bytes input len k :
  valid_input input len -> 0 <= k <= len ->
  chunks_bytes (split_at input len k) = input_bytes input len.
Proof.
  intros (Ha & Hl & Hm) Hk. unfold split_at, chunks_bytes, input_bytes.
  cbn [map concat fst snd]. rewrite app_nil_r, mem_ptr_add.
  rewrite <- (firstn_skipn (Z.to_nat k) (firstn (Z.to_nat len) (mem input))).
  rewrite firstn_firstn, skipn_firstn_comm.
  f_equal; f_equal; lia.
Qed.

Lemma chunks_bytes_cons c rest :
  chunks_bytes (c :: rest) = input_bytes (fst c) (snd c) ++ chunks_bytes rest.
Proof. reflexivity. Qed.

Section Streams32.
Variable cfg : config.
Variable mem_addr : Z.
Let cpu := XXH_CPU_LITTLE_ENDIAN cfg.

Lemma XXH32_updates_repr seed : forall chunks L s,
  repr32 cpu (endian_of cfg) seed L s -> Forall valid_chunk chunks ->
  exists s',
    XXH32_updates cfg mem_addr chunks s = Ok s'
    /\ repr32 cpu (endian_of cfg) seed (L ++ chunks_bytes chunks) s'.
Proof.
  induction chunks as [|[input len] rest IH]; intros L s R V.
  - exists s. split; [reflexivity|]. unfold chunks_bytes. cbn [map concat].
    rewrite app_nil_r. exact R.
  - inversion V as [|c l Vc Vrest]; subst.
    destruct (XXH32_update_repr cfg mem_addr seed L s input len R Vc)
      as (s1 & E1 & R1).
    destruct (IH _ _ R1 Vrest) as (s' & E' & R').
    exists s'. cbn [XXH32_updates]. rewrite E1. cbn [bind].
    split; [exact E'|]. rewrite chunks_bytes_cons, app_assoc. exact R'.
Qed.

Lemma XXH32_stream_hash s0 seed chunks :
  Forall valid_chunk chunks ->
  XXH32_stream cfg mem_addr s0 seed chunks
  = hash32_of cpu (endian_of cfg) seed (chunks_bytes chunks).
Proof.
  intros V. unfold XXH32_stream.
  destruct (XXH32_updates_repr seed chunks [] _
              (reset_repr32 cpu (endian_of cfg) seed s0) V) as (s' & E & R).
  rewrite E. cbn [bind app] in *.
  apply (XXH32_digest_hash cfg mem_addr seed). exact R.
Qed.

Lemma XXH64_updates_repr seed : forall chunks L s,
  repr64 cpu (endian_of cfg) seed L s -> Forall valid_chunk chunks ->
  exists s',
    XXH64_updates cfg mem_addr chunks s = Ok s'
    /\ repr64 cpu (endian_of cfg) seed (L ++ chunks_bytes chunks) s'.
Proof.
  induction chunks as [|[input len] rest IH]; intros L s R V.
  - exists s. split; [reflexivity|]. unfold chunks_bytes. cbn [map concat].
    rewrite app_nil_r. exact R.
  - inversion V as [|c l Vc Vrest]; subst.
    destruct (XXH64_update_repr cfg mem_addr seed L s input len R Vc)
      as (s1 & E1 & R1).
    destruct (IH _ _ R1 Vrest) as (s' & E' & R').
    exists s'. cbn [XXH64_updates]. rewrite E1. cbn [bind].
    split; [exact E'|]. rewrite chunks_bytes_cons, app_assoc. exact R'.
Qed.

Lemma XXH64_stream_hash s0 seed chunks :
  Forall valid_chunk chunks ->
  Z.of_nat (length (chunks_bytes chunks)) < 2 ^ 64 ->
  XXH64_stream cfg mem_addr s0 seed chunks
  = hash64_of cpu (endian_of cfg) seed (chunks_bytes chunks).
Proof.
  intros V Hlen. unfold XXH64_stream.
  destruct (XXH64_updates_repr seed chunks [] _
              (reset_repr64 cpu (endian_of cfg) seed s0) V) as (s' & E & R).
  rewrite E. cbn [bind app] in *.
  apply (XXH64_digest_hash cfg mem_addr seed); assumption.
Qed.
End Streams32.

(** * The states a caller can hold *)

Lemma reset32_wf s0 seed : wf32 (snd (XXH32_reset s0 seed)).
Proof. split; cbn; [reflexivity | lia]. Qed.

Lemma reset64_wf s0 seed : wf64 (snd (XXH64_reset s0 seed)).
Proof. split; cbn; [reflexivity | lia]. Qed.

Lemma reset32a_wf s0 seed : wf32a (snd (XXH32a_reset s0 seed)).
Proof. split; cbn; [reflexivity | lia]. Qed.

Lemma reset64a_wf s0 seed : wf32a (snd (XXH64a_reset s0 seed)).
Proof. split; cbn; [reflexivity | lia]. Qed.

Lemma XXH32a_update_unfold cfg mem_addr s input len :
  XXH32a_update cfg mem_addr s input len
  = XXH32a_XXH64a_update_endian cfg mem_addr s input len (endian_of cfg).
Proof.
  unfold XXH32a_update, endian_of.
  destruct (XXH_endianess_eqb (XXH_CPU_LITTLE_ENDIAN cfg) XXH_littleEndian
            || XXH_FORCE_NATIVE_FORMAT cfg); reflexivity.
Qed.

Lemma reachable32_wf cfg mem_addr s : reachable32 cfg mem_addr s -> wf32 s.
Proof.
  induction 1 as [s0 seed | s input len e s' _ IH Hlen E].
  - apply reset32_wf.
  - rewrite XXH32_update_unfold in E.
    apply (XXH32_update_endian_inv cfg mem_addr s input len _ e s' IH Hlen E).
Qed.

Lemma reachable64_wf cfg mem_addr s : reachable64 cfg mem_addr s -> wf64 s.
Proof.
  induction 1 as [s0 seed | s input len e s' _ IH Hlen E].
  - apply reset64_wf.
  - rewrite XXH64_update_unfold in E.
    apply (XXH64_update_endian_inv cfg mem_addr s input len _ e s' IH Hlen E).
Qed.

Lemma reachable32a_wf cfg mem_addr s : reachable32a cfg mem_addr s -> wf32a s.
Proof.
  induction 1 as [s0 seed | s0 seed | s input len e s' _ IH Hlen E].
  - apply reset32a_wf.
  - apply reset64a_wf.
  - rewrite XXH32a_update_unfold in E.
    apply (XXH32a_XXH64a_update_endian_inv cfg mem_addr s input len _ e s' IH Hlen E).
Qed.

(** * Digests of well-formed states *)

Lemma land_small x n : 0 <= x < 16 -> x = Z.of_nat n -> Z.land (Z.land x 15) 31 = Z.of_nat n.
Proof.
  intros H ->. rewrite land_15, land_31.
  rewrite (Z.mod_small _ 16) by lia. apply Z.mod_small. lia.
Qed.

Lemma XXH32_digest_total cfg mem_addr s :
  wf32 s -> exists h, XXH32_digest cfg mem_addr s = Ok h.
Proof.
  intros [Hbuf Hms]. rewrite XXH32_digest_unfold. unfold XXH32_digest_endian.
  apply XXH32_finalize_total with (n := Z.to_nat (S32.memsize s)).
  - apply land_small; lia.
  - cbn [mem]. lia.
Qed.

Lemma XXH64_digest_total cfg mem_addr s :
  wf64 s -> exists h, XXH64_digest cfg mem_addr s = Ok h.
Proof.
  intros [Hbuf Hms]. rewrite XXH64_digest_unfold. unfold XXH64_digest_endian.
  pose proof (Z.mod_pos_bound (to_size_t (S64.total_len s)) 32 ltac:(lia)).
  apply XXH64_finalize_total
    with (n := Z.to_nat (to_size_t (S64.total_len s) mod 32)).
  - rewrite land_31. lia.
  - cbn [mem]. lia.
Qed.

(** The digest does not depend on where the state lies. *)
Lemma XXH32_digest_addr cfg m m' s :
  XXH32_digest cfg m s = XXH32_digest cfg m' s.
Proof.
  rewrite !XXH32_digest_unfold. unfold XXH32_digest_endian.
  apply XXH32_finalize_mem. reflexivity.
Qed.

Lemma XXH64_digest_addr cfg m m' s :
  XXH64_digest cfg m s = XXH64_digest cfg m' s.
Proof.
  rewrite !XXH64_digest_unfold. unfold XXH64_digest_endian.
  apply XXH64_finalize_mem. reflexivity.
Qed.

(** * States in a store *)

Section Store32.
Variable cfg : config.

Lemma XXH32_digest_at_keeps a st h st' :
  XXH32_digest_at cfg a st = Ok (h, st') -> st' = st.
Proof.
  unfold XXH32_digest_at. destruct (st !! a) as [s|]; [|discriminate].
  destruct (XXH32_digest cfg (a + mem32_offset) s); cbn [bind]; [|discriminate].
  now intros [= _ <-].
Qed.

Lemma XXH32_digest_at_wf a st s :
  st !! a = Some s -> wf32 s ->
  exists h, XXH32_digest_at cfg a st = Ok (h, st).
Proof.
  intros E W. unfold XXH32_digest_at. rewrite E.
  destruct (XXH32_digest_total cfg (a + mem32_offset) s W) as (h & ->).
  exists h. reflexivity.
Qed.

Lemma XXH32_digest_at_lookup a st s :
  st !! a = Some s ->
  hash_of (XXH32_digest_at cfg a st) = XXH32_digest cfg (a + mem32_offset) s.
Proof.
  intros E. unfold XXH32_digest_at, hash_of. rewrite E.
  destruct (XXH32_digest cfg (a + mem32_offset) s); reflexivity.
Qed.

Lemma XXH32_update_at_frame a input len st e st' :
  XXH32_update_at cfg a input len st = Ok (e, st') ->
  (forall b, b <> a -> st' !! b = st !! b) /\ is_Some (st' !! a).
Proof.
  unfold XXH32_update_at. destruct (st !! a) as [s|]; [|discriminate].
  destruct (XXH32_update cfg (a + mem32_offset) s input len) as [[e1 s1]|f];
    cbn [bind]; [|discriminate].
  intros [= _ <-]. split.
  - intros b Hb. apply lookup_insert_ne. congruence.
  - rewrite lookup_insert_eq. eexists; reflexivity.
Qed.

Lemma XXH32_updates_at_frame a : forall chunks st st',
  XXH32_updates_at cfg a chunks st = Ok st' ->
  forall b, b <> a -> st' !! b = st !! b.
Proof.
  induction chunks as [|[input len] rest IH]; intros st st' E b Hb.
  - injection E as <-. reflexivity.
  - cbn [XXH32_updates_at] in E.
    destruct (XXH32_update_at cfg a input len st) as [[e1 st1]|f] eqn:E1;
      cbn [bind] in E; [|discriminate].
    rewrite (IH _ _ E b Hb).
    apply (XXH32_update_at_frame _ _ _ _ _ _ E1). exact Hb.
Qed.

Lemma XXH32_reset_at_frame a seed st e st' :
  XXH32_reset_at a seed st = Ok (e, st') ->
  forall b, b <> a -> st' !! b = st !! b.
Proof.
  unfold XXH32_reset_at. destruct (st !! a) as [s|]; [|discriminate].
  cbn. intros [= _ <-] b Hb. apply lookup_insert_ne. congruence.
Qed.

Lemma XXH32_copyState_at_spec dst src st d s :
  st !! dst = Some d -> st !! src = Some s ->
  XXH32_copyState_at dst src st = Ok (<[dst := s]> st).
Proof. intros Ed Es. unfold XXH32_copyState_at. rewrite Ed, Es. reflexivity. Qed.
End Store32.

Section Store64.
Variable cfg : config.

Lemma XXH64_digest_at_keeps a st h st' :
  XXH64_digest_at cfg a st = Ok (h, st') -> st' = st.
Proof.
  unfold XXH64_digest_at. destruct (st !! a) as [s|]; [|discriminate].
  destruct (XXH64_digest cfg (a + mem64_offset) s); cbn [bind]; [|discriminate].
  now intros [= _ <-].
Qed.

Lemma XXH64_digest_at_wf a st s :
  st !! a = Some s -> wf64 s ->
  exists h, XXH64_digest_at cfg a st = Ok (h, st).
Proof.
  intros E W. unfold XXH64_digest_at. rewrite E.
  destruct (XXH64_digest_total cfg (a + mem64_offset) s W) as (h & ->).
  exists h. reflexivity.
Qed.

Lemma XXH64_digest_at_lookup a st s :
  st !! a = Some s ->
  hash_of (XXH64_digest_at cfg a st) = XXH64_digest cfg (a + mem64_offset) s.
Proof.
  intros E. unfold XXH64_digest_at, hash_of. rewrite E.
  destruct (XXH64_digest cfg (a + mem64_offset) s); reflexivity.
Qed.

Lemma XXH64_update_at_frame a input len st e st' :
  XXH64_update_at cfg a input len st = Ok (e, st') ->
  (forall b, b <> a -> st' !! b = st !! b) /\ is_Some (st' !! a).
Proof.
  unfold XXH64_update_at. destruct (st !! a) as [s|]; [|discriminate].
  destruct (XXH64_update cfg (a + mem64_offset) s input len) as [[e1 s1]|f];
    cbn [bind]; [|discriminate].
  intros [= _ <-]. split.
  - intros b Hb. apply lookup_insert_ne. congruence.
  - rewrite lookup_insert_eq. eexists; reflexivity.
Qed.

Lemma XXH64_updates_at_frame a : forall chunks st st',
  XXH64_updates_at cfg a chunks st = Ok st' ->
  forall b, b <> a -> st' !! b = st !! b.
Proof.
  induction chunks as [|[input len] rest IH]; intros st st' E b Hb.
  - injection E as <-. reflexivity.
  - cbn [XXH64_updates_at] in E.
    destruct (XXH64_update_at cfg a input len st) as [[e1 st1]|f] eqn:E1;
      cbn [bind] in E; [|discriminate].
    rewrite (IH _ _ E b Hb).
    apply (XXH64_update_at_frame _ _ _ _ _ _ E1). exact Hb.
Qed.

Lemma XXH64_reset_at_frame a seed st e st' :
  XXH64_reset_at a seed st = Ok (e, st') ->
  forall b, b <> a -> st' !! b = st !! b.
Proof.
  unfold XXH64_reset_at. destruct (st !! a) as [s|]; [|discriminate].
  cbn. intros [= _ <-] b Hb. apply lookup_insert_ne. congruence.
Qed.

Lemma XXH64_copyState_at_spec dst src st d s :
  st !! dst = Some d -> st !! src = Some s ->
  XXH64_copyState_at dst src st = Ok (<[dst := s]> st).
Proof. intros Ed Es. unfold XXH64_copyState_at. rewrite Ed, Es. reflexivity. Qed.
End Store64.

(** * The running total of a stream *)

Lemma add32_total a N len :
  a = N mod 2 ^ 32 -> add32 a (to_U32 len) = (N + len) mod 2 ^ 32.
Proof. intros ->. apply add32_mod. Qed.

Lemma add64_total a N len :
  a = N mod 2 ^ 64 -> add64 a len = (N + len) mod 2 ^ 64.
Proof.
  intros ->. unfold add64, to_U64, U64_MOD. apply Zplus_mod_idemp_l.
Qed.

Section Totals.
Variable cfg : config.
Variable mem_addr : Z.

Lemma XXH64a_updates_total : forall chunks s s' N,
  Forall nonnull_chunk chunks -> wf32a s ->
  S32a.total_len_32 s = N mod 2 ^ 32 ->
  XXH64a_updates cfg mem_addr chunks s = Ok s' ->
  wf32a s' /\ S32a.total_len_32 s' = (N + chunks_len chunks) mod 2 ^ 32.
Proof.
  induction chunks as [|[input len] rest IH]; intros s s' N V W T E.
  - injection E as <-. cbn [chunks_len fold_right]. rewrite Z.add_0_r.
    split; assumption.
  - inversion V as [|c l [Hn Hl] Vrest]; subst. cbn [fst snd] in *.
    cbn [XXH64a_updates] in E.
    destruct (XXH64a_update cfg mem_addr s input len) as [[e1 s1]|f] eqn:E1;
      cbn [bind] in E; [|discriminate].
    unfold XXH64a_update in E1. rewrite XXH32a_update_unfold in E1.
    destruct (XXH32a_XXH64a_update_endian_inv cfg mem_addr s input len _ e1 s1
                W Hl E1) as (W1 & _ & _ & H1).
    destruct (H1 Hn) as (_ & T1 & _).
    rewrite (add32_total _ N len T) in T1.
    destruct (IH s1 s' (N + len) Vrest W1 T1 E) as (W' & T').
    split; [exact W'|]. rewrite T'. cbn [chunks_len fold_right snd].
    f_equal. unfold chunks_len. lia.
Qed.

Lemma XXH64_updates_total : forall chunks s s' N,
  Forall nonnull_chunk chunks -> wf64 s ->
  S64.total_len s = N mod 2 ^ 64 ->
  XXH64_updates cfg mem_addr chunks s = Ok s' ->
  wf64 s' /\ S64.total_len s' = (N + chunks_len chunks) mod 2 ^ 64.
Proof.
  induction chunks as [|[input len] rest IH]; intros s s' N V W T E.
  - injection E as <-. cbn [chunks_len fold_right]. rewrite Z.add_0_r.
    split; assumption.
  - inversion V as [|c l [Hn Hl] Vrest]; subst. cbn [fst snd] in *.
    cbn [XXH64_updates] in E.
    destruct (XXH64_update cfg mem_addr s input len) as [[e1 s1]|f] eqn:E1;
      cbn [bind] in E; [|discriminate].
    rewrite XXH64_update_unfold in E1.
    destruct (XXH64_update_endian_inv cfg mem_addr s input len _ e1 s1
                W Hl E1) as (W1 & _ & _ & H1).
    destruct (H1 Hn) as (_ & T1).
    rewrite (add64_total _ N len T) in T1.
    destruct (IH s1 s' (N + len) Vrest W1 T1 E) as (W' & T').
    split; [exact W'|]. rewrite T'. cbn [chunks_len fold_right snd].
    f_equal. unfold chunks_len. lia.
Qed.

Lemma XXH32_updates_total : forall chunks s s' N,
  Forall nonnull_chunk chunks -> wf32 s ->
  S32.total_len_32 s = N mod 2 ^ 32 ->
  XXH32_updates cfg mem_addr chunks s = Ok s' ->
  wf32 s' /\ S32.total_len_32 s' = (N + chunks_len chunks) mod 2 ^ 32.
Proof.
  induction chunks as [|[input len] rest IH]; intros s s' N V W T E.
  - injection E as <-. cbn [chunks_len fold_right]. rewrite Z.add_0_r.
    split; assumption.
  - inversion V as [|c l [Hn Hl] Vrest]; subst. cbn [fst snd] in *.
    cbn [XXH32_updates] in E.
    destruct (XXH32_update cfg mem_addr s input len) as [[e1 s1]|f] eqn:E1;
      cbn [bind] in E; [|discriminate].
    rewrite XXH32_update_unfold in E1.
    destruct (XXH32_update_endian_inv cfg mem_addr s input len _ e1 s1
                W Hl E1) as (W1 & _ & _ & H1).
    destruct (H1 Hn) as (_ & T1 & _).
    rewrite (add32_total _ N len T) in T1.
    destruct (IH s1 s' (N + len) Vrest W1 T1 E) as (W' & T').
    split; [exact W'|]. rewrite T'. cbn [chunks_len fold_right snd].
    f_equal. unfold chunks_len. lia.
Qed.

Variable local_addr : Z.

(** Both branches of the 64-bit digest of the alternative family, the
    buffer read in place and the buffer copied to an aligned local
    array, finalize the same accumulator over the same bytes. *)
Lemma XXH64a_digest_formula s :
  wf32a s ->
  XXH64a_digest cfg mem_addr local_addr s
  = XXH64_finalize (XXH_CPU_LITTLE_ENDIAN cfg) (endian_of cfg) XXH_aligned
      (add64 (XXH64a_state_acc s) (to_U64 (S32a.total_len_32 s)))
      (mkptr mem_addr (S32a.mem32 s)) (S32a.memsize s).
Proof.
  intros [Hbuf Hms].
  assert (G : forall endian,
    XXH64a_digest_endian cfg mem_addr local_addr s endian
    = XXH64_finalize (XXH_CPU_LITTLE_ENDIAN cfg) endian XXH_aligned
        (add64 (XXH64a_state_acc s) (to_U64 (S32a.total_len_32 s)))
        (mkptr mem_addr (S32a.mem32 s)) (S32a.memsize s)).
  { intros endian. unfold XXH64a_digest_endian.
    fold (XXH64a_state_acc s).
    assert (Ems : to_size_t (S32a.memsize s) = S32a.memsize s).
    { unfold to_size_t, U64_MOD. apply Z.mod_small. lia. }
    rewrite Ems.
    destruct (Z.land mem_addr 7 =? 0); [reflexivity|].
    unfold XXH_memcpy. cbn [mem].
    destruct (Z.leb_spec 32 (Z.of_nat (length (S32a.mem32 s)))); [|lia].
    cbn [andb bind]. apply XXH64_finalize_mem. cbn [mem].
    change (Z.to_nat 0) with 0%nat. change (Z.to_nat (0 + 32)) with 32%nat.
    change (Z.to_nat 32) with 32%nat.
    rewrite firstn_O. cbn [app].
    rewrite firstn_all2 by lia.
    rewrite (skipn_all2 (n := 32) (zeroes 32)) by (unfold zeroes; rewrite repeat_length; lia).
    apply app_nil_r. }
  unfold XXH64a_digest, endian_of.
  destruct (XXH_endianess_eqb (XXH_CPU_LITTLE_ENDIAN cfg) XXH_littleEndian
            || XXH_FORCE_NATIVE_FORMAT cfg); apply G.
Qed.

Lemma XXH64_digest_formula s :
  XXH64_digest cfg mem_addr s
  = XXH64_finalize (XXH_CPU_LITTLE_ENDIAN cfg) (endian_of cfg) XXH_aligned
      (add64 (XXH64_state_acc s) (S64.total_len s))
      (mkptr mem_addr (S64.mem64 s)) (to_size_t (S64.total_len s)).
Proof. rewrite XXH64_digest_unfold. reflexivity. Qed.
End Totals.

(** The one-shot functions of the 64-bit width, with the length made
    explicit. *)
Lemma XXH64a_length cfg input len seed :
  valid_input input len ->
  XXH64a cfg input len seed
  = XXH64_finalize (XXH_CPU_LITTLE_ENDIAN cfg) (endian_of cfg) XXH_unaligned
      (add64 (acc64a_of (XXH_CPU_LITTLE_ENDIAN cfg) (endian_of cfg) seed
                (input_bytes input len)) (len mod 2 ^ 32))
      (tail_ptr 32 (input_bytes input len)) (Z.land len 31).
Proof.
  intros V. rewrite (XXH64a_hash cfg input len seed V). unfold hash64a_of.
  destruct V as (_ & Hl & _). rewrite length_input_bytes by lia.
  rewrite Z2Nat.id by lia. reflexivity.
Qed.

Lemma XXH64_length cfg input len seed :
  valid_input input len ->
  XXH64 cfg input len seed
  = XXH64_finalize (XXH_CPU_LITTLE_ENDIAN cfg) (endian_of cfg) XXH_unaligned
      (add64 (acc64_of (XXH_CPU_LITTLE_ENDIAN cfg) (endian_of cfg) seed
                (input_bytes input len)) (len mod 2 ^ 64))
      (tail_ptr 32 (input_bytes input len)) len.
Proof.
  intros V. rewrite (XXH64_hash cfg input len seed V).
  unfold hash64_of, acc64_of, tail_ptr.
  destruct V as (_ & Hl & _). rewrite !length_input_bytes by lia.
  rewrite Z2Nat.id by lia. reflexivity.
Qed.

(** * Byte order: the portable format on either host *)

Lemma BYTE_of_val b : BYTE_of (BYTE_val b) = b.
Proof.
  unfold BYTE_of. pose proof (BYTE_val_range b) as H.
  rewrite Z.mod_small by lia. unfold BYTE_val. rewrite N2Z.id.
  rewrite Byte.of_to_N. reflexivity.
Qed.

Lemma BYTE_of_eq x b : x mod 256 = BYTE_val b -> BYTE_of x = b.
Proof.
  intros E. rewrite <- (BYTE_of_val b). apply BYTE_of_mod.
  rewrite E. symmetry. apply Z.mod_small, BYTE_val_range.
Qed.

Lemma native32_range cpu b0 b1 b2 b3 : 0 <= native32 cpu b0 b1 b2 b3 < 2 ^ 32.
Proof.
  pose proof (BYTE_val_range b0). pose proof (BYTE_val_range b1).
  pose proof (BYTE_val_range b2). pose proof (BYTE_val_range b3).
  destruct cpu; unfold native32; lia.
Qed.

Lemma native64_range cpu b0 b1 b2 b3 b4 b5 b6 b7 :
  0 <= native64 cpu b0 b1 b2 b3 b4 b5 b6 b7 < 2 ^ 64.
Proof.
  pose proof (BYTE_val_range b0). pose proof (BYTE_val_range b1).
  pose proof (BYTE_val_range b2). pose proof (BYTE_val_range b3).
  pose proof (BYTE_val_range b4). pose proof (BYTE_val_range b5).
  pose proof (BYTE_val_range b6). pose proof (BYTE_val_range b7).
  destruct cpu; unfold native64; lia.
Qed.


Ltac pow_consts :=
  change (2 ^ 8) with 256; change (2 ^ 16) with 65536;
  change (2 ^ 24) with 16777216; change (2 ^ 32) with 4294967296;
  change (2 ^ 40) with 1099511627776; change (2 ^ 48) with 281474976710656;
  change (2 ^ 56) with 72057594037927936.

Lemma store32_native32 cpu b0 b1 b2 b3 :
  store32 cpu (native32 cpu b0 b1 b2 b3) = [b0; b1; b2; b3].
Proof.
  pose proof (BYTE_val_range b0). pose proof (BYTE_val_range b1).
  pose proof (BYTE_val_range b2). pose proof (BYTE_val_range b3).
  destruct cpu; unfold store32, native32; pow_consts;
    f_equal; [| f_equal; [| f_equal; [| f_equal]] | | f_equal; [| f_equal; [| f_equal]]];
    try reflexivity; apply BYTE_of_eq;
    generalize dependent (BYTE_val b0); generalize dependent (BYTE_val b1);
    generalize dependent (BYTE_val b2); generalize dependent (BYTE_val b3);
    intros; Z.div_mod_to_equations; lia.
Qed.

Lemma store64_native64 cpu b0 b1 b2 b3 b4 b5 b6 b7 :
  store64 cpu (native64 cpu b0 b1 b2 b3 b4 b5 b6 b7)
  = [b0; b1; b2; b3; b4; b5; b6; b7].
Proof.
  pose proof (BYTE_val_range b0). pose proof (BYTE_val_range b1).
  pose proof (BYTE_val_range b2). pose proof (BYTE_val_range b3).
  pose proof (BYTE_val_range b4). pose proof (BYTE_val_range b5).
  pose proof (BYTE_val_range b6). pose proof (BYTE_val_range b7).
  assert (G : forall v0 v1 v2 v3 v4 v5 v6 v7 : Z,
    0 <= v0 < 256 -> 0 <= v1 < 256 -> 0 <= v2 < 256 -> 0 <= v3 < 256 ->
    0 <= v4 < 256 -> 0 <= v5 < 256 -> 0 <= v6 < 256 -> 0 <= v7 < 256 ->
    let x := v0 + 256 * v1 + 65536 * v2 + 16777216 * v3 + 4294967296 * v4
             + 1099511627776 * v5 + 281474976710656 * v6
             + 72057594037927936 * v7 in
    x mod 256 = v0 /\ (x / 256) mod 256 = v1 /\ (x / 65536) mod 256 = v2
    /\ (x / 16777216) mod 256 = v3 /\ (x / 4294967296) mod 256 = v4
    /\ (x / 1099511627776) mod 256 = v5 /\ (x / 281474976710656) mod 256 = v6
    /\ (x / 72057594037927936) mod 256 = v7).
  { intros. subst x. repeat split; Z.div_mod_to_equations; lia. }
  destruct cpu; unfold store64, native64; pow_consts.
  - destruct (G _ _ _ _ _ _ _ _ H6 H5 H4 H3 H2 H1 H0 H)
      as (E0 & E1 & E2 & E3 & E4 & E5 & E6 & E7).
    cbv zeta in E0, E1, E2, E3, E4, E5, E6, E7.
    rewrite (BYTE_of_eq _ _ E0), (BYTE_of_eq _ _ E1), (BYTE_of_eq _ _ E2),
      (BYTE_of_eq _ _ E3), (BYTE_of_eq _ _ E4), (BYTE_of_eq _ _ E5),
      (BYTE_of_eq _ _ E6), (BYTE_of_eq _ _ E7). reflexivity.
  - destruct (G _ _ _ _ _ _ _ _ H H0 H1 H2 H3 H4 H5 H6)
      as (E0 & E1 & E2 & E3 & E4 & E5 & E6 & E7).
    cbv zeta in E0, E1, E2, E3, E4, E5, E6, E7.
    rewrite (BYTE_of_eq _ _ E0), (BYTE_of_eq _ _ E1), (BYTE_of_eq _ _ E2),
      (BYTE_of_eq _ _ E3), (BYTE_of_eq _ _ E4), (BYTE_of_eq _ _ E5),
      (BYTE_of_eq _ _ E6), (BYTE_of_eq _ _ E7). reflexivity.
Qed.

(** What a big-endian host reads and swaps is what a little-endian host
    reads, and the other way round. *)
Lemma swap32_native32_BE b0 b1 b2 b3 :
  XXH_swap32 (native32 XXH_bigEndian b0 b1 b2 b3)
  = native32 XXH_littleEndian b0 b1 b2 b3.
Proof.
  pose proof (native32_range XXH_bigEndian b0 b1 b2 b3) as R.
  assert (C : store32 XXH_littleEndian
                (XXH_swap32 (native32 XXH_bigEndian b0 b1 b2 b3))
              = [b0; b1; b2; b3]).
  { transitivity (store32 XXH_bigEndian (native32 XXH_bigEndian b0 b1 b2 b3));
      [exact (canonical32_big_endian default_config _ R) | apply store32_native32]. }
  pose proof (load32_store32 XXH_littleEndian 0 _
                (swap32_range (native32 XXH_bigEndian b0 b1 b2 b3))) as L.
  rewrite C in L. unfold load32 in L. cbn [mem] in L. injection L as L.
  symmetry. exact L.
Qed.

Lemma swap32_native32_LE b0 b1 b2 b3 :
  XXH_swap32 (native32 XXH_littleEndian b0 b1 b2 b3)
  = native32 XXH_bigEndian b0 b1 b2 b3.
Proof.
  rewrite <- (swap32_native32_BE b0 b1 b2 b3). apply swap32_involutive, native32_range.
Qed.

Lemma swap64_native64_BE b0 b1 b2 b3 b4 b5 b6 b7 :
  XXH_swap64 (native64 XXH_bigEndian b0 b1 b2 b3 b4 b5 b6 b7)
  = native64 XXH_littleEndian b0 b1 b2 b3 b4 b5 b6 b7.
Proof.
  pose proof (native64_range XXH_bigEndian b0 b1 b2 b3 b4 b5 b6 b7) as R.
  assert (C : store64 XXH_littleEndian
                (XXH_swap64 (native64 XXH_bigEndian b0 b1 b2 b3 b4 b5 b6 b7))
              = [b0; b1; b2; b3; b4; b5; b6; b7]).
  { transitivity
      (store64 XXH_bigEndian (native64 XXH_bigEndian b0 b1 b2 b3 b4 b5 b6 b7));
      [exact (canonical64_big_endian default_config _ R) | apply store64_native64]. }
  pose proof (load64_store64 XXH_littleEndian 0 _
                (swap64_range (native64 XXH_bigEndian b0 b1 b2 b3 b4 b5 b6 b7))) as L.
  rewrite C in L. unfold load64 in L. cbn [mem] in L. injection L as L.
  symmetry. exact L.
Qed.

Lemma swap64_native64_LE b0 b1 b2 b3 b4 b5 b6 b7 :
  XXH_swap64 (native64 XXH_littleEndian b0 b1 b2 b3 b4 b5 b6 b7)
  = native64 XXH_bigEndian b0 b1 b2 b3 b4 b5 b6 b7.
Proof.
  rewrite <- (swap64_native64_BE b0 b1 b2 b3 b4 b5 b6 b7). apply swap64_involutive, native64_range.
Qed.

Lemma readLE32_align_portable p a1 a2 :
  XXH_readLE32_align XXH_bigEndian p XXH_bigEndian a1
  = XXH_readLE32_align XXH_littleEndian p XXH_littleEndian a2.
Proof.
  rewrite (readLE32_align_any _ p XXH_bigEndian a1 XXH_unaligned).
  rewrite (readLE32_align_any _ p XXH_littleEndian a2 XXH_unaligned).
  unfold XXH_readLE32_align, XXH_read32, load32. cbn [XXH_alignment_eqb XXH_endianess_eqb].
  destruct (mem p) as [|b0 [|b1 [|b2 [|b3 l]]]]; try reflexivity.
  cbn [bind]. now rewrite swap32_native32_BE.
Qed.

Lemma readLE64_align_portable p a1 a2 :
  XXH_readLE64_align XXH_bigEndian p XXH_bigEndian a1
  = XXH_readLE64_align XXH_littleEndian p XXH_littleEndian a2.
Proof.
  rewrite (readLE64_align_any _ p XXH_bigEndian a1 XXH_unaligned).
  rewrite (readLE64_align_any _ p XXH_littleEndian a2 XXH_unaligned).
  unfold XXH_readLE64_align, XXH_read64, load64. cbn [XXH_alignment_eqb XXH_endianess_eqb].
  destruct (mem p) as [|b0 [|b1 [|b2 [|b3 [|b4 [|b5 [|b6 [|b7 l]]]]]]]];
    try reflexivity.
  cbn [bind]. now rewrite swap64_native64_BE.
Qed.

Lemma word32_portable l :
  word32 XXH_bigEndian XXH_bigEndian l = word32 XXH_littleEndian XXH_littleEndian l.
Proof.
  unfold word32. destruct l as [|b0 [|b1 [|b2 [|b3 l]]]]; try reflexivity.
  cbn [XXH_endianess_eqb]. apply swap32_native32_BE.
Qed.

Lemma word64_portable l :
  word64 XXH_bigEndian XXH_bigEndian l = word64 XXH_littleEndian XXH_littleEndian l.
Proof.
  unfold word64.
  destruct l as [|b0 [|b1 [|b2 [|b3 [|b4 [|b5 [|b6 [|b7 l]]]]]]]]; try reflexivity.
  cbn [XXH_endianess_eqb]. apply swap64_native64_BE.
Qed.

Lemma XXH32_run_portable : forall ss h p a1 a2,
  XXH32_run XXH_bigEndian XXH_bigEndian a1 ss h p
  = XXH32_run XXH_littleEndian XXH_littleEndian a2 ss h p.
Proof.
  induction ss as [|s ss IH]; intros h p a1 a2; [reflexivity|].
  destruct s; cbn [XXH32_run]; try reflexivity.
  - destruct (read8 p); [cbn [bind]; apply IH | reflexivity].
  - rewrite (readLE32_align_portable p a1 a2).
    destruct (XXH_readLE32_align XXH_littleEndian p XXH_littleEndian a2);
      [cbn [bind]; apply IH | reflexivity].
Qed.

Lemma XXH64_run_portable : forall ss h p a1 a2,
  XXH64_run XXH_bigEndian XXH_bigEndian a1 ss h p
  = XXH64_run XXH_littleEndian XXH_littleEndian a2 ss h p.
Proof.
  induction ss as [|s ss IH]; intros h p a1 a2; [reflexivity|].
  destruct s; cbn [XXH64_run]; try reflexivity.
  - destruct (read8 p); [cbn [bind]; apply IH | reflexivity].
  - rewrite (readLE32_align_portable p a1 a2).
    destruct (XXH_readLE32_align XXH_littleEndian p XXH_littleEndian a2);
      [cbn [bind]; apply IH | reflexivity].
  - rewrite (readLE64_align_portable p a1 a2).
    destruct (XXH_readLE64_align XXH_littleEndian p XXH_littleEndian a2);
      [cbn [bind]; apply IH | reflexivity].
Qed.

Lemma XXH32_finalize_portable h p len a1 a2 :
  XXH32_finalize XXH_bigEndian XXH_bigEndian a1 h p len
  = XXH32_finalize XXH_littleEndian XXH_littleEndian a2 h p len.
Proof.
  unfold XXH32_finalize.
  destruct (switch_from (Z.land len 31) XXH32_finalize_cases); [|reflexivity].
  apply XXH32_run_portable.
Qed.

Lemma XXH64_finalize_portable h p len a1 a2 :
  XXH64_finalize XXH_bigEndian XXH_bigEndian a1 h p len
  = XXH64_finalize XXH_littleEndian XXH_littleEndian a2 h p len.
Proof.
  unfold XXH64_finalize.
  destruct (switch_from (Z.land len 31) XXH64_finalize_cases); [|reflexivity].
  apply XXH64_run_portable.
Qed.

Lemma blocks_step_ext {L : Type} (B : nat) (f g : L -> list byte -> L) :
  (forall v l, f v l = g v l) ->
  forall n v l, blocks B f n v l = blocks B g n v l.
Proof.
  intros E. induction n as [|n IH]; intros v l; [reflexivity|].
  cbn [blocks]. rewrite E. apply IH.
Qed.

Lemma step32_portable v l :
  step32 XXH_bigEndian XXH_bigEndian v l = step32 XXH_littleEndian XXH_littleEndian v l.
Proof.
  destruct v as [[[v1 v2] v3] v4]. unfold step32. now rewrite !word32_portable.
Qed.

Lemma step64_portable v l :
  step64 XXH_bigEndian XXH_bigEndian v l = step64 XXH_littleEndian XXH_littleEndian v l.
Proof.
  destruct v as [[[v1 v2] v3] v4]. unfold step64. now rewrite !word64_portable.
Qed.

Lemma step32a_portable v l :
  step32a XXH_bigEndian XXH_bigEndian v l
  = step32a XXH_littleEndian XXH_littleEndian v l.
Proof.
  destruct v as [[[[[[[v00 v01] v02] v03] v10] v11] v12] v13]. unfold step32a.
  now rewrite !word32_portable.
Qed.

Lemma hash32_of_portable seed bytes :
  hash32_of XXH_bigEndian XXH_bigEndian seed bytes
  = hash32_of XXH_littleEndian XXH_littleEndian seed bytes.
Proof.
  unfold hash32_of.
  rewrite (blocks_step_ext 16 _ _ step32_portable).
  apply XXH32_finalize_portable.
Qed.

Lemma hash64_of_portable seed bytes :
  hash64_of XXH_bigEndian XXH_bigEndian seed bytes
  = hash64_of XXH_littleEndian XXH_littleEndian seed bytes.
Proof.
  unfold hash64_of.
  rewrite (blocks_step_ext 32 _ _ step64_portable).
  apply XXH64_finalize_portable.
Qed.

Lemma hash32a_of_portable seed bytes :
  hash32a_of XXH_bigEndian XXH_bigEndian seed bytes
  = hash32a_of XXH_littleEndian XXH_littleEndian seed bytes.
Proof.
  unfold hash32a_of, acc32a_of.
  rewrite (blocks_step_ext 32 _ _ step32a_portable).
  apply XXH32_finalize_portable.
Qed.

Lemma hash64a_of_portable seed bytes :
  hash64a_of XXH_bigEndian XXH_bigEndian seed bytes
  = hash64a_of XXH_littleEndian XXH_littleEndian seed bytes.
Proof.
  unfold hash64a_of, acc64a_of.
  rewrite (blocks_step_ext 32 _ _ step32a_portable).
  apply XXH64_finalize_portable.
Qed.

(** In the portable format the byte order of the reads is that of the
    host. *)
Lemma portable_cases cfg :
  XXH_FORCE_NATIVE_FORMAT cfg = false ->
  (XXH_CPU_LITTLE_ENDIAN cfg = XXH_littleEndian /\ endian_of cfg = XXH_littleEndian)
  \/ (XXH_CPU_LITTLE_ENDIAN cfg = XXH_bigEndian /\ endian_of cfg = XXH_bigEndian).
Proof.
  intros H. unfold endian_of. rewrite H.
  destruct (XXH_CPU_LITTLE_ENDIAN cfg); [right | left]; split; reflexivity.
Qed.

Lemma hash32_of_cfg cfg seed bytes :
  XXH_FORCE_NATIVE_FORMAT cfg = false ->
  hash32_of (XXH_CPU_LITTLE_ENDIAN cfg) (endian_of cfg) seed bytes
  = hash32_of XXH_littleEndian XXH_littleEndian seed bytes.
Proof.
  intros H. destruct (portable_cases cfg H) as [[-> ->]|[-> ->]];
    [reflexivity | apply hash32_of_portable].
Qed.

Lemma hash64_of_cfg cfg seed bytes :
  XXH_FORCE_NATIVE_FORMAT cfg = false ->
  hash64_of (XXH_CPU_LITTLE_ENDIAN cfg) (endian_of cfg) seed bytes
  = hash64_of XXH_littleEndian XXH_littleEndian seed bytes.
Proof.
  intros H. destruct (portable_cases cfg H) as [[-> ->]|[-> ->]];
    [reflexivity | apply hash64_of_portable].
Qed.

Lemma hash32a_of_cfg cfg seed bytes :
  XXH_FORCE_NATIVE_FORMAT cfg = false ->
  hash32a_of (XXH_CPU_LITTLE_ENDIAN cfg) (endian_of cfg) seed bytes
  = hash32a_of XXH_littleEndian XXH_littleEndian seed bytes.
Proof.
  intros H. destruct (portable_cases cfg H) as [[-> ->]|[-> ->]];
    [reflexivity | apply hash32a_of_portable].
Qed.

Lemma hash64a_of_cfg cfg seed bytes :
  XXH_FORCE_NATIVE_FORMAT cfg = false ->
  hash64a_of (XXH_CPU_LITTLE_ENDIAN cfg) (endian_of cfg) seed bytes
  = hash64a_of XXH_littleEndian XXH_littleEndian seed bytes.
Proof.
  intros H. destruct (portable_cases cfg H) as [[-> ->]|[-> ->]];
    [reflexivity | apply hash64a_of_portable].
Qed.

(** * The range of the results *)

Lemma mod32_range x : 0 <= to_U32 x < 2 ^ 32.
Proof. unfold to_U32, U32_MOD. apply Z.mod_pos_bound. lia. Qed.

Lemma mod64_range x : 0 <= to_U64 x < 2 ^ 64.
Proof. unfold to_U64, U64_MOD. apply Z.mod_pos_bound. lia. Qed.

Lemma high_bits_false n x i :
  0 <= x < 2 ^ n -> n <= i -> Z.testbit x i = false.
Proof.
  intros H Hi. destruct (Z.ltb_spec n 0).
  - rewrite Z.pow_neg_r in H by lia. lia.
  - rewrite <- (Z.mod_small x (2 ^ n)) by lia.
    apply Z.mod_pow2_bits_high. lia.
Qed.

Lemma lxor_shiftr_range n x k :
  0 <= n -> 0 <= k -> 0 <= x < 2 ^ n -> 0 <= Z.lxor x (Z.shiftr x k) < 2 ^ n.
Proof.
  intros Hn Hk H. apply bits_range; [exact Hn|]. intros i Hi.
  rewrite Z.lxor_spec, Z.shiftr_spec by lia.
  rewrite (high_bits_false n x i H Hi), (high_bits_false n x (i + k) H) by lia.
  reflexivity.
Qed.

Lemma XXH32_avalanche_range h : 0 <= XXH32_avalanche h < 2 ^ 32.
Proof.
  unfold XXH32_avalanche. apply lxor_shiftr_range; try lia.
  unfold mul32. apply mod32_range.
Qed.

Lemma XXH64_avalanche_range h : 0 <= XXH64_avalanche h < 2 ^ 64.
Proof.
  unfold XXH64_avalanche. apply lxor_shiftr_range; try lia.
  unfold mul64. apply mod64_range.
Qed.

Section RunRange.
Variables (cpu endian : XXH_endianess) (align : XXH_alignment).

Lemma XXH32_run_range : forall ss h p r,
  0 <= h < 2 ^ 32 ->
  XXH32_run cpu endian align ss h p = Ok r -> 0 <= r < 2 ^ 32.
Proof.
  induction ss as [|s ss IH]; intros h p r Hh E.
  - injection E as <-. exact Hh.
  - destruct s; cbn [XXH32_run] in E.
    + destruct (read8 p) as [b|]; [|discriminate]. cbn [bind] in E.
      eapply IH; [|exact E]. unfold mul32. apply mod32_range.
    + destruct (XXH_readLE32_align cpu p endian align) as [x|]; [|discriminate].
      cbn [bind] in E. eapply IH; [|exact E]. unfold mul32. apply mod32_range.
    + injection E as <-. exact Hh.
    + injection E as <-. apply XXH32_avalanche_range.
Qed.

Lemma XXH64_run_range : forall ss h p r,
  XXH64_run cpu endian align ss h p = Ok r -> 0 <= r < 2 ^ 64.
Proof.
  induction ss as [|s ss IH]; intros h p r E.
  - injection E as <-. lia.
  - destruct s; cbn [XXH64_run] in E.
    + destruct (read8 p) as [b|]; [|discriminate]. cbn [bind] in E.
      eapply IH; exact E.
    + destruct (XXH_readLE32_align cpu p endian align) as [x|]; [|discriminate].
      cbn [bind] in E. eapply IH; exact E.
    + destruct (XXH_readLE64_align cpu p endian align) as [x|]; [|discriminate].
      cbn [bind] in E. eapply IH; exact E.
    + injection E as <-. apply XXH64_avalanche_range.
Qed.

Lemma XXH32_finalize_range h p len r :
  0 <= h < 2 ^ 32 ->
  XXH32_finalize cpu endian align h p len = Ok r -> 0 <= r < 2 ^ 32.
Proof.
  intros Hh. unfold XXH32_finalize.
  destruct (switch_from (Z.land len 31) XXH32_finalize_cases).
  - apply XXH32_run_range, Hh.
  - now intros [= <-].
Qed.

Lemma XXH64_finalize_range h p len r :
  XXH64_finalize cpu endian align h p len = Ok r -> 0 <= r < 2 ^ 64.
Proof.
  unfold XXH64_finalize.
  destruct (switch_from (Z.land len 31) XXH64_finalize_cases).
  - apply XXH64_run_range.
  - intros [= <-]. lia.
Qed.
End RunRange.

Lemma hash32_of_range cpu endian seed bytes h :
  hash32_of cpu endian seed bytes = Ok h -> 0 <= h < 2 ^ 32.
Proof.
  unfold hash32_of. apply XXH32_finalize_range. unfold add32. apply mod32_range.
Qed.

Lemma hash64_of_range cpu endian seed bytes h :
  hash64_of cpu endian seed bytes = Ok h -> 0 <= h < 2 ^ 64.
Proof.
  unfold hash64_of. apply XXH64_finalize_range.
Qed.

Lemma hash32a_of_range cpu endian seed bytes h :
  hash32a_of cpu endian seed bytes = Ok h -> 0 <= h < 2 ^ 32.
Proof.
  unfold hash32a_of. apply XXH32_finalize_range. unfold add32. apply mod32_range.
Qed.

Lemma hash64a_of_range cpu endian seed bytes h :
  hash64a_of cpu endian seed bytes = Ok h -> 0 <= h < 2 ^ 64.
Proof.
  unfold hash64a_of. apply XXH64_finalize_range.
Qed.

(** The hash of a byte list of the alternative family is defined. *)
Lemma hash32a_of_total cpu endian seed L :
  exists h, hash32a_of cpu endian seed L = Ok h.
Proof.
  unfold hash32a_of, tail_ptr.
  pose proof (Nat.div_mod_eq (length L) 32) as Hdm.
  pose proof (Nat.mod_upper_bound (length L) 32 ltac:(lia)) as Hr.
  apply (XXH32_finalize_total cpu endian) with (n := (length L mod 32)%nat).
  - rewrite !land_31, Nat2Z.inj_mod. change (Z.of_nat 32) with 32.
    apply Z.mod_mod. lia.
  - cbn [mem]. rewrite length_skipn. lia.
Qed.

Lemma hash64a_of_total cpu endian seed L :
  exists h, hash64a_of cpu endian seed L = Ok h.
Proof.
  unfold hash64a_of, tail_ptr.
  pose proof (Nat.div_mod_eq (length L) 32) as Hdm.
  pose proof (Nat.mod_upper_bound (length L) 32 ltac:(lia)) as Hr.
  apply (XXH64_finalize_total cpu endian) with (n := (length L mod 32)%nat).
  - rewrite !land_31, Nat2Z.inj_mod. change (Z.of_nat 32) with 32.
    apply Z.mod_mod. lia.
  - cbn [mem]. rewrite length_skipn. lia.
Qed.

(** * Further facts *)

Lemma valid_sample a n len :
  0 < a -> 0 <= len <= Z.of_nat n -> len <= PTRDIFF_MAX ->
  valid_input (mkptr a (sample_buffer n)) len.
Proof.
  intros Ha Hl Hm. unfold valid_input, sample_buffer. cbn [addr mem].
  rewrite length_map, length_seq. lia.
Qed.

Lemma valid_sample_at a n off len :
  0 < a -> 0 <= off -> 0 <= len -> off + len <= Z.of_nat n -> len <= PTRDIFF_MAX ->
  valid_input (ptr_add (mkptr a (sample_buffer n)) off) len.
Proof.
  intros Ha Ho Hl Hn Hm. unfold valid_input, sample_buffer.
  rewrite addr_ptr_add, length_mem_ptr_add. cbn [addr mem].
  rewrite length_map, length_seq. lia.
Qed.

Lemma valid_length_lt input len :
  valid_input input len -> Z.of_nat (length (input_bytes input len)) < 2 ^ 64.
Proof.
  intros (_ & Hl & Hm). rewrite length_input_bytes by lia.
  unfold PTRDIFF_MAX in Hm. lia.
Qed.

(** The two halves of a 64-bit seed, joined again. *)
Lemma join64_split seed :
  0 <= seed < 2 ^ 64 ->
  join64 (to_U32 (Z.land seed 0xFFFFFFFF)) (to_U32 (Z.shiftr seed 32)) = seed.
Proof.
  intros H. unfold join64, to_U32, U32_MOD.
  change 0xFFFFFFFF with (Z.ones 32). rewrite Z.land_ones by lia.
  rewrite Z.mod_mod by lia.
  apply Z.bits_inj'. intros i Hi.
  rewrite Z.lor_spec, testbit_shl64 by lia.
  destruct (Z.ltb_spec i 32).
  - rewrite Z.mod_pow2_bits_low by lia.
    rewrite (Z.testbit_neg_r _ (i - 32)) by lia.
    rewrite andb_false_r, orb_false_r. reflexivity.
  - rewrite Z.mod_pow2_bits_high by lia. cbn [orb].
    destruct (Z.ltb_spec i 64).
    + rewrite Z.mod_pow2_bits_low by lia. rewrite Z.shiftr_spec by lia.
      cbn [andb]. f_equal. lia.
    + cbn [andb]. symmetry. apply (high_bits_false 64); lia.
Qed.

(** A stream that is also handed null pointers, where they are accepted. *)
Section NullChunks.
Variable cfg : config.
Variable mem_addr : Z.
Hypothesis accept : XXH_ACCEPT_NULL_INPUT_POINTER cfg = true.
Let cpu := XXH_CPU_LITTLE_ENDIAN cfg.

Lemma XXH32_update_null s input len :
  isNULL input = true -> XXH32_update cfg mem_addr s input len = Ok (XXH_OK, s).
Proof.
  intros E. rewrite XXH32_update_unfold. unfold XXH32_update_endian.
  rewrite E, accept. reflexivity.
Qed.

Lemma XXH64_update_null s input len :
  isNULL input = true -> XXH64_update cfg mem_addr s input len = Ok (XXH_OK, s).
Proof.
  intros E. rewrite XXH64_update_unfold. unfold XXH64_update_endian.
  rewrite E, accept. reflexivity.
Qed.

Lemma XXH32_updates_fed seed : forall chunks L s,
  repr32 cpu (endian_of cfg) seed L s -> Forall valid_or_null chunks ->
  exists s',
    XXH32_updates cfg mem_addr chunks s = Ok s'
    /\ repr32 cpu (endian_of cfg) seed (L ++ fed_bytes chunks) s'.
Proof.
  induction chunks as [|[input len] rest IH]; intros L s R V.
  - exists s. split; [reflexivity|]. cbn [fed_bytes]. rewrite app_nil_r. exact R.
  - inversion V as [|c l Vc Vrest]; subst. cbn [XXH32_updates fed_bytes].
    destruct (isNULL input) eqn:EN.
    + rewrite (XXH32_update_null s input len EN). cbn [bind].
      apply IH; assumption.
    + destruct Vc as [Vc|Vc]; [cbn [fst] in Vc; congruence|].
      destruct (XXH32_update_repr cfg mem_addr seed L s input len R Vc)
        as (s1 & E1 & R1).
      rewrite E1. cbn [bind].
      destruct (IH _ _ R1 Vrest) as (s' & E' & R').
      exists s'. split; [exact E'|]. rewrite app_assoc. exact R'.
Qed.

Lemma XXH64_updates_fed seed : forall chunks L s,
  repr64 cpu (endian_of cfg) seed L s -> Forall valid_or_null chunks ->
  exists s',
    XXH64_updates cfg mem_addr chunks s = Ok s'
    /\ repr64 cpu (endian_of cfg) seed (L ++ fed_bytes chunks) s'.
Proof.
  induction chunks as [|[input len] rest IH]; intros L s R V.
  - exists s. split; [reflexivity|]. cbn [fed_bytes]. rewrite app_nil_r. exact R.
  - inversion V as [|c l Vc Vrest]; subst. cbn [XXH64_updates fed_bytes].
    destruct (isNULL input) eqn:EN.
    + rewrite (XXH64_update_null s input len EN). cbn [bind].
      apply IH; assumption.
    + destruct Vc as [Vc|Vc]; [cbn [fst] in Vc; congruence|].
      destruct (XXH64_update_repr cfg mem_addr seed L s input len R Vc)
        as (s1 & E1 & R1).
      rewrite E1. cbn [bind].
      destruct (IH _ _ R1 Vrest) as (s' & E' & R').
      exists s'. split; [exact E'|]. rewrite app_assoc. exact R'.
Qed.
End NullChunks.

(** The numbers of a representation: whole blocks and pending bytes. *)
Lemma repr32_numbers cpu endian seed L s :
  repr32 cpu endian seed L s ->
  (S32.v1 s, S32.v2 s, S32.v3 s, S32.v4 s)
  = blocks 16 (step32 cpu endian) (length L / 16) (init32 seed) L
  /\ firstn (length L mod 16) (S32.mem32 s) = skipn (16 * (length L / 16)) L
  /\ S32.memsize s = Z.of_nat (length L) mod 16
  /\ S32.total_len_32 s = Z.of_nat (length L) mod 2 ^ 32
  /\ (S32.large_len s <> 0 <-> 16 <= Z.of_nat (length L)).
Proof.
  intros (n & m & HL & Hm & Hv & Hb & Hms & Htot & Hlg & Hlen).
  assert (En : (length L / 16)%nat = n).
  { rewrite HL. rewrite Nat.mul_comm, Nat.div_add_l by lia.
    rewrite Nat.div_small by lia. lia. }
  assert (Em : (length L mod 16)%nat = m).
  { rewrite HL. rewrite Nat.add_comm, Nat.mul_comm, Nat.Div0.mod_add.
    apply Nat.mod_small. lia. }
  rewrite En, Em. split; [exact Hv|]. split; [exact Hb|].
  split; [|split; assumption].
  rewrite Hms, <- Em, Nat2Z.inj_mod. reflexivity.
Qed.

Lemma repr64_numbers cpu endian seed L s :
  repr64 cpu endian seed L s ->
  (S64.v1 s, S64.v2 s, S64.v3 s, S64.v4 s)
  = blocks 32 (step64 cpu endian) (length L / 32) (init64 seed) L
  /\ firstn (length L mod 32) (S64.mem64 s) = skipn (32 * (length L / 32)) L
  /\ S64.memsize s = Z.of_nat (length L) mod 32
  /\ S64.total_len s = Z.of_nat (length L) mod 2 ^ 64.
Proof.
  intros (n & m & HL & Hm & Hv & Hb & Hms & Htot & Hlen).
  assert (En : (length L / 32)%nat = n).
  { rewrite HL. rewrite Nat.mul_comm, Nat.div_add_l by lia.
    rewrite Nat.div_small by lia. lia. }
  assert (Em : (length L mod 32)%nat = m).
  { rewrite HL. rewrite Nat.add_comm, Nat.mul_comm, Nat.Div0.mod_add.
    apply Nat.mod_small. lia. }
  rewrite En, Em. split; [exact Hv|]. split; [exact Hb|].
  split; [|assumption].
  rewrite Hms, <- Em, Nat2Z.inj_mod. reflexivity.
Qed.

(** The reserved field is written by no update. *)
Lemma XXH32_updates_reserved cfg m : forall chunks s s',
  Forall (fun c : chunk => 0 <= snd c) chunks -> wf32 s ->
  XXH32_updates cfg m chunks s = Ok s' -> S32.reserved s' = S32.reserved s.
Proof.
  induction chunks as [|[input len] rest IH]; intros s s' V W E.
  - now injection E as <-.
  - inversion V as [|c l Hl Vrest]; subst. cbn [snd] in Hl.
    cbn [XXH32_updates] in E.
    destruct (XXH32_update cfg m s input len) as [[e1 s1]|f] eqn:E1;
      cbn [bind] in E; [|discriminate].
    rewrite XXH32_update_unfold in E1.
    destruct (XXH32_update_endian_inv cfg m s input len _ e1 s1 W Hl E1)
      as (W1 & R1 & _).
    rewrite (IH s1 s' Vrest W1 E). exact R1.
Qed.

Lemma XXH64_updates_reserved cfg m : forall chunks s s',
  Forall (fun c : chunk => 0 <= snd c) chunks -> wf64 s ->
  XXH64_updates cfg m chunks s = Ok s' -> S64.reserved s' = S64.reserved s.
Proof.
  induction chunks as [|[input len] rest IH]; intros s s' V W E.
  - now injection E as <-.
  - inversion V as [|c l Hl Vrest]; subst. cbn [snd] in Hl.
    cbn [XXH64_updates] in E.
    destruct (XXH64_update cfg m s input len) as [[e1 s1]|f] eqn:E1;
      cbn [bind] in E; [|discriminate].
    rewrite XXH64_update_unfold in E1.
    destruct (XXH64_update_endian_inv cfg m s input len _ e1 s1 W Hl E1)
      as (W1 & R1 & _).
    rewrite (IH s1 s' Vrest W1 E). exact R1.
Qed.

Lemma valid_chunks_nonneg chunks :
  Forall valid_chunk chunks -> Forall (fun c : chunk => 0 <= snd c) chunks.
Proof.
  induction 1 as [|c l (_ & H & _) _ IH]; constructor; [lia | exact IH].
Qed.

(** The empty input. *)
Lemma add32_0_r a b : add32 (add32 a b) (to_U32 0) = add32 a b.
Proof.
  unfold add32, to_U32, U32_MOD. change (0 mod 2 ^ 32) with 0.
  rewrite Z.add_0_r. apply Z.mod_mod. lia.
Qed.

Lemma add64_0_r a b : add64 (add64 a b) (to_U64 0) = add64 a b.
Proof.
  unfold add64, to_U64, U64_MOD. change (0 mod 2 ^ 64) with 0.
  rewrite Z.add_0_r. apply Z.mod_mod. lia.
Qed.

Lemma add64_0_r32 a b : add64 (add64 a b) (to_U32 0) = add64 a b.
Proof.
  unfold add64, to_U64, to_U32, U64_MOD, U32_MOD. change (0 mod 2 ^ 32) with 0.
  rewrite Z.add_0_r. apply Z.mod_mod. lia.
Qed.

Lemma XXH32_finalize_0 cpu endian align h p :
  XXH32_finalize cpu endian align h p 0 = Ok (XXH32_avalanche h).
Proof. reflexivity. Qed.

Lemma XXH64_finalize_0 cpu endian align h p :
  XXH64_finalize cpu endian align h p 0 = Ok (XXH64_avalanche h).
Proof. reflexivity. Qed.

Lemma XXH32_endian_align_empty cfg p len seed endian align :
  len = 0 \/ (XXH_ACCEPT_NULL_INPUT_POINTER cfg = true /\ isNULL p = true) ->
  XXH32_endian_align cfg p len seed endian align
  = Ok (XXH32_avalanche (add32 seed PRIME32_5)).
Proof.
  intros H. unfold XXH32_endian_align.
  destruct (XXH_ACCEPT_NULL_INPUT_POINTER cfg && isNULL p) eqn:E.
  - change (16 <=? 0) with false. cbn [bind]. change (Z.land 0 15) with 0.
    rewrite XXH32_finalize_0, add32_0_r. reflexivity.
  - destruct H as [->|[A N]]; [|rewrite A, N in E; discriminate].
    change (16 <=? 0) with false. cbn [bind]. change (Z.land 0 15) with 0.
    rewrite XXH32_finalize_0, add32_0_r. reflexivity.
Qed.

Lemma XXH64_endian_align_empty cfg p len seed endian align :
  len = 0 \/ (XXH_ACCEPT_NULL_INPUT_POINTER cfg = true /\ isNULL p = true) ->
  XXH64_endian_align cfg p len seed endian align
  = Ok (XXH64_avalanche (add64 seed PRIME64_5)).
Proof.
  intros H. unfold XXH64_endian_align.
  destruct (XXH_ACCEPT_NULL_INPUT_POINTER cfg && isNULL p) eqn:E.
  - change (32 <=? 0) with false. cbn [bind].
    rewrite XXH64_finalize_0, add64_0_r. reflexivity.
  - destruct H as [->|[A N]]; [|rewrite A, N in E; discriminate].
    change (32 <=? 0) with false. cbn [bind].
    rewrite XXH64_finalize_0, add64_0_r. reflexivity.
Qed.

Lemma XXH32a_empty cfg p len seed :
  len = 0 \/ (XXH_ACCEPT_NULL_INPUT_POINTER cfg = true /\ isNULL p = true) ->
  XXH32a cfg p len seed = Ok (XXH32_avalanche (add32 seed PRIME32_5)).
Proof.
  intros H. unfold XXH32a.
  destruct (XXH_ACCEPT_NULL_INPUT_POINTER cfg && isNULL p) eqn:E.
  - change (32 <=? 0) with false. cbn [bind]. change (Z.land 0 31) with 0.
    rewrite XXH32_finalize_0, add32_0_r. reflexivity.
  - destruct H as [->|[A N]]; [|rewrite A, N in E; discriminate].
    change (32 <=? 0) with false. cbn [bind]. change (Z.land 0 31) with 0.
    rewrite XXH32_finalize_0, add32_0_r. reflexivity.
Qed.

Lemma XXH64a_empty cfg p len seed :
  len = 0 \/ (XXH_ACCEPT_NULL_INPUT_POINTER cfg = true /\ isNULL p = true) ->
  XXH64a cfg p len seed
  = Ok (XXH64_avalanche
          (add64 (join64 (to_U32 (Z.land seed 0xFFFFFFFF)) (to_U32 (Z.shiftr seed 32)))
                 PRIME64_5)).
Proof.
  intros H. unfold XXH64a.
  destruct (XXH_ACCEPT_NULL_INPUT_POINTER cfg && isNULL p) eqn:E.
  - change (32 <=? 0) with false. cbn [bind]. change (Z.land 0 31) with 0.
    rewrite XXH64_finalize_0, add64_0_r32. reflexivity.
  - destruct H as [->|[A N]]; [|rewrite A, N in E; discriminate].
    change (32 <=? 0) with false. cbn [bind]. change (Z.land 0 31) with 0.
    rewrite XXH64_finalize_0, add64_0_r32. reflexivity.
Qed.

(** * Updates and digests, further *)

Lemma update32_of_portable s X :
  update32_of XXH_bigEndian XXH_bigEndian s X
  = update32_of XXH_littleEndian XXH_littleEndian s X.
Proof.
  unfold update32_of.
  rewrite (blocks_step_ext 16 _ _ step32_portable), step32_portable. reflexivity.
Qed.

Lemma update64_of_portable s X :
  update64_of XXH_bigEndian XXH_bigEndian s X
  = update64_of XXH_littleEndian XXH_littleEndian s X.
Proof.
  unfold update64_of.
  rewrite (blocks_step_ext 32 _ _ step64_portable), step64_portable. reflexivity.
Qed.

Lemma update32_of_cfg cfg s X :
  XXH_FORCE_NATIVE_FORMAT cfg = false ->
  update32_of (XXH_CPU_LITTLE_ENDIAN cfg) (endian_of cfg) s X
  = update32_of XXH_littleEndian XXH_littleEndian s X.
Proof.
  intros H. destruct (portable_cases cfg H) as [[-> ->]|[-> ->]];
    [reflexivity | apply update32_of_portable].
Qed.

Lemma update64_of_cfg cfg s X :
  XXH_FORCE_NATIVE_FORMAT cfg = false ->
  update64_of (XXH_CPU_LITTLE_ENDIAN cfg) (endian_of cfg) s X
  = update64_of XXH_littleEndian XXH_littleEndian s X.
Proof.
  intros H. destruct (portable_cases cfg H) as [[-> ->]|[-> ->]];
    [reflexivity | apply update64_of_portable].
Qed.

Lemma XXH32_update_exec cfg m s p len :
  wf32 s -> valid_input p len ->
  XXH32_update cfg m s p len
  = Ok (XXH_OK, update32_of (XXH_CPU_LITTLE_ENDIAN cfg) (endian_of cfg) s
                  (input_bytes p len)).
Proof.
  intros W V. rewrite XXH32_update_unfold. apply XXH32_update_endian_exec; assumption.
Qed.

Lemma XXH64_update_exec cfg m s p len :
  wf64 s -> valid_input p len ->
  XXH64_update cfg m s p len
  = Ok (XXH_OK, update64_of (XXH_CPU_LITTLE_ENDIAN cfg) (endian_of cfg) s
                  (input_bytes p len)).
Proof.
  intros W V. rewrite XXH64_update_unfold. apply XXH64_update_endian_exec; assumption.
Qed.

(** Digests of the alternative family. *)
Lemma XXH32a_digest_unfold cfg m s :
  XXH32a_digest cfg m s = XXH32a_digest_endian cfg m s (endian_of cfg).
Proof.
  unfold XXH32a_digest, endian_of.
  destruct (XXH_endianess_eqb (XXH_CPU_LITTLE_ENDIAN cfg) XXH_littleEndian
            || XXH_FORCE_NATIVE_FORMAT cfg); reflexivity.
Qed.

Lemma land_31_small x : 0 <= x < 32 -> Z.land x 31 = Z.of_nat (Z.to_nat x).
Proof. intros H. rewrite land_31, Z.mod_small by lia. lia. Qed.

Lemma XXH32a_digest_total cfg m s :
  wf32a s ->
  exists h, XXH32a_digest cfg m s = Ok h /\ 0 <= h < 2 ^ 32.
Proof.
  intros [Hbuf Hms]. rewrite XXH32a_digest_unfold. unfold XXH32a_digest_endian.
  match goal with
  | |- exists h, XXH32_finalize ?c ?e ?a ?h0 ?p ?l = Ok h /\ _ =>
      destruct (XXH32_finalize_total c e h0 p l a (Z.to_nat (S32a.memsize s)))
        as (r & Er)
  end.
  - apply land_31_small, Hms.
  - cbn [mem]. lia.
  - exists r. split; [exact Er|].
    apply (XXH32_finalize_range _ _ _ _ _ _ _ ltac:(unfold add32; apply mod32_range) Er).
Qed.

Lemma XXH32a_digest_addr cfg m m' s :
  XXH32a_digest cfg m s = XXH32a_digest cfg m' s.
Proof.
  rewrite !XXH32a_digest_unfold. unfold XXH32a_digest_endian.
  apply XXH32_finalize_mem. reflexivity.
Qed.

Lemma XXH64a_digest_total cfg m l s :
  wf32a s ->
  exists h, XXH64a_digest cfg m l s = Ok h /\ 0 <= h < 2 ^ 64.
Proof.
  intros W. rewrite (XXH64a_digest_formula cfg m l s W). destruct W as [Hbuf Hms].
  match goal with
  | |- exists h, XXH64_finalize ?c ?e ?a ?h0 ?p ?l = Ok h /\ _ =>
      destruct (XXH64_finalize_total c e h0 p l a (Z.to_nat (S32a.memsize s)))
        as (r & Er)
  end.
  - apply land_31_small, Hms.
  - cbn [mem]. lia.
  - exists r. split; [exact Er|].
    apply (XXH64_finalize_range _ _ _ _ _ _ _ Er).
Qed.

Lemma XXH64a_digest_addr cfg m l m' l' s :
  wf32a s -> XXH64a_digest cfg m l s = XXH64a_digest cfg m' l' s.
Proof.
  intros W. rewrite !XXH64a_digest_formula by exact W.
  apply XXH64_finalize_mem. reflexivity.
Qed.

(** ** Reads past the end *)

Lemma load32_fault cpu p :
  (length (mem p) < 4)%nat -> load32 cpu p = Fault OutOfBounds.
Proof.
  unfold load32.
  destruct (mem p) as [|b0 [|b1 [|b2 [|b3 l]]]]; cbn [length]; intros H;
    try reflexivity; lia.
Qed.

Lemma readLE32_align_fault cpu p endian align :
  (length (mem p) < 4)%nat ->
  XXH_readLE32_align cpu p endian align = Fault OutOfBounds.
Proof.
  intros H. unfold XXH_readLE32_align, XXH_read32. rewrite (load32_fault cpu p H).
  destruct align, endian; reflexivity.
Qed.

Lemma readLE32_fault cpu p endian :
  (length (mem p) < 4)%nat -> XXH_readLE32 cpu p endian = Fault OutOfBounds.
Proof. apply readLE32_align_fault. Qed.

(** One read of a stripe: it faults, or it returns and the stripe goes
    on. *)
Ltac stripe_read :=
  let H := fresh "Hread" in
  match goal with
  | |- bind (XXH_readLE32 ?cpu ?q ?e) _ = Fault OutOfBounds =>
      destruct (Nat.lt_ge_cases (length (mem q)) 4) as [H|H];
      [rewrite (readLE32_fault cpu q e H); reflexivity
      |rewrite (readLE32_word cpu q e H); cbn [bind]]
  | |- bind (load32 ?cpu ?q) _ = Fault OutOfBounds =>
      destruct (Nat.lt_ge_cases (length (mem q)) 4) as [H|H];
      [rewrite (load32_fault cpu q H); reflexivity
      |rewrite (load32_word cpu q H); cbn [bind]]
  end.

Lemma XXHa_update_stripe_fault cfg endian (v : lanes8) p :
  (length (mem p) < 32)%nat ->
  XXHa_update_stripe cfg endian (v, p) = Fault OutOfBounds.
Proof.
  intros H. destruct v as [[[[[[[v00 v01] v02] v03] v10] v11] v12] v13].
  unfold XXHa_update_stripe. norm_ptr.
  do 8 stripe_read.
  rewrite ?length_mem_ptr_add in *. lia.
Qed.

Lemma XXHa_stripe_aligned_fault cfg (v : lanes8) p :
  (length (mem p) < 32)%nat ->
  XXHa_stripe_aligned cfg (v, p) = Fault OutOfBounds.
Proof.
  intros H. destruct v as [[[[[[[v00 v01] v02] v03] v10] v11] v12] v13].
  unfold XXHa_stripe_aligned. norm_ptr.
  do 8 stripe_read.
  rewrite ?length_mem_ptr_add in *. lia.
Qed.

Section BlockLoopFault.
Context {L : Type}.
Variable B : nat.
Variable step : L -> list byte -> L.
Variable body : L * ptr -> result (L * ptr).
Variable cond : L * ptr -> bool.
Variable lim : Z.
Hypothesis B_pos : (0 < B)%nat.
Hypothesis body_ok : forall v p,
  (B <= length (mem p))%nat ->
  body (v, p) = Ok (step v (mem p), ptr_add p (Z.of_nat B)).
Hypothesis body_fault : forall v p,
  (length (mem p) < B)%nat -> body (v, p) = Fault OutOfBounds.
Hypothesis cond_spec : forall v p, cond (v, p) = (addr p <=? lim).

(** The loop goes on after the last whole block that is readable. *)
Lemma do_while_blocks_fault : forall n fuel v p,
  addr p + Z.of_nat B * Z.of_nat n <= lim ->
  (B * n <= length (mem p) < B * (n + 1))%nat ->
  (n < fuel)%nat ->
  do_while fuel body cond (v, p) = Fault OutOfBounds.
Proof.
  induction n as [|n IH]; intros fuel v p Hlim Hlen Hfuel;
    (destruct fuel as [|fuel]; [lia|]); cbn [do_while].
  - rewrite body_fault by lia. reflexivity.
  - rewrite body_ok by lia. cbn [bind]. rewrite cond_spec, addr_ptr_add.
    destruct (Z.leb_spec (addr p + Z.of_nat B) lim); [|lia].
    apply IH.
    + rewrite addr_ptr_add. lia.
    + rewrite length_mem_ptr_add, Nat2Z.id. lia.
    + lia.
Qed.
End BlockLoopFault.

(** The update of the alternative family on a buffer that ends with the
    input, from a state with nothing pending, when 31 bytes are left after
    the whole blocks. *)
Lemma XXH32a_XXH64a_update_endian_overread cfg m s input len endian :
  wf32a s -> S32a.memsize s = 0 ->
  0 < addr input -> Z.of_nat (length (mem input)) = len -> len <= PTRDIFF_MAX ->
  32 <= len -> len mod 32 = 31 ->
  XXH32a_XXH64a_update_endian cfg m s input len endian = Fault OutOfBounds.
Proof.
  intros [Hbuf _] Hms Ha Hlen Hmax H32 Hmod.
  unfold XXH32a_XXH64a_update_endian.
  assert (EN : isNULL input = false) by (unfold isNULL; apply Z.eqb_neq; lia).
  rewrite EN.
  destruct s as [tot large v00 v01 v02 v03 v10 v11 v12 v13 buf ms res].
  cbn [S32a.v00 S32a.v01 S32a.v02 S32a.v03 S32a.v10 S32a.v11 S32a.v12 S32a.v13
       S32a.mem32 S32a.memsize S32a.total_len_32 S32a.large_len S32a.reserved] in *.
  subst ms.
  unfold S32a.set_memsize, S32a.set_mem32, S32a.set_v, S32a.set_large_len,
    S32a.set_total_len_32.
  cbn [S32a.v00 S32a.v01 S32a.v02 S32a.v03 S32a.v10 S32a.v11 S32a.v12 S32a.v13
       S32a.mem32 S32a.memsize S32a.total_len_32 S32a.large_len S32a.reserved].
  assert (Es : to_size_t (0 + len) = len).
  { unfold to_size_t, U64_MOD, PTRDIFF_MAX in *. rewrite Z.add_0_l.
    apply Z.mod_small. lia. }
  rewrite Es.
  destruct (Z.ltb_spec len 32); [lia|].
  change (0 =? 0) with true. cbn [negb bind].
  destruct (Z.leb_spec 32 len); [|lia].
  set (n := Z.to_nat (len / 32)).
  assert (Hn : len = 32 * Z.of_nat n + 31).
  { subst n. rewrite Z2Nat.id by (apply Z.div_pos; lia).
    rewrite <- Hmod. apply Z.div_mod. lia. }
  assert (Hloop : forall c : bool,
    (if c
     then do_while (Z.to_nat len) (XXHa_stripe_aligned cfg)
            (fun '(_, _, _, _, _, _, _, _, p) => addr p <=? addr input + len - 31)
            (v00, v01, v02, v03, v10, v11, v12, v13, input)
     else do_while (Z.to_nat len) (XXHa_update_stripe cfg endian)
            (fun '(_, _, _, _, _, _, _, _, p) => addr p <=? addr input + len - 31)
            (v00, v01, v02, v03, v10, v11, v12, v13, input))
    = Fault OutOfBounds).
  { intros c. destruct c.
    - apply (do_while_blocks_fault 32 (step32a (XXH_CPU_LITTLE_ENDIAN cfg) XXH_littleEndian))
        with (lim := addr input + len - 31) (n := n); try lia.
      + intros v0 p0 Hb. apply XXHa_stripe_aligned_ok. exact Hb.
      + intros v0 p0 Hb. apply XXHa_stripe_aligned_fault. exact Hb.
      + intros v0 p0. apply cond8_le_spec.
    - apply (do_while_blocks_fault 32 (step32a (XXH_CPU_LITTLE_ENDIAN cfg) endian))
        with (lim := addr input + len - 31) (n := n); try lia.
      + intros v0 p0 Hb. apply XXHa_update_stripe_ok. exact Hb.
      + intros v0 p0 Hb. apply XXHa_update_stripe_fault. exact Hb.
      + intros v0 p0. apply cond8_le_spec. }
  rewrite Hloop. reflexivity.
Qed.

(** The same update when a byte follows the input: the loop takes the 31
    bytes left and that byte as one more block. *)
Lemma XXH32a_XXH64a_update_endian_overread_ok cfg m s input len endian :
  wf32a s -> S32a.memsize s = 0 ->
  0 < addr input -> len < Z.of_nat (length (mem input)) -> len <= PTRDIFF_MAX ->
  32 <= len -> len mod 32 = 31 ->
  exists s',
    XXH32a_XXH64a_update_endian cfg m s input len endian = Ok (XXH_OK, s')
    /\ S32a.memsize s' = 0
    /\ (S32a.v00 s', S32a.v01 s', S32a.v02 s', S32a.v03 s',
        S32a.v10 s', S32a.v11 s', S32a.v12 s', S32a.v13 s')
       = blocks 32 (step32a (XXH_CPU_LITTLE_ENDIAN cfg) endian)
           (Z.to_nat ((len + 1) / 32))
           (S32a.v00 s, S32a.v01 s, S32a.v02 s, S32a.v03 s,
            S32a.v10 s, S32a.v11 s, S32a.v12 s, S32a.v13 s)
           (mem input).
Proof.
  intros [Hbuf _] Hms Ha Hlen Hmax H32 Hmod.
  unfold XXH32a_XXH64a_update_endian.
  assert (EN : isNULL input = false) by (unfold isNULL; apply Z.eqb_neq; lia).
  rewrite EN.
  destruct s as [tot large v00 v01 v02 v03 v10 v11 v12 v13 buf ms res].
  cbn [S32a.v00 S32a.v01 S32a.v02 S32a.v03 S32a.v10 S32a.v11 S32a.v12 S32a.v13
       S32a.mem32 S32a.memsize S32a.total_len_32 S32a.large_len S32a.reserved] in *.
  subst ms.
  unfold S32a.set_memsize, S32a.set_mem32, S32a.set_v, S32a.set_large_len,
    S32a.set_total_len_32.
  cbn [S32a.v00 S32a.v01 S32a.v02 S32a.v03 S32a.v10 S32a.v11 S32a.v12 S32a.v13
       S32a.mem32 S32a.memsize S32a.total_len_32 S32a.large_len S32a.reserved].
  assert (Es : to_size_t (0 + len) = len).
  { unfold to_size_t, U64_MOD, PTRDIFF_MAX in *. rewrite Z.add_0_l.
    apply Z.mod_small. lia. }
  rewrite Es.
  destruct (Z.ltb_spec len 32); [lia|].
  change (0 =? 0) with true. cbn [negb bind].
  destruct (Z.leb_spec 32 len); [|lia].
  cbn [S32a.v00 S32a.v01 S32a.v02 S32a.v03 S32a.v10 S32a.v11 S32a.v12 S32a.v13
       S32a.mem32 S32a.memsize S32a.total_len_32 S32a.large_len S32a.reserved].
  set (n := Z.to_nat (len / 32)).
  assert (Hn : len = 32 * Z.of_nat n + 31).
  { subst n. rewrite Z2Nat.id by (apply Z.div_pos; lia).
    rewrite <- Hmod. apply Z.div_mod. lia. }
  assert (Hn1 : Z.to_nat ((len + 1) / 32) = S n).
  { replace (len + 1) with (32 * (Z.of_nat n + 1)) by lia.
    rewrite Z.mul_comm, Z.div_mul by lia. lia. }
  rewrite Hn1.
  assert (Hloop :
    (if XXH_FORCE_ALIGN_CHECK cfg && (Z.land (addr input) 3 =? 0)
        && XXH_endianess_eqb endian XXH_littleEndian
     then do_while (Z.to_nat len) (XXHa_stripe_aligned cfg)
            (fun '(_, _, _, _, _, _, _, _, p) => addr p <=? addr input + len - 31)
            (v00, v01, v02, v03, v10, v11, v12, v13, input)
     else do_while (Z.to_nat len) (XXHa_update_stripe cfg endian)
            (fun '(_, _, _, _, _, _, _, _, p) => addr p <=? addr input + len - 31)
            (v00, v01, v02, v03, v10, v11, v12, v13, input))
    = Ok (blocks 32 (step32a (XXH_CPU_LITTLE_ENDIAN cfg) endian) (S n)
            (v00, v01, v02, v03, v10, v11, v12, v13) (mem input),
          ptr_add input (Z.of_nat (32 * S n)))).
  { destruct (XXH_FORCE_ALIGN_CHECK cfg && (Z.land (addr input) 3 =? 0)
              && XXH_endianess_eqb endian XXH_littleEndian) eqn:Ec.
    - assert (endian = XXH_littleEndian) as ->.
      { destruct endian; [|reflexivity]. rewrite andb_false_r in Ec. discriminate. }
      apply (do_while_blocks 32 (step32a (XXH_CPU_LITTLE_ENDIAN cfg) XXH_littleEndian))
        with (lim := addr input + len - 31); try lia.
      + intros v0 p0 Hb. apply XXHa_stripe_aligned_ok. exact Hb.
      + intros v0 p0. apply cond8_le_spec.
    - apply (do_while_blocks 32 (step32a (XXH_CPU_LITTLE_ENDIAN cfg) endian))
        with (lim := addr input + len - 31); try lia.
      + intros v0 p0 Hb. apply XXHa_update_stripe_ok. exact Hb.
      + intros v0 p0. apply cond8_le_spec. }
  rewrite Hloop. cbn [bind].
  destruct (blocks 32 (step32a (XXH_CPU_LITTLE_ENDIAN cfg) endian) (S n)
              (v00, v01, v02, v03, v10, v11, v12, v13) (mem input))
    as [[[[[[[w0 w1] w2] w3] w4] w5] w6] w7].
  cbn [bind]. rewrite addr_ptr_add.
  destruct (Z.ltb_spec (addr input + Z.of_nat (32 * S n)) (addr input + len)); [lia|].
  eexists. split; [reflexivity|]. split; reflexivity.
Qed.

(** * The alternative family: one update of a fresh state *)

Section AltFresh.
Variable cfg : config.
Variable mem_addr : Z.
Let cpu := XXH_CPU_LITTLE_ENDIAN cfg.

(** The update of a state with nothing pending, when fewer than 31
    bytes are left after the whole blocks of the input: the loop mixes
    the whole blocks and the rest is buffered. *)
Lemma XXH32a_XXH64a_update_endian_fresh endian s input len (n r : nat) :
  wf32a s -> S32a.memsize s = 0 -> valid_input input len ->
  len = Z.of_nat (32 * n + r) -> (r <= 30)%nat ->
  XXH32a_XXH64a_update_endian cfg mem_addr s input len endian
  = let '(a0, a1, a2, a3, b0, b1, b2, b3) :=
      blocks 32 (step32a cpu endian) n
        (S32a.v00 s, S32a.v01 s, S32a.v02 s, S32a.v03 s,
         S32a.v10 s, S32a.v11 s, S32a.v12 s, S32a.v13 s) (mem input) in
    Ok (XXH_OK,
        S32a.mk (add32 (S32a.total_len_32 s) (to_U32 len))
          (Z.lor (S32a.large_len s)
             (Z.lor (Z_of_bool (32 <=? len))
                (Z_of_bool (32 <=? add32 (S32a.total_len_32 s) (to_U32 len)))))
          a0 a1 a2 a3 b0 b1 b2 b3
          (firstn r (skipn (32 * n) (mem input)) ++ skipn r (S32a.mem32 s))
          (Z.of_nat r) (S32a.reserved s)).
Proof.
  intros [Hbuf _] Hms V Hlen Hr. pose proof V as (Ha & Hl & Hmax).
  unfold PTRDIFF_MAX in Hmax.
  unfold XXH32a_XXH64a_update_endian. rewrite (valid_not_null _ _ V).
  destruct s as [tot large v00 v01 v02 v03 v10 v11 v12 v13 buf ms res].
  cbn [S32a.v00 S32a.v01 S32a.v02 S32a.v03 S32a.v10 S32a.v11 S32a.v12 S32a.v13
       S32a.mem32 S32a.memsize S32a.total_len_32 S32a.large_len S32a.reserved] in *.
  subst ms.
  unfold S32a.set_memsize, S32a.set_mem32, S32a.set_v, S32a.set_large_len,
    S32a.set_total_len_32.
  cbn [S32a.v00 S32a.v01 S32a.v02 S32a.v03 S32a.v10 S32a.v11 S32a.v12 S32a.v13
       S32a.mem32 S32a.memsize S32a.total_len_32 S32a.large_len S32a.reserved].
  rewrite Z.add_0_l, to_size_t_small by lia.
  set (tot' := add32 tot (to_U32 len)).
  set (large' := Z.lor large _).
  destruct n as [|n].
  - (* fewer than 32 bytes: all go to the buffer *)
    destruct (Z.ltb_spec len 32); [|lia].
    unfold XXH_memcpy.
    destruct (Z.leb_spec len (Z.of_nat (length (mem input)))); [|lia].
    destruct (Z.leb_spec (0 + len) (Z.of_nat (length buf))); [|lia].
    cbn [andb bind blocks]. change (Z.to_nat 0) with 0%nat.
    rewrite firstn_O, Z.add_0_l. cbn [app].
    change (32 * 0)%nat with 0%nat. rewrite skipn_O.
    replace (Z.to_nat len) with r by lia.
    unfold add32. change (to_U32 (0 + to_U32 len)) with (to_U32 (to_U32 len)).
    rewrite !to_U32_small by (rewrite ?to_U32_small; lia).
    rewrite Hlen. do 3 f_equal.
  - destruct (Z.ltb_spec len 32); [lia|].
    change (0 =? 0) with true. cbn [negb bind].
    destruct (Z.leb_spec 32 len); [|lia].
    cbn [S32a.v00 S32a.v01 S32a.v02 S32a.v03 S32a.v10 S32a.v11 S32a.v12 S32a.v13
         S32a.mem32 S32a.memsize S32a.total_len_32 S32a.large_len S32a.reserved].
    assert (Hloop :
      (if XXH_FORCE_ALIGN_CHECK cfg && (Z.land (addr input) 3 =? 0)
          && XXH_endianess_eqb endian XXH_littleEndian
       then do_while (Z.to_nat len) (XXHa_stripe_aligned cfg)
              (fun '(_, _, _, _, _, _, _, _, p) => addr p <=? addr input + len - 31)
              (v00, v01, v02, v03, v10, v11, v12, v13, input)
       else do_while (Z.to_nat len) (XXHa_update_stripe cfg endian)
              (fun '(_, _, _, _, _, _, _, _, p) => addr p <=? addr input + len - 31)
              (v00, v01, v02, v03, v10, v11, v12, v13, input))
      = Ok (blocks 32 (step32a cpu endian) (S n)
              (v00, v01, v02, v03, v10, v11, v12, v13) (mem input),
            ptr_add input (Z.of_nat (32 * S n)))).
    { destruct (XXH_FORCE_ALIGN_CHECK cfg && (Z.land (addr input) 3 =? 0)
                && XXH_endianess_eqb endian XXH_littleEndian) eqn:Ec.
      - assert (endian = XXH_littleEndian) as ->.
        { destruct endian; [|reflexivity]. rewrite andb_false_r in Ec. discriminate. }
        apply (do_while_blocks 32 (step32a cpu XXH_littleEndian))
          with (lim := addr input + len - 31); try lia.
        + intros v0 p0 Hb. apply XXHa_stripe_aligned_ok. exact Hb.
        + intros v0 p0. apply cond8_le_spec.
      - apply (do_while_blocks 32 (step32a cpu endian))
          with (lim := addr input + len - 31); try lia.
        + intros v0 p0 Hb. apply XXHa_update_stripe_ok. exact Hb.
        + intros v0 p0. apply cond8_le_spec. }
    rewrite Hloop. cbn [bind].
    destruct (blocks 32 (step32a cpu endian) (S n)
                (v00, v01, v02, v03, v10, v11, v12, v13) (mem input))
      as [[[[[[[w0 w1] w2] w3] w4] w5] w6] w7].
    cbn [bind]. rewrite addr_ptr_add.
    cbn [S32a.v00 S32a.v01 S32a.v02 S32a.v03 S32a.v10 S32a.v11 S32a.v12 S32a.v13
         S32a.mem32 S32a.memsize S32a.total_len_32 S32a.large_len S32a.reserved].
    replace (addr input + len - (addr input + Z.of_nat (32 * S n)))
      with (Z.of_nat r) by lia.
    destruct (Z.ltb_spec (addr input + Z.of_nat (32 * S n)) (addr input + len)).
    + unfold XXH_memcpy. rewrite to_size_t_small, to_U32_small by lia.
      rewrite mem_ptr_add, Nat2Z.id, length_skipn.
      destruct (Z.leb_spec (Z.of_nat r) (Z.of_nat (length (mem input) - 32 * S n)));
        [|lia].
      destruct (Z.leb_spec (0 + Z.of_nat r) (Z.of_nat (length buf))); [|lia].
      cbn [andb bind]. change (Z.to_nat 0) with 0%nat. rewrite firstn_O.
      cbn [app]. rewrite Z.add_0_l, Nat2Z.id. reflexivity.
    + assert (r = 0)%nat as -> by lia. rewrite firstn_O, skipn_O. reflexivity.
Qed.
End AltFresh.

Lemma lor_large_fresh len :
  0 <= len ->
  Z.lor 0 (Z.lor (Z_of_bool (32 <=? len)) (Z_of_bool (32 <=? add32 0 (to_U32 len))))
  = Z_of_bool (32 <=? len) \/ 
  (32 <= len /\
   Z.lor 0 (Z.lor (Z_of_bool (32 <=? len)) (Z_of_bool (32 <=? add32 0 (to_U32 len))))
   = 1).
Proof.
  intros H. destruct (Z.leb_spec 32 len).
  - right. split; [assumption|].
    destruct (32 <=? add32 0 (to_U32 len)); reflexivity.
  - left. assert (E : add32 0 (to_U32 len) = len).
    { unfold add32, to_U32, U32_MOD. rewrite Z.add_0_l, Z.mod_mod by lia.
      apply Z.mod_small. lia. }
    rewrite E. destruct (Z.leb_spec 32 len); [lia | reflexivity].
Qed.

Lemma add32_0_l_U32 len : add32 0 (to_U32 len) = to_U32 len.
Proof.
  unfold add32, to_U32, U32_MOD. rewrite Z.add_0_l. apply Z.mod_mod. lia.
Qed.

Lemma add32_seed_0 seed p : add32 (add32 seed 0) p = add32 seed p.
Proof.
  unfold add32, to_U32, U32_MOD. rewrite Z.add_0_r. apply Zplus_mod_idemp_l.
Qed.

Lemma add32_U32_0 x : add32 (to_U32 x) 0 = to_U32 x.
Proof.
  unfold add32, to_U32, U32_MOD. rewrite Z.add_0_r. apply Z.mod_mod. lia.
Qed.

Lemma len_blocks len :
  0 <= len ->
  exists n r : nat,
    len = Z.of_nat (32 * n + r) /\ (r < 32)%nat
    /\ (Z.to_nat len / 32)%nat = n /\ Z.of_nat r = len mod 32.
Proof.
  intros H. destruct (divmod_nat 32 (Z.to_nat len)) as (n & r & E & Hr & En & Er);
    [lia|].
  exists n, r. split; [lia|]. split; [exact Hr|]. split; [exact En|].
  assert (El : len = 32 * Z.of_nat n + Z.of_nat r) by lia.
  rewrite El, Z.add_comm, Z.mul_comm, Z_mod_plus_full. symmetry.
  apply Z.mod_small. lia.
Qed.

Section AltSingle.
Variable cfg : config.
Variable mem_addr : Z.

Lemma XXH32a_stream_single s0 seed input len :
  valid_input input len -> len mod 32 <> 31 ->
  XXH32a_stream cfg mem_addr s0 seed [(input, len)]
  = hash32a_of (XXH_CPU_LITTLE_ENDIAN cfg) (endian_of cfg) seed (input_bytes input len).
Proof.
  intros V Hmod. pose proof V as (Ha & Hl & Hmax).
  destruct (len_blocks len) as (n & r & Hlen & Hr & En & Er); [lia|].
  assert (Hr30 : (r <= 30)%nat) by lia.
  unfold XXH32a_stream. cbn [XXH32a_updates].
  rewrite XXH32a_update_unfold.
  rewrite (XXH32a_XXH64a_update_endian_fresh cfg mem_addr (endian_of cfg)
             (snd (XXH32a_reset s0 seed)) input len n r
             (reset32a_wf s0 seed) eq_refl V Hlen Hr30).
  cbn [XXH32a_reset snd S32a.v00 S32a.v01 S32a.v02 S32a.v03 S32a.v10 S32a.v11
       S32a.v12 S32a.v13 S32a.mem32 S32a.memsize S32a.total_len_32
       S32a.large_len S32a.reserved].
  change (add32 (add32 seed PRIME32_1) PRIME32_2, add32 seed PRIME32_2,
          add32 seed 0, sub32 seed PRIME32_1,
          add32 (add32 seed PRIME32_1) PRIME32_2, add32 seed PRIME32_2,
          add32 seed 0, sub32 seed PRIME32_1) with (init32a seed).
  unfold hash32a_of, acc32a_of, tail_ptr.
  rewrite length_input_bytes by lia. rewrite En, Z2Nat.id by lia.
  rewrite <- (blocks_ext 32 (step32a (XXH_CPU_LITTLE_ENDIAN cfg) (endian_of cfg))
                (step32a_firstn (XXH_CPU_LITTLE_ENDIAN cfg) (endian_of cfg))
                n (init32a seed) (input_bytes input len) (mem input)).
  2:{ apply firstn_input_bytes. lia. }
  2:{ rewrite length_input_bytes; lia. }
  2:{ lia. }
  assert (Hfin : forall h a,
    XXH32_finalize (XXH_CPU_LITTLE_ENDIAN cfg) (endian_of cfg) a h
      (mkptr mem_addr (firstn r (skipn (32 * n) (mem input)) ++ skipn r (zeroes 32)))
      (Z.of_nat r)
    = XXH32_finalize (XXH_CPU_LITTLE_ENDIAN cfg) (endian_of cfg) XXH_unaligned h
        (mkptr 1 (skipn (32 * n) (input_bytes input len))) (Z.land len 31)).
  { intros h a. apply (XXH32_finalize_ext (XXH_CPU_LITTLE_ENDIAN cfg) (endian_of cfg)) with (n := r).
    - rewrite land_31. apply Z.mod_small. lia.
    - rewrite !land_31, Z.mod_mod by lia. lia.
    - cbn [mem]. rewrite take_app_le by (rewrite length_take, length_drop; lia).
      rewrite take_take, Nat.min_id, skipn_input_bytes, firstn_firstn.
      f_equal. lia.
    - cbn [mem]. rewrite length_app, length_take, length_drop. lia.
    - cbn [mem]. rewrite length_drop, length_input_bytes; lia. }
  destruct (lor_large_fresh len ltac:(lia)) as [EL|[H32 EL]].
  - destruct (Z.leb_spec 32 len) as [H32|H32].
    + destruct (blocks 32 (step32a (XXH_CPU_LITTLE_ENDIAN cfg) (endian_of cfg)) n (init32a seed)
                  (input_bytes input len))
        as [[[[[[[w0 w1] w2] w3] w4] w5] w6] w7] eqn:Eb.
      cbn [bind]. rewrite XXH32a_digest_unfold. unfold XXH32a_digest_endian.
      cbn [S32a.v00 S32a.v01 S32a.v02 S32a.v03 S32a.v10 S32a.v11 S32a.v12 S32a.v13
           S32a.mem32 S32a.memsize S32a.total_len_32 S32a.large_len].
      rewrite EL. cbn [Z_of_bool negb Z.eqb]. rewrite add32_0_l_U32.
      apply Hfin.
    + assert (n = 0%nat) as -> by lia. cbn [blocks init32a].
      cbn [bind]. rewrite XXH32a_digest_unfold. unfold XXH32a_digest_endian.
      cbn [S32a.v00 S32a.v01 S32a.v02 S32a.v03 S32a.v10 S32a.v11 S32a.v12 S32a.v13
           S32a.mem32 S32a.memsize S32a.total_len_32 S32a.large_len].
      rewrite EL. cbn [Z_of_bool negb Z.eqb].
      rewrite add32_0_l_U32, add32_seed_0. apply Hfin.
  - destruct (Z.leb_spec 32 len); [|lia].
    destruct (blocks 32 (step32a (XXH_CPU_LITTLE_ENDIAN cfg) (endian_of cfg)) n (init32a seed)
                (input_bytes input len))
      as [[[[[[[w0 w1] w2] w3] w4] w5] w6] w7] eqn:Eb.
    cbn [bind]. rewrite XXH32a_digest_unfold. unfold XXH32a_digest_endian.
    cbn [S32a.v00 S32a.v01 S32a.v02 S32a.v03 S32a.v10 S32a.v11 S32a.v12 S32a.v13
         S32a.mem32 S32a.memsize S32a.total_len_32 S32a.large_len].
    rewrite EL. cbn [negb Z.eqb]. rewrite add32_0_l_U32.
    apply Hfin.
Qed.
Variable local_addr : Z.

Lemma XXH64a_stream_single s0 seed input len :
  valid_input input len -> len mod 32 <> 31 ->
  XXH64a_stream cfg mem_addr local_addr s0 seed [(input, len)]
  = hash64a_of (XXH_CPU_LITTLE_ENDIAN cfg) (endian_of cfg) seed
      (input_bytes input len).
Proof.
  intros V Hmod. pose proof V as (Ha & Hl & Hmax).
  destruct (len_blocks len) as (n & r & Hlen & Hr & En & Er); [lia|].
  assert (Hr30 : (r <= 30)%nat) by lia.
  unfold XXH64a_stream. cbn [XXH64a_updates]. unfold XXH64a_update.
  rewrite XXH32a_update_unfold.
  rewrite (XXH32a_XXH64a_update_endian_fresh cfg mem_addr (endian_of cfg)
             (snd (XXH64a_reset s0 seed)) input len n r
             (reset64a_wf s0 seed) eq_refl V Hlen Hr30).
  cbn [XXH64a_reset snd S32a.v00 S32a.v01 S32a.v02 S32a.v03 S32a.v10 S32a.v11
       S32a.v12 S32a.v13 S32a.mem32 S32a.memsize S32a.total_len_32
       S32a.large_len S32a.reserved].
  fold (init64a seed).
  unfold hash64a_of, acc64a_of, tail_ptr.
  rewrite length_input_bytes by lia. rewrite En, Z2Nat.id by lia.
  rewrite <- (blocks_ext 32 (step32a (XXH_CPU_LITTLE_ENDIAN cfg) (endian_of cfg))
                (step32a_firstn (XXH_CPU_LITTLE_ENDIAN cfg) (endian_of cfg))
                n (init64a seed) (input_bytes input len) (mem input)).
  2:{ apply firstn_input_bytes. lia. }
  2:{ rewrite length_input_bytes; lia. }
  2:{ lia. }
  assert (Hfin : forall h a,
    XXH64_finalize (XXH_CPU_LITTLE_ENDIAN cfg) (endian_of cfg) a h
      (mkptr mem_addr (firstn r (skipn (32 * n) (mem input)) ++ skipn r (zeroes 32)))
      (Z.of_nat r)
    = XXH64_finalize (XXH_CPU_LITTLE_ENDIAN cfg) (endian_of cfg) XXH_unaligned h
        (mkptr 1 (skipn (32 * n) (input_bytes input len))) (Z.land len 31)).
  { intros h a.
    apply (XXH64_finalize_ext (XXH_CPU_LITTLE_ENDIAN cfg) (endian_of cfg))
      with (n := r).
    - rewrite land_31. apply Z.mod_small. lia.
    - rewrite !land_31, Z.mod_mod by lia. lia.
    - cbn [mem]. rewrite take_app_le by (rewrite length_take, length_drop; lia).
      rewrite take_take, Nat.min_id, skipn_input_bytes, firstn_firstn.
      f_equal. lia.
    - cbn [mem]. rewrite length_app, length_take, length_drop. lia.
    - cbn [mem]. rewrite length_drop, length_input_bytes; lia. }
  assert (Hwf : forall tot large a0 a1 a2 a3 b0 b1 b2 b3 res,
    wf32a (S32a.mk tot large a0 a1 a2 a3 b0 b1 b2 b3
             (firstn r (skipn (32 * n) (mem input)) ++ skipn r (zeroes 32))
             (Z.of_nat r) res)).
  { intros. split; cbn [S32a.mem32 S32a.memsize]; [|lia].
    rewrite length_app, length_take, !length_drop. unfold zeroes.
    rewrite repeat_length. lia. }
  assert (Hu : to_U64 (add32 0 (to_U32 len)) = to_U32 len).
  { rewrite add32_0_l_U32. unfold to_U64, U64_MOD.
    pose proof (mod32_range len). apply Z.mod_small. lia. }
  destruct (blocks 32 (step32a (XXH_CPU_LITTLE_ENDIAN cfg) (endian_of cfg)) n
              (init64a seed) (input_bytes input len))
    as [[[[[[[w0 w1] w2] w3] w4] w5] w6] w7] eqn:Eb.
  cbn [bind]. rewrite (XXH64a_digest_formula cfg mem_addr local_addr _ (Hwf _ _ _ _ _ _ _ _ _ _ _)).
  unfold XXH64a_state_acc.
  cbn [S32a.v00 S32a.v01 S32a.v02 S32a.v03 S32a.v10 S32a.v11 S32a.v12 S32a.v13
       S32a.mem32 S32a.memsize S32a.total_len_32 S32a.large_len].
  rewrite Hu. unfold merge64a.
  destruct (lor_large_fresh len ltac:(lia)) as [EL|[H32 EL]].
  - destruct (Z.leb_spec 32 len) as [H32|H32].
    + rewrite EL. cbn [Z_of_bool negb Z.eqb]. apply Hfin.
    + assert (n = 0%nat) as -> by lia. cbn [blocks init64a] in Eb.
      injection Eb as <- <- <- <- <- <- <- <-.
      rewrite EL. cbn [Z_of_bool negb Z.eqb].
      rewrite !add32_U32_0. apply Hfin.
  - destruct (Z.leb_spec 32 len); [|lia].
    rewrite EL. cbn [negb Z.eqb]. apply Hfin.
Qed.
End AltSingle.

(** * The claims of the specification *)



(** C1, the base family: for every readable buffer, seed and split point
    [k], the stream that is reset with the seed and updated with the first
    [k] bytes and then with the rest returns on digest the value the
    one-shot function returns, for XXH32 and for XXH64; both return. *)
Theorem C1_base_streaming_equals_oneshot
    cfg m32 m64 s32 s64 input len seed32 seed64 k :
  valid_input input len -> 0 <= k <= len ->
  (exists h, XXH32 cfg input len seed32 = Ok h
             /\ XXH32_stream cfg m32 s32 seed32 (split_at input len k) = Ok h)
  /\ (exists h, XXH64 cfg input len seed64 = Ok h
                /\ XXH64_stream cfg m64 s64 seed64 (split_at input len k) = Ok h).
Proof.
  intros V Hk. split.
  - destruct (hash32_of_total cfg (endian_of cfg) seed32 (input_bytes input len))
      as (h & Eh).
    exists h. rewrite (XXH32_hash cfg input len seed32 V).
    rewrite (XXH32_stream_hash cfg m32 s32 seed32 _ (split_at_valid input len k V Hk)).
    rewrite (split_at_bytes input len k V Hk). split; exact Eh.
  - destruct (hash64_of_total cfg (endian_of cfg) seed64 (input_bytes input len))
      as (h & Eh).
    exists h. rewrite (XXH64_hash cfg input len seed64 V).
    rewrite (XXH64_stream_hash cfg m64 s64 seed64 _ (split_at_valid input len k V Hk)).
    + rewrite (split_at_bytes input len k V Hk). split; exact Eh.
    + rewrite (split_at_bytes input len k V Hk). apply valid_length_lt, V.
Qed.

Lemma C1_base_streaming_witness :
  (exists h, XXH32 default_config (mkptr 64 (sample_buffer 100)) 100 7 = Ok h
     /\ XXH32_stream default_config 1000 sample_state32 7
          (split_at (mkptr 64 (sample_buffer 100)) 100 33) = Ok h)
  /\ (exists h, XXH64 default_config (mkptr 64 (sample_buffer 100)) 100 9 = Ok h
        /\ XXH64_stream default_config 2000 sample_state64 9
             (split_at (mkptr 64 (sample_buffer 100)) 100 33) = Ok h).
Proof.
  apply (C1_base_streaming_equals_oneshot default_config 1000 2000
           sample_state32 sample_state64 (mkptr 64 (sample_buffer 100)) 100 7 9 33).
  - apply valid_sample; unfold PTRDIFF_MAX; lia.
  - lia.
Defined.

(** C1, the alternative family: on the 63 bytes 0, 1, ..., 62 with seed 0,
    handed over in two pieces cut at 0, the streams of XXH32a and XXH64a
    return other values than the one-shot functions; the block loop of the
    update runs once more than there are whole blocks, and reads the byte
    after the input (a fault when the buffer ends with the input). *)
Lemma C1_alt_streaming_differs :
  XXH32a default_config (mkptr 64 (sample_buffer 64)) 63 0 = Ok 779153097
  /\ XXH32a_stream default_config 1000 sample_state32a 0
       (split_at (mkptr 64 (sample_buffer 64)) 63 0) = Ok 2792359818
  /\ XXH64a default_config (mkptr 64 (sample_buffer 64)) 63 0
     = Ok 1102825870000119666
  /\ XXH64a_stream default_config 1000 2000 sample_state32a 0
       (split_at (mkptr 64 (sample_buffer 64)) 63 0) = Ok 5716806225075650632
  /\ XXH32a default_config (mkptr 64 (sample_buffer 63)) 63 0 = Ok 779153097
  /\ XXH32a_stream default_config 1000 sample_state32a 0
       (split_at (mkptr 64 (sample_buffer 63)) 63 0) = Fault OutOfBounds
  /\ XXH64a_stream default_config 1000 2000 sample_state32a 0
       (split_at (mkptr 64 (sample_buffer 63)) 63 0) = Fault OutOfBounds.
Proof. repeat split; vm_compute; reflexivity. Qed.

(** C2: for every 32-bit value and every 64-bit value, on either host, the
    value read back from its canonical representation is the value
    itself. *)
Theorem C2_canonical_round_trip cfg a h32 h64 :
  0 <= h32 < 2 ^ 32 -> 0 <= h64 < 2 ^ 64 ->
  XXH32_hashFromCanonical cfg (mkptr a (XXH32_canonicalFromHash cfg h32)) = Ok h32
  /\ XXH64_hashFromCanonical cfg (mkptr a (XXH64_canonicalFromHash cfg h64)) = Ok h64.
Proof.
  intros H32 H64. split.
  - apply canonical32_roundtrip, H32.
  - apply canonical64_roundtrip, H64.
Qed.

Lemma C2_canonical_round_trip_witness :
  XXH32_hashFromCanonical default_config
    (mkptr 64 (XXH32_canonicalFromHash default_config 46947589)) = Ok 46947589
  /\ XXH64_hashFromCanonical default_config
       (mkptr 64 (XXH64_canonicalFromHash default_config 17241709254077376921))
     = Ok 17241709254077376921.
Proof.
  apply (C2_canonical_round_trip default_config 64 46947589 17241709254077376921);
    lia.
Defined.

(** C3: with length 0 and seed 0, whatever the pointer and the
    configuration, XXH32 returns the avalanche of PRIME32_5 plus the
    length 0, which is 0x02CC5D05, and XXH64 returns the avalanche of
    PRIME64_5, which is 0xEF46DB3751D8E999. *)
Theorem C3_empty_input_seed_0 : forall cfg input,
  XXH32 cfg input 0 0 = Ok (XXH32_avalanche (add32 (add32 0 PRIME32_5) (to_U32 0)))
  /\ XXH32_avalanche (add32 (add32 0 PRIME32_5) (to_U32 0)) = 0x02CC5D05
  /\ XXH64 cfg input 0 0 = Ok (XXH64_avalanche (add64 (add64 0 PRIME64_5) (to_U64 0)))
  /\ XXH64_avalanche (add64 (add64 0 PRIME64_5) (to_U64 0)) = XXH64_avalanche PRIME64_5
  /\ XXH64_avalanche PRIME64_5 = 0xEF46DB3751D8E999.
Proof.
  intros [cpu nat_fmt chk acc] [a m].
  split; [|split; [vm_compute; reflexivity|split; [|split; vm_compute; reflexivity]]].
  - unfold XXH32, XXH32_endian_align;
      cbn [XXH_CPU_LITTLE_ENDIAN XXH_FORCE_NATIVE_FORMAT XXH_FORCE_ALIGN_CHECK
           XXH_ACCEPT_NULL_INPUT_POINTER addr].
    destruct chk, (Z.land a 3 =? 0), cpu, nat_fmt, acc, (isNULL (mkptr a m));
      vm_compute; reflexivity.
  - unfold XXH64, XXH64_endian_align;
      cbn [XXH_CPU_LITTLE_ENDIAN XXH_FORCE_NATIVE_FORMAT XXH_FORCE_ALIGN_CHECK
           XXH_ACCEPT_NULL_INPUT_POINTER addr].
    destruct chk, (Z.land a 7 =? 0), cpu, nat_fmt, acc, (isNULL (mkptr a m));
      vm_compute; reflexivity.
Qed.

(** C4: on a well-formed state, with an input that is null or readable,
    update returns; it returns XXH_ERROR exactly when the input is null
    and null is not accepted as empty, and then the state is as it was;
    so every update of a readable input returns XXH_OK.  For XXH32 and
    XXH64. *)
Theorem C4_update_error_iff_null_rejected cfg m s32 s64 input len :
  wf32 s32 -> wf64 s64 ->
  (isNULL input = false -> valid_input input len) ->
  (exists e s', XXH32_update cfg m s32 input len = Ok (e, s')
     /\ (e = XXH_ERROR
         <-> isNULL input = true /\ XXH_ACCEPT_NULL_INPUT_POINTER cfg = false)
     /\ (e = XXH_ERROR -> s' = s32))
  /\ (exists e s', XXH64_update cfg m s64 input len = Ok (e, s')
        /\ (e = XXH_ERROR
            <-> isNULL input = true /\ XXH_ACCEPT_NULL_INPUT_POINTER cfg = false)
        /\ (e = XXH_ERROR -> s' = s64)).
Proof.
  intros W32 W64 V. split.
  - rewrite XXH32_update_unfold. destruct (isNULL input) eqn:EN.
    + unfold XXH32_update_endian. rewrite EN.
      destruct (XXH_ACCEPT_NULL_INPUT_POINTER cfg).
      * exists XXH_OK, s32. split; [reflexivity|].
        split; [split; [discriminate | intros [_ H]; discriminate H] | discriminate].
      * exists XXH_ERROR, s32. split; [reflexivity|].
        split; [split; [intros _; split; reflexivity | intros _; reflexivity]
               | intros _; reflexivity].
    + rewrite (XXH32_update_endian_exec cfg m _ s32 input len W32 (V eq_refl)).
      do 2 eexists. split; [reflexivity|].
      split; [split; [discriminate | intros [H _]; discriminate H] | discriminate].
  - rewrite XXH64_update_unfold. destruct (isNULL input) eqn:EN.
    + unfold XXH64_update_endian. rewrite EN.
      destruct (XXH_ACCEPT_NULL_INPUT_POINTER cfg).
      * exists XXH_OK, s64. split; [reflexivity|].
        split; [split; [discriminate | intros [_ H]; discriminate H] | discriminate].
      * exists XXH_ERROR, s64. split; [reflexivity|].
        split; [split; [intros _; split; reflexivity | intros _; reflexivity]
               | intros _; reflexivity].
    + rewrite (XXH64_update_endian_exec cfg m _ s64 input len W64 (V eq_refl)).
      do 2 eexists. split; [reflexivity|].
      split; [split; [discriminate | intros [H _]; discriminate H] | discriminate].
Qed.

Lemma C4_update_error_witness :
  (exists e s',
     XXH32_update default_config 1000 (snd (XXH32_reset sample_state32 0))
       (mkptr 64 (sample_buffer 20)) 20 = Ok (e, s')
     /\ (e = XXH_ERROR
         <-> isNULL (mkptr 64 (sample_buffer 20)) = true
             /\ XXH_ACCEPT_NULL_INPUT_POINTER default_config = false)
     /\ (e = XXH_ERROR -> s' = snd (XXH32_reset sample_state32 0)))
  /\ (exists e s',
        XXH64_update default_config 1000 (snd (XXH64_reset sample_state64 0))
          (mkptr 64 (sample_buffer 20)) 20 = Ok (e, s')
        /\ (e = XXH_ERROR
            <-> isNULL (mkptr 64 (sample_buffer 20)) = true
                /\ XXH_ACCEPT_NULL_INPUT_POINTER default_config = false)
        /\ (e = XXH_ERROR -> s' = snd (XXH64_reset sample_state64 0))).
Proof.
  apply (C4_update_error_iff_null_rejected default_config 1000
           (snd (XXH32_reset sample_state32 0)) (snd (XXH64_reset sample_state64 0))
           (mkptr 64 (sample_buffer 20)) 20).
  - apply reset32_wf.
  - apply reset64_wf.
  - intros _. apply valid_sample; unfold PTRDIFF_MAX; lia.
Defined.

(** C5: for every input, length, seed and byte order, the one-shot
    routines return the same result through the aligned path as through
    the unaligned path, and XXH32 and XXH64 return the same result with
    the alignment check on as with it off. *)
Theorem C5_alignment_path_irrelevant cfg input len seed endian b :
  XXH32_endian_align cfg input len seed endian XXH_aligned
  = XXH32_endian_align cfg input len seed endian XXH_unaligned
  /\ XXH64_endian_align cfg input len seed endian XXH_aligned
     = XXH64_endian_align cfg input len seed endian XXH_unaligned
  /\ XXH32 (with_align_check cfg b) input len seed = XXH32 cfg input len seed
  /\ XXH64 (with_align_check cfg b) input len seed = XXH64 cfg input len seed.
Proof.
  assert (E : with_align_check cfg (XXH_FORCE_ALIGN_CHECK cfg) = cfg)
    by (destruct cfg; reflexivity).
  split; [|split; [|split]].
  - rewrite <- E at 1. apply XXH32_endian_align_any.
  - rewrite <- E at 1. apply XXH64_endian_align_any.
  - apply XXH32_align_check_any.
  - apply XXH64_align_check_any.
Qed.

(** C6: on the 200 bytes 0, 1, ..., 199 with seed 0, whatever the
    configuration, XXH64a and XXH64 both return, and return different
    values. *)
Theorem C6_XXH64a_differs_from_XXH64 cfg :
  exists a b,
    XXH64a cfg (mkptr 64 (sample_buffer 200)) 200 0 = Ok a
    /\ XXH64 cfg (mkptr 64 (sample_buffer 200)) 200 0 = Ok b
    /\ a <> b.
Proof.
  destruct cfg as [cpu nat_fmt chk acc].
  destruct cpu, nat_fmt, chk, acc; do 2 eexists;
    (split; [vm_compute; reflexivity|]);
    (split; [vm_compute; reflexivity|]); discriminate.
Qed.

(** C7: for every state that reset and update calls have produced, in any
    store, digest returns a value and leaves the store as it was, and a
    second digest right after it returns the same value; for XXH32 and
    XXH64. *)
Theorem C7_digest_idempotent cfg a st32 s32 st64 s64 :
  st32 !! a = Some s32 -> reachable32 cfg (a + mem32_offset) s32 ->
  st64 !! a = Some s64 -> reachable64 cfg (a + mem64_offset) s64 ->
  (exists h,
     XXH32_digest_at cfg a st32 = Ok (h, st32)
     /\ ('(_, st') <- XXH32_digest_at cfg a st32 ; XXH32_digest_at cfg a st')
        = Ok (h, st32))
  /\ (exists h,
        XXH64_digest_at cfg a st64 = Ok (h, st64)
        /\ ('(_, st') <- XXH64_digest_at cfg a st64 ; XXH64_digest_at cfg a st')
           = Ok (h, st64)).
Proof.
  intros E32 R32 E64 R64. split.
  - destruct (XXH32_digest_at_wf cfg a st32 s32 E32 (reachable32_wf _ _ _ R32))
      as (h & Eh).
    exists h. split; [exact Eh|]. rewrite Eh. cbn [bind]. exact Eh.
  - destruct (XXH64_digest_at_wf cfg a st64 s64 E64 (reachable64_wf _ _ _ R64))
      as (h & Eh).
    exists h. split; [exact Eh|]. rewrite Eh. cbn [bind]. exact Eh.
Qed.

Lemma C7_digest_idempotent_witness :
  (exists h,
     XXH32_digest_at default_config 100
       {[ 100 := snd (XXH32_reset sample_state32 0) ]}
     = Ok (h, {[ 100 := snd (XXH32_reset sample_state32 0) ]})
     /\ ('(_, st') <- XXH32_digest_at default_config 100
                        {[ 100 := snd (XXH32_reset sample_state32 0) ]} ;
         XXH32_digest_at default_config 100 st')
        = Ok (h, {[ 100 := snd (XXH32_reset sample_state32 0) ]}))
  /\ (exists h,
        XXH64_digest_at default_config 100
          {[ 100 := snd (XXH64_reset sample_state64 0) ]}
        = Ok (h, {[ 100 := snd (XXH64_reset sample_state64 0) ]})
        /\ ('(_, st') <- XXH64_digest_at default_config 100
                           {[ 100 := snd (XXH64_reset sample_state64 0) ]} ;
            XXH64_digest_at default_config 100 st')
           = Ok (h, {[ 100 := snd (XXH64_reset sample_state64 0) ]})).
Proof.
  apply (C7_digest_idempotent default_config 100
           {[ 100 := snd (XXH32_reset sample_state32 0) ]}
           (snd (XXH32_reset sample_state32 0))
           {[ 100 := snd (XXH64_reset sample_state64 0) ]}
           (snd (XXH64_reset sample_state64 0))).
  - apply lookup_singleton_eq.
  - apply reach32_reset.
  - apply lookup_singleton_eq.
  - apply reach64_reset.
Defined.

(** C8: when a well-formed state at [a] is copied to another state at
    [b], the digests of the two are equal; after any updates of the state
    at [a] that return, the state at [b] is still the state that was
    copied and its digest is the same, and likewise with [a] and [b]
    exchanged; for XXH32 and XXH64. *)
Theorem C8_copy_is_independent cfg a b st32 sa32 sb32 st64 sa64 sb64 chunks :
  a <> b ->
  st32 !! a = Some sa32 -> st32 !! b = Some sb32 -> wf32 sa32 ->
  st64 !! a = Some sa64 -> st64 !! b = Some sb64 -> wf64 sa64 ->
  (exists st1 h,
     XXH32_copyState_at b a st32 = Ok st1
     /\ XXH32_digest_at cfg a st1 = Ok (h, st1)
     /\ XXH32_digest_at cfg b st1 = Ok (h, st1)
     /\ (forall st2, XXH32_updates_at cfg a chunks st1 = Ok st2 ->
           st2 !! b = Some sa32 /\ XXH32_digest_at cfg b st2 = Ok (h, st2))
     /\ (forall st2, XXH32_updates_at cfg b chunks st1 = Ok st2 ->
           st2 !! a = Some sa32 /\ XXH32_digest_at cfg a st2 = Ok (h, st2)))
  /\ (exists st1 h,
        XXH64_copyState_at b a st64 = Ok st1
        /\ XXH64_digest_at cfg a st1 = Ok (h, st1)
        /\ XXH64_digest_at cfg b st1 = Ok (h, st1)
        /\ (forall st2, XXH64_updates_at cfg a chunks st1 = Ok st2 ->
              st2 !! b = Some sa64 /\ XXH64_digest_at cfg b st2 = Ok (h, st2))
        /\ (forall st2, XXH64_updates_at cfg b chunks st1 = Ok st2 ->
              st2 !! a = Some sa64 /\ XXH64_digest_at cfg a st2 = Ok (h, st2))).
Proof.
  intros Hab Ea32 Eb32 W32 Ea64 Eb64 W64. split.
  - exists (<[b := sa32]> st32).
    destruct (XXH32_digest_total cfg (a + mem32_offset) sa32 W32) as (h & Eh).
    exists h.
    assert (La : <[b := sa32]> st32 !! a = Some sa32).
    { rewrite lookup_insert_ne by congruence. exact Ea32. }
    assert (Lb : <[b := sa32]> st32 !! b = Some sa32) by apply lookup_insert_eq.
    assert (D : forall c st, st !! c = Some sa32 ->
                XXH32_digest_at cfg c st = Ok (h, st)).
    { intros c st Ec. unfold XXH32_digest_at. rewrite Ec.
      rewrite (XXH32_digest_addr cfg _ (a + mem32_offset)), Eh. reflexivity. }
    split; [apply (XXH32_copyState_at_spec b a st32 sb32 sa32 Eb32 Ea32)|].
    split; [apply D, La|]. split; [apply D, Lb|]. split.
    + intros st2 E2.
      assert (L2 : st2 !! b = Some sa32).
      { rewrite (XXH32_updates_at_frame cfg a chunks _ _ E2 b) by congruence.
        exact Lb. }
      split; [exact L2 | apply D, L2].
    + intros st2 E2.
      assert (L2 : st2 !! a = Some sa32).
      { rewrite (XXH32_updates_at_frame cfg b chunks _ _ E2 a) by congruence.
        exact La. }
      split; [exact L2 | apply D, L2].
  - exists (<[b := sa64]> st64).
    destruct (XXH64_digest_total cfg (a + mem64_offset) sa64 W64) as (h & Eh).
    exists h.
    assert (La : <[b := sa64]> st64 !! a = Some sa64).
    { rewrite lookup_insert_ne by congruence. exact Ea64. }
    assert (Lb : <[b := sa64]> st64 !! b = Some sa64) by apply lookup_insert_eq.
    assert (D : forall c st, st !! c = Some sa64 ->
                XXH64_digest_at cfg c st = Ok (h, st)).
    { intros c st Ec. unfold XXH64_digest_at. rewrite Ec.
      rewrite (XXH64_digest_addr cfg _ (a + mem64_offset)), Eh. reflexivity. }
    split; [apply (XXH64_copyState_at_spec b a st64 sb64 sa64 Eb64 Ea64)|].
    split; [apply D, La|]. split; [apply D, Lb|]. split.
    + intros st2 E2.
      assert (L2 : st2 !! b = Some sa64).
      { rewrite (XXH64_updates_at_frame cfg a chunks _ _ E2 b) by congruence.
        exact Lb. }
      split; [exact L2 | apply D, L2].
    + intros st2 E2.
      assert (L2 : st2 !! a = Some sa64).
      { rewrite (XXH64_updates_at_frame cfg b chunks _ _ E2 a) by congruence.
        exact La. }
      split; [exact L2 | apply D, L2].
Qed.

(** C9: every state that reset and update calls have produced holds
    fewer pending bytes than one block: fewer than 16 for XXH32, fewer
    than 32 for XXH64 and for the alternative family. *)
Theorem C9_memsize_below_block cfg m s32 s64 s32a :
  reachable32 cfg m s32 -> reachable64 cfg m s64 -> reachable32a cfg m s32a ->
  0 <= S32.memsize s32 < 16
  /\ 0 <= S64.memsize s64 < 32
  /\ 0 <= S32a.memsize s32a < 32.
Proof.
  intros R32 R64 R32a.
  split; [apply (reachable32_wf _ _ _ R32)|].
  split; [apply (reachable64_wf _ _ _ R64) | apply (reachable32a_wf _ _ _ R32a)].
Qed.

Lemma C9_memsize_below_block_witness :
  0 <= S32.memsize
         (snd (value_or (XXH32_update default_config 1000
                           (snd (XXH32_reset sample_state32 0))
                           (mkptr 64 (sample_buffer 40)) 40)
                        (XXH_OK, sample_state32))) < 16
  /\ 0 <= S64.memsize
            (snd (value_or (XXH64_update default_config 1000
                              (snd (XXH64_reset sample_state64 0))
                              (mkptr 64 (sample_buffer 40)) 40)
                           (XXH_OK, sample_state64))) < 32
  /\ 0 <= S32a.memsize
            (snd (value_or (XXH32a_update default_config 1000
                              (snd (XXH32a_reset sample_state32a 0))
                              (mkptr 64 (sample_buffer 40)) 40)
                           (XXH_OK, sample_state32a))) < 32.
Proof.
  apply (C9_memsize_below_block default_config 1000).
  - apply (reach32_update default_config 1000 (snd (XXH32_reset sample_state32 0))
             (mkptr 64 (sample_buffer 40)) 40 XXH_OK);
      [apply reach32_reset | lia | vm_compute; reflexivity].
  - apply (reach64_update default_config 1000 (snd (XXH64_reset sample_state64 0))
             (mkptr 64 (sample_buffer 40)) 40 XXH_OK);
      [apply reach64_reset | lia | vm_compute; reflexivity].
  - apply (reach32a_update default_config 1000 (snd (XXH32a_reset sample_state32a 0))
             (mkptr 64 (sample_buffer 40)) 40 XXH_OK);
      [apply reach32a_reset | lia | vm_compute; reflexivity].
Defined.

Lemma C8_copy_is_independent_witness :
  (exists st1 h,
     XXH32_copyState_at 200 100
       (<[100 := snd (XXH32_reset sample_state32 0)]> {[ 200 := sample_state32 ]})
     = Ok st1
     /\ XXH32_digest_at default_config 100 st1 = Ok (h, st1)
     /\ XXH32_digest_at default_config 200 st1 = Ok (h, st1)
     /\ (forall st2,
           XXH32_updates_at default_config 100
             [(mkptr 64 (sample_buffer 20), 20)] st1 = Ok st2 ->
           st2 !! 200 = Some (snd (XXH32_reset sample_state32 0))
           /\ XXH32_digest_at default_config 200 st2 = Ok (h, st2))
     /\ (forall st2,
           XXH32_updates_at default_config 200
             [(mkptr 64 (sample_buffer 20), 20)] st1 = Ok st2 ->
           st2 !! 100 = Some (snd (XXH32_reset sample_state32 0))
           /\ XXH32_digest_at default_config 100 st2 = Ok (h, st2)))
  /\ (exists st1 h,
        XXH64_copyState_at 200 100
          (<[100 := snd (XXH64_reset sample_state64 0)]> {[ 200 := sample_state64 ]})
        = Ok st1
        /\ XXH64_digest_at default_config 100 st1 = Ok (h, st1)
        /\ XXH64_digest_at default_config 200 st1 = Ok (h, st1)
        /\ (forall st2,
              XXH64_updates_at default_config 100
                [(mkptr 64 (sample_buffer 20), 20)] st1 = Ok st2 ->
              st2 !! 200 = Some (snd (XXH64_reset sample_state64 0))
              /\ XXH64_digest_at default_config 200 st2 = Ok (h, st2))
        /\ (forall st2,
              XXH64_updates_at default_config 200
                [(mkptr 64 (sample_buffer 20), 20)] st1 = Ok st2 ->
              st2 !! 100 = Some (snd (XXH64_reset sample_state64 0))
              /\ XXH64_digest_at default_config 100 st2 = Ok (h, st2))).
Proof.
  apply (C8_copy_is_independent default_config 100 200
           (<[100 := snd (XXH32_reset sample_state32 0)]> {[ 200 := sample_state32 ]})
           (snd (XXH32_reset sample_state32 0)) sample_state32
           (<[100 := snd (XXH64_reset sample_state64 0)]> {[ 200 := sample_state64 ]})
           (snd (XXH64_reset sample_state64 0)) sample_state64
           [(mkptr 64 (sample_buffer 20), 20)]).
  - lia.
  - apply lookup_insert_eq.
  - rewrite lookup_insert_ne by lia. apply lookup_singleton_eq.
  - apply reset32_wf.
  - apply lookup_insert_eq.
  - rewrite lookup_insert_ne by lia. apply lookup_singleton_eq.
  - apply reset64_wf.
Defined.

(** C10: the 64-bit functions of the alternative family add the length
    reduced modulo 2^32 to the accumulator, where XXH64 adds it modulo
    2^64.  One-shot: on a readable input, XXH64a finalizes the accumulator
    of the bytes plus [len mod 2^32], XXH64 the accumulator plus
    [len mod 2^64]; for XXH64a this is stated of the calls whose 8-byte
    reads are aligned, that is of an input that is a multiple of 8 or no
    multiple of 4, or with fewer than 8 bytes after the last whole block
    (on the other inputs XXH64a dereferences a pointer to U64 that is no
    multiple of 8).  Streaming: after reset and any updates with non-null
    inputs that return, the running total of an XXH64a state is the sum of
    the lengths modulo 2^32 and its digest finalizes the accumulator of
    the state plus that total; the running total of an XXH64 state is the
    sum modulo 2^64. *)
Theorem C10_XXH64a_adds_length_mod_2_32
    cfg m l input len seed chunks s0 s t0 t :
  valid_input input len ->
  Forall nonnull_chunk chunks ->
  XXH64a_updates cfg m chunks (snd (XXH64a_reset s0 seed)) = Ok s ->
  XXH64_updates cfg m chunks (snd (XXH64_reset t0 seed)) = Ok t ->
  (XXH64a_reads_aligned input len = true ->
   XXH64a cfg input len seed
   = XXH64_finalize (XXH_CPU_LITTLE_ENDIAN cfg) (endian_of cfg) XXH_unaligned
       (add64 (acc64a_of (XXH_CPU_LITTLE_ENDIAN cfg) (endian_of cfg) seed
                 (input_bytes input len)) (len mod 2 ^ 32))
       (tail_ptr 32 (input_bytes input len)) (Z.land len 31))
  /\ XXH64 cfg input len seed
     = XXH64_finalize (XXH_CPU_LITTLE_ENDIAN cfg) (endian_of cfg) XXH_unaligned
         (add64 (acc64_of (XXH_CPU_LITTLE_ENDIAN cfg) (endian_of cfg) seed
                   (input_bytes input len)) (len mod 2 ^ 64))
         (tail_ptr 32 (input_bytes input len)) len
  /\ S32a.total_len_32 s = chunks_len chunks mod 2 ^ 32
  /\ XXH64a_digest cfg m l s
     = XXH64_finalize (XXH_CPU_LITTLE_ENDIAN cfg) (endian_of cfg) XXH_aligned
         (add64 (XXH64a_state_acc s) (chunks_len chunks mod 2 ^ 32))
         (mkptr m (S32a.mem32 s)) (S32a.memsize s)
  /\ S64.total_len t = chunks_len chunks mod 2 ^ 64
  /\ XXH64_digest cfg m t
     = XXH64_finalize (XXH_CPU_LITTLE_ENDIAN cfg) (endian_of cfg) XXH_aligned
         (add64 (XXH64_state_acc t) (chunks_len chunks mod 2 ^ 64))
         (mkptr m (S64.mem64 t)) (chunks_len chunks mod 2 ^ 64).
Proof.
  intros V C Es Et.
  destruct (XXH64a_updates_total cfg m chunks _ s 0 C (reset64a_wf s0 seed)
              eq_refl Es) as (Ws & Ts).
  destruct (XXH64_updates_total cfg m chunks _ t 0 C (reset64_wf t0 seed)
              eq_refl Et) as (Wt & Tt).
  rewrite Z.add_0_l in Ts, Tt.
  split; [intros _; apply XXH64a_length, V|]. split; [apply XXH64_length, V|].
  split; [exact Ts|]. split.
  - rewrite (XXH64a_digest_formula cfg m l s Ws), Ts. do 3 f_equal.
    unfold to_U64, U64_MOD. apply Z.mod_small.
    pose proof (Z.mod_pos_bound (chunks_len chunks) (2 ^ 32)). lia.
  - split; [exact Tt|]. rewrite XXH64_digest_formula, Tt. f_equal.
    unfold to_size_t, U64_MOD. apply Z.mod_mod. lia.
Qed.

Lemma C10_XXH64a_adds_length_witness :
  XXH64a default_config (mkptr 64 (sample_buffer 100)) 100 5
  = XXH64_finalize XXH_littleEndian XXH_littleEndian XXH_unaligned
      (add64 (acc64a_of XXH_littleEndian XXH_littleEndian 5
                (input_bytes (mkptr 64 (sample_buffer 100)) 100)) (100 mod 2 ^ 32))
      (tail_ptr 32 (input_bytes (mkptr 64 (sample_buffer 100)) 100))
      (Z.land 100 31)
  /\ S32a.total_len_32
       (value_or (XXH64a_updates default_config 1000
                    [(mkptr 64 (sample_buffer 40), 40); (mkptr 64 (sample_buffer 9), 9)]
                    (snd (XXH64a_reset sample_state32a 5))) sample_state32a)
     = 49 mod 2 ^ 32.
Proof.
  pose proof (C10_XXH64a_adds_length_mod_2_32 default_config 1000 2000
           (mkptr 64 (sample_buffer 100)) 100 5
           [(mkptr 64 (sample_buffer 40), 40); (mkptr 64 (sample_buffer 9), 9)]
           sample_state32a
           (value_or (XXH64a_updates default_config 1000
                        [(mkptr 64 (sample_buffer 40), 40);
                         (mkptr 64 (sample_buffer 9), 9)]
                        (snd (XXH64a_reset sample_state32a 5))) sample_state32a)
           sample_state64
           (value_or (XXH64_updates default_config 1000
                        [(mkptr 64 (sample_buffer 40), 40);
                         (mkptr 64 (sample_buffer 9), 9)]
                        (snd (XXH64_reset sample_state64 5))) sample_state64)) as H.
  destruct H as (H1 & _ & H3 & _).
  - apply valid_sample; unfold PTRDIFF_MAX; lia.
  - repeat constructor; cbn; lia.
  - vm_compute. reflexivity.
  - vm_compute. reflexivity.
  - split; [apply H1; reflexivity | exact H3].
Defined.

(** * Further properties of the code *)

(** X1: in the portable format XXH32 is a function of the bytes handed
    over and the seed alone: two calls on readable inputs with the same
    bytes return the same value, whatever the byte order of the host, the
    alignment check, the addresses of the inputs and the memory after
    them; the call returns, and the value fits in 32 bits. *)
Theorem X1_XXH32_bytes_only cfg1 cfg2 p q len seed :
  XXH_FORCE_NATIVE_FORMAT cfg1 = false -> XXH_FORCE_NATIVE_FORMAT cfg2 = false ->
  valid_input p len -> valid_input q len ->
  input_bytes p len = input_bytes q len ->
  exists h, XXH32 cfg1 p len seed = Ok h /\ XXH32 cfg2 q len seed = Ok h
            /\ 0 <= h < 2 ^ 32.
Proof.
  intros F1 F2 Vp Vq E.
  rewrite (XXH32_hash cfg1 p len seed Vp), (XXH32_hash cfg2 q len seed Vq).
  rewrite (hash32_of_cfg cfg1 _ _ F1), (hash32_of_cfg cfg2 _ _ F2), E.
  destruct (hash32_of_total default_config XXH_littleEndian seed (input_bytes q len))
    as (h & Eh).
  cbn [XXH_CPU_LITTLE_ENDIAN default_config] in Eh.
  exists h. split; [exact Eh|]. split; [exact Eh|].
  apply (hash32_of_range _ _ _ _ _ Eh).
Qed.

Lemma X1_XXH32_bytes_only_witness :
  exists h,
    XXH32 default_config (mkptr 64 (sample_buffer 100)) 50 7 = Ok h
    /\ XXH32 (mkconfig XXH_bigEndian false false true)
         (mkptr 13 (sample_buffer 50)) 50 7 = Ok h
    /\ 0 <= h < 2 ^ 32.
Proof.
  apply (X1_XXH32_bytes_only default_config (mkconfig XXH_bigEndian false false true)
           (mkptr 64 (sample_buffer 100)) (mkptr 13 (sample_buffer 50)) 50 7).
  - reflexivity.
  - reflexivity.
  - apply valid_sample; unfold PTRDIFF_MAX; lia.
  - apply valid_sample; unfold PTRDIFF_MAX; lia.
  - vm_compute. reflexivity.
Defined.

(** X2: in the portable format XXH64 is a function of the bytes handed
    over and the seed alone, whatever the byte order of the host, the
    alignment check, the address of the input and the memory after it; the
    call returns, and the value fits in 64 bits. *)
Theorem X2_XXH64_bytes_only cfg1 cfg2 p q len seed :
  XXH_FORCE_NATIVE_FORMAT cfg1 = false -> XXH_FORCE_NATIVE_FORMAT cfg2 = false ->
  valid_input p len -> valid_input q len ->
  input_bytes p len = input_bytes q len ->
  exists h, XXH64 cfg1 p len seed = Ok h /\ XXH64 cfg2 q len seed = Ok h
            /\ 0 <= h < 2 ^ 64.
Proof.
  intros F1 F2 Vp Vq E.
  rewrite (XXH64_hash cfg1 p len seed Vp), (XXH64_hash cfg2 q len seed Vq).
  rewrite (hash64_of_cfg cfg1 _ _ F1), (hash64_of_cfg cfg2 _ _ F2), E.
  destruct (hash64_of_total default_config XXH_littleEndian seed (input_bytes q len))
    as (h & Eh).
  cbn [XXH_CPU_LITTLE_ENDIAN default_config] in Eh.
  exists h. split; [exact Eh|]. split; [exact Eh|].
  apply (hash64_of_range _ _ _ _ _ Eh).
Qed.

Lemma X2_XXH64_bytes_only_witness :
  exists h,
    XXH64 default_config (mkptr 64 (sample_buffer 100)) 50 7 = Ok h
    /\ XXH64 (mkconfig XXH_bigEndian false false true)
         (mkptr 13 (sample_buffer 50)) 50 7 = Ok h
    /\ 0 <= h < 2 ^ 64.
Proof.
  apply (X2_XXH64_bytes_only default_config (mkconfig XXH_bigEndian false false true)
           (mkptr 64 (sample_buffer 100)) (mkptr 13 (sample_buffer 50)) 50 7).
  - reflexivity.
  - reflexivity.
  - apply valid_sample; unfold PTRDIFF_MAX; lia.
  - apply valid_sample; unfold PTRDIFF_MAX; lia.
  - vm_compute. reflexivity.
Defined.

(** X3: an XXH32 stream that is reset and then updated with any number
    of readable chunks of any sizes, empty ones included, returns on
    digest what the one-shot XXH32 returns on a buffer holding the bytes
    of the chunks one after the other; whatever the state held before the
    reset. *)
Theorem X3_XXH32_stream_any_chunks cfg m s0 seed chunks input len :
  Forall valid_chunk chunks -> valid_input input len ->
  chunks_bytes chunks = input_bytes input len ->
  exists h, XXH32_stream cfg m s0 seed chunks = Ok h
            /\ XXH32 cfg input len seed = Ok h.
Proof.
  intros V Vi E.
  rewrite (XXH32_stream_hash cfg m s0 seed chunks V), E.
  rewrite (XXH32_hash cfg input len seed Vi).
  destruct (hash32_of_total cfg (endian_of cfg) seed (input_bytes input len))
    as (h & Eh).
  exists h. split; exact Eh.
Qed.

Lemma X3_XXH32_stream_any_chunks_witness :
  exists h,
    XXH32_stream default_config 1000 sample_state32 3
      [ (mkptr 64 (sample_buffer 100), 0);
        (mkptr 64 (sample_buffer 100), 33);
        (ptr_add (mkptr 64 (sample_buffer 100)) 33, 16);
        (ptr_add (mkptr 64 (sample_buffer 100)) 49, 1);
        (ptr_add (mkptr 64 (sample_buffer 100)) 50, 50) ] = Ok h
    /\ XXH32 default_config (mkptr 64 (sample_buffer 100)) 100 3 = Ok h.
Proof.
  apply (X3_XXH32_stream_any_chunks default_config 1000 sample_state32 3 _
           (mkptr 64 (sample_buffer 100)) 100).
  - repeat (constructor;
              [unfold valid_chunk; cbn [fst snd];
               first [ apply valid_sample; unfold PTRDIFF_MAX; lia
                     | apply valid_sample_at; unfold PTRDIFF_MAX; lia ]|]).
    constructor.
  - apply valid_sample; unfold PTRDIFF_MAX; lia.
  - vm_compute. reflexivity.
Defined.

(** X4: an XXH64 stream that is reset and then updated with any number
    of readable chunks of any sizes returns on digest what the one-shot
    XXH64 returns on a buffer holding the bytes of the chunks one after
    the other (the 200-byte buffer fed in 7 chunks, for one). *)
Theorem X4_XXH64_stream_any_chunks cfg m s0 seed chunks input len :
  Forall valid_chunk chunks -> valid_input input len ->
  chunks_bytes chunks = input_bytes input len ->
  exists h, XXH64_stream cfg m s0 seed chunks = Ok h
            /\ XXH64 cfg input len seed = Ok h.
Proof.
  intros V Vi E.
  rewrite (XXH64_stream_hash cfg m s0 seed chunks V)
    by (rewrite E; apply valid_length_lt, Vi).
  rewrite E, (XXH64_hash cfg input len seed Vi).
  destruct (hash64_of_total cfg (endian_of cfg) seed (input_bytes input len))
    as (h & Eh).
  exists h. split; exact Eh.
Qed.

Lemma X4_XXH64_stream_any_chunks_witness :
  exists h,
    XXH64_stream default_config 1000 sample_state64 0
      [ (mkptr 64 (sample_buffer 200), 1);
        (ptr_add (mkptr 64 (sample_buffer 200)) 1, 31);
        (ptr_add (mkptr 64 (sample_buffer 200)) 32, 32);
        (ptr_add (mkptr 64 (sample_buffer 200)) 64, 0);
        (ptr_add (mkptr 64 (sample_buffer 200)) 64, 65);
        (ptr_add (mkptr 64 (sample_buffer 200)) 129, 7);
        (ptr_add (mkptr 64 (sample_buffer 200)) 136, 64) ] = Ok h
    /\ XXH64 default_config (mkptr 64 (sample_buffer 200)) 200 0 = Ok h.
Proof.
  apply (X4_XXH64_stream_any_chunks default_config 1000 sample_state64 0 _
           (mkptr 64 (sample_buffer 200)) 200).
  - repeat (constructor;
              [unfold valid_chunk; cbn [fst snd];
               first [ apply valid_sample; unfold PTRDIFF_MAX; lia
                     | apply valid_sample_at; unfold PTRDIFF_MAX; lia ]|]).
    constructor.
  - apply valid_sample; unfold PTRDIFF_MAX; lia.
  - vm_compute. reflexivity.
Defined.

(** X5: where null is accepted as empty, a stream may be handed null
    pointers with any lengths among its chunks: the digest is the one-shot
    hash of the bytes of the other chunks, for XXH32 and XXH64. *)
Theorem X5_null_chunks_are_skipped cfg m s32 s64 seed chunks input len :
  XXH_ACCEPT_NULL_INPUT_POINTER cfg = true ->
  Forall valid_or_null chunks -> valid_input input len ->
  fed_bytes chunks = input_bytes input len ->
  (exists h, XXH32_stream cfg m s32 seed chunks = Ok h
             /\ XXH32 cfg input len seed = Ok h)
  /\ (exists h, XXH64_stream cfg m s64 seed chunks = Ok h
                /\ XXH64 cfg input len seed = Ok h).
Proof.
  intros A V Vi E. split.
  - destruct (XXH32_updates_fed cfg m A seed chunks [] _
                (reset_repr32 _ (endian_of cfg) seed s32) V) as (s & Es & R).
    cbn [app] in R. unfold XXH32_stream. rewrite Es. cbn [bind].
    rewrite (XXH32_digest_hash cfg m seed _ s R), E.
    rewrite (XXH32_hash cfg input len seed Vi).
    destruct (hash32_of_total cfg (endian_of cfg) seed (input_bytes input len))
      as (h & Eh).
    exists h. split; exact Eh.
  - destruct (XXH64_updates_fed cfg m A seed chunks [] _
                (reset_repr64 _ (endian_of cfg) seed s64) V) as (s & Es & R).
    cbn [app] in R. unfold XXH64_stream. rewrite Es. cbn [bind].
    rewrite (XXH64_digest_hash cfg m seed _ s R)
      by (rewrite E; apply valid_length_lt, Vi).
    rewrite E, (XXH64_hash cfg input len seed Vi).
    destruct (hash64_of_total cfg (endian_of cfg) seed (input_bytes input len))
      as (h & Eh).
    exists h. split; exact Eh.
Qed.

Lemma X5_null_chunks_are_skipped_witness :
  (exists h,
     XXH32_stream (mkconfig XXH_littleEndian false true true) 1000 sample_state32 3
       [ (mkptr 64 (sample_buffer 40), 17); (NULL, 5);
         (ptr_add (mkptr 64 (sample_buffer 40)) 17, 23); (NULL, 0) ] = Ok h
     /\ XXH32 (mkconfig XXH_littleEndian false true true)
          (mkptr 64 (sample_buffer 40)) 40 3 = Ok h)
  /\ (exists h,
        XXH64_stream (mkconfig XXH_littleEndian false true true) 1000 sample_state64 3
          [ (mkptr 64 (sample_buffer 40), 17); (NULL, 5);
            (ptr_add (mkptr 64 (sample_buffer 40)) 17, 23); (NULL, 0) ] = Ok h
        /\ XXH64 (mkconfig XXH_littleEndian false true true)
             (mkptr 64 (sample_buffer 40)) 40 3 = Ok h).
Proof.
  apply (X5_null_chunks_are_skipped (mkconfig XXH_littleEndian false true true)
           1000 sample_state32 sample_state64 3 _ (mkptr 64 (sample_buffer 40)) 40).
  - reflexivity.
  - repeat (constructor;
              [unfold valid_or_null, valid_chunk; cbn [fst snd];
               first [ left; reflexivity
                     | right; apply valid_sample; unfold PTRDIFF_MAX; lia
                     | right; apply valid_sample_at; unfold PTRDIFF_MAX; lia ]|]).
    constructor.
  - apply valid_sample; unfold PTRDIFF_MAX; lia.
  - vm_compute. reflexivity.
Defined.

(** X6: the state of an XXH32 stream after reset and updates with
    readable chunks, in terms of the bytes consumed: the running total is
    their number modulo 2^32, memsize is their number modulo 16, large_len
    is set exactly when there are at least 16, the buffer begins with the
    bytes after the last whole block, the lanes have mixed the whole
    blocks, and the reserved field is the one the memory held before. *)
Theorem X6_XXH32_state_after_updates cfg m s0 seed chunks :
  Forall valid_chunk chunks ->
  exists s,
    XXH32_updates cfg m chunks (snd (XXH32_reset s0 seed)) = Ok s
    /\ S32.total_len_32 s = Z.of_nat (length (chunks_bytes chunks)) mod 2 ^ 32
    /\ S32.memsize s = Z.of_nat (length (chunks_bytes chunks)) mod 16
    /\ (S32.large_len s <> 0 <-> 16 <= Z.of_nat (length (chunks_bytes chunks)))
    /\ firstn (length (chunks_bytes chunks) mod 16) (S32.mem32 s)
       = skipn (16 * (length (chunks_bytes chunks) / 16)) (chunks_bytes chunks)
    /\ (S32.v1 s, S32.v2 s, S32.v3 s, S32.v4 s)
       = blocks 16 (step32 (XXH_CPU_LITTLE_ENDIAN cfg) (endian_of cfg))
           (length (chunks_bytes chunks) / 16) (init32 seed) (chunks_bytes chunks)
    /\ S32.reserved s = S32.reserved s0.
Proof.
  intros V.
  destruct (XXH32_updates_repr cfg m seed chunks [] _
              (reset_repr32 _ (endian_of cfg) seed s0) V) as (s & Es & R).
  cbn [app] in R. exists s. split; [exact Es|].
  destruct (repr32_numbers _ _ _ _ _ R) as (Hv & Hb & Hms & Htot & Hlg).
  repeat (split; [assumption|]).
  apply (XXH32_updates_reserved cfg m chunks _ s (valid_chunks_nonneg _ V)
           (reset32_wf s0 seed) Es).
Qed.

Lemma X6_XXH32_state_after_updates_witness :
  exists s,
    XXH32_updates default_config 1000
      [ (mkptr 64 (sample_buffer 50), 20);
        (ptr_add (mkptr 64 (sample_buffer 50)) 20, 30) ]
      (snd (XXH32_reset sample_state32 3)) = Ok s
    /\ S32.total_len_32 s
       = Z.of_nat (length (chunks_bytes
           [ (mkptr 64 (sample_buffer 50), 20);
             (ptr_add (mkptr 64 (sample_buffer 50)) 20, 30) ])) mod 2 ^ 32
    /\ S32.reserved s = S32.reserved sample_state32.
Proof.
  destruct (X6_XXH32_state_after_updates default_config 1000 sample_state32 3
              [ (mkptr 64 (sample_buffer 50), 20);
                (ptr_add (mkptr 64 (sample_buffer 50)) 20, 30) ])
    as (s & Es & Ht & _ & _ & _ & _ & Hr).
  - repeat (constructor;
              [unfold valid_chunk; cbn [fst snd];
               first [ apply valid_sample; unfold PTRDIFF_MAX; lia
                     | apply valid_sample_at; unfold PTRDIFF_MAX; lia ]|]).
    constructor.
  - exists s. split; [exact Es|]. split; [exact Ht | exact Hr].
Defined.

(** X7: the state of an XXH64 stream after reset and updates with
    readable chunks, in terms of the bytes consumed: the running total is
    their number modulo 2^64, memsize is their number modulo 32, the buffer
    begins with the bytes after the last whole block, and the lanes have
    mixed the whole blocks.  Of the two reserved words the first is zero,
    cleared by the reset, whose copy of 80 bytes reaches it, and the
    second is the one the memory held before. *)
Theorem X7_XXH64_state_after_updates cfg m s0 seed chunks :
  Forall valid_chunk chunks ->
  exists s,
    XXH64_updates cfg m chunks (snd (XXH64_reset s0 seed)) = Ok s
    /\ S64.total_len s = Z.of_nat (length (chunks_bytes chunks)) mod 2 ^ 64
    /\ S64.memsize s = Z.of_nat (length (chunks_bytes chunks)) mod 32
    /\ firstn (length (chunks_bytes chunks) mod 32) (S64.mem64 s)
       = skipn (32 * (length (chunks_bytes chunks) / 32)) (chunks_bytes chunks)
    /\ (S64.v1 s, S64.v2 s, S64.v3 s, S64.v4 s)
       = blocks 32 (step64 (XXH_CPU_LITTLE_ENDIAN cfg) (endian_of cfg))
           (length (chunks_bytes chunks) / 32) (init64 seed) (chunks_bytes chunks)
    /\ S64.reserved s = (0, snd (S64.reserved s0)).
Proof.
  intros V.
  destruct (XXH64_updates_repr cfg m seed chunks [] _
              (reset_repr64 _ (endian_of cfg) seed s0) V) as (s & Es & R).
  cbn [app] in R. exists s. split; [exact Es|].
  destruct (repr64_numbers _ _ _ _ _ R) as (Hv & Hb & Hms & Htot).
  repeat (split; [assumption|]).
  rewrite (XXH64_updates_reserved cfg m chunks _ s (valid_chunks_nonneg _ V)
             (reset64_wf s0 seed) Es).
  reflexivity.
Qed.

Lemma X7_XXH64_state_after_updates_witness :
  exists s,
    XXH64_updates default_config 1000
      [ (mkptr 64 (sample_buffer 50), 20);
        (ptr_add (mkptr 64 (sample_buffer 50)) 20, 30) ]
      (snd (XXH64_reset sample_state64 3)) = Ok s
    /\ S64.total_len s
       = Z.of_nat (length (chunks_bytes
           [ (mkptr 64 (sample_buffer 50), 20);
             (ptr_add (mkptr 64 (sample_buffer 50)) 20, 30) ])) mod 2 ^ 64
    /\ S64.reserved sample_state64 = (9, 9)
    /\ S64.reserved s = (0, 9).
Proof.
  destruct (X7_XXH64_state_after_updates default_config 1000 sample_state64 3
              [ (mkptr 64 (sample_buffer 50), 20);
                (ptr_add (mkptr 64 (sample_buffer 50)) 20, 30) ])
    as (s & Es & Ht & _ & _ & _ & Hr).
  - repeat (constructor;
              [unfold valid_chunk; cbn [fst snd];
               first [ apply valid_sample; unfold PTRDIFF_MAX; lia
                     | apply valid_sample_at; unfold PTRDIFF_MAX; lia ]|]).
    constructor.
  - exists s. split; [exact Es|]. split; [exact Ht|].
    split; [reflexivity | exact Hr].
Defined.

(** X8: on either host the canonical representation of a hash value is
    its bytes from the most significant to the least significant one. *)
Theorem X8_canonical_is_big_endian cfg h32 h64 :
  0 <= h32 < 2 ^ 32 -> 0 <= h64 < 2 ^ 64 ->
  XXH32_canonicalFromHash cfg h32
  = [BYTE_of (h32 / 2 ^ 24); BYTE_of (h32 / 2 ^ 16); BYTE_of (h32 / 2 ^ 8); BYTE_of h32]
  /\ XXH64_canonicalFromHash cfg h64
     = [BYTE_of (h64 / 2 ^ 56); BYTE_of (h64 / 2 ^ 48); BYTE_of (h64 / 2 ^ 40);
        BYTE_of (h64 / 2 ^ 32); BYTE_of (h64 / 2 ^ 24); BYTE_of (h64 / 2 ^ 16);
        BYTE_of (h64 / 2 ^ 8); BYTE_of h64].
Proof.
  intros H32 H64. split.
  - apply (canonical32_big_endian cfg h32 H32).
  - apply (canonical64_big_endian cfg h64 H64).
Qed.

Lemma X8_canonical_is_big_endian_witness :
  XXH32_canonicalFromHash default_config 0x02CC5D05
  = [BYTE_of (0x02CC5D05 / 2 ^ 24); BYTE_of (0x02CC5D05 / 2 ^ 16);
     BYTE_of (0x02CC5D05 / 2 ^ 8); BYTE_of 0x02CC5D05]
  /\ XXH64_canonicalFromHash default_config 0xEF46DB3751D8E999
     = [BYTE_of (0xEF46DB3751D8E999 / 2 ^ 56); BYTE_of (0xEF46DB3751D8E999 / 2 ^ 48);
        BYTE_of (0xEF46DB3751D8E999 / 2 ^ 40); BYTE_of (0xEF46DB3751D8E999 / 2 ^ 32);
        BYTE_of (0xEF46DB3751D8E999 / 2 ^ 24); BYTE_of (0xEF46DB3751D8E999 / 2 ^ 16);
        BYTE_of (0xEF46DB3751D8E999 / 2 ^ 8); BYTE_of 0xEF46DB3751D8E999].
Proof.
  apply (X8_canonical_is_big_endian default_config 0x02CC5D05 0xEF46DB3751D8E999);
    lia.
Defined.

(** X9: on either host hashFromCanonical returns the big-endian value of
    the first four (eight) bytes it is given, and writing that value back
    with canonicalFromHash gives those bytes again. *)
Theorem X9_hashFromCanonical_big_endian cfg a b0 b1 b2 b3 b4 b5 b6 b7 rest :
  XXH32_hashFromCanonical cfg (mkptr a (b0 :: b1 :: b2 :: b3 :: rest))
  = Ok (BYTE_val b3 + 2 ^ 8 * BYTE_val b2 + 2 ^ 16 * BYTE_val b1
        + 2 ^ 24 * BYTE_val b0)
  /\ XXH32_canonicalFromHash cfg
       (BYTE_val b3 + 2 ^ 8 * BYTE_val b2 + 2 ^ 16 * BYTE_val b1
        + 2 ^ 24 * BYTE_val b0) = [b0; b1; b2; b3]
  /\ XXH64_hashFromCanonical cfg
       (mkptr a (b0 :: b1 :: b2 :: b3 :: b4 :: b5 :: b6 :: b7 :: rest))
     = Ok (BYTE_val b7 + 2 ^ 8 * BYTE_val b6 + 2 ^ 16 * BYTE_val b5
           + 2 ^ 24 * BYTE_val b4 + 2 ^ 32 * BYTE_val b3 + 2 ^ 40 * BYTE_val b2
           + 2 ^ 48 * BYTE_val b1 + 2 ^ 56 * BYTE_val b0)
  /\ XXH64_canonicalFromHash cfg
       (BYTE_val b7 + 2 ^ 8 * BYTE_val b6 + 2 ^ 16 * BYTE_val b5
        + 2 ^ 24 * BYTE_val b4 + 2 ^ 32 * BYTE_val b3 + 2 ^ 40 * BYTE_val b2
        + 2 ^ 48 * BYTE_val b1 + 2 ^ 56 * BYTE_val b0)
     = [b0; b1; b2; b3; b4; b5; b6; b7].
Proof.
  change (BYTE_val b3 + 2 ^ 8 * BYTE_val b2 + 2 ^ 16 * BYTE_val b1
          + 2 ^ 24 * BYTE_val b0) with (native32 XXH_bigEndian b0 b1 b2 b3).
  change (BYTE_val b7 + 2 ^ 8 * BYTE_val b6 + 2 ^ 16 * BYTE_val b5
          + 2 ^ 24 * BYTE_val b4 + 2 ^ 32 * BYTE_val b3 + 2 ^ 40 * BYTE_val b2
          + 2 ^ 48 * BYTE_val b1 + 2 ^ 56 * BYTE_val b0)
    with (native64 XXH_bigEndian b0 b1 b2 b3 b4 b5 b6 b7).
  split; [|split; [|split]].
  - unfold XXH32_hashFromCanonical, XXH_readBE32, XXH_read32, load32. cbn [mem].
    destruct (XXH_CPU_LITTLE_ENDIAN cfg); [reflexivity|].
    cbn [bind]. now rewrite swap32_native32_LE.
  - rewrite (canonical32_big_endian cfg _ (native32_range _ b0 b1 b2 b3)).
    apply store32_native32.
  - unfold XXH64_hashFromCanonical, XXH_readBE64, XXH_read64, load64. cbn [mem].
    destruct (XXH_CPU_LITTLE_ENDIAN cfg); [reflexivity|].
    cbn [bind]. now rewrite swap64_native64_LE.
  - rewrite (canonical64_big_endian cfg _ (native64_range _ b0 b1 b2 b3 b4 b5 b6 b7)).
    apply store64_native64.
Qed.

(** X10: XXH_swap32 and XXH_swap64 reverse the bytes of a value: they
    stay within 32 (64) bits, applied twice they give the value back, and
    the value a little-endian host reads from four (eight) bytes is swapped
    to the value it reads from the bytes in the opposite order. *)
Theorem X10_swap_reverses_bytes x32 x64 b0 b1 b2 b3 b4 b5 b6 b7 :
  0 <= x32 < 2 ^ 32 -> 0 <= x64 < 2 ^ 64 ->
  XXH_swap32 (XXH_swap32 x32) = x32
  /\ XXH_swap64 (XXH_swap64 x64) = x64
  /\ 0 <= XXH_swap32 x32 < 2 ^ 32
  /\ 0 <= XXH_swap64 x64 < 2 ^ 64
  /\ XXH_swap32 (native32 XXH_littleEndian b0 b1 b2 b3)
     = native32 XXH_littleEndian b3 b2 b1 b0
  /\ XXH_swap64 (native64 XXH_littleEndian b0 b1 b2 b3 b4 b5 b6 b7)
     = native64 XXH_littleEndian b7 b6 b5 b4 b3 b2 b1 b0.
Proof.
  intros H32 H64.
  split; [apply swap32_involutive, H32|].
  split; [apply swap64_involutive, H64|].
  split; [apply swap32_range|]. split; [apply swap64_range|].
  split.
  - rewrite swap32_native32_LE. reflexivity.
  - rewrite swap64_native64_LE. reflexivity.
Qed.

Lemma X10_swap_reverses_bytes_witness :
  XXH_swap32 (XXH_swap32 0x01020304) = 0x01020304
  /\ XXH_swap64 (XXH_swap64 0x0102030405060708) = 0x0102030405060708
  /\ 0 <= XXH_swap32 0x01020304 < 2 ^ 32
  /\ 0 <= XXH_swap64 0x0102030405060708 < 2 ^ 64
  /\ XXH_swap32 (native32 XXH_littleEndian x08 x07 x06 x05)
     = native32 XXH_littleEndian x05 x06 x07 x08
  /\ XXH_swap64 (native64 XXH_littleEndian x08 x07 x06 x05 x04 x03 x02 x01)
     = native64 XXH_littleEndian x01 x02 x03 x04 x05 x06 x07 x08.
Proof.
  apply (X10_swap_reverses_bytes 0x01020304 0x0102030405060708
           x08 x07 x06 x05 x04 x03 x02 x01); lia.
Defined.

(** X11: the finalizers read the first [len&31] bytes at the pointer
    and nothing else: when these bytes are readable the finalizers return,
    and with the same accumulator they return the same value for any two
    pointers at which these bytes agree, whatever comes after them and
    whatever the alignment argument. *)
Theorem X11_finalize_reads_len_bytes cpu endian a1 a2 h p q len (n : nat) :
  Z.land len 31 = Z.of_nat n ->
  (n <= length (mem p))%nat -> (n <= length (mem q))%nat ->
  firstn n (mem p) = firstn n (mem q) ->
  (exists r, XXH32_finalize cpu endian a1 h p len = Ok r
             /\ XXH32_finalize cpu endian a2 h q len = Ok r)
  /\ (exists r, XXH64_finalize cpu endian a1 h p len = Ok r
                /\ XXH64_finalize cpu endian a2 h q len = Ok r).
Proof.
  intros El Hp Hq E. split.
  - destruct (XXH32_finalize_total cpu endian h p len a1 n El Hp) as (r & Er).
    exists r. split; [exact Er|].
    rewrite <- (XXH32_finalize_ext cpu endian h p q len len a1 a2 n El El E Hp Hq).
    exact Er.
  - destruct (XXH64_finalize_total cpu endian h p len a1 n El Hp) as (r & Er).
    exists r. split; [exact Er|].
    rewrite <- (XXH64_finalize_ext cpu endian h p q len len a1 a2 n El El E Hp Hq).
    exact Er.
Qed.

Lemma X11_finalize_reads_len_bytes_witness :
  (exists r,
     XXH32_finalize XXH_littleEndian XXH_littleEndian XXH_aligned 5
       (mkptr 64 (sample_buffer 40)) 37 = Ok r
     /\ XXH32_finalize XXH_littleEndian XXH_littleEndian XXH_unaligned 5
          (mkptr 13 (sample_buffer 5)) 37 = Ok r)
  /\ (exists r,
        XXH64_finalize XXH_littleEndian XXH_littleEndian XXH_aligned 5
          (mkptr 64 (sample_buffer 40)) 37 = Ok r
        /\ XXH64_finalize XXH_littleEndian XXH_littleEndian XXH_unaligned 5
             (mkptr 13 (sample_buffer 5)) 37 = Ok r).
Proof.
  apply (X11_finalize_reads_len_bytes XXH_littleEndian XXH_littleEndian
           XXH_aligned XXH_unaligned 5
           (mkptr 64 (sample_buffer 40)) (mkptr 13 (sample_buffer 5)) 37 5).
  - reflexivity.
  - vm_compute. lia.
  - vm_compute. lia.
  - vm_compute. reflexivity.
Defined.

(** X12: with length 0, or with a null pointer where null is accepted
    as empty (whatever the length), the four one-shot functions return
    the avalanche of the seed plus the fifth prime, for every seed; the
    64-bit function of the alternative family takes the seed as its two
    32-bit halves joined again. *)
Theorem X12_empty_input cfg p len seed :
  len = 0 \/ (XXH_ACCEPT_NULL_INPUT_POINTER cfg = true /\ isNULL p = true) ->
  XXH32 cfg p len seed = Ok (XXH32_avalanche (add32 seed PRIME32_5))
  /\ XXH64 cfg p len seed = Ok (XXH64_avalanche (add64 seed PRIME64_5))
  /\ XXH32a cfg p len seed = Ok (XXH32_avalanche (add32 seed PRIME32_5))
  /\ XXH64a cfg p len seed
     = Ok (XXH64_avalanche
             (add64 (join64 (to_U32 (Z.land seed 0xFFFFFFFF))
                            (to_U32 (Z.shiftr seed 32))) PRIME64_5)).
Proof.
  intros H. split; [|split; [|split]].
  - destruct (XXH32_unfold cfg p len seed) as (al & ->).
    apply XXH32_endian_align_empty, H.
  - destruct (XXH64_unfold cfg p len seed) as (al & ->).
    apply XXH64_endian_align_empty, H.
  - apply XXH32a_empty, H.
  - apply XXH64a_empty, H.
Qed.

Lemma X12_empty_input_witness :
  XXH32 (mkconfig XXH_littleEndian false true true) NULL 77 5
  = Ok (XXH32_avalanche (add32 5 PRIME32_5))
  /\ XXH64 (mkconfig XXH_littleEndian false true true) NULL 77 5
     = Ok (XXH64_avalanche (add64 5 PRIME64_5))
  /\ XXH32a (mkconfig XXH_littleEndian false true true) NULL 77 5
     = Ok (XXH32_avalanche (add32 5 PRIME32_5))
  /\ XXH64a (mkconfig XXH_littleEndian false true true) NULL 77 5
     = Ok (XXH64_avalanche
             (add64 (join64 (to_U32 (Z.land 5 0xFFFFFFFF)) (to_U32 (Z.shiftr 5 32)))
                    PRIME64_5)).
Proof.
  apply (X12_empty_input (mkconfig XXH_littleEndian false true true) NULL 77 5).
  right. split; reflexivity.
Defined.

(** X13: on a readable input of fewer than 32 bytes, with a seed that
    fits in 64 bits, XXH64a returns what XXH64 returns: the two families
    differ from the first whole block on only.  Stated of the calls of
    XXH64a whose 8-byte reads are aligned: an input that is a multiple of
    8 or no multiple of 4, or fewer than 8 bytes. *)
Theorem X13_XXH64a_equals_XXH64_below_32 cfg input len seed :
  valid_input input len -> len < 32 -> 0 <= seed < 2 ^ 64 ->
  XXH64a_reads_aligned input len = true ->
  exists h, XXH64a cfg input len seed = Ok h /\ XXH64 cfg input len seed = Ok h.
Proof.
  intros V Hlen Hseed _. pose proof V as (Ha & Hl & Hm).
  destruct (hash64_of_total cfg (endian_of cfg) seed (input_bytes input len))
    as (h & Eh).
  exists h. rewrite (XXH64_hash cfg input len seed V). split; [|exact Eh].
  rewrite <- Eh, (XXH64a_hash cfg input len seed V).
  unfold hash64a_of, hash64_of, acc64a_of, tail_ptr.
  rewrite !length_input_bytes by lia. rewrite Z2Nat.id by lia.
  destruct (Z.leb_spec 32 len); [lia|].
  rewrite (join64_split seed Hseed).
  replace (to_U32 len) with (to_U64 len).
  2:{ unfold to_U32, to_U64, U32_MOD, U64_MOD. rewrite !Z.mod_small; lia. }
  apply (XXH64_finalize_ext _ _ _ _ _ _ _ _ _ (Z.to_nat len)).
  - rewrite !land_31, Z.mod_mod, Z.mod_small by lia. lia.
  - rewrite land_31, Z.mod_small by lia. lia.
  - reflexivity.
  - cbn [mem]. rewrite Nat.div_small by lia. rewrite Nat.mul_0_r, skipn_O.
    rewrite length_input_bytes; lia.
  - cbn [mem]. rewrite Nat.div_small by lia. rewrite Nat.mul_0_r, skipn_O.
    rewrite length_input_bytes; lia.
Qed.

Lemma X13_XXH64a_equals_XXH64_below_32_witness :
  exists h,
    XXH64a default_config (mkptr 64 (sample_buffer 40)) 31 (2 ^ 63 + 12345) = Ok h
    /\ XXH64 default_config (mkptr 64 (sample_buffer 40)) 31 (2 ^ 63 + 12345) = Ok h.
Proof.
  apply (X13_XXH64a_equals_XXH64_below_32 default_config
           (mkptr 64 (sample_buffer 40)) 31 (2 ^ 63 + 12345)).
  - apply valid_sample; unfold PTRDIFF_MAX; lia.
  - lia.
  - lia.
  - reflexivity.
Defined.

(** X14: in the portable format the one-shot functions of the
    alternative family are functions of the bytes handed over and the
    seed alone, whatever the byte order of the host, the alignment check
    and the memory after the input: XXH32a at any two addresses, XXH64a
    at any two addresses at which its 8-byte reads are aligned (a
    multiple of 8 or no multiple of 4, or fewer than 8 bytes after the
    last whole block); they return, within 32 and 64 bits. *)
Theorem X14_alt_oneshot_bytes_only cfg1 cfg2 p q len seed :
  XXH_FORCE_NATIVE_FORMAT cfg1 = false -> XXH_FORCE_NATIVE_FORMAT cfg2 = false ->
  valid_input p len -> valid_input q len ->
  input_bytes p len = input_bytes q len ->
  (exists h, XXH32a cfg1 p len seed = Ok h /\ XXH32a cfg2 q len seed = Ok h
             /\ 0 <= h < 2 ^ 32)
  /\ (XXH64a_reads_aligned p len = true -> XXH64a_reads_aligned q len = true ->
      exists h, XXH64a cfg1 p len seed = Ok h /\ XXH64a cfg2 q len seed = Ok h
                /\ 0 <= h < 2 ^ 64).
Proof.
  intros F1 F2 Vp Vq E. split; [|intros _ _].
  - rewrite (XXH32a_hash cfg1 p len seed Vp), (XXH32a_hash cfg2 q len seed Vq).
    rewrite (hash32a_of_cfg cfg1 _ _ F1), (hash32a_of_cfg cfg2 _ _ F2), E.
    destruct (hash32a_of_total XXH_littleEndian XXH_littleEndian seed
                (input_bytes q len)) as (h & Eh).
    exists h. split; [exact Eh|]. split; [exact Eh|].
    apply (hash32a_of_range _ _ _ _ _ Eh).
  - rewrite (XXH64a_hash cfg1 p len seed Vp), (XXH64a_hash cfg2 q len seed Vq).
    rewrite (hash64a_of_cfg cfg1 _ _ F1), (hash64a_of_cfg cfg2 _ _ F2), E.
    destruct (hash64a_of_total XXH_littleEndian XXH_littleEndian seed
                (input_bytes q len)) as (h & Eh).
    exists h. split; [exact Eh|]. split; [exact Eh|].
    apply (hash64a_of_range _ _ _ _ _ Eh).
Qed.

Lemma X14_alt_oneshot_bytes_only_witness :
  (exists h,
     XXH32a default_config (mkptr 68 (sample_buffer 100)) 79 7 = Ok h
     /\ XXH32a (mkconfig XXH_bigEndian false false true)
          (mkptr 13 (sample_buffer 79)) 79 7 = Ok h
     /\ 0 <= h < 2 ^ 32)
  /\ (exists h,
        XXH64a default_config (mkptr 64 (sample_buffer 100)) 79 7 = Ok h
        /\ XXH64a (mkconfig XXH_bigEndian false false true)
             (mkptr 13 (sample_buffer 79)) 79 7 = Ok h
        /\ 0 <= h < 2 ^ 64).
Proof.
  split.
  - apply (X14_alt_oneshot_bytes_only default_config
             (mkconfig XXH_bigEndian false false true)
             (mkptr 68 (sample_buffer 100)) (mkptr 13 (sample_buffer 79)) 79 7).
    + reflexivity.
    + reflexivity.
    + apply valid_sample; unfold PTRDIFF_MAX; lia.
    + apply valid_sample; unfold PTRDIFF_MAX; lia.
    + vm_compute. reflexivity.
  - apply (X14_alt_oneshot_bytes_only default_config
             (mkconfig XXH_bigEndian false false true)
             (mkptr 64 (sample_buffer 100)) (mkptr 13 (sample_buffer 79)) 79 7).
    + reflexivity.
    + reflexivity.
    + apply valid_sample; unfold PTRDIFF_MAX; lia.
    + apply valid_sample; unfold PTRDIFF_MAX; lia.
    + vm_compute. reflexivity.
    + reflexivity.
    + reflexivity.
Defined.

(** X15: in the portable format an update of a well-formed state with a
    readable input returns XXH_OK and a state that the old state, the
    bytes handed over alone determine: the byte order of the host, the
    alignment check, the address of the input, the memory after it and
    the address of the state do not matter; for XXH32 and XXH64. *)
Theorem X15_update_bytes_only cfg1 cfg2 m1 m2 s32 s64 p q len :
  XXH_FORCE_NATIVE_FORMAT cfg1 = false -> XXH_FORCE_NATIVE_FORMAT cfg2 = false ->
  wf32 s32 -> wf64 s64 ->
  valid_input p len -> valid_input q len ->
  input_bytes p len = input_bytes q len ->
  (exists s', XXH32_update cfg1 m1 s32 p len = Ok (XXH_OK, s')
              /\ XXH32_update cfg2 m2 s32 q len = Ok (XXH_OK, s'))
  /\ (exists s', XXH64_update cfg1 m1 s64 p len = Ok (XXH_OK, s')
                 /\ XXH64_update cfg2 m2 s64 q len = Ok (XXH_OK, s')).
Proof.
  intros F1 F2 W32 W64 Vp Vq E. split.
  - rewrite (XXH32_update_exec cfg1 m1 s32 p len W32 Vp).
    rewrite (XXH32_update_exec cfg2 m2 s32 q len W32 Vq).
    rewrite (update32_of_cfg cfg1 _ _ F1), (update32_of_cfg cfg2 _ _ F2), E.
    eexists. split; reflexivity.
  - rewrite (XXH64_update_exec cfg1 m1 s64 p len W64 Vp).
    rewrite (XXH64_update_exec cfg2 m2 s64 q len W64 Vq).
    rewrite (update64_of_cfg cfg1 _ _ F1), (update64_of_cfg cfg2 _ _ F2), E.
    eexists. split; reflexivity.
Qed.

Lemma X15_update_bytes_only_witness :
  (exists s',
     XXH32_update default_config 1000 (snd (XXH32_reset sample_state32 0))
       (mkptr 64 (sample_buffer 100)) 50 = Ok (XXH_OK, s')
     /\ XXH32_update (mkconfig XXH_bigEndian false false true) 3000
          (snd (XXH32_reset sample_state32 0))
          (mkptr 13 (sample_buffer 50)) 50 = Ok (XXH_OK, s'))
  /\ (exists s',
        XXH64_update default_config 1000 (snd (XXH64_reset sample_state64 0))
          (mkptr 64 (sample_buffer 100)) 50 = Ok (XXH_OK, s')
        /\ XXH64_update (mkconfig XXH_bigEndian false false true) 3000
             (snd (XXH64_reset sample_state64 0))
             (mkptr 13 (sample_buffer 50)) 50 = Ok (XXH_OK, s')).
Proof.
  apply (X15_update_bytes_only default_config
           (mkconfig XXH_bigEndian false false true) 1000 3000
           (snd (XXH32_reset sample_state32 0)) (snd (XXH64_reset sample_state64 0))
           (mkptr 64 (sample_buffer 100)) (mkptr 13 (sample_buffer 50)) 50).
  - reflexivity.
  - reflexivity.
  - apply reset32_wf.
  - apply reset64_wf.
  - apply valid_sample; unfold PTRDIFF_MAX; lia.
  - apply valid_sample; unfold PTRDIFF_MAX; lia.
  - vm_compute. reflexivity.
Defined.

(** X16: the XXH32 digest reads the first memsize bytes of the buffer and
    nothing after them: a well-formed state and the same state with any
    other bytes after the pending ones, any reserved field, at any
    address, have the same digest, and it returns. *)
Theorem X16_XXH32_digest_reads_pending_bytes cfg m m' s buf' r' :
  wf32 s -> length buf' = 16%nat ->
  firstn (Z.to_nat (S32.memsize s)) buf'
  = firstn (Z.to_nat (S32.memsize s)) (S32.mem32 s) ->
  exists h,
    XXH32_digest cfg m s = Ok h
    /\ XXH32_digest cfg m'
         (S32.mk (S32.total_len_32 s) (S32.large_len s) (S32.v1 s) (S32.v2 s)
            (S32.v3 s) (S32.v4 s) buf' (S32.memsize s) r') = Ok h.
Proof.
  intros W Hb E. destruct (XXH32_digest_total cfg m s W) as (h & Eh).
  exists h. split; [exact Eh|]. rewrite <- Eh. destruct W as [Hbuf Hms].
  rewrite !XXH32_digest_unfold. unfold XXH32_digest_endian.
  cbn [S32.v1 S32.v2 S32.v3 S32.v4 S32.mem32 S32.memsize S32.total_len_32
       S32.large_len].
  apply (XXH32_finalize_ext _ _ _ _ _ _ _ _ _ (Z.to_nat (S32.memsize s))).
  - apply land_small; lia.
  - apply land_small; lia.
  - cbn [mem]. exact E.
  - cbn [mem]. lia.
  - cbn [mem]. lia.
Qed.

Lemma X16_XXH32_digest_reads_pending_bytes_witness :
  S32.memsize sample_pending32 = 13
  /\ S32.mem32 sample_pending32 = sample_buffer 13 ++ [x00; x00; x00]
  /\ exists h,
       XXH32_digest default_config 1000 sample_pending32 = Ok h
       /\ XXH32_digest default_config 3000
            (S32.mk (S32.total_len_32 sample_pending32)
               (S32.large_len sample_pending32)
               (S32.v1 sample_pending32) (S32.v2 sample_pending32)
               (S32.v3 sample_pending32) (S32.v4 sample_pending32)
               (sample_buffer 13 ++ [xff; xfe; xfd])
               (S32.memsize sample_pending32) 77) = Ok h.
Proof.
  split; [vm_compute; reflexivity|]. split; [vm_compute; reflexivity|].
  apply (X16_XXH32_digest_reads_pending_bytes default_config 1000 3000
           sample_pending32 (sample_buffer 13 ++ [xff; xfe; xfd]) 77).
  - split; [vm_compute; reflexivity|].
    replace (S32.memsize sample_pending32) with 13 by (vm_compute; reflexivity).
    lia.
  - reflexivity.
  - vm_compute. reflexivity.
Defined.

(** X17: on every state of the alternative family that reset and update
    calls have produced, XXH32a_digest and XXH64a_digest return, within 32
    and 64 bits, and the value does not depend on where the state lies;
    for XXH64a_digest, whether it reads the buffer in place or through its
    aligned local copy. *)
Theorem X17_alt_digest_returns cfg m m' l l' s :
  reachable32a cfg m s ->
  (exists h, XXH32a_digest cfg m s = Ok h /\ XXH32a_digest cfg m' s = Ok h
             /\ 0 <= h < 2 ^ 32)
  /\ (exists h, XXH64a_digest cfg m l s = Ok h /\ XXH64a_digest cfg m' l' s = Ok h
                /\ 0 <= h < 2 ^ 64).
Proof.
  intros R. pose proof (reachable32a_wf _ _ _ R) as W. split.
  - destruct (XXH32a_digest_total cfg m s W) as (h & Eh & Hr).
    exists h. split; [exact Eh|]. split; [|exact Hr].
    rewrite (XXH32a_digest_addr cfg m' m). exact Eh.
  - destruct (XXH64a_digest_total cfg m l s W) as (h & Eh & Hr).
    exists h. split; [exact Eh|]. split; [|exact Hr].
    rewrite (XXH64a_digest_addr cfg m' l' m l s W). exact Eh.
Qed.

Lemma X17_alt_digest_returns_witness :
  (exists h,
     XXH32a_digest default_config 1000
       (snd (value_or (XXH32a_update default_config 1000
                         (snd (XXH32a_reset sample_state32a 0))
                         (mkptr 64 (sample_buffer 40)) 40)
                      (XXH_OK, sample_state32a))) = Ok h
     /\ XXH32a_digest default_config 3001
          (snd (value_or (XXH32a_update default_config 1000
                            (snd (XXH32a_reset sample_state32a 0))
                            (mkptr 64 (sample_buffer 40)) 40)
                         (XXH_OK, sample_state32a))) = Ok h
     /\ 0 <= h < 2 ^ 32)
  /\ (exists h,
        XXH64a_digest default_config 1000 2000
          (snd (value_or (XXH32a_update default_config 1000
                            (snd (XXH32a_reset sample_state32a 0))
                            (mkptr 64 (sample_buffer 40)) 40)
                         (XXH_OK, sample_state32a))) = Ok h
        /\ XXH64a_digest default_config 3001 4000
             (snd (value_or (XXH32a_update default_config 1000
                               (snd (XXH32a_reset sample_state32a 0))
                               (mkptr 64 (sample_buffer 40)) 40)
                            (XXH_OK, sample_state32a))) = Ok h
        /\ 0 <= h < 2 ^ 64).
Proof.
  apply (X17_alt_digest_returns default_config 1000 3001 2000 4000).
  apply (reach32a_update default_config 1000 (snd (XXH32a_reset sample_state32a 0))
           (mkptr 64 (sample_buffer 40)) 40 XXH_OK);
    [apply reach32a_reset | lia | vm_compute; reflexivity].
Defined.

(** X18: when an update of the alternative family returns on a
    well-formed state, it returns XXH_ERROR exactly for a null input that
    is not accepted; a null input leaves the state as it was; a non-null
    one adds the length to the running total modulo 2^32 and sets
    large_len when the length or the new total reaches 32; the reserved
    field is never written. *)
Theorem X18_alt_update_bookkeeping cfg m s input len e s' :
  wf32a s -> 0 <= len ->
  XXH32a_update cfg m s input len = Ok (e, s') ->
  (e = XXH_ERROR
   <-> isNULL input = true /\ XXH_ACCEPT_NULL_INPUT_POINTER cfg = false)
  /\ (isNULL input = true -> s' = s)
  /\ S32a.reserved s' = S32a.reserved s
  /\ (isNULL input = false ->
      S32a.total_len_32 s' = (S32a.total_len_32 s + len) mod 2 ^ 32
      /\ (S32a.large_len s' <> 0
          <-> S32a.large_len s <> 0 \/ 32 <= len
              \/ 32 <= (S32a.total_len_32 s + len) mod 2 ^ 32)).
Proof.
  intros W Hlen E. rewrite XXH32a_update_unfold in E.
  destruct (XXH32a_XXH64a_update_endian_inv cfg m s input len _ e s' W Hlen E)
    as (_ & Hres & Hnull & Hnon).
  assert (Ht : add32 (S32a.total_len_32 s) (to_U32 len)
               = (S32a.total_len_32 s + len) mod 2 ^ 32).
  { unfold add32, to_U32, U32_MOD. apply Zplus_mod_idemp_r. }
  split; [|split; [|split; [exact Hres|]]].
  - destruct (isNULL input) eqn:EN.
    + destruct (Hnull eq_refl) as [_ ->].
      destruct (XXH_ACCEPT_NULL_INPUT_POINTER cfg); split;
        try discriminate; try (intros [_ H]; discriminate H);
        intros _; try split; reflexivity.
    + destruct (Hnon eq_refl) as [-> _].
      split; [discriminate | intros [H _]; discriminate H].
  - intros EN. apply (Hnull EN).
  - intros EN. destruct (Hnon EN) as (_ & Htot & Hlarge).
    rewrite Htot, Hlarge, Ht. split; [reflexivity|].
    rewrite !Z.lor_eq_0_iff.
    destruct (Z.leb_spec 32 len), (Z.leb_spec 32 ((S32a.total_len_32 s + len) mod 2 ^ 32));
      cbn [Z_of_bool]; split; intros H1; try tauto; try lia;
      intros (A & B & C); try discriminate; try lia.
Qed.

Lemma X18_alt_update_bookkeeping_witness :
  (XXH_OK = XXH_ERROR
   <-> isNULL (mkptr 64 (sample_buffer 40)) = true
       /\ XXH_ACCEPT_NULL_INPUT_POINTER default_config = false)
  /\ S32a.total_len_32
       (snd (value_or (XXH32a_update default_config 1000
                         (snd (XXH32a_reset sample_state32a 0))
                         (mkptr 64 (sample_buffer 40)) 40)
                      (XXH_OK, sample_state32a)))
     = (S32a.total_len_32 (snd (XXH32a_reset sample_state32a 0)) + 40) mod 2 ^ 32.
Proof.
  destruct (X18_alt_update_bookkeeping default_config 1000
              (snd (XXH32a_reset sample_state32a 0))
              (mkptr 64 (sample_buffer 40)) 40 XXH_OK
              (snd (value_or (XXH32a_update default_config 1000
                                (snd (XXH32a_reset sample_state32a 0))
                                (mkptr 64 (sample_buffer 40)) 40)
                             (XXH_OK, sample_state32a))))
    as (He & _ & _ & Hn).
  - apply reset32a_wf.
  - lia.
  - vm_compute. reflexivity.
  - split; [exact He|]. apply Hn. reflexivity.
Defined.

(** X19: the update of the alternative family reads past its input: on a
    well-formed state with nothing pending and a non-null input of at
    least 32 bytes that leaves 31 bytes after its whole blocks, the block
    loop runs once more.  When the buffer ends with the input the read is
    out of bounds; when a byte follows it, the update returns XXH_OK with
    nothing pending, having mixed that byte with the last 31 as one more
    block. *)
Theorem X19_alt_update_reads_past_input cfg m s input len :
  wf32a s -> S32a.memsize s = 0 ->
  0 < addr input -> 32 <= len -> len <= PTRDIFF_MAX -> len mod 32 = 31 ->
  (Z.of_nat (length (mem input)) = len ->
   XXH32a_update cfg m s input len = Fault OutOfBounds)
  /\ (len < Z.of_nat (length (mem input)) ->
      exists s',
        XXH32a_update cfg m s input len = Ok (XXH_OK, s')
        /\ S32a.memsize s' = 0
        /\ (S32a.v00 s', S32a.v01 s', S32a.v02 s', S32a.v03 s',
            S32a.v10 s', S32a.v11 s', S32a.v12 s', S32a.v13 s')
           = blocks 32 (step32a (XXH_CPU_LITTLE_ENDIAN cfg) (endian_of cfg))
               (Z.to_nat ((len + 1) / 32))
               (S32a.v00 s, S32a.v01 s, S32a.v02 s, S32a.v03 s,
                S32a.v10 s, S32a.v11 s, S32a.v12 s, S32a.v13 s)
               (mem input)).
Proof.
  intros W Hms Ha H32 Hmax Hmod. rewrite XXH32a_update_unfold. split.
  - intros Hlen.
    apply XXH32a_XXH64a_update_endian_overread; assumption.
  - intros Hlen.
    apply XXH32a_XXH64a_update_endian_overread_ok; assumption.
Qed.

Lemma X19_alt_update_reads_past_input_witness :
  XXH32a_update default_config 1000 (snd (XXH32a_reset sample_state32a 0))
    (mkptr 64 (sample_buffer 95)) 95 = Fault OutOfBounds.
Proof.
  apply (X19_alt_update_reads_past_input default_config 1000
           (snd (XXH32a_reset sample_state32a 0)) (mkptr 64 (sample_buffer 95)) 95).
  - apply reset32a_wf.
  - reflexivity.
  - cbn. lia.
  - lia.
  - unfold PTRDIFF_MAX. lia.
  - reflexivity.
  - reflexivity.
Defined.

(** X20: a stream of the alternative family that is reset and updated
    once, with a readable input whose length is not 31 modulo 32, returns
    on digest what the one-shot function returns on that input; for
    XXH32a, and for XXH64a on the inputs at which the 8-byte reads of the
    one-shot function are aligned (a multiple of 8 or no multiple of 4,
    or fewer than 8 bytes after the last whole block).  (With 31 bytes
    after the whole blocks the update reads past the input, see X19.) *)
Theorem X20_alt_single_update_stream cfg m l s0 seed input len :
  valid_input input len -> len mod 32 <> 31 ->
  (exists h, XXH32a_stream cfg m s0 seed [(input, len)] = Ok h
             /\ XXH32a cfg input len seed = Ok h)
  /\ (XXH64a_reads_aligned input len = true ->
      exists h, XXH64a_stream cfg m l s0 seed [(input, len)] = Ok h
                /\ XXH64a cfg input len seed = Ok h).
Proof.
  intros V Hmod. split; [|intros _].
  - rewrite (XXH32a_stream_single cfg m s0 seed input len V Hmod).
    rewrite (XXH32a_hash cfg input len seed V).
    destruct (hash32a_of_total (XXH_CPU_LITTLE_ENDIAN cfg) (endian_of cfg) seed
                (input_bytes input len)) as (h & Eh).
    exists h. split; exact Eh.
  - rewrite (XXH64a_stream_single cfg m l s0 seed input len V Hmod).
    rewrite (XXH64a_hash cfg input len seed V).
    destruct (hash64a_of_total (XXH_CPU_LITTLE_ENDIAN cfg) (endian_of cfg) seed
                (input_bytes input len)) as (h & Eh).
    exists h. split; exact Eh.
Qed.

Lemma X20_alt_single_update_stream_witness :
  (exists h,
     XXH32a_stream default_config 1000 sample_state32a 3
       [(mkptr 64 (sample_buffer 100), 100)] = Ok h
     /\ XXH32a default_config (mkptr 64 (sample_buffer 100)) 100 3 = Ok h)
  /\ (exists h,
        XXH64a_stream default_config 1000 2000 sample_state32a 3
          [(mkptr 64 (sample_buffer 100), 100)] = Ok h
        /\ XXH64a default_config (mkptr 64 (sample_buffer 100)) 100 3 = Ok h).
Proof.
  destruct (X20_alt_single_update_stream default_config 1000 2000 sample_state32a 3
              (mkptr 64 (sample_buffer 100)) 100) as [H32 H64].
  - apply valid_sample; unfold PTRDIFF_MAX; lia.
  - intros H. vm_compute in H. discriminate H.
  - split; [exact H32 | apply H64; reflexivity].
Defined.
